(* ===== verification/_CoqProject ===== *)
-Q . S2P
Prelude.v
CInt.v
Constants.v
Reduce.v
Rounding.v
Rlp.v
RlpSpec.v
RlpThms.v
RlpBuffer.v
TxFormat.v
Fuzz.v
Keccak.v
KeccakSpec.v
Sponge.v
Address.v
Vectors.v
Poly.v
Packing.v
Ntt.v
Sampling.v
PolyVec.v
Sign.v
SignCore.v
SigCodec.v
VecOps.v
KeyGen.v
Verify.v
Signing.v
Sdk.v
App.v
Memory.v
AppLogic.v
Review.v
Machine.v
Invariant.v
Trace.v
AppThms.v
EndToEnd.v
