(* ===== verification/Prelude.v ===== *)
(** * The QRL v2.0 Ledger application, verified

    The application holds an ML-DSA-87 key on a hardware wallet: it shows the
    address of a derivation path, shows a QRL v2.0 transaction in full, and signs
    its hash when the user agrees.  The development models the C sources under
    [src/src/] and the harnesses of [src/fuzzing/], and proves what makes each part correct.

    ** How the parts interact

    [app_main] receives a command and hands it to [apdu_dispatcher], which calls a
    handler.  The signing handler collects transaction bytes, hashes them
    (Keccak-256), decodes them (RLP), formats the fields and opens a review; the
    decision signs the hash (key generation, signing and verification over the
    non-volatile record [N_storage]) and starts the transfer of the signature in
    chunks.  The address handlers derive the key pair and hash the public key
    (SHAKE256).  The settings screen stores three flags in [N_storage].

    ** Files and sources

    Foundations.
    - [Prelude]: counted loops, buffers, list lemmas.
    - [CInt]: machine integers with their wrap-around, byte strings, shifts.
    - [Constants]: [mldsa87/constant.h], [constant.c], [error.h], [sw.h],
      [constants.h], [apdu/dispatcher.h].

    Transactions.
    - [Rlp]: [mldsa87/rlp_decode.c]; pointers are offsets, a read outside the
      buffer is the outcome [Oob], the width of [size_t] is a parameter (32 on the
      device, 64 in the unit tests).  [RlpSpec]: the grammar of preimages and the
      encoder; [RlpThms]: the parser accepts exactly the grammar, the round trip,
      canonicity, and the inputs where the code departs from the document;
      [RlpBuffer]: the bytes behind the length of the buffer are never read.
    - [TxFormat]: [ui/tx_format.c], decimal and amount formatting on byte arrays;
      the strings denote the number exactly.
    - [Fuzz]: [fuzzing/], the harnesses of the formatters and of the parser with
      their guarded buffers; none of their assertions fails on any input.

    Hashing.
    - [Keccak]: [mldsa87/keccakf.c], [keccak256.c], [shake128.c], [shake256.c];
      the three contexts are one sponge over permutation, rate and padding byte.
      [KeccakSpec]: Keccak-f[1600] on bits, as FIPS 202 writes it, and the
      equality; [Sponge]: any sequence of absorb and squeeze calls computes the
      function of FIPS 202.

    ML-DSA-87.
    - [Reduce], [Rounding], [Poly], [Packing], [Ntt], [Sampling], [PolyVec]:
      [mldsa87/reduce.c], [rounding.c], [poly.c], [ntt.c], [polyvec.c].  The
      transform evaluates at the roots of X^256 + 1 without overflow; its inverse
      turns pointwise products into products modulo q and X^256 + 1; the samplers
      are those of FIPS 204 on the output streams; packing round trips.
    - [Sign]: [mldsa87/sign.c], [mldsa87.c] and [utils.c]: key generation, signing and
      verification over the record [nvm], the part of [N_storage] they use.
      [SignCore]: bounds and congruences of the vector operations and of the
      product with the matrix.
      [SigCodec]: the encoding of signatures, its round trip and its uniqueness.
      [VecOps]: the vector operations as operations on the values at the roots of
      X^256 + 1.  [KeyGen]: the key of a seed and the three entry points that compute
      it; the well-formed record [nvm_ok].  [Verify]: the relation [valid_signature]
      of FIPS 204 and the verifier that decides it.  [Signing]: the stages of an
      attempt, why the verifier reconstructs its commitment, the signer, and that
      what it makes verifies.
    The application.
    - [Address]: [address_format.c], the accepted paths and the checksummed text.
    - [Sdk]: the class of the SDK's functions, its laws, and an instance.
    - [App]: [app_main.c], [apdu/dispatcher.c], [handler/], [helper/],
      [address.c], [ui/]: one definition per function, in a monad over the whole
      mutable state ([world]: [G_context], [N_storage], the static text buffers
      and pairs of the review, the screen, and the log of replies and screens).
      The pairs keep their pointers: what a review shows is read through them.
    - [Memory]: the erasure of the secrets, and every call and handler keeps the
      stored record well formed, so the theorems on the signature scheme apply in
      every reachable state.
    - [AppLogic]: the weakest precondition of handlers and the well-formed memory;
      [Review]: what the review functions put on the screen; [Machine]: the
      application as a state machine and the contract of a command; [Invariant]:
      the invariant of reachable states; [Trace]: a concrete run from the first
      start to an open review, on which the witnesses stand; [AppThms]: the
      properties of the application; [EndToEnd]: the application and the scheme
      together.
    - [Vectors]: the known answers and refusals of [src/unit-tests], evaluated on
      the definitions.

    ** What the theorems show

    Consent: in every reachable state an open transaction review shows, in full
    and exactly, the transaction that the received bytes encode, and the hash that
    will be signed is that of these bytes; a signature chunk is only sent after an
    approval, and the first only when the signature verified.  End to end: the
    address shown is that of the FIPS 204 public key of the path's seed, and an
    approval sends a signature of the transaction shown that is valid under that
    key, unless all attempts are rejected.  The scheme: key generation, signing and
    verification are those of FIPS 204, and every signature made is accepted.
    Memory: no step leaves a buffer, secrets are overwritten with zeros.  Protocol:
    one reply per command, refused commands change nothing, chunks assemble,
    transfers are complete.  Functional correctness of
    the parser, the formatter, the hash functions and the arithmetic against
    specifications written from the standards, with the bounds that exclude
    overflow.

    ** Fuel and bounds

    Loops with a bound are [for_] or recursion on the bound.  The rejection loops
    that wait for suitable output of a hash function have no bound in the code:
    they take a fuel and return [None] without it; the theorems of [Sampling] and
    [SignCore] say exactly for which fuel the result is reached (the fuel whose
    stream prefix holds enough accepted candidates), and that it is then the same
    for every larger one; [key_ready], [challenge] and [challenge_missing] name that
    fuel in the theorems on the scheme, and [key_fuel] says that a key does not
    depend on it.  Signing gives up after 814 attempts, as the code does.

    ** Not under [src/src/]: parameters

    [os_derive_bip32_no_throw], [cx_rng], the parser of commands and the buffer
    functions are fields of [SDK] or of the environment of a step, constrained
    only by the laws of [SDK_laws].  Sending a reply appends it to the log, and
    its result is chosen by the environment.  An NBGL call is an event of the log
    and the new screen; the transport waits for the reply to a command before it
    delivers the next one, and a callback only comes from the screen that is
    shown.

    ** Not modelled

    Debug output ([PRINTF], and [print_tx_utils], which does nothing else), glyphs,
    titles and the information page of the settings, the tune of a switch, and a
    loss of power in the middle of a step: [Restart] happens between steps.  The scratch union
    [ubuf] of [sign.c] is dead between calls and is a local of the model.

    [Trace] evaluates a whole key generation.  As a check of the model outside the
    development its run was continued: the approval signs in the first attempt,
    verifies and sends the first chunk, and the public key and the signature agree
    with those of an independent implementation of FIPS 204, as do those of another
    seed whose signature takes nine attempts.  Checking these evaluations again with
    an independent checker takes too long, so the witnesses of the theorems on the
    signer apply them without evaluating it.
    *)
From Stdlib Require Export ZArith Lia Morphisms Setoid.
From stdpp Require Export base list numbers option.
Open Scope Z_scope.

(** ** Counted loops

    [for (i = lo; i < lo + n; i++) s = body(i, s)], the shape of almost every
    loop of the program. *)
Definition for_ {S : Type} (lo n : nat) (body : nat -> S -> S) (s : S) : S :=
  fold_left (fun s i => body i s) (seq lo n) s.

Arguments for_ : simpl never.

(** [memcpy(dst, src, n)] on arrays modelled as lists. *)
Definition memcpy {A : Type} (dst src : list A) (n : nat) : list A :=
  take n src ++ drop n dst.

(** [dst + off] as the destination of a copy of all of [src]. *)
Definition blit {A : Type} (dst : list A) (off : nat) (src : list A) : list A :=
  take off dst ++ src ++ drop (off + length src) dst.

(** ** Buffers written from the front *)
Section buffers.
Context {A : Type}.
Implicit Types (w x out : list A).

(** A buffer whose first cells have been overwritten by [w]. *)
Definition written w out : list A := w ++ drop (length w) out.

Lemma written_length w out : (length w <= length out)%nat -> length (written w out) = length out.
Proof. intros. unfold written. rewrite length_app, length_drop. lia. Qed.

Lemma written_nil out : written [] out = out.
Proof. done. Qed.

Lemma blit_written w x out n :
  n = length w -> (length w + length x <= length out)%nat ->
  blit (written w out) n x = written (w ++ x) out.
Proof.
  intros -> Hl. unfold blit, written. rewrite take_app_length, <- app_assoc.
  do 2 f_equal. rewrite drop_app_ge, drop_drop, length_app by lia. f_equal. lia.
Qed.

(** Overwriting a buffer from its start. *)
Lemma blit_0 out x : blit out 0 x = x ++ drop (length x) out.
Proof. done. Qed.
Lemma blit_all out x : length x = length out -> blit out 0 x = x.
Proof. intros Hl. unfold blit. cbn [take app]. rewrite drop_ge by lia. apply app_nil_r. Qed.

Lemma insert_written w (x : A) out n :
  n = length w -> (length w < length out)%nat ->
  <[n := x]> (written w out) = written (w ++ [x]) out.
Proof.
  intros -> Hl. unfold written. rewrite insert_app_r_alt, Nat.sub_diag by lia.
  rewrite <- app_assoc. f_equal. rewrite length_app. simpl.
  destruct (lookup_lt_is_Some_2 out (length w)) as [y Hy]; [done|].
  rewrite (drop_S _ _ _ Hy). simpl. by rewrite Nat.add_1_r.
Qed.
End buffers.

(** ** Loop lemmas *)
Section loops.
Context {S : Type}.
Implicit Types (s : S) (body : nat -> S -> S).

Lemma for_0 lo body s : for_ lo 0 body s = s.
Proof. done. Qed.

Lemma for_S lo n body s :
  for_ lo (Datatypes.S n) body s = for_ (Datatypes.S lo) n body (body lo s).
Proof. done. Qed.

Lemma for_S_r lo n body s :
  for_ lo (Datatypes.S n) body s = body (lo + n)%nat (for_ lo n body s).
Proof. unfold for_. rewrite seq_S, fold_left_app. done. Qed.

Lemma for_add lo n m body s :
  for_ lo (n + m) body s = for_ (lo + n) m body (for_ lo n body s).
Proof. unfold for_. by rewrite seq_app, fold_left_app. Qed.

(** Invariant rule. *)
Lemma for_ind (P : nat -> S -> Prop) lo n body s :
  P lo s ->
  (forall i t, (lo <= i < lo + n)%nat -> P i t -> P (Datatypes.S i) (body i t)) ->
  P (lo + n)%nat (for_ lo n body s).
Proof.
  revert lo s. induction n as [|n IH]; intros lo s H0 Hstep.
  - by rewrite Nat.add_0_r.
  - rewrite for_S. replace (lo + Datatypes.S n)%nat with (Datatypes.S lo + n)%nat by lia.
    apply IH; [apply Hstep; [lia|done]|]. intros i t Hi. apply Hstep; lia.
Qed.

Lemma for_ext lo n body1 body2 s :
  (forall i t, (lo <= i < lo + n)%nat -> body1 i t = body2 i t) ->
  for_ lo n body1 s = for_ lo n body2 s.
Proof.
  intros H.
  assert (Hx : for_ lo n body1 s = for_ lo ((lo + n) - lo) body2 s).
  { apply (for_ind (fun i t => t = for_ lo (i - lo) body2 s) lo n).
    - by replace (lo - lo)%nat with 0%nat by lia.
    - intros i t Hi ->. rewrite H by done.
      replace (Datatypes.S i - lo)%nat with (Datatypes.S (i - lo)) by lia.
      rewrite for_S_r. by replace (lo + (i - lo))%nat with i by lia. }
  rewrite Hx. by replace (lo + n - lo)%nat with n by lia.
Qed.
End loops.

(** ** Loops over arrays *)
Section array_loops.
Context {A : Type}.
Implicit Types (a : list A) (g : nat -> A).

(** A loop that writes cell [i] at step [i], with a value that may depend on
    the array only through what the body reads at cells not yet written, is the
    pointwise table of the written values. *)
Lemma for_write_prefix (lo n : nat) (f : nat -> list A -> A) g a :
  (lo + n <= length a)%nat ->
  (forall i t, (lo <= i < lo + n)%nat ->
     t = take lo a ++ map g (seq lo (i - lo)) ++ drop i a -> f i t = g i) ->
  for_ lo n (fun i t => <[i := f i t]> t) a =
  take lo a ++ map g (seq lo n) ++ drop (lo + n) a.
Proof.
  intros Hlen Hf.
  pose (inv := fun i t => (i <= lo + n)%nat /\
                 t = take lo a ++ map g (seq lo (i - lo)) ++ drop i a).
  assert (Hx : inv (lo + n)%nat (for_ lo n (fun i t => <[i := f i t]> t) a)).
  { apply for_ind.
    - split; [lia|]. rewrite Nat.sub_diag. simpl. by rewrite take_drop.
    - intros i t Hi [_ Ht]. split; [lia|]. rewrite (Hf i t Hi Ht). subst t.
      replace (Datatypes.S i - lo)%nat with (Datatypes.S (i - lo)) by lia.
      rewrite seq_S, map_app. simpl.
      replace (lo + (i - lo))%nat with i by lia.
      rewrite insert_app_r_alt by (rewrite length_take; lia).
      rewrite length_take, Nat.min_l by lia.
      rewrite insert_app_r_alt by (rewrite length_map, length_seq; lia).
      rewrite length_map, length_seq, Nat.sub_diag.
      rewrite <- !app_assoc. do 2 f_equal. simpl.
      destruct (drop i a) as [|x l] eqn:E.
      { apply (f_equal length) in E. rewrite length_drop in E. simpl in E. lia. }
      simpl. f_equal. rewrite <- (take_drop i a), E at 1.
      rewrite drop_app_ge by (rewrite length_take; lia).
      rewrite length_take, Nat.min_l by lia.
      by replace (Datatypes.S i - i)%nat with 1%nat by lia. }
  destruct Hx as [_ Hx]. rewrite Hx.
  by replace (lo + n - lo)%nat with n by lia.
Qed.

(** The value written does not depend on the array. *)
Lemma for_build g (n : nat) a :
  length a = n ->
  for_ 0 n (fun i t => <[i := g i]> t) a = map g (seq 0 n).
Proof.
  intros Hlen. rewrite (for_write_prefix 0 n (fun i _ => g i) g a); [|lia|done].
  simpl. rewrite drop_ge by lia. by rewrite app_nil_r.
Qed.
End array_loops.

Section arrays.
Context {A : Type} `{!Inhabited A}.
Implicit Types (a : list A).

Lemma map_seq_lookup (f : nat -> A -> A) a :
  map (fun i => f i (a !!! i)) (seq 0 (length a)) = imap f a.
Proof.
  apply list_eq. intros i.
  rewrite list_lookup_imap.
  change (map ?g ?l) with (g <$> l). rewrite list_lookup_fmap.
  destruct (a !! i) as [x|] eqn:E; simpl.
  - pose proof (lookup_lt_Some _ _ _ E).
    rewrite lookup_seq_lt by done. simpl. by rewrite (list_lookup_total_correct _ _ _ E).
  - apply lookup_ge_None in E. by rewrite lookup_seq_ge.
Qed.

Lemma map_seq_map (f : A -> A) a :
  map (fun i => f (a !!! i)) (seq 0 (length a)) = map f a.
Proof.
  induction a as [|x a IH]; simpl; [done|]. f_equal. rewrite <- IH.
  by rewrite <- seq_shift, map_map.
Qed.

Lemma lookup_total_map_seq (g : nat -> A) n i :
  (i < n)%nat -> map g (seq 0 n) !!! i = g i.
Proof.
  intros Hi. apply list_lookup_total_correct.
  change (map g ?l) with (g <$> l). by rewrite list_lookup_fmap, lookup_seq_lt.
Qed.

(** In-place update: [a[i] = f(i, a[i])] for every [i]. *)
Lemma for_imap_prefix (f : nat -> A -> A) (n : nat) a :
  (n <= length a)%nat ->
  for_ 0 n (fun i t => <[i := f i (t !!! i)]> t) a =
  written (map (fun i => f i (a !!! i)) (seq 0 n)) a.
Proof.
  intros Hlen.
  rewrite (for_write_prefix 0 n (fun i t => f i (t !!! i)) (fun i => f i (a !!! i))); [|lia|].
  - unfold written. by rewrite length_map, length_seq.
  - intros i t Hi ->. simpl. f_equal. rewrite Nat.sub_0_r.
    rewrite lookup_total_app_r by (rewrite length_map, length_seq; lia).
    rewrite length_map, length_seq, Nat.sub_diag, !list_lookup_total_alt, lookup_drop.
    by rewrite Nat.add_0_r.
Qed.

Lemma for_imap (f : nat -> A -> A) (n : nat) a :
  length a = n ->
  for_ 0 n (fun i t => <[i := f i (t !!! i)]> t) a = map (fun i => f i (a !!! i)) (seq 0 n).
Proof.
  intros Hlen. rewrite for_imap_prefix by lia. unfold written.
  rewrite length_map, length_seq, drop_ge by lia. apply app_nil_r.
Qed.

Lemma for_map (f : A -> A) (n : nat) a :
  length a = n ->
  for_ 0 n (fun i t => <[i := f (t !!! i)]> t) a = map f a.
Proof. intros <-. rewrite (for_imap (fun _ => f)) by done. apply map_seq_map. Qed.

Lemma for_write_table (g : nat -> A) n (out : list A) :
  (n <= length out)%nat ->
  for_ 0 n (fun i t => <[i := g i]> t) out = written (map g (seq 0 n)) out.
Proof.
  intros Hn. rewrite (for_write_prefix 0 n (fun i _ => g i) g out) by (done || lia).
  unfold written. by rewrite length_map, length_seq.
Qed.

Lemma map_seq_slice (t : list A) first n :
  (first + n <= length t)%nat ->
  map (fun i => t !!! (first + i)%nat) (seq 0 n) = take n (drop first t).
Proof.
  revert first. induction n as [|n IH]; intros first Hn; [done|].
  destruct (lookup_lt_is_Some_2 t first) as [y Hy]; [lia|].
  rewrite (drop_S _ _ _ Hy). cbn [seq map take]. rewrite Nat.add_0_r.
  rewrite (list_lookup_total_correct _ _ _ Hy). f_equal.
  rewrite <- IH by lia. rewrite <- seq_shift, map_map.
  apply map_ext. intros i. f_equal. lia.
Qed.

Lemma Forall_get (P : A -> Prop) (l : list A) i : Forall P l -> (i < length l)%nat -> P (l !!! i).
Proof.
  intros Hl Hi. destruct (lookup_lt_is_Some_2 l i Hi) as [x Hx].
  rewrite (list_lookup_total_correct _ _ _ Hx). exact (Forall_lookup_1 P l i x Hl Hx).
Qed.

Lemma lookup_total_map (f : A -> A) (l : list A) i :
  (i < length l)%nat -> map f l !!! i = f (l !!! i).
Proof.
  intros Hi. destruct (lookup_lt_is_Some_2 l i Hi) as [x Hx].
  rewrite (list_lookup_total_correct _ _ _ Hx). apply list_lookup_total_correct.
  change (map f l) with (f <$> l). by rewrite list_lookup_fmap, Hx.
Qed.

Lemma lookup_total_drop (l : list A) n j : drop n l !!! j = l !!! (n + j)%nat.
Proof. by rewrite !list_lookup_total_alt, lookup_drop. Qed.

Lemma list_eq_total (l k : list A) n :
  length l = n -> length k = n -> (forall i, (i < n)%nat -> l !!! i = k !!! i) -> l = k.
Proof.
  intros Hl Hk H. apply (list_eq_same_length _ _ n); [done|done|].
  intros i x y Hi Hx Hy. specialize (H i Hi).
  by rewrite (list_lookup_total_correct _ _ _ Hx), (list_lookup_total_correct _ _ _ Hy) in H.
Qed.

Lemma map_seq_zip (f : A -> A -> A) a b :
  length a = length b ->
  map (fun i => f (a !!! i) (b !!! i)) (seq 0 (length a)) = zip_with f a b.
Proof.
  revert b. induction a as [|x a IH]; intros [|y b] Hl; simplify_eq/=; [done|].
  f_equal. rewrite <- IH by done. rewrite <- seq_shift, map_map. done.
Qed.
End arrays.
