(* ===== verification/CInt.v ===== *)
(** * C integers

    Machine integers of the program as [Z] with the wrap-around of each width
    written out.  [uN] is reduction modulo 2^N (C's conversion to an unsigned
    type), by a mask for the wide types; [sN] is the two's complement reading (the
    conversion to a signed type that every supported compiler implements).  The
    lemmas turn shifts and masks into division and remainder, which [dlia]
    decides. *)
From S2P Require Import Prelude.

Definition wrap (w x : Z) : Z := x mod 2 ^ w.
Definition swrap (w x : Z) : Z := (x + 2 ^ (w - 1)) mod 2 ^ w - 2 ^ (w - 1).

Definition u8 (x : Z) : Z := x mod 256.
Definition u16 (x : Z) : Z := x mod 65536.
Definition u32 (x : Z) : Z := x mod 4294967296.
Definition u64 (x : Z) : Z := Z.land x 0xffffffffffffffff.
Definition s32 (x : Z) : Z := Z.land (x + 2147483648) 0xffffffff - 2147483648.
Definition s64 (x : Z) : Z :=
  Z.land (x + 9223372036854775808) 0xffffffffffffffff - 9223372036854775808.

Definition is_u8 (x : Z) : Prop := 0 <= x < 256.
Definition is_s32 (x : Z) : Prop := -2147483648 <= x < 2147483648.

#[export] Instance is_u8_dec x : Decision (is_u8 x).
Proof. unfold is_u8. apply _. Defined.
#[export] Instance is_s32_dec x : Decision (is_s32 x).
Proof. unfold is_s32. apply _. Defined.

(** A buffer of bytes, an array of [int32_t]. *)
Abbreviation bytes := (Forall is_u8).
Abbreviation int32s := (Forall is_s32).

(** Byte buffers by computation. *)
Definition bytesb (l : list Z) : bool := forallb (fun b => (0 <=? b) && (b <? 256)) l.
Lemma bytesb_bytes l : bytesb l = true -> bytes l.
Proof.
  induction l as [|b l IH]; simpl; [by constructor|].
  intros [Hb Hl]%andb_true_iff. constructor; [unfold is_u8; lia|by apply IH].
Qed.

Lemma bytes_lookup l i b : bytes l -> l !! i = Some b -> 0 <= b < 256.
Proof. intros Hl Hi. exact (Forall_lookup_1 is_u8 l i b Hl Hi). Qed.
Lemma bytes_zeros n : bytes (replicate n 0).
Proof. apply Forall_replicate. unfold is_u8. lia. Qed.

(** ** Tactics *)

(** [lia] with [/] and [mod] by constants. *)
Ltac dlia := Z.div_mod_to_equations; lia.

(** Turn shifts by constants into multiplications and divisions. *)
Ltac shifts :=
  rewrite ?Z.shiftr_div_pow2, ?Z.shiftl_mul_pow2 by lia;
  repeat match goal with
    | |- context [2 ^ ?n] =>
        let v := eval vm_compute in (2 ^ n) in
        lazymatch v with Zpos _ => change (2 ^ n) with v end
    end.

Ltac shifts_in H :=
  rewrite ?Z.shiftr_div_pow2, ?Z.shiftl_mul_pow2 in H by lia;
  repeat match type of H with
    | context [2 ^ ?n] =>
        let v := eval vm_compute in (2 ^ n) in
        lazymatch v with Zpos _ => change (2 ^ n) with v in H end
    end.

(** The wide types are written with masks, which are cheaper to evaluate than
    divisions. *)
Lemma u64_mod x : u64 x = x mod 18446744073709551616.
Proof. exact (Z.land_ones x 64 ltac:(lia)). Qed.
Lemma s32_mod x : s32 x = (x + 2147483648) mod 4294967296 - 2147483648.
Proof. unfold s32. f_equal. exact (Z.land_ones _ 32 ltac:(lia)). Qed.
Lemma s64_mod x :
  s64 x = (x + 9223372036854775808) mod 18446744073709551616 - 9223372036854775808.
Proof. unfold s64. f_equal. exact (Z.land_ones _ 64 ltac:(lia)). Qed.

(** ** In-range values are unchanged *)
Lemma u8_id x : 0 <= x < 256 -> u8 x = x.
Proof. intros. by apply Z.mod_small. Qed.
Lemma u16_id x : 0 <= x < 65536 -> u16 x = x.
Proof. intros. by apply Z.mod_small. Qed.
Lemma u32_id x : 0 <= x < 4294967296 -> u32 x = x.
Proof. intros. by apply Z.mod_small. Qed.
Lemma u64_id x : 0 <= x < 18446744073709551616 -> u64 x = x.
Proof. intros. rewrite u64_mod. by apply Z.mod_small. Qed.
Lemma s32_id x : -2147483648 <= x < 2147483648 -> s32 x = x.
Proof. intros. rewrite s32_mod, Z.mod_small; lia. Qed.
Lemma s64_id x : -9223372036854775808 <= x < 9223372036854775808 -> s64 x = x.
Proof. intros. rewrite s64_mod, Z.mod_small; lia. Qed.

Lemma u8_range x : 0 <= u8 x < 256.
Proof. by apply Z.mod_pos_bound. Qed.
Lemma u32_range x : 0 <= u32 x < 4294967296.
Proof. by apply Z.mod_pos_bound. Qed.
Lemma u64_range x : 0 <= u64 x < 18446744073709551616.
Proof. rewrite u64_mod. by apply Z.mod_pos_bound. Qed.
Lemma s32_range x : -2147483648 <= s32 x < 2147483648.
Proof. rewrite s32_mod. pose proof (Z.mod_pos_bound (x + 2147483648) 4294967296). lia. Qed.

Lemma s32_cong x : exists k, s32 x = x + k * 4294967296.
Proof.
  exists (- ((x + 2147483648) / 4294967296)). rewrite s32_mod. dlia.
Qed.

(** ** Masks *)
Lemma land_mask n x : 0 <= n -> Z.land x (2 ^ n - 1) = x mod 2 ^ n.
Proof. intros. rewrite <- Z.land_ones, Z.ones_equiv by done. by f_equal. Qed.

Lemma land_7 x : Z.land x 7 = x mod 8. Proof. exact (land_mask 3 x ltac:(lia)). Qed.
Lemma land_15 x : Z.land x 15 = x mod 16. Proof. exact (land_mask 4 x ltac:(lia)). Qed.
Lemma land_63 x : Z.land x 63 = x mod 64. Proof. exact (land_mask 6 x ltac:(lia)). Qed.
Lemma land_255 x : Z.land x 255 = x mod 256. Proof. exact (land_mask 8 x ltac:(lia)). Qed.
Lemma land_1023 x : Z.land x 1023 = x mod 1024. Proof. exact (land_mask 10 x ltac:(lia)). Qed.
Lemma land_8191 x : Z.land x 8191 = x mod 8192. Proof. exact (land_mask 13 x ltac:(lia)). Qed.
Lemma land_1048575 x : Z.land x 1048575 = x mod 1048576.
Proof. exact (land_mask 20 x ltac:(lia)). Qed.
Lemma land_8388607 x : Z.land x 8388607 = x mod 8388608.
Proof. exact (land_mask 23 x ltac:(lia)). Qed.
Lemma land_1 x : Z.land x 1 = x mod 2. Proof. exact (land_mask 1 x ltac:(lia)). Qed.

Create Rewrite HintDb masks.
#[export] Hint Rewrite land_1 land_7 land_15 land_63 land_255 land_1023 land_8191
  land_1048575 land_8388607 : masks.

(** [x >> 31] on an [int32_t] is the all-ones or all-zeros sign mask. *)
Lemma sar31_neg x : -2147483648 <= x < 0 -> Z.shiftr x 31 = -1.
Proof. intros. shifts. dlia. Qed.
Lemma sar31_nonneg x : 0 <= x < 2147483648 -> Z.shiftr x 31 = 0.
Proof. intros. shifts. dlia. Qed.
Lemma sar31_mask x m :
  -2147483648 <= x < 2147483648 ->
  Z.land (Z.shiftr x 31) m = if decide (x < 0) then m else 0.
Proof.
  intros. case_decide.
  - rewrite sar31_neg by lia. apply Z.land_m1_l.
  - rewrite sar31_nonneg by lia. apply Z.land_0_l.
Qed.

(** The sign bit of an [int32_t], read as [(uint32_t) x >> 31]. *)
Lemma u32_sign x :
  -2147483648 <= x < 2147483648 ->
  Z.shiftr (u32 x) 31 = if decide (x < 0) then 1 else 0.
Proof. intros. unfold u32. shifts. case_decide; dlia. Qed.

(** Disjoint [lor] is addition. *)
Lemma lor_add_disjoint a b n :
  0 <= n -> 0 <= a < 2 ^ n -> Z.lor a (Z.shiftl b n) = a + b * 2 ^ n.
Proof.
  intros Hn Ha. rewrite Z.shiftl_mul_pow2 by done.
  rewrite <- Z.lxor_lor.
  - rewrite Z.add_nocarry_lxor; [done|].
    apply Z.bits_inj'. intros i Hi. rewrite Z.land_spec, Z.bits_0.
    destruct (Z.lt_ge_cases i n) as [Hlt|Hge].
    + rewrite Z.mul_pow2_bits_low by done. apply andb_false_r.
    + rewrite <- (Z.mod_small a (2 ^ n)) by done.
      by rewrite Z.mod_pow2_bits_high.
  - apply Z.bits_inj'. intros i Hi. rewrite Z.land_spec, Z.bits_0.
    destruct (Z.lt_ge_cases i n) as [Hlt|Hge].
    + rewrite Z.mul_pow2_bits_low by done. apply andb_false_r.
    + rewrite <- (Z.mod_small a (2 ^ n)) by done.
      by rewrite Z.mod_pow2_bits_high.
Qed.

(** The sign bit as bit 31, which commutes with the bitwise operations. *)
Lemma u32_sign_bit x : Z.shiftr (u32 x) 31 = Z.b2z (Z.testbit x 31).
Proof.
  rewrite Z.testbit_spec' by lia. unfold u32. shifts. dlia.
Qed.
Lemma testbit_31 x : -2147483648 <= x < 2147483648 -> Z.testbit x 31 = (x <? 0).
Proof.
  intros Hx. pose proof (Z.testbit_spec' x 31 ltac:(lia)) as H.
  change (2 ^ 31) with 2147483648 in H.
  destruct (Z.testbit x 31); simpl in H; symmetry;
    [apply Z.ltb_lt|apply Z.ltb_ge]; dlia.
Qed.

(** [(x | -x) >> 31] tells zero from non-zero. *)
Lemma nonzero_bit x :
  -2147483648 < x < 2147483648 ->
  Z.shiftr (u32 (Z.lor x (s32 (- x)))) 31 = if decide (x = 0) then 0 else 1.
Proof.
  intros Hx. rewrite s32_id by lia.
  rewrite u32_sign_bit, Z.lor_spec, !testbit_31 by lia.
  case_decide; destruct (Z.ltb_spec x 0), (Z.ltb_spec (- x) 0); simpl; lia.
Qed.

(** ** Byte strings as numbers *)

(** Big-endian value. *)
Definition be_val (l : list Z) : Z := fold_left (fun acc b => acc * 256 + b) l 0.

Lemma be_val_app l m : be_val (l ++ m) = be_val l * 256 ^ Z.of_nat (length m) + be_val m.
Proof.
  unfold be_val. rewrite fold_left_app. generalize (fold_left (fun acc b => acc * 256 + b) l 0).
  induction m as [|b m IH] using rev_ind; intros z; cbn [fold_left length]; [lia|].
  rewrite !fold_left_app, length_app; cbn [fold_left length]. rewrite IH.
  rewrite Nat2Z.inj_add, Z.pow_add_r by lia. lia.
Qed.

Lemma be_val_cons b m : be_val (b :: m) = b * 256 ^ Z.of_nat (length m) + be_val m.
Proof. apply (be_val_app [b] m). Qed.

Lemma be_val_range l : bytes l -> 0 <= be_val l < 256 ^ Z.of_nat (length l).
Proof.
  induction l as [|b l IH] using rev_ind; intros Hl.
  - vm_compute. split; congruence.
  - apply Forall_app in Hl as [Hl [Hb _]%Forall_cons_1].
    rewrite be_val_app, length_app, Nat2Z.inj_add, Z.pow_add_r by lia.
    specialize (IH Hl). unfold is_u8 in Hb.
    change (256 ^ Z.of_nat (length [b])) with 256. change (be_val [b]) with b. nia.
Qed.

(** Little-endian bytes of [v], and their value. *)
Fixpoint le_bytes (n : nat) (v : Z) : list Z :=
  match n with O => [] | S n => v mod 256 :: le_bytes n (v / 256) end.
Fixpoint le_val (l : list Z) : Z :=
  match l with [] => 0 | b :: l => b + 256 * le_val l end.

Lemma le_bytes_length n v : length (le_bytes n v) = n.
Proof. revert v. induction n as [|n IH]; intros v; simpl; [done|by rewrite IH]. Qed.

Lemma le_bytes_bytes n v : bytes (le_bytes n v).
Proof.
  revert v. induction n as [|n IH]; intros v; simpl; constructor; [apply Z.mod_pos_bound; lia|done].
Qed.

Lemma le_val_bytes n v : 0 <= v < 256 ^ Z.of_nat n -> le_val (le_bytes n v) = v.
Proof.
  revert v. induction n as [|n IH]; intros v Hv.
  - change (256 ^ Z.of_nat 0) with 1 in Hv. simpl. lia.
  - rewrite Nat2Z.inj_succ, Z.pow_succ_r in Hv by lia. cbn [le_bytes le_val].
    rewrite IH; [dlia|]. split; [dlia|]. apply Z.div_lt_upper_bound; lia.
Qed.

Lemma le_bytes_lookup n v i :
  (i < n)%nat -> le_bytes n v !! i = Some (Z.land (Z.shiftr v (8 * Z.of_nat i)) 0xff).
Proof.
  revert v i. induction n as [|n IH]; intros v i Hi; [lia|].
  destruct i as [|i]; cbn [le_bytes].
  - change (8 * Z.of_nat 0) with 0. rewrite Z.shiftr_0_r, land_255. done.
  - cbn [lookup list_lookup]. change (list_lookup i ?l) with (l !! i). rewrite IH by lia.
    do 2 f_equal. change (v / 256) with (v / 2 ^ 8).
    rewrite <- Z.shiftr_div_pow2, Z.shiftr_shiftr by lia. f_equal. lia.
Qed.
