(* ===== verification/Constants.v ===== *)
(** * Constants

    The parameter set of ML-DSA-87 ([src/src/mldsa87/constant.h]), the twiddle
    factors and signing context ([constant.c]), the status words ([sw.h]) and the
    sizes of the application ([constants.h]). *)
From S2P Require Import Prelude CInt.

(** Sizes are [nat] where they index arrays, [Z] where they enter arithmetic. *)
Definition ADDRESS_SIZE : nat := 64.
Definition DESCRIPTOR_BYTES : nat := 3.
Definition SEED_BYTES : nat := 32.
Definition CRH_BYTES : nat := 64.
Definition TR_BYTES : nat := 64.
Definition RND_BYTES : nat := 32.
Definition N : nat := 256.
Definition Q_CONST : Z := 8380417.
Definition Q_INV : Z := 58728449.
Definition D : Z := 13.

Definition K : nat := 8.
Definition L : nat := 7.
Definition ETA : Z := 2.
Definition TAU : nat := 60.
Definition BETA : Z := 120.
Definition GAMMA1 : Z := Z.shiftl 1 19.
Definition GAMMA2 : Z := (Q_CONST - 1) / 32.
Definition OMEGA : nat := 75.
Definition CTILDE_BYTES : nat := 64.

Definition POLY_T1_PACKED_BYTES : nat := 320.
Definition POLY_T0_PACKED_BYTES : nat := 416.
Definition POLY_ETA_PACKED_BYTES : nat := 96.
Definition POLY_Z_PACKED_BYTES : nat := 640.
Definition POLY_VEC_H_PACKED_BYTES : nat := OMEGA + K.
Definition POLY_W1_PACKED_BYTES : nat := 128.

Definition CRYPTO_PUBLIC_KEY_BYTES : nat := SEED_BYTES + K * POLY_T1_PACKED_BYTES.
Definition CRYPTO_BYTES : nat :=
  CTILDE_BYTES + L * POLY_Z_PACKED_BYTES + POLY_VEC_H_PACKED_BYTES.

Definition SHAKE_128_RATE : nat := 168.
Definition SHAKE_256_RATE : nat := 136.
Definition STREAM_128_BLOCK_BYTES : nat := SHAKE_128_RATE.
Definition STREAM_256_BLOCK_BYTES : nat := SHAKE_256_RATE.
Definition POLY_UNIFORM_N_BLOCKS : nat :=
  (768 + STREAM_128_BLOCK_BYTES - 1) / STREAM_128_BLOCK_BYTES.
Definition POLY_UNIFORM_ETA_N_BLOCKS : nat :=
  (136 + STREAM_256_BLOCK_BYTES - 1) / STREAM_256_BLOCK_BYTES.
Definition POLY_UNIFORM_GAMMA1_N_BLOCKS : nat :=
  (POLY_Z_PACKED_BYTES + STREAM_256_BLOCK_BYTES - 1) / STREAM_256_BLOCK_BYTES.

Definition CTX_LEN : nat := 8.

Definition SIGNATURE_CHUNK_SIZE : nat := 258.
Definition SIGNATURE_LAST_CHUNK_SIZE : nat := 241.
Definition PK_CHUNK_SIZE : nat := 258.
Definition PK_LAST_CHUNK_SIZE : nat := 12.
Definition PK_CHUNKS : nat := 11.

Definition ZETAS : list Z := [
    0; 25847; (-2608894); (-518909); 237124; (-777960); (-876248); 466468; 1826347; 2353451;
    (-359251); (-2091905); 3119733; (-2884855); 3111497; 2680103; 2725464; 1024112;
    (-1079900); 3585928; (-549488); (-1119584); 2619752; (-2108549); (-2118186); (-3859737);
    (-1399561); (-3277672); 1757237; (-19422); 4010497; 280005; 2706023; 95776; 3077325;
    3530437; (-1661693); (-3592148); (-2537516); 3915439; (-3861115); (-3043716); 3574422;
    (-2867647); 3539968; (-300467); 2348700; (-539299); (-1699267); (-1643818); 3505694;
    (-3821735); 3507263; (-2140649); (-1600420); 3699596; 811944; 531354; 954230; 3881043;
    3900724; (-2556880); 2071892; (-2797779); (-3930395); (-1528703); (-3677745);
    (-3041255); (-1452451); 3475950; 2176455; (-1585221); (-1257611); 1939314; (-4083598);
    (-1000202); (-3190144); (-3157330); (-3632928); 126922; 3412210; (-983419); 2147896;
    2715295; (-2967645); (-3693493); (-411027); (-2477047); (-671102); (-1228525); (-22981);
    (-1308169); (-381987); 1349076; 1852771; (-1430430); (-3343383); 264944; 508951;
    3097992; 44288; (-1100098); 904516; 3958618; (-3724342); (-8578); 1653064; (-3249728);
    2389356; (-210977); 759969; (-1316856); 189548; (-3553272); 3159746; (-1851402);
    (-2409325); (-177440); 1315589; 1341330; 1285669; (-1584928); (-812732); (-1439742);
    (-3019102); (-3881060); (-3628969); 3839961; 2091667; 3407706; 2316500; 3817976;
    (-3342478); 2244091; (-2446433); (-3562462); 266997; 2434439; (-1235728); 3513181;
    (-3520352); (-3759364); (-1197226); (-3193378); 900702; 1859098; 909542; 819034; 495491;
    (-1613174); (-43260); (-522500); (-655327); (-3122442); 2031748; 3207046; (-3556995);
    (-525098); (-768622); (-3595838); 342297; 286988; (-2437823); 4108315; 3437287;
    (-3342277); 1735879; 203044; 2842341; 2691481; (-2590150); 1265009; 4055324; 1247620;
    2486353; 1595974; (-3767016); 1250494; 2635921; (-3548272); (-2994039); 1869119;
    1903435; (-1050970); (-1333058); 1237275; (-3318210); (-1430225); (-451100); 1312455;
    3306115; (-1962642); (-1279661); 1917081; (-2546312); (-1374803); 1500165; 777191;
    2235880; 3406031; (-542412); (-2831860); (-1671176); (-1846953); (-2584293); (-3724270);
    594136; (-3776993); (-2013608); 2432395; 2454455; (-164721); 1957272; 3369112; 185531;
    (-1207385); (-3183426); 162844; 1616392; 3014001; 810149; 1652634; (-3694233);
    (-1799107); (-3038916); 3523897; 3866901; 269760; 2213111; (-975884); 1717735; 472078;
    (-426683); 1723600; (-1803090); 1910376; (-1667432); (-1104333); (-260646); (-3833893);
    (-2939036); (-2235985); (-420899); (-2286327); 183443; (-976891); 1612842; (-3545687);
    (-554416); 3919660; (-48306); (-1362209); 3937738; 1400424; (-846154); 1976782].

Definition CTX : list Z := [90; 79; 78; 68; 0x01; 0x01; 0x00; 0x00].

(** ** Error codes ([error.h]; [cx_err_t] zero is success) *)
Definition ERR_NONE : Z := 0.
Definition ERR_INVALID_SIGB_LENGTH : Z := 3.
Definition ERR_INVALID_CONTEXT_LENGTH : Z := 4.
Definition ERR_INVALID_SEED_LENGTH : Z := 5.
Definition ERR_INVALID_LENGTH : Z := 6.
Definition ERR_INVALID_MESSAGE : Z := 9.
Definition ERR_INVALID_SIGNATURE : Z := 10.

(** ** Status words ([sw.h]) *)
Definition SW_OK : Z := 0x9000.
Definition SW_DENY : Z := 0x6985.
Definition SW_WRONG_P1P2 : Z := 0x6A86.
Definition SW_WRONG_DATA_LENGTH : Z := 0x6A87.
Definition SW_INS_NOT_SUPPORTED : Z := 0x6D00.
Definition SW_CLA_NOT_SUPPORTED : Z := 0x6E00.
Definition SW_WRONG_RESPONSE_LENGTH : Z := 0xB000.
Definition SW_DISPLAY_BIP32_PATH_FAIL : Z := 0xB001.
Definition SW_DISPLAY_ADDRESS_FAIL : Z := 0xB002.
Definition SW_DISPLAY_AMOUNT_FAIL : Z := 0xB003.
Definition SW_WRONG_TX_LENGTH : Z := 0xB004.
Definition SW_TX_PARSING_FAIL : Z := 0xB005.
Definition SW_TX_HASH_FAIL : Z := 0xB006.
Definition SW_BAD_STATE : Z := 0xB007.
Definition SW_SIGNATURE_FAIL : Z := 0xB008.

(** ** Application ([constants.h], [dispatcher.h]) *)
Definition CLA : Z := 0xE0.
Definition APPVERSION_LEN : nat := 3.
Definition MAX_APPNAME_LEN : nat := 64.
Definition MAX_TRANSACTION_LEN : nat := 510.
Definition ZOND_ADDRESS_PREFIX : Z := 81.
Definition DATA_FIRST : Z := 0x00.
Definition DATA_MORE : Z := 0x01.
Definition DATA_LAST : Z := 0x02.

(** The derived sizes are the documented ones. *)
Example sizes_documented :
  CRYPTO_PUBLIC_KEY_BYTES = 2592%nat /\ CRYPTO_BYTES = 4627%nat /\ GAMMA2 = 261888 /\
  GAMMA1 = 524288 /\ length ZETAS = N.
Proof. by vm_compute. Qed.
