(* ===== verification/Reduce.v ===== *)
(** * Modular reduction ([src/src/mldsa87/reduce.c])

    Montgomery and centred reduction modulo [q = Q_CONST] on machine integers,
    with the congruences and the ranges every caller relies on. *)
From S2P Require Import Prelude CInt Constants.

Definition montgomery_reduce (a : Z) : Z :=
  let t := s32 (s64 (s32 a * Q_INV)) in
  s32 (Z.shiftr (s64 (a - s64 (t * Q_CONST))) 32).

Definition reduce_32 (a : Z) : Z :=
  let t := Z.shiftr (s32 (a + s32 (Z.shiftl 1 22))) 23 in
  s32 (a - s32 (t * Q_CONST)).

Definition c_addq (a : Z) : Z :=
  s32 (a + Z.land (Z.shiftr a 31) Q_CONST).

(** ** Congruence modulo q *)
Definition eqmq (x y : Z) : Prop := (Q_CONST | x - y).
Infix "≡q" := eqmq (at level 70, no associativity).

#[export] Instance eqmq_equivalence : Equivalence eqmq.
Proof.
  split; unfold eqmq.
  - intros x. rewrite Z.sub_diag. apply Z.divide_0_r.
  - intros x y [k H]. exists (- k). lia.
  - intros x y z [k H] [j G]. exists (k + j). lia.
Qed.
#[export] Instance eqmq_add : Proper (eqmq ==> eqmq ==> eqmq) Z.add.
Proof. intros x y [k H] z t [j G]. exists (k + j). lia. Qed.
#[export] Instance eqmq_sub : Proper (eqmq ==> eqmq ==> eqmq) Z.sub.
Proof. intros x y [k H] z t [j G]. exists (k - j). lia. Qed.
#[export] Instance eqmq_opp : Proper (eqmq ==> eqmq) Z.opp.
Proof. intros x y [k H]. exists (- k). lia. Qed.
#[export] Instance eqmq_mul : Proper (eqmq ==> eqmq ==> eqmq) Z.mul.
Proof. intros x y [k H] z t [j G]. exists (k * z + y * j). nia. Qed.

(** Equal as integers, by the ring laws. *)
Ltac qring := apply eq_subrelation; [typeclasses eauto|ring].

#[export] Instance eqmq_dec x y : Decision (x ≡q y).
Proof.
  refine (cast_if (decide ((x - y) mod Q_CONST = 0))); unfold eqmq, Q_CONST in *;
    abstract (rewrite <- Z.mod_divide by lia; done).
Defined.

(** Congruent representatives within one period are equal. *)
Lemma eqmq_unique x y : x ≡q y -> - Q_CONST < x - y < Q_CONST -> x = y.
Proof. unfold eqmq, Q_CONST. intros [k H] Hr. assert (k = 0) by lia. lia. Qed.

(** 2^32 is a unit modulo q, with inverse [RINV]. *)
Definition R32 : Z := 4294967296.
Definition RINV : Z := 8265825.
Lemma RINV_R32 : RINV * R32 ≡q 1.
Proof. exists 4236238847. vm_compute. reflexivity. Qed.

Lemma R32_cancel x y : x * R32 ≡q y * R32 -> x ≡q y.
Proof.
  intros H. assert (Hx : x * R32 * RINV ≡q y * R32 * RINV) by by rewrite H.
  rewrite <- !Z.mul_assoc, (Z.mul_comm R32), !RINV_R32, !Z.mul_1_r in Hx. done.
Qed.

(** ** Montgomery reduction *)
Lemma Q_INV_inverse x : exists k, s32 (s64 (s32 x * Q_INV)) * Q_CONST = x + k * R32.
Proof.
  destruct (s32_cong x) as [k1 H1].
  rewrite s64_id by (pose proof (s32_range x); unfold Q_INV; lia).
  destruct (s32_cong (s32 x * Q_INV)) as [k2 H2]. rewrite H2, H1.
  unfold Q_INV, Q_CONST, R32. exists (k1 + 114592 * (x + k1 * 4294967296) + k2 * 8380417). lia.
Qed.

Lemma montgomery_reduce_exact a :
  - (2147483648 * Q_CONST) <= a < 2147483648 * Q_CONST ->
  exists t, -2147483648 <= t < 2147483648 /\
    montgomery_reduce a * R32 = a - t * Q_CONST /\
    - Q_CONST < montgomery_reduce a < Q_CONST.
Proof.
  intros Ha. pose proof (s32_range (s64 (s32 a * Q_INV))) as Ht.
  destruct (Q_INV_inverse a) as [k Hk].
  exists (s32 (s64 (s32 a * Q_INV))). split; [done|].
  unfold montgomery_reduce. set (t := s32 (s64 (s32 a * Q_INV))) in *.
  unfold Q_CONST, R32 in *.
  rewrite (s64_id (t * 8380417)) by lia. rewrite s64_id by lia.
  replace (a - t * 8380417) with ((- k) * 4294967296) by lia.
  shifts. rewrite Z.div_mul by lia. rewrite s32_id by lia. lia.
Qed.

(** C35. Montgomery reduction divides by 2^32 modulo q, with a result in (-q, q), on
    the whole range a product of an [int32_t] and a coefficient below q in
    absolute value can take. *)
Theorem montgomery_reduce_correct (a : Z)
  (Ha : - (2147483648 * Q_CONST) <= a < 2147483648 * Q_CONST) :
  montgomery_reduce a * R32 ≡q a /\ - Q_CONST < montgomery_reduce a < Q_CONST.
Proof.
  destruct (montgomery_reduce_exact a Ha) as (t & _ & Heq & Hr). split; [|done].
  exists (- t). lia.
Qed.

Lemma montgomery_reduce_correct_witness :
  montgomery_reduce (25847 * 8380416) * R32 ≡q 25847 * 8380416 /\
  - Q_CONST < montgomery_reduce (25847 * 8380416) < Q_CONST.
Proof. apply montgomery_reduce_correct. vm_compute. split; congruence. Defined.

(** ** Centred and conditional reduction *)
Lemma reduce_32_eq a :
  -2147483648 <= a < 2147483648 - 4194304 ->
  reduce_32 a = a - (a + 4194304) / 8388608 * Q_CONST.
Proof.
  intros Ha. unfold reduce_32, Q_CONST. change (s32 (Z.shiftl 1 22)) with 4194304.
  rewrite (s32_id (a + 4194304)) by lia. shifts.
  assert (-256 <= (a + 4194304) / 8388608 <= 255) by dlia.
  rewrite (s32_id (_ * 8380417)) by lia. apply s32_id. dlia.
Qed.

Lemma reduce_32_correct a :
  -2147483648 <= a < 2147483648 - 4194304 ->
  reduce_32 a ≡q a /\ -6283009 <= reduce_32 a <= 6283008.
Proof.
  intros Ha. rewrite reduce_32_eq by done. unfold Q_CONST. split; [|dlia].
  exists (- ((a + 4194304) / 8388608)). unfold Q_CONST. lia.
Qed.

Lemma c_addq_eq a :
  -2147483648 <= a < 2147483648 -> c_addq a = if decide (a < 0) then a + Q_CONST else a.
Proof.
  intros Ha. unfold c_addq. rewrite sar31_mask by done.
  case_decide; rewrite s32_id; unfold Q_CONST; lia.
Qed.

Lemma c_addq_cong a : -2147483648 <= a < 2147483648 -> c_addq a ≡q a.
Proof.
  intros Ha. rewrite c_addq_eq by done. case_decide; [|done].
  exists 1. lia.
Qed.

(** [c_addq] brings every centred value to the
    canonical representative in [0, q). *)
Lemma c_addq_canonical a : - Q_CONST < a < Q_CONST -> c_addq a = a mod Q_CONST.
Proof.
  unfold Q_CONST. intros Ha. rewrite c_addq_eq by lia. unfold Q_CONST.
  case_decide.
  - apply (Z.mod_unique _ _ (-1)); lia.
  - by rewrite Z.mod_small by lia.
Qed.
