(* ===== verification/Rounding.v ===== *)
(** * Rounding ([src/src/mldsa87/rounding.c])

    [power2_round], [decompose] and the hint functions, branch-free on
    [int32_t]; each is shown equal to the definition of FIPS 204 (algorithms 35
    to 40), and the hints are shown to recover the high bits. *)
From S2P Require Import Prelude CInt Constants Reduce.

(** The functions return the high part; [a0] is the out parameter. *)
Definition power2_round (a : Z) : Z * Z :=
  let a1 := Z.shiftr (s32 (s32 (a + s32 (Z.shiftl 1 (D - 1))) - 1)) D in
  (a1, s32 (a - s32 (Z.shiftl a1 D))).

Definition decompose (a : Z) : Z * Z :=
  let a1 := Z.shiftr (s32 (a + 127)) 7 in
  let a1 := Z.shiftr (s32 (s32 (a1 * 1025) + s32 (Z.shiftl 1 21))) 22 in
  let a1 := Z.land a1 15 in
  let a0 := s32 (a - s32 (s32 (a1 * 2) * GAMMA2)) in
  (a1, s32 (a0 - Z.land (Z.shiftr (s32 ((Q_CONST - 1) / 2 - a0)) 31) Q_CONST)).

Definition make_hint (a0 a1 : Z) : Z :=
  let gt := Z.shiftr (u32 (s32 (GAMMA2 - a0))) 31 in
  let lt := Z.shiftr (u32 (s32 (a0 + GAMMA2))) 31 in
  let diff := s32 (a0 + GAMMA2) in
  let eq := u32 (1 - Z.shiftr (u32 (Z.lor diff (s32 (- diff)))) 31) in
  let nz := Z.shiftr (u32 (Z.lor a1 (s32 (- a1)))) 31 in
  Z.land (Z.lor (Z.lor gt lt) (Z.land eq nz)) 1.

Definition use_hint (a hint : Z) : Z :=
  let '(a1, a0) := decompose a in
  let hint_zero := s32 (1 - s32 (Z.shiftr (u32 (Z.lor hint (s32 (- hint)))) 31)) in
  let positive := s32 (Z.shiftr (u32 (s32 (- a0))) 31) in
  let mask_zero := s32 (- hint_zero) in
  let mask_nz := s32 (- s32 (1 - hint_zero)) in
  let mask_pos := s32 (- positive) in
  Z.lor (Z.lor (Z.land a1 mask_zero)
               (Z.land (Z.land (Z.land (s32 (a1 + 1)) 15) mask_nz) mask_pos))
        (Z.land (Z.land (Z.land (s32 (a1 - 1)) 15) mask_nz) (Z.lnot mask_pos)).

(** ** FIPS 204 reference definitions *)
Module Fips204.
(** [r mod± m], in (-m/2, m/2]. *)
Definition mods (r m : Z) : Z :=
  let x := r mod m in if m / 2 <? x then x - m else x.
Definition Power2Round (r : Z) : Z * Z :=
  let rp := r mod Q_CONST in
  let r0 := mods rp (2 ^ D) in ((rp - r0) / 2 ^ D, r0).
Definition Decompose (r : Z) : Z * Z :=
  let rp := r mod Q_CONST in
  let r0 := mods rp (2 * GAMMA2) in
  if rp - r0 =? Q_CONST - 1 then (0, r0 - 1) else ((rp - r0) / (2 * GAMMA2), r0).
Definition HighBits (r : Z) : Z := fst (Decompose r).
Definition UseHint (h r : Z) : Z :=
  let m := (Q_CONST - 1) / (2 * GAMMA2) in
  let '(r1, r0) := Decompose r in
  if (h =? 1) && (0 <? r0) then (r1 + 1) mod m
  else if (h =? 1) then (r1 - 1) mod m else r1.
End Fips204.

(** ** power2_round *)
Lemma power2_round_eq a :
  0 <= a < Q_CONST ->
  power2_round a = ((a + 4095) / 8192, a - (a + 4095) / 8192 * 8192).
Proof.
  unfold Q_CONST. intros Ha. unfold power2_round, D.
  change (s32 (Z.shiftl 1 (13 - 1))) with 4096.
  rewrite (s32_id (a + 4096)) by lia. rewrite (s32_id (a + 4096 - 1)) by lia.
  replace (a + 4096 - 1) with (a + 4095) by lia. shifts.
  assert (0 <= (a + 4095) / 8192 < 1024) by dlia.
  rewrite (s32_id (_ * 8192)) by lia. rewrite s32_id; [done|lia].
Qed.

(** ** decompose *)

(** The interval [k] of width [2*GAMMA2] centred on [2*k*GAMMA2] holds [a]. *)
Definition in_slot (a k : Z) : Prop := (2 * k - 1) * GAMMA2 < a <= (2 * k + 1) * GAMMA2.

Lemma slot_exists a : 0 <= a < Q_CONST -> exists k, 0 <= k <= 16 /\ in_slot a k.
Proof.
  unfold in_slot, Q_CONST. change GAMMA2 with 261888. intros Ha.
  exists ((a + 261887) / 523776). split; dlia.
Qed.

Lemma decompose_slot a k :
  0 <= a < Q_CONST -> 0 <= k <= 16 -> in_slot a k ->
  decompose a = if decide (k = 16) then (0, a - Q_CONST) else (k, a - k * (2 * GAMMA2)).
Proof.
  unfold in_slot. intros Ha Hk Hs. unfold decompose.
  change GAMMA2 with 261888 in *. change ((Q_CONST - 1) / 2) with 4190208.
  unfold Q_CONST in *. change (s32 (Z.shiftl 1 21)) with 2097152.
  rewrite (s32_id (a + 127)) by lia.
  rewrite (Z.shiftr_div_pow2 _ 7), (Z.shiftr_div_pow2 _ 22) by lia.
  change (2 ^ 7) with 128. change (2 ^ 22) with 4194304.
  assert (0 <= (a + 127) / 128 <= 65473) by dlia.
  rewrite (s32_id ((a + 127) / 128 * 1025)) by lia.
  rewrite (s32_id (_ + 2097152)) by lia.
  replace (((a + 127) / 128 * 1025 + 2097152) / 4194304) with k by dlia.
  rewrite land_15. case_decide as Hc.
  - subst k. change (16 mod 16) with 0. change (s32 (s32 (0 * 2) * 261888)) with 0.
    rewrite (s32_id (a - 0)) by lia. rewrite (s32_id (4190208 - _)) by lia.
    rewrite sar31_mask by lia. rewrite decide_True by lia.
    rewrite s32_id by lia. f_equal. lia.
  - rewrite (Z.mod_small k) by lia.
    rewrite (s32_id (k * 2)) by lia. rewrite (s32_id (k * 2 * _)) by lia.
    rewrite (s32_id (a - _)) by lia. rewrite (s32_id (4190208 - _)) by lia.
    rewrite sar31_mask by lia. rewrite decide_False by lia.
    rewrite s32_id by lia. f_equal. lia.
Qed.

Lemma Decompose_slot a k :
  0 <= a < Q_CONST -> 0 <= k <= 16 -> in_slot a k ->
  Fips204.Decompose a =
    if decide (k = 16) then (0, a - Q_CONST) else (k, a - k * (2 * GAMMA2)).
Proof.
  unfold in_slot, Fips204.Decompose, Fips204.mods. intros Ha Hk Hs.
  change GAMMA2 with 261888 in *. unfold Q_CONST in *.
  rewrite (Z.mod_small a) by lia. change (2 * 261888 / 2) with 261888.
  change (2 * 261888) with 523776.
  assert (Hr : (if 261888 <? a mod 523776 then a mod 523776 - 523776 else a mod 523776)
               = a - k * 523776).
  { destruct (Z.ltb_spec 261888 (a mod 523776)); dlia. }
  rewrite Hr. replace (a - (a - k * 523776)) with (k * 523776) by lia.
  rewrite Z.div_mul by lia.
  case_decide as Hc.
  - subst k. change (16 * 523776 =? 8380417 - 1) with true. cbn match. f_equal. lia.
  - rewrite (proj2 (Z.eqb_neq _ _)) by lia. done.
Qed.

Lemma decompose_range a :
  0 <= a < Q_CONST ->
  exists a1 a0, decompose a = (a1, a0) /\ 0 <= a1 < 16 /\ - GAMMA2 <= a0 <= GAMMA2.
Proof.
  intros Ha. destruct (slot_exists a Ha) as (k & Hk & Hs).
  rewrite (decompose_slot a k Ha Hk Hs). unfold in_slot, Q_CONST in *.
  change GAMMA2 with 261888 in *.
  case_decide; do 2 eexists; (split; [reflexivity|lia]).
Qed.

(** ** The hint functions by cases *)
Definition make_hint_ref (a0 a1 : Z) : bool :=
  (GAMMA2 <? a0) || (a0 <? - GAMMA2) || ((a0 =? - GAMMA2) && negb (a1 =? 0)).

Lemma make_hint_eq a0 a1 :
  - (2147483648 - GAMMA2) < a0 < 2147483648 - GAMMA2 -> -2147483648 < a1 < 2147483648 ->
  make_hint a0 a1 = Z.b2z (make_hint_ref a0 a1).
Proof.
  change GAMMA2 with 261888. intros H0 H1. unfold make_hint, make_hint_ref.
  change GAMMA2 with 261888. change (- (261888)) with (-261888).
  rewrite (s32_id (261888 - a0)), (s32_id (a0 + 261888)) by lia.
  rewrite (nonzero_bit (a0 + 261888)), (nonzero_bit a1) by lia.
  rewrite !u32_sign by lia.
  destruct (Z.ltb_spec 261888 a0), (Z.ltb_spec a0 (-261888)), (Z.eqb_spec a0 (-261888)),
    (Z.eqb_spec a1 0); repeat case_decide; try lia; reflexivity.
Qed.

Lemma use_hint_eq a hint :
  0 <= a < Q_CONST -> (hint = 0 \/ hint = 1) ->
  use_hint a hint =
    let '(a1, a0) := decompose a in
    if decide (hint = 0) then a1
    else if decide (0 < a0) then (a1 + 1) mod 16 else (a1 - 1) mod 16.
Proof.
  intros Ha Hh. unfold use_hint.
  destruct (decompose_range a Ha) as (a1 & a0 & -> & H1 & H0).
  change GAMMA2 with 261888 in H0.
  rewrite (s32_id (- a0)), (s32_id (a1 + 1)), (s32_id (a1 - 1)) by lia.
  rewrite (u32_sign (- a0)), !land_15 by lia.
  destruct Hh as [-> | ->].
  - change (s32 (1 - s32 (Z.shiftr (u32 (Z.lor 0 (s32 (- 0)))) 31))) with 1.
    change (s32 (- 1)) with (-1). change (s32 (- s32 (1 - 1))) with 0.
    rewrite !Z.land_0_r, !Z.land_0_l, !Z.lor_0_r. apply Z.land_m1_r.
  - change (s32 (1 - s32 (Z.shiftr (u32 (Z.lor 1 (s32 (- 1)))) 31))) with 0.
    change (s32 (- 0)) with 0. change (s32 (- s32 (1 - 0))) with (-1).
    rewrite Z.land_0_r, Z.lor_0_l, !Z.land_m1_r.
    repeat case_decide; try lia.
    + change (s32 (- s32 1)) with (-1). change (Z.lnot (-1)) with 0.
      by rewrite Z.land_m1_r, Z.land_0_r, Z.lor_0_r.
    + change (s32 (- s32 0)) with 0. change (Z.lnot 0) with (-1).
      by rewrite Z.land_m1_r, Z.land_0_r, Z.lor_0_l.
Qed.

(** C30. [decompose], [power2_round] and [use_hint] compute the functions of the
    standard on every canonical coefficient, and [make_hint] the documented
    comparison on every pair of low and high parts that fits an [int32_t]. *)
Theorem rounding_fips204 (a : Z) (Ha : 0 <= a < Q_CONST) :
  power2_round a = Fips204.Power2Round a /\
  decompose a = Fips204.Decompose a /\
  use_hint a 0 = Fips204.UseHint 0 a /\
  use_hint a 1 = Fips204.UseHint 1 a.
Proof.
  destruct (slot_exists a Ha) as (k & Hk & Hs).
  split; [|split; [|split]].
  - rewrite power2_round_eq by done. unfold Fips204.Power2Round, Fips204.mods, D.
    unfold Q_CONST in *. rewrite (Z.mod_small a) by lia.
    change (2 ^ 13) with 8192. change (8192 / 2) with 4096.
    assert (Hr : (if 4096 <? a mod 8192 then a mod 8192 - 8192 else a mod 8192)
                 = a - (a + 4095) / 8192 * 8192)
      by (destruct (Z.ltb_spec 4096 (a mod 8192)); dlia).
    rewrite Hr. replace (a - (a - (a + 4095) / 8192 * 8192)) with ((a + 4095) / 8192 * 8192)
      by lia. by rewrite Z.div_mul by lia.
  - by rewrite (decompose_slot a k), (Decompose_slot a k).
  - rewrite use_hint_eq by auto. unfold Fips204.UseHint.
    rewrite (decompose_slot a k), (Decompose_slot a k) by done. by case_decide.
  - rewrite use_hint_eq by auto. unfold Fips204.UseHint.
    rewrite (decompose_slot a k), (Decompose_slot a k) by done.
    change ((Q_CONST - 1) / (2 * GAMMA2)) with 16.
    destruct (if decide (k = 16) then _ else _) as [r1 r0]. rewrite decide_False by done.
    case_decide as Hp; simpl;
      [rewrite (proj2 (Z.ltb_lt _ _) Hp)|rewrite (proj2 (Z.ltb_ge _ _)) by lia]; done.
Qed.

Lemma rounding_fips204_witness :
  power2_round 8118528 = Fips204.Power2Round 8118528 /\
  decompose 8118528 = Fips204.Decompose 8118528 /\
  use_hint 8118528 0 = Fips204.UseHint 0 8118528 /\
  use_hint 8118528 1 = Fips204.UseHint 1 8118528.
Proof. apply (rounding_fips204 8118528). vm_compute. split; congruence. Defined.

Lemma hint_recovers (w1 a0 r : Z) :
  0 <= w1 < 16 -> - (2 * GAMMA2) < a0 < 2 * GAMMA2 ->
  0 <= r < Q_CONST -> r ≡q w1 * (2 * GAMMA2) + a0 ->
  use_hint r (make_hint a0 w1) = w1.
Proof.
  intros Hw Ha Hr Hc. destruct (slot_exists r Hr) as (k & Hk & Hs).
  rewrite make_hint_eq by (change GAMMA2 with 261888 in *; lia).
  rewrite use_hint_eq by (done || destruct (make_hint_ref a0 w1); auto).
  rewrite (decompose_slot r k) by done.
  unfold make_hint_ref, in_slot, eqmq, Q_CONST in *. change GAMMA2 with 261888 in *.
  change (- (261888)) with (-261888).
  destruct Hc as [j Hj].
  assert (j = 0 \/ j = 1 \/ j = -1) by lia.
  destruct (Z.ltb_spec 261888 a0), (Z.ltb_spec a0 (-261888)), (Z.eqb_spec a0 (-261888)),
    (Z.eqb_spec w1 0); simpl; repeat case_decide; dlia.
Qed.

(** The hint bit computed from the perturbed low part [a0] and the true high part
    [w1] makes [use_hint] recover [w1] from the perturbed value [r]: what the
    verifier's reconstruction of the commitment rests on. *)
Theorem hint_recovers_high_bits (w1 a0 r : Z)
  (Hw : 0 <= w1 < 16) (Ha : - (2 * GAMMA2) < a0 < 2 * GAMMA2)
  (Hr : 0 <= r < Q_CONST) (Hc : r ≡q w1 * (2 * GAMMA2) + a0) :
  use_hint r (make_hint a0 w1) = w1.
Proof. by apply hint_recovers. Qed.

Lemma hint_recovers_high_bits_witness :
  use_hint (523776 - 261889) (make_hint (-261889) 1) = 1.
Proof.
  apply hint_recovers_high_bits; [lia|vm_compute; split; congruence..|].
  exists 0. reflexivity.
Defined.
