(* ===== verification/Rlp.v ===== *)
(** * RLP decoding ([src/src/mldsa87/rlp_decode.c])

    The parser of the unsigned transaction preimage.  Pointers into the input
    are offsets into the buffer [buf]; a read outside the buffer is the separate
    outcome [Oob], so that memory safety is a theorem and not a convention.
    [size_t] arithmetic is modulo [2^w]: [w] is 32 on the device and 64 where the
    unit tests and the fuzzer run. *)
From S2P Require Import Prelude CInt Constants.

Definition MAX_FIELD_SIZE : nat := 32.
Definition ADDRESS_LENGTH : nat := 64.

(** Outcome of an operation: a value, the error return, or an out-of-bounds
    access. *)
Inductive res (A : Type) : Type :=
| Ok (a : A)
| Err
| Oob.
Arguments Ok {A} a.
Arguments Err {A}.
Arguments Oob {A}.

#[export] Instance res_ret : MRet res := fun A a => Ok a.
#[export] Instance res_bind : MBind res := fun A B f m =>
  match m with Ok a => f a | Err => Err | Oob => Oob end.

(** [input[i]] *)
Definition rd (buf : list Z) (i : Z) : res Z :=
  if i <? 0 then Oob
  else match buf !! Z.to_nat i with Some b => Ok b | None => Oob end.

(** [input[i] .. input[i + n - 1]], the source of a [memcpy]. *)
Definition rd_range (buf : list Z) (i n : Z) : res (list Z) :=
  if (i <? 0) || (n <? 0) || (Z.of_nat (length buf) <? i + n) then Oob
  else Ok (take (Z.to_nat n) (drop (Z.to_nat i) buf)).

(** ** Data ([rlp_decode.h]): a byte array field with its length *)
Record field := Field { fbytes : list Z; flen : Z }.

Record zond_tx_t := ZondTx {
  chain_id : field;
  nonce : field;
  gas_tip_cap : field;
  gas_fee_cap : field;
  gas : field;
  to_ : list Z;
  value : field;
  has_data : bool;
  has_access_list : bool;
  descriptor : field
}.

Definition zero_field (n : nat) : field := Field (replicate n 0) 0.
Definition zero_tx : zond_tx_t :=
  ZondTx (zero_field MAX_FIELD_SIZE) (zero_field 8) (zero_field MAX_FIELD_SIZE)
    (zero_field MAX_FIELD_SIZE) (zero_field 8) (replicate ADDRESS_LENGTH 0)
    (zero_field MAX_FIELD_SIZE) false false (zero_field 3).

Section parser.
Context (w : Z).

(** [for (i = 0; i < len_of_len; i++) len = (len << 8) | input[1 + i];] with the
    cursor at [input + 1]. *)
Fixpoint read_len (buf : list Z) (p : Z) (len_of_len : nat) (len : Z) : res Z :=
  match len_of_len with
  | O => Ok len
  | S n => b ← rd buf p; read_len buf (p + 1) n (Z.lor (wrap w (Z.shiftl len 8)) b)
  end.

(** The result is the return value, [*out_data] as an offset and [*out_len]. *)
Definition parse_rlp_item (buf : list Z) (input input_len : Z) : res (Z * Z * Z) :=
  if input_len =? 0 then Err else
  prefix ← rd buf input;
  if prefix <=? 0x7f then
    Ok (1, input, 1)
  else if prefix <=? 0xb7 then
    let len := prefix - 0x80 in
    if input_len - 1 <? len then Err else
    bad ← (if len =? 1 then b1 ← rd buf (input + 1); mret (b1 <? 0x80) else mret false);
    if (bad : bool) then Err else
    Ok (s32 (wrap w (1 + len)), input + 1, len)
  else if prefix <=? 0xbf then
    let len_of_len := prefix - 0xb7 in
    if input_len - 1 <? len_of_len then Err else
    b1 ← rd buf (input + 1);
    if b1 =? 0 then Err else
    len ← read_len buf (input + 1) (Z.to_nat len_of_len) 0;
    if input_len - 1 - len_of_len <? len then Err else
    if len <? 56 then Err else
    Ok (s32 (wrap w (1 + len_of_len + len)), input + (1 + len_of_len), len)
  else if prefix <=? 0xf7 then
    let len := prefix - 0xc0 in
    if input_len <? wrap w (1 + len) then Err else
    Ok (s32 (wrap w (1 + len)), input + 1, len)
  else
    let len_of_len := prefix - 0xf7 in
    if input_len - 1 <? len_of_len then Err else
    b1 ← rd buf (input + 1);
    if b1 =? 0 then Err else
    len ← read_len buf (input + 1) (Z.to_nat len_of_len) 0;
    if input_len - 1 - len_of_len <? len then Err else
    if len <? 56 then Err else
    Ok (s32 (wrap w (1 + len_of_len + len)), input + (1 + len_of_len), len).

(** [*payload_len] and [*header_len]. *)
Definition parse_rlp_list_header (buf : list Z) (input input_len : Z) : res (Z * Z) :=
  if input_len =? 0 then Err else
  prefix ← rd buf input;
  if (0xc0 <=? prefix) && (prefix <=? 0xf7) then
    let payload_len := prefix - 0xc0 in
    let header_len := 1 in
    if wrap w (input_len - header_len) <? payload_len then Err else
    Ok (payload_len, header_len)
  else if 0xf8 <=? prefix then
    let len_of_len := prefix - 0xf7 in
    if input_len - 1 <? len_of_len then Err else
    b1 ← rd buf (input + 1);
    if b1 =? 0 then Err else
    len ← read_len buf (input + 1) (Z.to_nat len_of_len) 0;
    let header_len := 1 + len_of_len in
    if wrap w (input_len - header_len) <? len then Err else
    if len <? 56 then Err else
    Ok (len, header_len)
  else Err.

(** ** The decoder's state: the cursor [p], [remaining] and the output [*tx],
    which keeps what was written when the decoder gives up. *)
Record dstate := DState { cur : Z; remaining : Z; txo : zond_tx_t }.

Inductive dres (A : Type) : Type :=
| DOk (a : A) (s : dstate)
| DErr (s : dstate)
| DOob.
Arguments DOk {A} a s.
Arguments DErr {A} s.
Arguments DOob {A}.

Definition dec (A : Type) : Type := dstate -> dres A.
#[export] Instance d_ret : MRet dec := fun A a s => DOk a s.
#[export] Instance d_bind : MBind dec := fun A B f m s =>
  match m s with DOk a s => f a s | DErr s => DErr s | DOob => DOob end.
Definition lift {A} (m : res A) : dec A := fun s =>
  match m with Ok a => DOk a s | Err => DErr s | Oob => DOob end.
Definition fail {A} : dec A := fun s => DErr s.
Definition get : dec dstate := fun s => DOk s s.
Definition upd_tx (f : zond_tx_t -> zond_tx_t) : dec () := fun s =>
  DOk tt (DState (cur s) (remaining s) (f (txo s))).
(** [p += consumed; remaining -= consumed;] *)
Definition advance (consumed : Z) : dec () := fun s =>
  DOk tt (DState (cur s + consumed) (wrap w (remaining s - consumed)) (txo s)).

(** [consumed = parse_rlp_item(p, remaining, &val_ptr, &val_len)] *)
Definition next_item (buf : list Z) : dec (Z * Z * Z) :=
  s ← get; lift (parse_rlp_item buf (cur s) (remaining s)).

(** [memcpy(dst, val_ptr, val_len); dst_len = val_len;] *)
Definition fill (f : field) (v : list Z) : field :=
  Field (memcpy (fbytes f) v (length v)) (u8 (Z.of_nat (length v))).

(** The block the source repeats for each integer field: at most [max] bytes and
    no leading zero. *)
Definition int_item (buf : list Z) (max : nat)
    (store : list Z -> zond_tx_t -> zond_tx_t) : dec () :=
  '(consumed, val_ptr, val_len) ← next_item buf;
  if Z.of_nat max <? val_len then fail else
  lead0 ← (if 0 <? val_len then lift (b ← rd buf val_ptr; mret (b =? 0)) else mret false);
  if (lead0 : bool) then fail else
  v ← lift (rd_range buf val_ptr val_len);
  _ ← upd_tx (store v);
  advance consumed.

Definition set_chain_id v t := ZondTx (fill (chain_id t) v) (nonce t) (gas_tip_cap t)
  (gas_fee_cap t) (gas t) (to_ t) (value t) (has_data t) (has_access_list t) (descriptor t).
Definition set_nonce v t := ZondTx (chain_id t) (fill (nonce t) v) (gas_tip_cap t)
  (gas_fee_cap t) (gas t) (to_ t) (value t) (has_data t) (has_access_list t) (descriptor t).
Definition set_gas_tip_cap v t := ZondTx (chain_id t) (nonce t) (fill (gas_tip_cap t) v)
  (gas_fee_cap t) (gas t) (to_ t) (value t) (has_data t) (has_access_list t) (descriptor t).
Definition set_gas_fee_cap v t := ZondTx (chain_id t) (nonce t) (gas_tip_cap t)
  (fill (gas_fee_cap t) v) (gas t) (to_ t) (value t) (has_data t) (has_access_list t)
  (descriptor t).
Definition set_gas v t := ZondTx (chain_id t) (nonce t) (gas_tip_cap t) (gas_fee_cap t)
  (fill (gas t) v) (to_ t) (value t) (has_data t) (has_access_list t) (descriptor t).
(** [memset(tx->to, 0, ADDRESS_LENGTH); if (val_len > 0) memcpy(tx->to, ...)] *)
Definition set_to v t := ZondTx (chain_id t) (nonce t) (gas_tip_cap t) (gas_fee_cap t)
  (gas t) (memcpy (replicate ADDRESS_LENGTH 0) v (length v)) (value t) (has_data t)
  (has_access_list t) (descriptor t).
(** [memset(tx->value, 0, MAX_FIELD_SIZE)] precedes the copy. *)
Definition set_value v t := ZondTx (chain_id t) (nonce t) (gas_tip_cap t) (gas_fee_cap t)
  (gas t) (to_ t) (fill (Field (replicate MAX_FIELD_SIZE 0) (flen (value t))) v)
  (has_data t) (has_access_list t) (descriptor t).
Definition set_has_data b t := ZondTx (chain_id t) (nonce t) (gas_tip_cap t)
  (gas_fee_cap t) (gas t) (to_ t) (value t) b (has_access_list t) (descriptor t).
Definition set_has_access_list b t := ZondTx (chain_id t) (nonce t) (gas_tip_cap t)
  (gas_fee_cap t) (gas t) (to_ t) (value t) (has_data t) b (descriptor t).
Definition set_descriptor v t := ZondTx (chain_id t) (nonce t) (gas_tip_cap t)
  (gas_fee_cap t) (gas t) (to_ t) (value t) (has_data t) (has_access_list t)
  (fill (descriptor t) v).

Definition to_item (buf : list Z) : dec () :=
  '(consumed, val_ptr, val_len) ← next_item buf;
  if negb (val_len =? Z.of_nat ADDRESS_LENGTH) && negb (val_len =? 0) then fail else
  v ← lift (rd_range buf val_ptr val_len);
  _ ← upd_tx (set_to v);
  advance consumed.

Definition data_item (buf : list Z) : dec () :=
  s ← get;
  not_string ← (if remaining s =? 0 then mret true
                else lift (b ← rd buf (cur s); mret (0xc0 <=? b)));
  if (not_string : bool) then fail else
  '(consumed, val_ptr, val_len) ← next_item buf;
  _ ← upd_tx (set_has_data (negb (val_len =? 0)));
  advance consumed.

Definition access_list_item (buf : list Z) : dec () :=
  s ← get;
  not_list ← (if remaining s =? 0 then mret true
              else lift (b ← rd buf (cur s); mret (b <? 0xc0)));
  if (not_list : bool) then fail else
  '(consumed, val_ptr, val_len) ← next_item buf;
  _ ← upd_tx (set_has_access_list (negb (val_len =? 0)));
  advance consumed.

Definition descriptor_item (buf : list Z) : dec () :=
  '(consumed, val_ptr, val_len) ← next_item buf;
  if negb (val_len =? 3) then fail else
  b0 ← lift (rd buf val_ptr);
  if negb (b0 =? 0x01) then fail else
  b1 ← lift (rd buf (val_ptr + 1));
  if negb (b1 =? 0x00) then fail else
  b2 ← lift (rd buf (val_ptr + 2));
  if negb (b2 =? 0x00) then fail else
  v ← lift (rd_range buf val_ptr val_len);
  _ ← upd_tx (set_descriptor v);
  advance consumed.

(** Only [p] moves after the last item. *)
Definition extra_params_item (buf : list Z) : dec () :=
  '(consumed, val_ptr, val_len) ← next_item buf;
  if negb (val_len =? 0) then fail else
  fun s => DOk tt (DState (cur s + consumed) (remaining s) (txo s)).

Definition decode_items (buf : list Z) (payload_end : Z) : dec () :=
  _ ← int_item buf MAX_FIELD_SIZE set_chain_id;
  _ ← int_item buf 8 set_nonce;
  _ ← int_item buf MAX_FIELD_SIZE set_gas_tip_cap;
  _ ← int_item buf MAX_FIELD_SIZE set_gas_fee_cap;
  _ ← int_item buf 8 set_gas;
  _ ← to_item buf;
  _ ← int_item buf MAX_FIELD_SIZE set_value;
  _ ← data_item buf;
  _ ← access_list_item buf;
  _ ← descriptor_item buf;
  _ ← extra_params_item buf;
  s ← get;
  if negb (cur s =? payload_end) then fail else mret tt.

(** What the caller sees: the return value and [*tx], or undefined behaviour. *)
Inductive decoded :=
| Decoded (ret : Z) (tx : zond_tx_t)
| DecodeOob.

Definition decode_ledger_tx (rlp : option (list Z)) (rlp_len : Z)
    (tx : option zond_tx_t) : decoded :=
  match rlp, tx with
  | Some buf, Some tx =>
    if rlp_len =? 0 then Decoded (-1) tx else
    match rd buf 0 with
    | Ok b0 =>
      if negb (b0 =? 0x02) then Decoded (-1) tx else
      let p := 1 in
      let remaining := wrap w (rlp_len - 1) in
      match parse_rlp_list_header buf p remaining with
      | Ok (list_payload_len, list_header_len) =>
        let payload_start := p + list_header_len in
        let payload_end := payload_start + list_payload_len in
        let p := p + list_header_len in
        let remaining := wrap w (remaining - list_header_len) in
        if remaining <? list_payload_len then Decoded (-1) tx else
        match decode_items buf payload_end (DState p remaining tx) with
        | DOk _ s => Decoded 0 (txo s)
        | DErr s => Decoded (-1) (txo s)
        | DOob => DecodeOob
        end
      | Err => Decoded (-1) tx
      | Oob => DecodeOob
      end
    | _ => DecodeOob
    end
  | _, _ => Decoded (-1) (default zero_tx tx)
  end.
End parser.

Arguments DOk {A} a s.
Arguments DErr {A} s.
Arguments DOob {A}.

Lemma bind_DOk {A B} (m : dec A) (f : A -> dec B) s a s' :
  m s = DOk a s' -> (m ≫= f) s = f a s'.
Proof. unfold mbind, d_bind. by intros ->. Qed.
Lemma bind_DErr {A B} (m : dec A) (f : A -> dec B) s s' :
  m s = DErr s' -> (m ≫= f) s = DErr s'.
Proof. unfold mbind, d_bind. by intros ->. Qed.
