(* ===== verification/RlpSpec.v ===== *)
(** * What the transaction parser accepts

    A grammar of the RLP encodings the parser admits, with the width [w] of
    [size_t] in it, and the theorem that [decode_ledger_tx] accepts exactly the
    preimages of that grammar, fills the fields from the payloads, and never
    reads outside its input. *)
From S2P Require Import Prelude CInt Constants Rlp.

(** [lb] is accepted as the long-form length [n]. *)
Definition long_len (w : Z) (lb : list Z) (n : Z) : Prop :=
  (1 <= length lb <= 8)%nat /\ head lb <> Some 0 /\ be_val lb mod 2 ^ w = n /\ 56 <= n.

Inductive rlp_string (w : Z) : list Z -> list Z -> Prop :=
| rs_single b : 0 <= b <= 0x7f -> rlp_string w [b] [b]
| rs_short p : (length p <= 55)%nat -> (forall b, p = [b] -> 0x80 <= b) ->
    rlp_string w ((0x80 + Z.of_nat (length p)) :: p) p
| rs_long lb p : long_len w lb (Z.of_nat (length p)) ->
    rlp_string w ((0xb7 + Z.of_nat (length lb)) :: lb ++ p) p.

Inductive rlp_list (w : Z) : list Z -> list Z -> Prop :=
| rl_short p : (length p <= 55)%nat -> rlp_list w ((0xc0 + Z.of_nat (length p)) :: p) p
| rl_long lb p : long_len w lb (Z.of_nat (length p)) ->
    rlp_list w ((0xf7 + Z.of_nat (length lb)) :: lb ++ p) p.

Definition rlp_item (w : Z) (enc p : list Z) : Prop := rlp_string w enc p \/ rlp_list w enc p.

(** The header parser on lists: the lengths of the header and of the payload of
    the item that starts [rest]. *)
Definition long_split (w : Z) (lol : Z) (r : list Z) : option (nat * nat) :=
  if Z.of_nat (length r) <? lol then None else
  if bool_decide (head r = Some 0) then None else
  let len := be_val (take (Z.to_nat lol) r) mod 2 ^ w in
  if Z.of_nat (length r) - lol <? len then None else
  if len <? 56 then None else Some (Datatypes.S (Z.to_nat lol), Z.to_nat len).

Definition split_item (w : Z) (rest : list Z) : option (nat * nat) :=
  match rest with
  | [] => None
  | b :: r =>
    if b <=? 0x7f then Some (0%nat, 1%nat)
    else if b <=? 0xb7 then
      if Z.of_nat (length r) <? b - 0x80 then None else
      if (b =? 0x81) && (default 0x80 (head r) <? 0x80) then None
      else Some (1%nat, Z.to_nat (b - 0x80))
    else if b <=? 0xbf then long_split w (b - 0xb7) r
    else if b <=? 0xf7 then
      if Z.of_nat (length r) <? b - 0xc0 then None else Some (1%nat, Z.to_nat (b - 0xc0))
    else long_split w (b - 0xf7) r
  end.

(** ** The C parser is the list parser *)
Section equiv.
Context (w : Z) (Hw : 32 <= w).

Lemma pow_w : 4294967296 <= 2 ^ w.
Proof. change 4294967296 with (2 ^ 32). by apply Z.pow_le_mono_r; lia. Qed.

Lemma wrap_small x : 0 <= x < 4294967296 -> wrap w x = x.
Proof. intros. pose proof pow_w. apply Z.mod_small. lia. Qed.

Lemma rd_app pre rest i :
  rd (pre ++ rest) (Z.of_nat (length pre) + Z.of_nat i) =
  match rest !! i with Some b => Ok b | None => Oob end.
Proof.
  unfold rd. rewrite (proj2 (Z.ltb_ge _ _)) by lia.
  replace (Z.to_nat (Z.of_nat (length pre) + Z.of_nat i)) with (length pre + i)%nat by lia.
  rewrite lookup_app_r by lia. by replace (length pre + i - length pre)%nat with i by lia.
Qed.

Lemma rd_app_0 pre b rest : rd (pre ++ b :: rest) (Z.of_nat (length pre)) = Ok b.
Proof. rewrite <- (Z.add_0_r (Z.of_nat _)). apply (rd_app pre (b :: rest) 0). Qed.

Lemma rd_range_app pre v tail :
  rd_range (pre ++ v ++ tail) (Z.of_nat (length pre)) (Z.of_nat (length v)) = Ok v.
Proof.
  unfold rd_range. rewrite !length_app.
  rewrite (proj2 (Z.ltb_ge _ 0)), (proj2 (Z.ltb_ge _ 0)), (proj2 (Z.ltb_ge _ _)) by lia.
  simpl. rewrite !Nat2Z.id, drop_app_length, take_app_length. done.
Qed.

Lemma shift_in acc b :
  0 <= b < 256 -> Z.lor (wrap w (Z.shiftl acc 8)) b = (acc * 256 + b) mod 2 ^ w.
Proof.
  intros Hb. unfold wrap. rewrite Z.shiftl_mul_pow2 by lia. change (2 ^ 8) with 256.
  replace (2 ^ w) with (256 * 2 ^ (w - 8))
    by (change 256 with (2 ^ 8); rewrite <- Z.pow_add_r by lia; f_equal; lia).
  assert (0 < 2 ^ (w - 8)) by (apply Z.pow_pos_nonneg; lia).
  rewrite (Z.mul_comm acc 256), Z.mul_mod_distr_l by lia.
  rewrite Z.lor_comm, (Z.mul_comm 256 (_ mod _)).
  change (acc mod 2 ^ (w - 8) * 256) with (acc mod 2 ^ (w - 8) * 2 ^ 8).
  rewrite <- Z.shiftl_mul_pow2, lor_add_disjoint by lia. change (2 ^ 8) with 256.
  rewrite (Z.rem_mul_r (256 * acc + b) 256 (2 ^ (w - 8))) by lia.
  rewrite (Z.add_comm (256 * acc)), (Z.mul_comm 256 acc).
  rewrite Z.mod_add, Z.div_add by lia. rewrite (Z.mod_small b), (Z.div_small b) by lia.
  rewrite Z.add_0_l. lia.
Qed.

Lemma read_len_app lb : forall pre tail acc,
  bytes lb -> 0 <= acc < 2 ^ w ->
  read_len w (pre ++ lb ++ tail) (Z.of_nat (length pre)) (length lb) acc =
  Ok ((acc * 256 ^ Z.of_nat (length lb) + be_val lb) mod 2 ^ w).
Proof.
  pose proof pow_w.
  induction lb as [|b lb IH]; intros pre tail acc Hlb Hacc.
  - simpl. change (be_val []) with 0. rewrite Z.mod_small by lia. f_equal. lia.
  - apply Forall_cons_1 in Hlb as [Hb Hlb].
    cbn [length read_len app]. rewrite rd_app_0. cbn [mbind res_bind].
    rewrite shift_in by done.
    specialize (IH (pre ++ [b]) tail ((acc * 256 + b) mod 2 ^ w) Hlb).
    rewrite <- app_assoc, length_app, Nat2Z.inj_add in IH. cbn [length app] in IH.
    change (Z.of_nat 1) with 1 in IH. rewrite IH by (apply Z.mod_pos_bound; lia). f_equal.
    rewrite be_val_cons, Nat2Z.inj_succ, Z.pow_succ_r by lia.
    rewrite Z.add_mod, Z.mul_mod_idemp_l, <- Z.add_mod by lia. f_equal. lia.
Qed.

(** The outcome of the C parser for a split of the input. *)
Definition item_res (base : Z) (o : option (nat * nat)) : res (Z * Z * Z) :=
  match o with
  | None => Err
  | Some (h, l) => Ok (Z.of_nat h + Z.of_nat l, base + Z.of_nat h, Z.of_nat l)
  end.

(** The two reads of a long header. *)
Lemma long_reads pre b r lol :
  1 <= lol <= Z.of_nat (length r) -> bytes r ->
  exists b1, head r = Some b1 /\
    rd (pre ++ b :: r) (Z.of_nat (length pre) + 1) = Ok b1 /\
    read_len w (pre ++ b :: r) (Z.of_nat (length pre) + 1) (Z.to_nat lol) 0 =
      Ok (be_val (take (Z.to_nat lol) r) mod 2 ^ w).
Proof.
  intros Hlol Hr. destruct r as [|b1 r']; [simpl in Hlol; lia|].
  exists b1. split; [done|]. split; [exact (rd_app pre (b :: b1 :: r') 1)|].
  set (r := b1 :: r') in *.
  pose proof (read_len_app (take (Z.to_nat lol) r) (pre ++ [b]) (drop (Z.to_nat lol) r) 0) as H.
  rewrite <- app_assoc, take_drop, length_take, Nat.min_l in H by lia.
  rewrite length_app, Nat2Z.inj_add in H. apply H; [by apply Forall_take|].
  pose proof pow_w. lia.
Qed.

Lemma long_split_eq pre b r lol :
  1 <= lol <= 8 -> bytes r -> Z.of_nat (length (pre ++ b :: r)) < 2147483648 ->
  let buf := pre ++ b :: r in
  let input := Z.of_nat (length pre) in
  let input_len := Z.of_nat (length (b :: r)) in
  (if input_len - 1 <? lol then Err else
   b1 ← rd buf (input + 1);
   if b1 =? 0 then Err else
   len ← read_len w buf (input + 1) (Z.to_nat lol) 0;
   if input_len - 1 - lol <? len then Err else
   if len <? 56 then Err else
   Ok (s32 (wrap w (1 + lol + len)), input + (1 + lol), len))
  = item_res input (long_split w lol r).
Proof.
  intros Hlol Hr Hlen buf input input_len. unfold long_split.
  replace (input_len - 1) with (Z.of_nat (length r)) by (unfold input_len; simpl; lia).
  destruct (Z.ltb_spec (Z.of_nat (length r)) lol) as [|Hge]; [done|].
  destruct (long_reads pre b r lol ltac:(lia) Hr) as (b1 & Hhd & Hrd & Hread).
  fold buf input in Hrd, Hread. rewrite Hrd, Hread, Hhd. cbn [mbind res_bind].
  destruct (Z.eqb_spec b1 0) as [->|Hb1]; [by rewrite bool_decide_true|].
  rewrite bool_decide_false by congruence.
  set (len := be_val (take (Z.to_nat lol) r) mod 2 ^ w).
  assert (0 <= len) by (apply Z.mod_pos_bound; pose proof pow_w; lia).
  destruct (Z.ltb_spec (Z.of_nat (length r) - lol) len); [done|].
  destruct (Z.ltb_spec len 56); [done|]. simpl.
  rewrite length_app in Hlen. cbn [length] in Hlen.
  rewrite wrap_small, s32_id by lia. repeat f_equal; lia.
Qed.

Lemma parse_item_split pre rest :
  bytes rest -> Z.of_nat (length (pre ++ rest)) < 2147483648 ->
  parse_rlp_item w (pre ++ rest) (Z.of_nat (length pre)) (Z.of_nat (length rest)) =
  item_res (Z.of_nat (length pre)) (split_item w rest).
Proof.
  intros Hb Hlen. destruct rest as [|b r]; [done|].
  apply Forall_cons_1 in Hb as [Hb Hr]. unfold is_u8 in Hb.
  unfold parse_rlp_item, split_item.
  rewrite (proj2 (Z.eqb_neq _ 0)) by (simpl; lia).
  rewrite rd_app_0. cbn [mbind res_bind].
  replace (Z.of_nat (length (b :: r)) - 1) with (Z.of_nat (length r)) by (simpl; lia).
  assert (Hl : Z.of_nat (length r) < 2147483648)
    by (rewrite length_app in Hlen; cbn [length] in Hlen; lia).
  destruct (Z.leb_spec b 0x7f); [simpl; repeat f_equal; lia|].
  destruct (Z.leb_spec b 0xb7).
  { destruct (Z.ltb_spec (Z.of_nat (length r)) (b - 0x80)); [done|].
    destruct (Z.eqb_spec (b - 0x80) 1) as [E|E].
    - rewrite (proj2 (Z.eqb_eq b 0x81)) by lia. destruct r as [|b1 r]; [simpl in *; lia|].
      assert (Hrd : rd (pre ++ b :: b1 :: r) (Z.of_nat (length pre) + 1) = Ok b1)
        by exact (rd_app pre (b :: b1 :: r) 1).
      rewrite Hrd. cbn [mbind res_bind mret res_ret head default from_option id andb].
      destruct (b1 <? 0x80); [done|]. simpl.
      rewrite wrap_small, s32_id by lia. repeat f_equal; lia.
    - rewrite (proj2 (Z.eqb_neq b 0x81)) by lia. simpl.
      rewrite wrap_small, s32_id by lia. repeat f_equal; lia. }
  destruct (Z.leb_spec b 0xbf).
  { pose proof (long_split_eq pre b r (b - 0xb7) ltac:(lia) Hr Hlen) as H'. cbv zeta in H'.
    replace (Z.of_nat (length (b :: r)) - 1) with (Z.of_nat (length r)) in H' by (simpl; lia).
    exact H'. }
  destruct (Z.leb_spec b 0xf7).
  { rewrite wrap_small by lia.
    destruct (Z.ltb_spec (Z.of_nat (length (b :: r))) (1 + (b - 0xc0))) as [Hx|Hx];
      cbn [length] in Hx.
    - by rewrite (proj2 (Z.ltb_lt _ _)) by lia.
    - rewrite (proj2 (Z.ltb_ge (Z.of_nat (length r)) _)) by lia.
      simpl. rewrite s32_id by lia. repeat f_equal; lia. }
  pose proof (long_split_eq pre b r (b - 0xf7) ltac:(lia) Hr Hlen) as H'. cbv zeta in H'.
  replace (Z.of_nat (length (b :: r)) - 1) with (Z.of_nat (length r)) in H' by (simpl; lia).
  exact H'.
Qed.

Lemma parse_list_header_split pre rest :
  bytes rest -> Z.of_nat (length (pre ++ rest)) < 2147483648 ->
  parse_rlp_list_header w (pre ++ rest) (Z.of_nat (length pre)) (Z.of_nat (length rest)) =
  match rest with
  | [] => Err
  | b :: _ =>
    if b <? 0xc0 then Err else
    match split_item w rest with
    | Some (h, l) => Ok (Z.of_nat l, Z.of_nat h)
    | None => Err
    end
  end.
Proof.
  intros Hb Hlen. destruct rest as [|b r]; [done|].
  apply Forall_cons_1 in Hb as [Hb Hr]. unfold is_u8 in Hb.
  unfold parse_rlp_list_header, split_item.
  rewrite (proj2 (Z.eqb_neq _ 0)) by (simpl; lia).
  rewrite rd_app_0. cbn [mbind res_bind].
  replace (Z.of_nat (length (b :: r)) - 1) with (Z.of_nat (length r)) by (simpl; lia).
  assert (Hl : Z.of_nat (length r) < 2147483647)
    by (rewrite length_app in Hlen; cbn [length] in Hlen; lia).
  destruct (Z.ltb_spec b 0xc0).
  { by rewrite (proj2 (Z.leb_gt 0xc0 b)), (proj2 (Z.leb_gt 0xf8 b)) by lia. }
  rewrite (proj2 (Z.leb_le 0xc0 b)), (proj2 (Z.leb_gt b 0x7f)), (proj2 (Z.leb_gt b 0xb7)),
    (proj2 (Z.leb_gt b 0xbf)) by lia. cbn [andb].
  destruct (Z.leb_spec b 0xf7).
  { rewrite wrap_small by lia.
    destruct (Z.ltb_spec (Z.of_nat (length r)) (b - 0xc0)); [done|].
    by rewrite Z2Nat.id by lia. }
  rewrite (proj2 (Z.leb_le 0xf8 b)) by lia. unfold long_split.
  destruct (Z.ltb_spec (Z.of_nat (length r)) (b - 0xf7)) as [|Hge]; [done|].
  destruct (long_reads pre b r (b - 0xf7) ltac:(lia) Hr) as (b1 & Hhd & Hrd & Hread).
  rewrite Hrd, Hread, Hhd. cbn [mbind res_bind].
  destruct (Z.eqb_spec b1 0) as [->|Hb1]; [by rewrite bool_decide_true|].
  rewrite bool_decide_false by congruence.
  set (len := be_val (take (Z.to_nat (b - 0xf7)) r) mod 2 ^ w).
  assert (0 <= len) by (apply Z.mod_pos_bound; pose proof pow_w; lia).
  replace (Z.of_nat (length (b :: r)) - (1 + (b - 247))) with (Z.of_nat (length r) - (b - 247))
    by (cbn [length]; lia).
  rewrite wrap_small by lia.
  destruct (Z.ltb_spec (Z.of_nat (length r) - (b - 0xf7)) len); [done|].
  destruct (Z.ltb_spec len 56); [done|].
  cbn match. repeat f_equal; lia.
Qed.
End equiv.

(** ** The list parser recognises the grammar *)
Section grammar.
Context (w : Z).

(** The kind of an item is decided by its first byte. *)
Definition starts_string (rest : list Z) : Prop := exists b r, rest = b :: r /\ b < 0xc0.
Definition starts_list (rest : list Z) : Prop := exists b r, rest = b :: r /\ 0xc0 <= b.

Lemma rlp_string_start enc p : rlp_string w enc p -> starts_string enc.
Proof. intros [b Hb|q Hq _|lb q (Hlb & _)]; do 2 eexists; (split; [done|lia]). Qed.
Lemma rlp_list_start enc p : rlp_list w enc p -> starts_list enc.
Proof. intros [q Hq|lb q (Hlb & _)]; do 2 eexists; (split; [done|lia]). Qed.

(** Every encoding is a header followed by its payload. *)
Lemma rlp_item_header enc p : rlp_item w enc p -> exists hdr, enc = hdr ++ p.
Proof.
  intros [[b|q|lb q]|[q|lb q]].
  - by exists [].
  - by eexists [_].
  - by exists ((0xb7 + Z.of_nat (length lb)) :: lb).
  - by eexists [_].
  - by exists ((0xf7 + Z.of_nat (length lb)) :: lb).
Qed.

Lemma long_split_complete lb p tail lol :
  long_len w lb (Z.of_nat (length p)) -> lol = Z.of_nat (length lb) ->
  long_split w lol ((lb ++ p) ++ tail) = Some (Datatypes.S (length lb), length p).
Proof.
  intros (Hl & Hhd & Hv & H56) ->. unfold long_split.
  rewrite (proj2 (Z.ltb_ge _ _)) by (rewrite !length_app; lia).
  rewrite bool_decide_false.
  2:{ destruct lb; [simpl in Hl; lia|exact Hhd]. }
  rewrite Nat2Z.id, <- app_assoc, take_app_length, Hv.
  rewrite (proj2 (Z.ltb_ge _ _)) by (rewrite !length_app; lia).
  rewrite (proj2 (Z.ltb_ge _ _)) by lia. by rewrite Nat2Z.id.
Qed.

Lemma split_string_complete enc p tail :
  rlp_string w enc p -> split_item w (enc ++ tail) = Some ((length enc - length p)%nat, length p).
Proof.
  intros [b Hb|q Hq Hc|lb q Hlb]; cbn [app split_item length].
  - by rewrite (proj2 (Z.leb_le b _)) by lia.
  - rewrite (proj2 (Z.leb_gt _ _)), (proj2 (Z.leb_le _ _)) by lia.
    rewrite (proj2 (Z.ltb_ge _ _)) by (rewrite length_app; lia).
    replace (128 + Z.of_nat (length q) =? 0x81) with (Nat.eqb (length q) 1)
      by (destruct (Nat.eqb_spec (length q) 1), (Z.eqb_spec (128 + Z.of_nat (length q)) 129); lia).
    assert (Hbad : (length q =? 1)%nat && (default 0x80 (head (q ++ tail)) <? 0x80) = false).
    { destruct (Nat.eqb_spec (length q) 1) as [E|]; [|done].
      destruct q as [|b [|]]; simplify_eq/=. unfold id. apply Z.ltb_ge. by apply Hc. }
    rewrite Hbad. repeat f_equal; lia.
  - pose proof (proj1 Hlb).
    rewrite (proj2 (Z.leb_gt _ 0x7f)), (proj2 (Z.leb_gt _ 0xb7)), (proj2 (Z.leb_le _ _)) by lia.
    rewrite (long_split_complete lb q tail) by (done || lia).
    rewrite length_app. repeat f_equal; lia.
Qed.

Lemma split_list_complete enc p tail :
  rlp_list w enc p -> split_item w (enc ++ tail) = Some ((length enc - length p)%nat, length p).
Proof.
  intros [q Hq|lb q Hlb]; cbn [app split_item length].
  - rewrite (proj2 (Z.leb_gt _ 0x7f)), (proj2 (Z.leb_gt _ 0xb7)), (proj2 (Z.leb_gt _ 0xbf)),
      (proj2 (Z.leb_le _ _)) by lia.
    rewrite (proj2 (Z.ltb_ge _ _)) by (rewrite length_app; lia).
    repeat f_equal; lia.
  - pose proof (proj1 Hlb).
    rewrite (proj2 (Z.leb_gt _ 0x7f)), (proj2 (Z.leb_gt _ 0xb7)), (proj2 (Z.leb_gt _ 0xbf)),
      (proj2 (Z.leb_gt _ 0xf7)) by lia.
    rewrite (long_split_complete lb q tail) by (done || lia).
    rewrite length_app. repeat f_equal; lia.
Qed.

Lemma split_item_complete enc p tail :
  rlp_item w enc p -> split_item w (enc ++ tail) = Some ((length enc - length p)%nat, length p).
Proof. intros [H|H]; [by apply split_string_complete|by apply split_list_complete]. Qed.

Lemma long_split_sound lol r h l :
  1 <= lol <= 8 -> long_split w lol r = Some (h, l) ->
  exists lb p tail, r = lb ++ p ++ tail /\ Z.of_nat (length lb) = lol /\
    long_len w lb (Z.of_nat (length p)) /\ h = Datatypes.S (length lb) /\ l = length p.
Proof.
  unfold long_split. intros Hlol.
  destruct (Z.ltb_spec (Z.of_nat (length r)) lol) as [|Hlr]; [done|].
  case_bool_decide as Hhd; [done|].
  set (lb := take (Z.to_nat lol) r). set (len := be_val lb mod 2 ^ w).
  destruct (Z.ltb_spec (Z.of_nat (length r) - lol) len) as [|Hlen]; [done|].
  destruct (Z.ltb_spec len 56) as [|H56]; [done|]. intros [= <- <-].
  set (rest := drop (Z.to_nat lol) r).
  assert (Hlb : length lb = Z.to_nat lol) by (unfold lb; rewrite length_take; lia).
  exists lb, (take (Z.to_nat len) rest), (drop (Z.to_nat len) rest).
  assert (Hp : length (take (Z.to_nat len) rest) = Z.to_nat len)
    by (rewrite length_take; unfold rest; rewrite length_drop; lia).
  rewrite Hlb, Hp.
  split_and!; [by unfold lb, rest; rewrite !take_drop|lia| |done|done].
  split; [lia|]. split; [|split; [|lia]].
  - unfold lb. destruct r as [|b r]; [simpl in *; lia|].
    destruct (Z.to_nat lol) eqn:E; [lia|]. exact Hhd.
  - rewrite Z2Nat.id by lia. done.
Qed.

Lemma split_item_sound rest h l :
  bytes rest -> split_item w rest = Some (h, l) ->
  exists enc p tail, rest = enc ++ tail /\ length enc = (h + l)%nat /\ length p = l /\
    (starts_string rest -> rlp_string w enc p) /\ (starts_list rest -> rlp_list w enc p).
Proof.
  destruct rest as [|b r]; [done|]. intros [Hb Hr]%Forall_cons_1. unfold is_u8 in Hb.
  cbn [split_item].
  destruct (Z.leb_spec b 0x7f).
  { intros [= <- <-]. exists [b], [b], r. split; [done|]. split; [done|]. split; [done|]. split.
    - intros _. apply rs_single; lia.
    - intros (? & ? & [= <- <-] & ?). lia. }
  destruct (Z.leb_spec b 0xb7).
  { destruct (Z.ltb_spec (Z.of_nat (length r)) (b - 0x80)) as [|Hlen]; [done|].
    destruct ((b =? 0x81) && (default 0x80 (head r) <? 0x80)) eqn:Hbad; [done|].
    intros [= <- <-]. set (p := take (Z.to_nat (b - 0x80)) r).
    assert (Hp : length p = Z.to_nat (b - 0x80)) by (unfold p; rewrite length_take; lia).
    exists (b :: p), p, (drop (Z.to_nat (b - 0x80)) r). cbn [length app].
    split_and!; [by unfold p; rewrite take_drop|lia|done| |].
    - intros _. replace b with (0x80 + Z.of_nat (length p)) at 1 by lia.
      apply rs_short; [lia|]. intros c Hc.
      rewrite Hc in Hp. rewrite (proj2 (Z.eqb_eq b 0x81)) in Hbad by (simpl in Hp; lia).
      assert (Hhd : head r = Some c).
      { unfold p in Hc. destruct r as [|c' r']; [by rewrite take_nil in Hc|].
        destruct (Z.to_nat (b - 0x80)); simplify_eq/=. done. }
      rewrite Hhd in Hbad. simpl in Hbad. unfold id in Hbad. by apply Z.ltb_ge in Hbad.
    - intros (? & ? & [= <- <-] & ?). lia. }
  destruct (Z.leb_spec b 0xbf).
  { intros (lb & p & tail & -> & Hlb & Hlong & -> & ->)%long_split_sound; [|lia].
    exists (b :: lb ++ p), p, tail. cbn [length app].
    split_and!; [by rewrite app_assoc|rewrite length_app; lia|done| |].
    - intros _. replace b with (0xb7 + Z.of_nat (length lb)) by lia. by apply rs_long.
    - intros (? & ? & [= <- <-] & ?). lia. }
  destruct (Z.leb_spec b 0xf7).
  { destruct (Z.ltb_spec (Z.of_nat (length r)) (b - 0xc0)) as [|Hlen]; [done|].
    intros [= <- <-]. set (p := take (Z.to_nat (b - 0xc0)) r).
    assert (Hp : length p = Z.to_nat (b - 0xc0)) by (unfold p; rewrite length_take; lia).
    exists (b :: p), p, (drop (Z.to_nat (b - 0xc0)) r). cbn [length app].
    split_and!; [by unfold p; rewrite take_drop|lia|done| |].
    - intros (? & ? & [= <- <-] & ?). lia.
    - intros _. replace b with (0xc0 + Z.of_nat (length p)) at 1 by lia. apply rl_short. lia. }
  intros (lb & p & tail & -> & Hlb & Hlong & -> & ->)%long_split_sound; [|lia].
  exists (b :: lb ++ p), p, tail. cbn [length app].
  split_and!; [by rewrite app_assoc|rewrite length_app; lia|done| |].
  - intros (? & ? & [= <- <-] & ?). lia.
  - intros _. replace b with (0xf7 + Z.of_nat (length lb)) by lia. by apply rl_long.
Qed.

(** The grammar is prefix-free: an input starts with at most one item. *)
Lemma rlp_item_unique enc1 p1 tail1 enc2 p2 tail2 :
  rlp_item w enc1 p1 -> rlp_item w enc2 p2 -> enc1 ++ tail1 = enc2 ++ tail2 ->
  enc1 = enc2 /\ p1 = p2 /\ tail1 = tail2.
Proof.
  intros H1 H2 E.
  pose proof (split_item_complete _ _ tail1 H1) as S1.
  pose proof (split_item_complete _ _ tail2 H2) as S2.
  rewrite E, S2 in S1. injection S1 as Hh Hl.
  destruct (rlp_item_header _ _ H1) as [h1 ->], (rlp_item_header _ _ H2) as [h2 ->].
  rewrite !length_app in Hh. apply app_inj_1 in E as [E1 E2]; [|rewrite !length_app; lia].
  apply app_inj_1 in E1 as [-> ->]; [done|lia].
Qed.
End grammar.

(** ** The fields *)
Definition uint_field (w : Z) (max : nat) (enc p : list Z) : Prop :=
  rlp_item w enc p /\ (length p <= max)%nat /\ head p <> Some 0.
Definition to_field (w : Z) (enc p : list Z) : Prop :=
  rlp_item w enc p /\ (length p = ADDRESS_LENGTH \/ p = []).
Definition descriptor_field (w : Z) (enc p : list Z) : Prop :=
  rlp_item w enc p /\ p = [0x01; 0x00; 0x00].
Definition empty_field (w : Z) (enc p : list Z) : Prop := rlp_item w enc p /\ p = [].

(** The payloads of an accepted preimage. *)
Record payloads := Payloads {
  pl_chain_id : list Z; pl_nonce : list Z; pl_tip : list Z; pl_cap : list Z;
  pl_gas : list Z; pl_to : list Z; pl_value : list Z; pl_data : list Z; pl_access : list Z
}.

(** [raw] is [0x02], a list header, the eleven items, and trailing bytes. *)
Definition preimage (w : Z) (raw : list Z) (q : payloads) (trailing : list Z) : Prop :=
  exists lst e1 e2 e3 e4 e5 e6 e7 e8 e9 e10 e11,
    raw = 0x02 :: lst ++ trailing /\
    rlp_list w lst
      (e1 ++ e2 ++ e3 ++ e4 ++ e5 ++ e6 ++ e7 ++ e8 ++ e9 ++ e10 ++ e11) /\
    uint_field w 32 e1 (pl_chain_id q) /\ uint_field w 8 e2 (pl_nonce q) /\
    uint_field w 32 e3 (pl_tip q) /\ uint_field w 32 e4 (pl_cap q) /\
    uint_field w 8 e5 (pl_gas q) /\ to_field w e6 (pl_to q) /\
    uint_field w 32 e7 (pl_value q) /\ rlp_string w e8 (pl_data q) /\
    rlp_list w e9 (pl_access q) /\ descriptor_field w e10 [0x01; 0x00; 0x00] /\
    empty_field w e11 [].

(** The structure filled from zero. *)
Definition tx_of (q : payloads) : zond_tx_t :=
  ZondTx (fill (zero_field 32) (pl_chain_id q)) (fill (zero_field 8) (pl_nonce q))
    (fill (zero_field 32) (pl_tip q)) (fill (zero_field 32) (pl_cap q))
    (fill (zero_field 8) (pl_gas q))
    (memcpy (replicate ADDRESS_LENGTH 0) (pl_to q) (length (pl_to q)))
    (fill (zero_field 32) (pl_value q))
    (bool_decide (pl_data q <> [])) (bool_decide (pl_access q <> []))
    (fill (zero_field 3) [0x01; 0x00; 0x00]).

Section decoder.
Context (w : Z) (Hw : 32 <= w).

(** The decoder between two items: [pre] is consumed, [rest] is not. *)
Definition at_ (pre rest : list Z) (tx : zond_tx_t) : dstate :=
  DState (Z.of_nat (length pre)) (Z.of_nat (length rest)) tx.

Definition input_ok (buf : list Z) : Prop :=
  bytes buf /\ Z.of_nat (length buf) < 2147483648.

(** Contract of an item parser: it succeeds exactly on the inputs that start
    with an item of [G], which it consumes; it never reads out of bounds. *)
Definition item_contract {A} (m : list Z -> dec ()) (G : list Z -> A -> Prop)
    (upd : A -> zond_tx_t -> zond_tx_t) : Prop :=
  forall pre rest tx, input_ok (pre ++ rest) ->
    match m (pre ++ rest) (at_ pre rest tx) with
    | DOk _ s => exists enc p tail, rest = enc ++ tail /\ G enc p /\
        s = at_ (pre ++ enc) tail (upd p tx)
    | DErr _ => forall enc p tail, rest = enc ++ tail -> ~ G enc p
    | DOob => False
    end.

Lemma next_item_cases pre rest tx :
  input_ok (pre ++ rest) ->
  (exists hdr p tail, rest = hdr ++ p ++ tail /\ rlp_item w (hdr ++ p) p /\
     (starts_string rest -> rlp_string w (hdr ++ p) p) /\
     (starts_list rest -> rlp_list w (hdr ++ p) p) /\
     next_item w (pre ++ rest) (at_ pre rest tx) =
       DOk (Z.of_nat (length hdr) + Z.of_nat (length p),
            Z.of_nat (length (pre ++ hdr)), Z.of_nat (length p)) (at_ pre rest tx)) \/
  (next_item w (pre ++ rest) (at_ pre rest tx) = DErr (at_ pre rest tx) /\
   forall enc p tail, rest = enc ++ tail -> ~ rlp_item w enc p).
Proof.
  intros [Hb Hlen]. apply Forall_app in Hb as [_ Hb].
  assert (Hnext : next_item w (pre ++ rest) (at_ pre rest tx) =
    lift (item_res (Z.of_nat (length pre)) (split_item w rest)) (at_ pre rest tx)).
  { exact (f_equal (fun r => lift r (at_ pre rest tx)) (parse_item_split w Hw pre rest Hb Hlen)). }
  rewrite Hnext. destruct (split_item w rest) as [[h l]|] eqn:Hs.
  - left. destruct (split_item_sound w rest h l Hb Hs) as
      (enc & p & tail & Hrest & Hh & Hl & Hstr & Hlst).
    assert (Hitem : rlp_item w enc p).
    { destruct rest as [|b r]; [done|]. destruct (Z.lt_ge_cases b 0xc0).
      - left. apply Hstr. by do 2 eexists.
      - right. apply Hlst. by do 2 eexists. }
    destruct (rlp_item_header _ _ _ Hitem) as [hdr ->].
    rewrite length_app in Hh. assert (h = length hdr) as -> by lia. subst l.
    rewrite <- app_assoc in Hrest. subst rest.
    exists hdr, p, tail. split; [done|]. split; [done|]. split; [done|]. split; [done|].
    simpl. by rewrite length_app, Nat2Z.inj_add.
  - right. split; [done|]. intros enc p tail -> Hitem.
    by rewrite (split_item_complete _ _ _ _ Hitem) in Hs.
Qed.

Lemma advance_at pre hdr p tail tx :
  Z.of_nat (length (pre ++ hdr ++ p ++ tail)) < 2147483648 ->
  advance w (Z.of_nat (length hdr) + Z.of_nat (length p)) (at_ pre (hdr ++ p ++ tail) tx) =
  DOk tt (at_ (pre ++ hdr ++ p) tail tx).
Proof.
  rewrite !length_app. intros Hl. unfold advance, at_. cbn [cur remaining txo].
  rewrite !length_app. rewrite (wrap_small w Hw) by lia.
  do 2 f_equal; lia.
Qed.

(** The payload of the item at the cursor is the only one the grammar allows. *)
Lemma payload_unique rest hdr p tail enc q t :
  rest = hdr ++ p ++ tail -> rlp_item w (hdr ++ p) p ->
  rest = enc ++ t -> rlp_item w enc q -> enc = hdr ++ p /\ q = p /\ t = tail.
Proof.
  intros Hrest Hitem E Hq. rewrite Hrest, app_assoc in E.
  by destruct (rlp_item_unique _ _ _ _ _ _ _ Hitem Hq E) as (-> & -> & ->).
Qed.

Lemma rd_range_payload pre rest hdr p tail :
  rest = hdr ++ p ++ tail ->
  rd_range (pre ++ rest) (Z.of_nat (length (pre ++ hdr))) (Z.of_nat (length p)) = Ok p.
Proof. intros ->. rewrite app_assoc. apply rd_range_app. Qed.

Lemma rd_payload pre rest hdr p tail (i : nat) b :
  rest = hdr ++ p ++ tail -> p !! i = Some b ->
  rd (pre ++ rest) (Z.of_nat (length (pre ++ hdr)) + Z.of_nat i) = Ok b.
Proof.
  intros -> Hi. rewrite app_assoc, rd_app.
  by rewrite (lookup_app_l_Some _ _ _ _ Hi).
Qed.

(** Storing a payload and moving on. *)
Lemma store_advance pre rest hdr p tail tx upd :
  input_ok (pre ++ rest) -> rest = hdr ++ p ++ tail ->
  (upd_tx upd ≫= fun _ => advance w (Z.of_nat (length hdr) + Z.of_nat (length p)))
    (at_ pre rest tx) = DOk tt (at_ (pre ++ hdr ++ p) tail (upd tx)).
Proof.
  intros [_ Hl] ->. erewrite bind_DOk by done.
  by apply (advance_at pre hdr p tail (upd tx)).
Qed.

Lemma int_item_contract max store :
  item_contract (fun buf => int_item w buf max store) (uint_field w max) store.
Proof.
  intros pre rest tx Hok. unfold int_item.
  destruct (next_item_cases pre rest tx Hok) as
    [(hdr & p & tail & Hrest & Hitem & _ & _ & Hn)|[Hn Hno]].
  2:{ rewrite (bind_DErr _ _ _ _ Hn). intros enc p tail E [HG _]. by apply (Hno enc p tail). }
  rewrite (bind_DOk _ _ _ _ _ Hn). clear Hn.
  destruct (Z.ltb_spec (Z.of_nat max) (Z.of_nat (length p))) as [Hmax|Hmax].
  { intros enc q t E (Hq & Hm & _).
    destruct (payload_unique _ _ _ _ _ _ _ Hrest Hitem E Hq) as (_ & -> & _). lia. }
  rewrite (bind_DOk _ _ _ (bool_decide (head p = Some 0)) (at_ pre rest tx)).
  2:{ destruct p as [|b p]; [done|].
    rewrite (proj2 (Z.ltb_lt _ _)) by (simpl; lia).
    pose proof (rd_payload pre rest hdr (b :: p) tail 0 b Hrest eq_refl) as Hrd.
    rewrite Z.add_0_r in Hrd. unfold lift. cbn [mbind res_bind]. rewrite Hrd. simpl. f_equal.
    destruct (Z.eqb_spec b 0) as [->|]; case_bool_decide; congruence. }
  case_bool_decide as Hz.
  { intros enc q t E (Hq & _ & Hh).
    by destruct (payload_unique _ _ _ _ _ _ _ Hrest Hitem E Hq) as (_ & -> & _). }
  rewrite (bind_DOk _ _ _ p (at_ pre rest tx))
    by (unfold lift; by rewrite (rd_range_payload _ _ _ _ _ Hrest)).
  rewrite (store_advance _ _ _ _ _ _ _ Hok Hrest).
  exists (hdr ++ p), p, tail. rewrite <- app_assoc.
  split; [done|]. split; [split_and!; [done|lia|done]|done].
Qed.

Lemma to_item_contract : item_contract (to_item w) (to_field w) set_to.
Proof.
  intros pre rest tx Hok. unfold to_item.
  destruct (next_item_cases pre rest tx Hok) as
    [(hdr & p & tail & Hrest & Hitem & _ & _ & Hn)|[Hn Hno]].
  2:{ rewrite (bind_DErr _ _ _ _ Hn). intros enc p tail E [HG _]. by apply (Hno enc p tail). }
  rewrite (bind_DOk _ _ _ _ _ Hn). clear Hn.
  destruct (negb (Z.of_nat (length p) =? Z.of_nat ADDRESS_LENGTH) &&
            negb (Z.of_nat (length p) =? 0)) eqn:Hc.
  { intros enc q t E [Hq Hl].
    destruct (payload_unique _ _ _ _ _ _ _ Hrest Hitem E Hq) as (_ & -> & _).
    apply andb_true_iff in Hc as [H1%negb_true_iff%Z.eqb_neq H2%negb_true_iff%Z.eqb_neq].
    destruct Hl as [Hl| ->]; [lia|simpl in H2; lia]. }
  rewrite (bind_DOk _ _ _ p (at_ pre rest tx))
    by (unfold lift; by rewrite (rd_range_payload _ _ _ _ _ Hrest)).
  rewrite (store_advance _ _ _ _ _ _ _ Hok Hrest).
  exists (hdr ++ p), p, tail. rewrite <- app_assoc.
  split; [done|]. split; [|done]. split; [done|].
  apply andb_false_iff in Hc as [H%negb_false_iff%Z.eqb_eq|H%negb_false_iff%Z.eqb_eq];
    [left; lia|right; apply nil_length_inv; lia].
Qed.

Lemma negb_len_0 {A} (p : list A) : negb (Z.of_nat (length p) =? 0) = bool_decide (p <> []).
Proof. destruct p; [done|]. rewrite bool_decide_true by done. simpl. by destruct (Z.eqb_spec 0 0). Qed.

Lemma data_item_contract :
  item_contract (data_item w) (rlp_string w) (fun p => set_has_data (bool_decide (p <> []))).
Proof.
  intros pre rest tx Hok. unfold data_item. erewrite bind_DOk by done.
  set (bad := match rest with [] => true | b :: _ => 0xc0 <=? b end).
  rewrite (bind_DOk _ _ _ bad (at_ pre rest tx)).
  2:{ unfold at_, bad. cbn [cur remaining]. destruct rest as [|b r]; [done|].
    rewrite (proj2 (Z.eqb_neq _ 0)) by (simpl; lia). unfold lift. by rewrite rd_app_0. }
  destruct bad eqn:Hbad.
  { intros enc p tail E HG. apply rlp_string_start in HG as (b & r & -> & Hb).
    unfold bad in Hbad. rewrite E in Hbad. simpl in Hbad. apply Z.leb_le in Hbad. lia. }
  assert (Hstart : starts_string rest).
  { destruct rest as [|b r]; [done|]. exists b, r. split; [done|]. by apply Z.leb_gt in Hbad. }
  destruct (next_item_cases pre rest tx Hok) as
    [(hdr & p & tail & Hrest & Hitem & Hstr & _ & Hn)|[Hn Hno]].
  2:{ rewrite (bind_DErr _ _ _ _ Hn). intros enc p tail E HG.
      apply (Hno enc p tail E). by left. }
  rewrite (bind_DOk _ _ _ _ _ Hn), negb_len_0.
  rewrite (store_advance _ _ _ _ _ _ _ Hok Hrest).
  exists (hdr ++ p), p, tail. rewrite <- app_assoc. split_and!; [done|by apply Hstr|done].
Qed.

Lemma access_list_item_contract :
  item_contract (access_list_item w) (rlp_list w)
    (fun p => set_has_access_list (bool_decide (p <> []))).
Proof.
  intros pre rest tx Hok. unfold access_list_item. erewrite bind_DOk by done.
  set (bad := match rest with [] => true | b :: _ => b <? 0xc0 end).
  rewrite (bind_DOk _ _ _ bad (at_ pre rest tx)).
  2:{ unfold at_, bad. cbn [cur remaining]. destruct rest as [|b r]; [done|].
    rewrite (proj2 (Z.eqb_neq _ 0)) by (simpl; lia). unfold lift. by rewrite rd_app_0. }
  destruct bad eqn:Hbad.
  { intros enc p tail E HG. apply rlp_list_start in HG as (b & r & -> & Hb).
    unfold bad in Hbad. rewrite E in Hbad. simpl in Hbad. apply Z.ltb_lt in Hbad. lia. }
  assert (Hstart : starts_list rest).
  { destruct rest as [|b r]; [done|]. exists b, r. split; [done|]. by apply Z.ltb_ge in Hbad. }
  destruct (next_item_cases pre rest tx Hok) as
    [(hdr & p & tail & Hrest & Hitem & _ & Hlst & Hn)|[Hn Hno]].
  2:{ rewrite (bind_DErr _ _ _ _ Hn). intros enc p tail E HG.
      apply (Hno enc p tail E). by right. }
  rewrite (bind_DOk _ _ _ _ _ Hn), negb_len_0.
  rewrite (store_advance _ _ _ _ _ _ _ Hok Hrest).
  exists (hdr ++ p), p, tail. rewrite <- app_assoc. split_and!; [done|by apply Hlst|done].
Qed.

Lemma descriptor_item_contract :
  item_contract (descriptor_item w) (descriptor_field w) set_descriptor.
Proof.
  intros pre rest tx Hok. unfold descriptor_item.
  destruct (next_item_cases pre rest tx Hok) as
    [(hdr & p & tail & Hrest & Hitem & _ & _ & Hn)|[Hn Hno]].
  2:{ rewrite (bind_DErr _ _ _ _ Hn). intros enc p tail E [HG _]. by apply (Hno enc p tail). }
  rewrite (bind_DOk _ _ _ _ _ Hn). clear Hn.
  assert (Hfail : p <> [0x01; 0x00; 0x00] -> forall enc q t,
    rest = enc ++ t -> ~ descriptor_field w enc q).
  { intros Hp enc q t E [Hq ->].
    destruct (payload_unique _ _ _ _ _ _ _ Hrest Hitem E Hq) as (_ & <- & _). done. }
  destruct (Z.eqb_spec (Z.of_nat (length p)) 3) as [H3|H3]; cbn [negb].
  2:{ unfold fail. apply Hfail. by intros ->. }
  destruct p as [|b0 [|b1 [|b2 [|]]]]; simpl in H3; try lia.
  pose proof (rd_payload pre rest hdr _ tail 0 b0 Hrest eq_refl) as Hrd0.
  pose proof (rd_payload pre rest hdr _ tail 1 b1 Hrest eq_refl) as Hrd1.
  pose proof (rd_payload pre rest hdr _ tail 2 b2 Hrest eq_refl) as Hrd2.
  rewrite Z.add_0_r in Hrd0.
  change (Z.of_nat 1) with 1 in Hrd1. change (Z.of_nat 2) with 2 in Hrd2.
  rewrite (bind_DOk _ _ _ b0 (at_ pre rest tx)) by (unfold lift; by rewrite Hrd0).
  destruct (Z.eqb_spec b0 0x01) as [->|]; cbn [negb]; [|unfold fail; apply Hfail; congruence].
  rewrite (bind_DOk _ _ _ b1 (at_ pre rest tx)) by (unfold lift; by rewrite Hrd1).
  destruct (Z.eqb_spec b1 0x00) as [->|]; cbn [negb]; [|unfold fail; apply Hfail; congruence].
  rewrite (bind_DOk _ _ _ b2 (at_ pre rest tx)) by (unfold lift; by rewrite Hrd2).
  destruct (Z.eqb_spec b2 0x00) as [->|]; cbn [negb]; [|unfold fail; apply Hfail; congruence].
  rewrite (bind_DOk _ _ _ [1; 0; 0] (at_ pre rest tx))
    by (unfold lift; by rewrite (rd_range_payload pre rest hdr [1; 0; 0] tail Hrest)).
  rewrite (store_advance _ _ _ _ _ _ _ Hok Hrest).
  exists (hdr ++ [1; 0; 0]), [1; 0; 0], tail. rewrite <- app_assoc.
  split_and!; [done|by split|done].
Qed.

(** Contract of the rest of the decoder, whose grammar may depend on the
    position it starts at. *)
Definition prog_contract {A} (k : list Z -> dec ()) (G : nat -> list Z -> A -> Prop)
    (upd : A -> zond_tx_t -> zond_tx_t) : Prop :=
  forall pre rest tx, input_ok (pre ++ rest) ->
    match k (pre ++ rest) (at_ pre rest tx) with
    | DOk _ s => exists enc a tail, rest = enc ++ tail /\ G (length pre) enc a /\
        txo s = upd a tx
    | DErr _ => forall enc a tail, rest = enc ++ tail -> ~ G (length pre) enc a
    | DOob => False
    end.

Definition seqG {A B} (G1 : list Z -> A -> Prop) (G2 : nat -> list Z -> B -> Prop)
    (n : nat) (enc : list Z) (ab : A * B) : Prop :=
  exists e1 e2, enc = e1 ++ e2 /\ G1 e1 ab.1 /\ G2 (n + length e1)%nat e2 ab.2.

Lemma contract_seq {B} m k (G1 : list Z -> list Z -> Prop) (G2 : nat -> list Z -> B -> Prop)
    upd1 upd2 :
  (forall enc p, G1 enc p -> rlp_item w enc p) ->
  item_contract m G1 upd1 -> prog_contract k G2 upd2 ->
  prog_contract (fun buf => m buf ≫= fun _ => k buf) (seqG G1 G2)
    (fun ab tx => upd2 ab.2 (upd1 ab.1 tx)).
Proof.
  intros Hitem Hm Hk pre rest tx Hok. specialize (Hm pre rest tx Hok).
  destruct (m (pre ++ rest) (at_ pre rest tx)) as [[] s|s|] eqn:E; [| |done].
  - destruct Hm as (e1 & p & tail & -> & HG1 & ->).
    rewrite (bind_DOk _ _ _ _ _ E).
    rewrite app_assoc in Hok. specialize (Hk (pre ++ e1) tail (upd1 p tx) Hok).
    rewrite app_assoc.
    destruct (k ((pre ++ e1) ++ tail) _) as [u s|s|]; [| |done].
    + destruct Hk as (e2 & b & t2 & -> & HG2 & Htx). rewrite length_app in HG2.
      exists (e1 ++ e2), (p, b), t2. rewrite <- app_assoc. split; [done|].
      split; [|done]. by exists e1, e2.
    + intros enc [p' b] t Et (e1' & e2' & -> & HG1' & HG2'). cbn [fst snd] in *.
      rewrite <- app_assoc in Et.
      destruct (rlp_item_unique _ _ _ _ _ _ _ (Hitem _ _ HG1) (Hitem _ _ HG1') Et)
        as (<- & <- & ->).
      rewrite <- (length_app pre e1) in HG2'. by apply (Hk e2' b t).
  - rewrite (bind_DErr _ _ _ _ E).
    intros enc [p' b] t Et (e1' & e2' & -> & HG1' & _). rewrite <- app_assoc in Et.
    by apply (Hm e1' p' _ Et).
Qed.

(** The last item and the check that the list ends with it. *)
Definition lastG (payload_end : Z) (n : nat) (enc : list Z) (_ : ()) : Prop :=
  empty_field w enc [] /\ Z.of_nat (n + length enc) = payload_end.

Lemma last_contract payload_end :
  prog_contract
    (fun buf => extra_params_item w buf ≫= fun _ =>
       s ← get; if negb (cur s =? payload_end) then fail else mret tt)
    (lastG payload_end) (fun _ tx => tx).
Proof.
  intros pre rest tx Hok. unfold extra_params_item.
  destruct (next_item_cases pre rest tx Hok) as
    [(hdr & p & tail & Hrest & Hitem & _ & _ & Hn)|[Hn Hno]].
  2:{ erewrite bind_DErr by (by apply bind_DErr).
      unfold fail. intros enc [] tail E [[HG _] _]. by apply (Hno enc [] tail). }
  destruct (Z.eqb_spec (Z.of_nat (length p)) 0) as [H0|H0].
  2:{ erewrite bind_DErr.
      2:{ rewrite (bind_DOk _ _ _ _ _ Hn), (proj2 (Z.eqb_neq _ _)) by done.
          unfold fail. done. }
      intros enc [] t E [[Hq _] _].
      destruct (payload_unique _ _ _ _ _ _ _ Hrest Hitem E Hq) as (_ & <- & _). done. }
  assert (p = []) as -> by (apply nil_length_inv; lia). rewrite app_nil_r in Hitem.
  erewrite bind_DOk.
  2:{ rewrite (bind_DOk _ _ _ _ _ Hn), (proj2 (Z.eqb_eq _ _)) by done. done. }
  erewrite bind_DOk by done. unfold at_. cbn [cur remaining txo length].
  replace (Z.of_nat (length pre) + (Z.of_nat (length hdr) + Z.of_nat 0))
    with (Z.of_nat (length pre + length hdr)) by lia.
  destruct (Z.eqb_spec (Z.of_nat (length pre + length hdr)) payload_end) as [He|He]; cbn [negb].
  - exists hdr, tt, tail.
    split; [done|]. split; [|done]. by split.
  - unfold fail. intros enc [] t E [[Hq _] Hend].
    destruct (payload_unique _ _ [] _ _ _ _ Hrest ltac:(by rewrite app_nil_r) E Hq)
      as (-> & _ & _).
    by rewrite app_nil_r in Hend.
Qed.

(** The grammar of the eleven items and their combined effect. *)
Definition itemsG (payload_end : Z) :=
  seqG (uint_field w 32) (seqG (uint_field w 8) (seqG (uint_field w 32) (seqG (uint_field w 32)
  (seqG (uint_field w 8) (seqG (to_field w) (seqG (uint_field w 32) (seqG (rlp_string w)
  (seqG (rlp_list w) (seqG (descriptor_field w) (lastG payload_end)))))))))).

Lemma decode_items_contract payload_end :
  exists upd, prog_contract (fun buf => decode_items w buf payload_end)
    (itemsG payload_end) upd /\
    forall c n t f g o v d a, upd (c, (n, (t, (f, (g, (o, (v, (d, (a, ([1; 0; 0], tt))))))))))
      zero_tx = tx_of (Payloads c n t f g o v d a).
Proof.
  eexists. split; [unfold decode_items, itemsG|].
  - do 10 (apply contract_seq;
      [first [by intros ?? [? _]|by left|by right]
      |first [apply int_item_contract|apply to_item_contract|apply data_item_contract
             |apply access_list_item_contract|apply descriptor_item_contract]|]).
    apply last_contract.
  - done.
Qed.

(** The grammar of the items in the form [preimage] states it. *)
Definition items_of (body : list Z) (q : payloads) : Prop :=
  exists e1 e2 e3 e4 e5 e6 e7 e8 e9 e10 e11,
    body = e1 ++ e2 ++ e3 ++ e4 ++ e5 ++ e6 ++ e7 ++ e8 ++ e9 ++ e10 ++ e11 /\
    uint_field w 32 e1 (pl_chain_id q) /\ uint_field w 8 e2 (pl_nonce q) /\
    uint_field w 32 e3 (pl_tip q) /\ uint_field w 32 e4 (pl_cap q) /\
    uint_field w 8 e5 (pl_gas q) /\ to_field w e6 (pl_to q) /\
    uint_field w 32 e7 (pl_value q) /\ rlp_string w e8 (pl_data q) /\
    rlp_list w e9 (pl_access q) /\ descriptor_field w e10 [0x01; 0x00; 0x00] /\
    empty_field w e11 [].

Lemma preimage_items raw q trailing :
  preimage w raw q trailing <->
  exists lst body, raw = 0x02 :: lst ++ trailing /\ rlp_list w lst body /\ items_of body q.
Proof.
  split.
  - intros (lst & e1 & e2 & e3 & e4 & e5 & e6 & e7 & e8 & e9 & e10 & e11 & -> & Hl & H).
    exists lst. eexists. split; [done|]. split; [exact Hl|].
    by exists e1, e2, e3, e4, e5, e6, e7, e8, e9, e10, e11.
  - intros (lst & body & -> & Hl &
      (e1 & e2 & e3 & e4 & e5 & e6 & e7 & e8 & e9 & e10 & e11 & -> & H)).
    by exists lst, e1, e2, e3, e4, e5, e6, e7, e8, e9, e10, e11.
Qed.

Lemma itemsG_sound payload_end n enc a :
  itemsG payload_end n enc a ->
  exists c m t f g o v d l, a = (c, (m, (t, (f, (g, (o, (v, (d, (l, ([1; 0; 0], tt)))))))))) /\
    items_of enc (Payloads c m t f g o v d l) /\ Z.of_nat (n + length enc) = payload_end.
Proof.
  destruct a as (c & m & t & f & g & o & v & d & l & ds & []).
  intros (e1 & ? & -> & H1 & e2 & ? & -> & H2 & e3 & ? & -> & H3 & e4 & ? & -> & H4 &
    e5 & ? & -> & H5 & e6 & ? & -> & H6 & e7 & ? & -> & H7 & e8 & ? & -> & H8 &
    e9 & ? & -> & H9 & e10 & e11 & -> & [H10 Hds] & [H11 Hend]).
  cbn [fst snd] in *. subst ds.
  do 9 eexists. split; [done|]. split.
  - exists e1, e2, e3, e4, e5, e6, e7, e8, e9, e10, e11. by split_and!.
  - rewrite !length_app in *. lia.
Qed.

Lemma itemsG_complete payload_end n body q :
  items_of body q -> Z.of_nat (n + length body) = payload_end ->
  exists a, itemsG payload_end n body a.
Proof.
  intros (e1 & e2 & e3 & e4 & e5 & e6 & e7 & e8 & e9 & e10 & e11 & -> & H1 & H2 & H3 & H4 &
    H5 & H6 & H7 & H8 & H9 & H10 & H11) Hend.
  exists (pl_chain_id q, (pl_nonce q, (pl_tip q, (pl_cap q, (pl_gas q, (pl_to q, (pl_value q,
    (pl_data q, (pl_access q, ([1; 0; 0], tt)))))))))).
  do 10 (eexists _, _; split; [reflexivity|]; split; [done|]).
  split; [done|]. rewrite !length_app in Hend. lia.
Qed.

(** The items after the header of the outer list. *)
Lemma items_cases hdr body trailing :
  rlp_list w (hdr ++ body) body -> input_ok (2 :: (hdr ++ body) ++ trailing) ->
  let raw := 2 :: (hdr ++ body) ++ trailing in
  let r := match decode_items w raw (1 + Z.of_nat (length hdr) + Z.of_nat (length body))
      (DState (1 + Z.of_nat (length hdr)) (Z.of_nat (length (body ++ trailing))) zero_tx) with
    | DOk _ s => Decoded 0 (txo s)
    | DErr s => Decoded (-1) (txo s)
    | DOob => DecodeOob
    end in
  (exists q trailing, preimage w raw q trailing /\ r = Decoded 0 (tx_of q)) \/
  ((forall q trailing, ~ preimage w raw q trailing) /\ exists tx, r = Decoded (-1) tx).
Proof.
  intros HL Hok. cbv zeta. set (pe := 1 + Z.of_nat (length hdr) + Z.of_nat (length body)).
  destruct (decode_items_contract pe) as (upd & Hprog & Hupd).
  specialize (Hprog (2 :: hdr) (body ++ trailing) zero_tx).
  unfold at_ in Hprog. cbn [app] in Hprog. rewrite <- app_assoc in Hok |- *.
  replace (1 + Z.of_nat (length hdr)) with (Z.of_nat (length (2 :: hdr))) by (cbn [length]; lia).
  specialize (Hprog Hok).
  destruct (decode_items w _ pe _) as [u s|s|]; [| |done].
  - left. destruct Hprog as (enc & a & tl & E & HG & Htx).
    destruct (itemsG_sound _ _ _ _ HG) as (c & m & t & f & g & o & v & d & al & -> & Hitems & Hend).
    assert (length enc = length body) by (unfold pe in Hend; cbn [length] in Hend; lia).
    apply app_inj_1 in E as [<- <-]; [|done].
    eexists _, trailing. split; [|rewrite Htx; f_equal; apply Hupd].
    apply preimage_items. exists (hdr ++ body), body. by rewrite <- app_assoc.
  - right. split; [|by eexists].
    intros q t (lst & body' & [= E] & Hl & Hitems)%preimage_items.
    rewrite app_assoc in E.
    destruct (rlp_item_unique _ _ _ _ _ _ _ (or_intror HL) (or_intror Hl) E) as (_ & <- & _).
    destruct (itemsG_complete pe (length (2 :: hdr)) body q Hitems) as [a Ha].
    { unfold pe. cbn [length]. lia. }
    by apply (Hprog body a trailing).
Qed.

(** The whole decoder, by cases on the input. *)
Lemma decode_cases raw :
  input_ok raw ->
  let r := decode_ledger_tx w (Some raw) (Z.of_nat (length raw)) (Some zero_tx) in
  (exists q trailing, preimage w raw q trailing /\ r = Decoded 0 (tx_of q)) \/
  ((forall q trailing, ~ preimage w raw q trailing) /\ exists tx, r = Decoded (-1) tx).
Proof.
  intros [Hb Hlen]. cbv zeta. unfold decode_ledger_tx.
  destruct raw as [|b0 rest].
  { right. split; [|by eexists]. by intros q t (? & ? & ? & ? & ? & ? & ? & ? & ? & ? & ? & ? & ? & _). }
  rewrite (proj2 (Z.eqb_neq _ 0)) by (simpl; lia).
  change (rd (b0 :: rest) 0) with (Ok b0). cbn match.
  destruct (Z.eqb_spec b0 0x02) as [->|Hb0]; cbn [negb].
  2:{ right. split; [|by eexists]. intros q t (lst & body & [=] & _)%preimage_items. done. }
  apply Forall_cons_1 in Hb as [Hb0 Hb].
  rewrite (wrap_small w Hw) by (cbn [length] in *; lia).
  replace (Z.of_nat (length (2 :: rest)) - 1) with (Z.of_nat (length rest))
    by (cbn [length]; lia).
  pose proof (parse_list_header_split w Hw [2] rest Hb Hlen) as Hhdr.
  change (Z.of_nat (length [2])) with 1 in Hhdr. cbn [app] in Hhdr. rewrite Hhdr. clear Hhdr.
  assert (Hno : forall lst body tl, rest = lst ++ tl -> rlp_list w lst body ->
    starts_list rest /\ split_item w rest = Some ((length lst - length body)%nat, length body)).
  { intros lst body tl -> Hl. split; [|by apply split_list_complete].
    destruct (rlp_list_start _ _ _ Hl) as (b & r & -> & Hge). by exists b, (r ++ tl). }
  destruct rest as [|b r].
  { right. split; [|by eexists].
    intros q t (lst & body & [= E] & Hl & _)%preimage_items.
    by destruct (Hno _ _ _ E Hl) as [(? & ? & ? & _) _]. }
  destruct (Z.ltb_spec b 0xc0).
  { right. split; [|by eexists].
    intros q t (lst & body & [= E] & Hl & _)%preimage_items.
    destruct (Hno _ _ _ E Hl) as [(? & ? & [= <- <-] & ?) _]. lia. }
  destruct (split_item w (b :: r)) as [[h l]|] eqn:Hs.
  2:{ right. split; [|by eexists].
    intros q t (lst & body & [= E] & Hl & _)%preimage_items.
    by destruct (Hno _ _ _ E Hl) as [_ ?]. }
  destruct (split_item_sound w _ h l Hb Hs) as (lst & body & trailing & Hrest & Hh & Hl & _ & HL).
  specialize (HL ltac:(by do 2 eexists)).
  destruct (rlp_item_header _ _ _ (or_intror HL)) as [hdr ->].
  rewrite length_app in Hh. assert (h = length hdr) as -> by lia. subst l. clear Hno Hs.
  rewrite Hrest in *. cbn [length] in Hlen. rewrite !length_app in Hlen.
  rewrite (wrap_small w Hw) by (rewrite !length_app; lia).
  rewrite (proj2 (Z.ltb_ge _ _)) by (rewrite !length_app; lia).
  replace (Z.of_nat (length ((hdr ++ body) ++ trailing)) - Z.of_nat (length hdr))
    with (Z.of_nat (length (body ++ trailing))) by (rewrite !length_app; lia).
  apply items_cases; [exact HL|]. split; [by constructor|]. cbn [length]. rewrite !length_app. lia.
Qed.
End decoder.

(** ** The canonical encoder *)

(** Minimal big-endian bytes of [n < 256^fuel]. *)
Fixpoint be_bytes (fuel : nat) (n : Z) : list Z :=
  match fuel with
  | O => []
  | S f => if n =? 0 then [] else be_bytes f (n / 256) ++ [n mod 256]
  end.

Definition enc_header (short long : Z) (n : Z) : list Z :=
  if n <? 56 then [short + n]
  else let lb := be_bytes 8 n in (long + Z.of_nat (length lb)) :: lb.

Definition enc_string (p : list Z) : list Z :=
  match p with
  | [b] => if b <? 0x80 then [b] else 0x81 :: p
  | _ => enc_header 0x80 0xb7 (Z.of_nat (length p)) ++ p
  end.
Definition enc_list (p : list Z) : list Z := enc_header 0xc0 0xf7 (Z.of_nat (length p)) ++ p.

Definition encode_body (q : payloads) : list Z :=
  enc_string (pl_chain_id q) ++ enc_string (pl_nonce q) ++ enc_string (pl_tip q) ++
  enc_string (pl_cap q) ++ enc_string (pl_gas q) ++ enc_string (pl_to q) ++
  enc_string (pl_value q) ++ enc_string (pl_data q) ++ enc_list (pl_access q) ++
  enc_string [0x01; 0x00; 0x00] ++ enc_string [].
Definition encode_tx (q : payloads) : list Z := 0x02 :: enc_list (encode_body q).

(** The limits of [doc/TRANSACTION.md] on the payloads. *)
Definition uint_ok (max : nat) (p : list Z) : Prop :=
  bytes p /\ (length p <= max)%nat /\ head p <> Some 0.
Record payloads_ok (q : payloads) : Prop := {
  ok_chain_id : uint_ok 32 (pl_chain_id q);
  ok_nonce : uint_ok 8 (pl_nonce q);
  ok_tip : uint_ok 32 (pl_tip q);
  ok_cap : uint_ok 32 (pl_cap q);
  ok_gas : uint_ok 8 (pl_gas q);
  ok_to : bytes (pl_to q) /\ (length (pl_to q) = ADDRESS_LENGTH \/ pl_to q = []);
  ok_value : uint_ok 32 (pl_value q);
  ok_data : bytes (pl_data q);
  ok_access : bytes (pl_access q);
  ok_size : Z.of_nat (length (encode_tx q)) < 2147483648
}.

Lemma be_bytes_spec f n :
  0 <= n < 256 ^ Z.of_nat f ->
  bytes (be_bytes f n) /\ be_val (be_bytes f n) = n /\ (length (be_bytes f n) <= f)%nat /\
  head (be_bytes f n) <> Some 0 /\ (0 < n -> (1 <= length (be_bytes f n))%nat).
Proof.
  revert n. induction f as [|f IH]; intros n Hn; cbn [be_bytes].
  { change (256 ^ Z.of_nat 0) with 1 in Hn. change (be_val []) with 0.
    split_and!; [done|lia|simpl; lia|done|lia]. }
  rewrite Nat2Z.inj_succ, Z.pow_succ_r in Hn by lia.
  destruct (Z.eqb_spec n 0) as [->|H0].
  { split_and!; [done|done|simpl; lia|done|lia]. }
  assert (Hdiv : 0 <= n / 256 < 256 ^ Z.of_nat f)
    by (split; [apply Z.div_pos; lia|apply Z.div_lt_upper_bound; lia]).
  destruct (IH (n / 256) Hdiv) as (Hb & Hv & Hl & Hh & Hp).
  pose proof (Z.mod_pos_bound n 256 ltac:(lia)) as Hm.
  split_and!.
  - apply Forall_app. split; [done|]. by repeat constructor; lia.
  - rewrite be_val_app, Hv. change (256 ^ Z.of_nat (length [_])) with 256.
    change (be_val [_]) with (n mod 256). dlia.
  - rewrite length_app. simpl. lia.
  - destruct (be_bytes f (n / 256)) as [|b l] eqn:E; [|done].
    change (be_val []) with 0 in Hv. simpl. intros [= H]. dlia.
  - intros _. rewrite length_app. simpl. lia.
Qed.

Section encoder.
Context (w : Z) (Hw : 32 <= w).

Lemma long_len_be n :
  56 <= n < 4294967296 -> long_len w (be_bytes 8 n) n.
Proof.
  intros Hn. pose proof (pow_w w Hw).
  destruct (be_bytes_spec 8 n) as (Hb & Hv & Hl & Hh & Hp).
  { change (256 ^ Z.of_nat 8) with 18446744073709551616. lia. }
  split; [specialize (Hp ltac:(lia)); lia|]. split; [done|].
  split; [|lia]. rewrite Hv. apply Z.mod_small. lia.
Qed.

Lemma enc_string_ok p :
  bytes p -> Z.of_nat (length p) < 4294967296 -> rlp_string w (enc_string p) p.
Proof.
  intros Hp Hlen.
  assert (Hgen : length p <> 1%nat ->
    rlp_string w (enc_header 0x80 0xb7 (Z.of_nat (length p)) ++ p) p).
  { intros H1. unfold enc_header. destruct (Z.ltb_spec (Z.of_nat (length p)) 56).
    - apply rs_short; [lia|]. by intros b ->.
    - apply rs_long, long_len_be. lia. }
  destruct p as [|b [|c p]]; cbn [enc_string]; [by apply Hgen| |by apply Hgen].
  apply Forall_cons_1 in Hp as [Hb _]. unfold is_u8 in Hb.
  destruct (Z.ltb_spec b 0x80); [apply rs_single; lia|].
  apply (rs_short w [b]); [simpl; lia|]. intros c [= ->]. lia.
Qed.

Lemma enc_list_ok p :
  Z.of_nat (length p) < 4294967296 -> rlp_list w (enc_list p) p.
Proof.
  intros Hlen. unfold enc_list, enc_header. destruct (Z.ltb_spec (Z.of_nat (length p)) 56).
  - apply rl_short. lia.
  - apply rl_long, long_len_be. lia.
Qed.

Lemma uint_field_enc max p : uint_ok max p -> (max <= 32)%nat -> uint_field w max (enc_string p) p.
Proof.
  intros (Hb & Hl & Hh) Hmax. split; [left; apply enc_string_ok; [done|lia]|done].
Qed.

Lemma preimage_encode q : payloads_ok q -> preimage w (encode_tx q) q [].
Proof.
  intros Hq. pose proof (ok_size q Hq) as Hsz.
  assert (Hlen : (length (encode_body q) <= length (encode_tx q))%nat)
    by (unfold encode_tx, enc_list; cbn [length]; rewrite length_app; lia).
  assert (Hlen' : Z.of_nat (length (encode_body q)) < 2147483648) by lia.
  assert (Hd : (length (pl_data q) <= length (encode_body q))%nat /\
               (length (pl_access q) <= length (encode_body q))%nat).
  { assert (He : forall p, (length p <= length (enc_string p))%nat).
    { intros p. unfold enc_string. destruct p as [|b [|? ?]]; [simpl; lia| |];
        [case_match; simpl; lia|rewrite length_app; lia]. }
    pose proof (He (pl_data q)). unfold encode_body. rewrite !length_app.
    unfold enc_list. rewrite length_app. lia. }
  apply preimage_items. exists (enc_list (encode_body q)), (encode_body q).
  split; [by rewrite app_nil_r|]. split; [apply enc_list_ok; lia|].
  do 11 eexists. split; [reflexivity|].
  destruct Hq as [H1 H2 H3 H4 H5 [H6b H6] H7 H8 H9 _].
  split_and!; try (by apply uint_field_enc; [done|lia]).
  - split; [left; apply enc_string_ok; [done|]|done].
    destruct H6 as [-> | ->]; [vm_compute; congruence|simpl; lia].
  - apply enc_string_ok; [done|lia].
  - apply enc_list_ok. lia.
  - split; [left; apply enc_string_ok; [|simpl; lia]|done].
    repeat constructor; vm_compute; congruence.
  - split; [left; apply enc_string_ok; [done|simpl; lia]|done].
Qed.
End encoder.
