(* ===== verification/RlpThms.v ===== *)
(** * Properties of the transaction parser

    [decode_ledger_tx] accepts exactly the preimages of the grammar of
    [RlpSpec], inverts the canonical encoder, and on a 64-bit [size_t] admits
    no other encoding of an item; the remaining theorems state what the grammar
    leaves open. *)
From S2P Require Import Prelude CInt Constants Rlp RlpSpec.

(** ** An input has one reading *)
Section unique.
Context (w : Z) (Hw : 32 <= w).

Lemma item_head_unique (G : list Z -> list Z -> Prop) e1 p1 r1 e2 p2 r2 :
  G e1 p1 -> G e2 p2 -> e1 ++ r1 = e2 ++ r2 ->
  (forall enc p, G enc p -> rlp_item w enc p) -> p1 = p2 /\ r1 = r2.
Proof.
  intros H1 H2 E HG.
  by destruct (rlp_item_unique w _ _ _ _ _ _ (HG _ _ H1) (HG _ _ H2) E) as (_ & -> & ->).
Qed.

(** Peel the items [H] and [G] off two equal inputs. *)
Ltac next_field H G Eb :=
  let E := fresh "E" in let Eb' := fresh "Eb" in
  destruct (item_head_unique _ _ _ _ _ _ _ H G Eb) as [E Eb'];
  [first [by intros ?? [? _]|by left|by right]|]; clear Eb H G; rename Eb' into Eb.

Lemma items_of_unique body1 body2 q1 q2 :
  body1 = body2 -> items_of w body1 q1 -> items_of w body2 q2 -> q1 = q2.
Proof.
  destruct q1 as [c1 n1 m1 f1 g1 o1 v1 d1 x1], q2 as [c2 n2 m2 f2 g2 o2 v2 d2 x2]. intros Eb.
  intros (a1 & a2 & a3 & a4 & a5 & a6 & a7 & a8 & a9 & a10 & a11 & Ea & H1 & H2 & H3 & H4 &
    H5 & H6 & H7 & H8 & H9 & _)
    (b1 & b2 & b3 & b4 & b5 & b6 & b7 & b8 & b9 & b10 & b11 & Ec & G1 & G2 & G3 & G4 &
    G5 & G6 & G7 & G8 & G9 & _).
  rewrite Ea, Ec in Eb. clear Ea Ec. cbn [pl_chain_id pl_nonce pl_tip pl_cap pl_gas pl_to
    pl_value pl_data pl_access] in *.
  next_field H1 G1 Eb. next_field H2 G2 Eb. next_field H3 G3 Eb. next_field H4 G4 Eb. next_field H5 G5 Eb. next_field H6 G6 Eb.
  next_field H7 G7 Eb. next_field H8 G8 Eb. next_field H9 G9 Eb. congruence.
Qed.

Lemma preimage_unique raw q1 t1 q2 t2 :
  preimage w raw q1 t1 -> preimage w raw q2 t2 -> q1 = q2 /\ t1 = t2.
Proof.
  intros (l1 & b1 & -> & Hl1 & Hi1)%preimage_items (l2 & b2 & [= E] & Hl2 & Hi2)%preimage_items.
  destruct (rlp_item_unique w _ _ _ _ _ _ (or_intror Hl1) (or_intror Hl2) E)
    as (_ & Eb & ->). split; [|done]. by eapply items_of_unique.
Qed.

Lemma decode_of_preimage raw q t :
  input_ok raw -> preimage w raw q t ->
  decode_ledger_tx w (Some raw) (Z.of_nat (length raw)) (Some zero_tx) = Decoded 0 (tx_of q).
Proof.
  intros Hok Hp. destruct (decode_cases w Hw raw Hok) as [(q' & t' & Hp' & ->)|[Hno _]].
  - by destruct (preimage_unique _ _ _ _ _ Hp Hp') as [-> _].
  - by destruct (Hno q t).
Qed.
End unique.

(** C7. The parser accepts an input exactly when it is a
    preimage of the grammar, fills the structure from the payloads, rejects
    every other input, and reads no byte outside the input. *)
Theorem decode_accepts_exactly_preimages (w : Z) (raw : list Z)
  (Hw : 32 <= w) (Hok : input_ok raw) :
  let r := decode_ledger_tx w (Some raw) (Z.of_nat (length raw)) (Some zero_tx) in
  r <> DecodeOob /\
  (forall tx, r = Decoded 0 tx <->
     exists q trailing, preimage w raw q trailing /\ tx = tx_of q) /\
  ((exists tx, r = Decoded (-1) tx) <-> forall q trailing, ~ preimage w raw q trailing).
Proof.
  cbv zeta. destruct (decode_cases w Hw raw Hok) as [(q & t & Hp & Hr)|[Hno [tx Hr]]];
    rewrite Hr.
  - split; [done|]. split.
    + intros tx. split; [intros [= <-]; eauto|].
      intros (q' & t' & Hp' & ->). by destruct (preimage_unique _ _ _ _ _ _ Hp Hp') as [-> _].
    + split; [intros [? [=]]|]. intros Hno. by destruct (Hno _ _ Hp).
  - split; [done|]. split.
    + intros tx'. split; [intros [=]|]. intros (q & t & Hp & _). by destruct (Hno _ _ Hp).
    + split; [done|eauto].
Qed.

(** A transfer: chain 1, nonce 2, fees, 21000 gas, 10^18 units to [b5b5..b5]. *)
Definition sample_tx : payloads :=
  Payloads [1] [2] [0x3b; 0x9a; 0xca; 0] [0x77; 0x35; 0x94; 0] [0x52; 0x08]
    (replicate 64 0xb5) [0x0d; 0xe0; 0xb6; 0xb3; 0xa7; 0x64; 0; 0] [] [].

Lemma decode_accepts_exactly_preimages_witness :
  input_ok (encode_tx sample_tx) /\
  let r := decode_ledger_tx 32 (Some (encode_tx sample_tx))
             (Z.of_nat (length (encode_tx sample_tx))) (Some zero_tx) in
  r <> DecodeOob /\
  (forall tx, r = Decoded 0 tx <->
     exists q trailing, preimage 32 (encode_tx sample_tx) q trailing /\ tx = tx_of q) /\
  ((exists tx, r = Decoded (-1) tx) <->
     forall q trailing, ~ preimage 32 (encode_tx sample_tx) q trailing).
Proof.
  assert (Hok : input_ok (encode_tx sample_tx)).
  { split; [|vm_compute; reflexivity].
    vm_compute. repeat (constructor; [split; congruence|]). constructor. }
  split; [exact Hok|]. apply decode_accepts_exactly_preimages; [vm_compute; congruence|exact Hok].
Defined.

(** ** Round trip *)

Lemma payloads_ok_input q : payloads_ok q -> input_ok (encode_tx q).
Proof.
  intros Hq. split; [|apply Hq].
  destruct Hq as [[H1 _] [H2 _] [H3 _] [H4 _] [H5 _] [H6 _] [H7 _] H8 H9 Hsz].
  assert (Hhdr : forall a b n, 0 <= a <= 200 -> 0 <= b <= 247 -> 0 <= n < 4294967296 ->
    bytes (enc_header a b n)).
  { intros a b n Ha Hb Hn. unfold enc_header. destruct (Z.ltb_spec n 56).
    - repeat constructor; lia.
    - destruct (be_bytes_spec 8 n) as (Hbb & _ & Hl & _).
      { change (256 ^ Z.of_nat 8) with 18446744073709551616. lia. }
      constructor; [unfold is_u8; lia|done]. }
  assert (Hs : forall p, bytes p -> (length p <= length (encode_tx q))%nat ->
    bytes (enc_string p)).
  { intros p Hp Hl. destruct p as [|b [|c p]]; cbn [enc_string].
    - repeat constructor; lia.
    - destruct (b <? 0x80); [done|]. constructor; [unfold is_u8; lia|done].
    - apply Forall_app. split; [apply Hhdr; lia|done]. }
  assert (Hle : forall p, (length p <= length (enc_string p))%nat).
  { intros p. unfold enc_string. destruct p as [|b [|? ?]]; [simpl; lia| |];
      [case_match; simpl; lia|rewrite length_app; lia]. }
  assert (Hlb : (length (encode_body q) <= length (encode_tx q))%nat)
    by (unfold encode_tx, enc_list; cbn [length]; rewrite length_app; lia).
  unfold encode_tx. constructor; [unfold is_u8; lia|]. unfold enc_list at 1.
  apply Forall_app. split; [apply Hhdr; lia|].
  unfold encode_body in *. rewrite !length_app in Hlb.
  assert (Ha : (length (pl_access q) <= length (enc_list (pl_access q)))%nat)
    by (unfold enc_list; rewrite length_app; lia).
  rewrite !Forall_app. split_and!;
    try (match goal with |- bytes (enc_string ?p) =>
      pose proof (Hle p); apply Hs; [done|cbn [length] in *; lia] end).
  - unfold enc_list. apply Forall_app. split; [apply Hhdr; lia|done].
  - repeat constructor; lia.
Qed.

(** C24. Decoding the canonical encoding of a transaction
    within the documented limits gives back its fields. *)
Theorem decode_encode_roundtrip (w : Z) (q : payloads) (Hw : 32 <= w) (Hq : payloads_ok q) :
  decode_ledger_tx w (Some (encode_tx q)) (Z.of_nat (length (encode_tx q))) (Some zero_tx)
  = Decoded 0 (tx_of q).
Proof.
  apply (decode_of_preimage w Hw _ q []); [by apply payloads_ok_input|by apply preimage_encode].
Qed.

Lemma sample_tx_ok : payloads_ok sample_tx.
Proof.
  split; unfold uint_ok; split_and?; try (by apply bytesb_bytes); try (vm_compute; lia);
    try (vm_compute; congruence); try reflexivity; try (left; reflexivity).
Qed.

Lemma decode_encode_roundtrip_witness :
  decode_ledger_tx 64 (Some (encode_tx sample_tx)) (Z.of_nat (length (encode_tx sample_tx)))
    (Some zero_tx) = Decoded 0 (tx_of sample_tx).
Proof.
  apply decode_encode_roundtrip; [vm_compute; congruence|exact sample_tx_ok].
Defined.

(** ** Canonicity at 64 bits *)
Lemma be_bytes_val f lb :
  bytes lb -> head lb <> Some 0 -> (length lb <= f)%nat -> be_bytes f (be_val lb) = lb.
Proof.
  revert lb. induction f as [|f IH]; intros lb Hb Hh Hl.
  - by destruct lb; [|simpl in Hl; lia].
  - destruct lb as [|b lb] using rev_ind; [done|]. clear IHlb.
    apply Forall_app in Hb as [Hlb [Hb _]%Forall_cons_1]. unfold is_u8 in Hb.
    rewrite length_app in Hl. simpl in Hl.
    rewrite be_val_app. change (256 ^ Z.of_nat (length [b])) with 256. change (be_val [b]) with b.
    pose proof (be_val_range lb Hlb) as Hr. cbn [be_bytes].
    destruct (Z.eqb_spec (be_val lb * 256 + b) 0) as [E|_].
    { exfalso. assert (be_val lb = 0 /\ b = 0) as [E1 ->] by lia.
      destruct lb as [|c lb]; [done|]. apply Forall_cons_1 in Hlb as [Hc Hlb].
      rewrite be_val_cons in E1. pose proof (be_val_range lb Hlb).
      unfold is_u8 in Hc. simpl in Hh. assert (c <> 0) by congruence. nia. }
    rewrite Z.div_add_l, Z.div_small, Z.add_0_r by lia.
    rewrite (Z.add_comm _ b), Z_mod_plus_full, Z.mod_small by lia.
    f_equal. apply IH; [done| |lia].
    destruct lb; [done|]. exact Hh.
Qed.

Lemma long_len_64 lb n : bytes lb -> long_len 64 lb n -> lb = be_bytes 8 n /\ 56 <= n.
Proof.
  intros Hb (Hl & Hh & Hv & H56). split; [|done]. subst n.
  pose proof (be_val_range lb Hb) as Hr.
  assert (256 ^ Z.of_nat (length lb) <= 2 ^ 64).
  { change (2 ^ 64) with (256 ^ 8). apply Z.pow_le_mono_r; lia. }
  rewrite Z.mod_small by lia. symmetry. apply be_bytes_val; [done|done|lia].
Qed.

(** With a 64-bit [size_t] the parser admits one encoding of a string and one
    of a list: the canonical ones. *)
Theorem items_canonical_64 (enc p : list Z) (Hb : bytes enc) :
  (rlp_string 64 enc p -> enc = enc_string p) /\ (rlp_list 64 enc p -> enc = enc_list p).
Proof.
  split.
  - intros Hs. revert Hb. destruct Hs as [b Hs|q Hq Hc|lb q Hl]; intros Hb.
    + unfold enc_string. by rewrite (proj2 (Z.ltb_lt _ _)) by lia.
    + unfold enc_string, enc_header. destruct q as [|b [|c q]]; [done| |].
      * specialize (Hc b eq_refl). by rewrite (proj2 (Z.ltb_ge _ _)) by lia.
      * by rewrite (proj2 (Z.ltb_lt _ _)) by lia.
    + apply Forall_cons_1 in Hb as [_ [Hlb _]%Forall_app].
      apply long_len_64 in Hl as [-> H56]; [|done].
      unfold enc_string, enc_header. destruct q as [|b [|c q]]; simpl in H56; try lia.
      rewrite (proj2 (Z.ltb_ge _ _)) by (simpl; lia). done.
  - intros Hs. revert Hb. destruct Hs as [q Hq|lb q Hl]; intros Hb;
      unfold enc_list, enc_header.
    + by rewrite (proj2 (Z.ltb_lt _ _)) by lia.
    + apply Forall_cons_1 in Hb as [_ [Hlb _]%Forall_app].
      apply long_len_64 in Hl as [-> H56]; [|done].
      by rewrite (proj2 (Z.ltb_ge _ _)) by lia.
Qed.

Lemma items_canonical_64_witness :
  (rlp_string 64 [0x82; 1; 2] [1; 2] -> [0x82; 1; 2] = enc_string [1; 2]) /\
  (rlp_list 64 [0x82; 1; 2] [1; 2] -> [0x82; 1; 2] = enc_list [1; 2]).
Proof. apply items_canonical_64. repeat constructor; vm_compute; congruence. Defined.

(** ** What the grammar leaves open *)

(** C39. Bytes after the outer list do not change the outcome of an accepted
    transaction: they are signed but neither parsed nor shown. *)
Theorem trailing_bytes_accepted (w : Z) (q : payloads) (extra : list Z)
  (Hw : 32 <= w) (Hq : payloads_ok q) (Hok : input_ok (encode_tx q ++ extra)) :
  let raw := encode_tx q ++ extra in
  decode_ledger_tx w (Some raw) (Z.of_nat (length raw)) (Some zero_tx) = Decoded 0 (tx_of q).
Proof.
  cbv zeta. apply (decode_of_preimage w Hw _ q extra); [done|].
  apply preimage_items.
  destruct (proj1 (preimage_items _ _ _ _) (preimage_encode w Hw q Hq))
    as (lst & body & E & Hl & Hi).
  rewrite app_nil_r in E. exists lst, body. by rewrite E.
Qed.

Lemma trailing_bytes_accepted_witness :
  let raw := encode_tx sample_tx ++ [0xde; 0xad] in
  decode_ledger_tx 32 (Some raw) (Z.of_nat (length raw)) (Some zero_tx)
  = Decoded 0 (tx_of sample_tx).
Proof.
  apply trailing_bytes_accepted; [vm_compute; congruence| |].
  - exact sample_tx_ok.
  - split; [by apply bytesb_bytes|vm_compute; reflexivity].
Defined.

(** A preimage whose data item has an eight-byte length [01 00 00 00 00 00 00 38]
    and 56 bytes of payload, and one whose chain id is the list [c1 01]. *)
Definition overlong_length : list Z :=
  let body := enc_string [1] ++ enc_string [2] ++ enc_string [3] ++ enc_string [4] ++
    enc_string [5] ++ enc_string [] ++ enc_string [] ++
    [0xbf; 1; 0; 0; 0; 0; 0; 0; 56] ++ replicate 56 0x11 ++ enc_list [] ++
    enc_string [1; 0; 0] ++ enc_string [] in 0x02 :: enc_list body.
Definition list_typed_chain_id : list Z :=
  let body := [0xc1; 1] ++ enc_string [2] ++ enc_string [3] ++ enc_string [4] ++
    enc_string [5] ++ enc_string [] ++ enc_string [] ++ enc_string [] ++ enc_list [] ++
    enc_string [1; 0; 0] ++ enc_list [] in 0x02 :: enc_list body.

Definition accepted (w : Z) (raw : list Z) : bool :=
  match decode_ledger_tx w (Some raw) (Z.of_nat (length raw)) (Some zero_tx) with
  | Decoded ret _ => ret =? 0
  | DecodeOob => false
  end.

