(* ===== verification/RlpBuffer.v ===== *)
(** * The decoder on the bytes in use of a larger buffer

    The application decodes the first [raw_tx_len] bytes of a fixed buffer.  Bytes
    behind the length are never read, so the result is that of the bytes in use;
    the fields of a decoded transaction are within their arrays. *)
From S2P Require Import Prelude CInt Constants Rlp RlpSpec.

(** [m'] does what [m] does, except where [m] reads outside its buffer. *)
Definition res_le {A} (m m' : res A) : Prop := m = Oob \/ m = m'.
Definition dec_le {A} (m m' : dec A) : Prop := forall s, m s = DOob \/ m s = m' s.

Lemma res_le_refl {A} (m : res A) : res_le m m.
Proof. by right. Qed.
Lemma res_le_bind {A B} (m m' : res A) (f f' : A -> res B) :
  res_le m m' -> (forall a, res_le (f a) (f' a)) -> res_le (m ≫= f) (m' ≫= f').
Proof. intros [->| ->] Hf; [by left|]. destruct m'; simpl; [apply Hf|by right|by left]. Qed.
Lemma dec_le_refl {A} (m : dec A) : dec_le m m.
Proof. intros s. by right. Qed.
Lemma dec_le_bind {A B} (m m' : dec A) (f f' : A -> dec B) :
  dec_le m m' -> (forall a, dec_le (f a) (f' a)) -> dec_le (m ≫= f) (m' ≫= f').
Proof.
  intros Hm Hf s. unfold mbind, d_bind. destruct (Hm s) as [->| ->]; [by left|].
  destruct (m' s); [apply Hf|by right|by left].
Qed.
Lemma dec_le_lift {A} (m m' : res A) : res_le m m' -> dec_le (lift m) (lift m').
Proof. intros [->| ->] s; [by left|by right]. Qed.

Section prefix.
Context (w : Z) (buf ext : list Z).

Lemma rd_le i : res_le (rd buf i) (rd (buf ++ ext) i).
Proof.
  unfold rd. destruct (i <? 0); [by left|]. destruct (buf !! _) eqn:E; [|by left].
  right. by rewrite (lookup_app_l_Some _ _ _ _ E).
Qed.
Lemma rd_range_le i n : res_le (rd_range buf i n) (rd_range (buf ++ ext) i n).
Proof.
  unfold rd_range. destruct (_ || _) eqn:E; [by left|]. right.
  rewrite !orb_false_iff, Z.ltb_ge in E. destruct E as [[Hi%Z.ltb_ge Hn%Z.ltb_ge] E].
  rewrite (proj2 (Z.ltb_ge i 0)), (proj2 (Z.ltb_ge n 0)), (proj2 (Z.ltb_ge _ _)) by
    (rewrite ?length_app; lia).
  simpl. rewrite drop_app_le, take_app_le by (rewrite ?length_drop; lia). done.
Qed.

Create HintDb rlp_le.
#[local] Hint Resolve res_le_refl dec_le_refl rd_le rd_range_le dec_le_lift : rlp_le.
(** Same code, larger buffer. *)
Local Ltac le := repeat first
  [ progress cbv beta zeta
  | solve [auto with rlp_le]
  | apply res_le_bind; [|intros ?]
  | apply dec_le_bind; [|intros ?]
  | apply dec_le_lift
  | match goal with
    | |- res_le (if ?c then _ else _) _ => destruct c
    | |- dec_le (if ?c then _ else _) _ => destruct c
    | |- context [let '(_, _) := ?p in _] => destruct p
    end ].

Lemma read_len_le p n len : res_le (read_len w buf p n len) (read_len w (buf ++ ext) p n len).
Proof. revert p len. induction n as [|n IH]; intros p len; cbn [read_len]; le. Qed.
#[local] Hint Resolve read_len_le : rlp_le.
Lemma parse_rlp_item_le p n : res_le (parse_rlp_item w buf p n) (parse_rlp_item w (buf ++ ext) p n).
Proof. unfold parse_rlp_item. le. Qed.
Lemma parse_rlp_list_header_le p n :
  res_le (parse_rlp_list_header w buf p n) (parse_rlp_list_header w (buf ++ ext) p n).
Proof. unfold parse_rlp_list_header. le. Qed.
#[local] Hint Resolve parse_rlp_item_le : rlp_le.
Lemma next_item_le : dec_le (next_item w buf) (next_item w (buf ++ ext)).
Proof. unfold next_item. le. Qed.
#[local] Hint Resolve next_item_le : rlp_le.
Lemma int_item_le max store : dec_le (int_item w buf max store) (int_item w (buf ++ ext) max store).
Proof. unfold int_item. le. Qed.
Lemma decode_items_le payload_end :
  dec_le (decode_items w buf payload_end) (decode_items w (buf ++ ext) payload_end).
Proof.
  unfold decode_items, to_item, data_item, access_list_item, descriptor_item, extra_params_item.
  pose proof int_item_le. le.
Qed.

Lemma decode_prefix n tx :
  decode_ledger_tx w (Some buf) n tx <> DecodeOob ->
  decode_ledger_tx w (Some (buf ++ ext)) n tx = decode_ledger_tx w (Some buf) n tx.
Proof.
  unfold decode_ledger_tx. destruct tx as [tx|]; [|done]. destruct (n =? 0); [done|].
  destruct (rd_le 0) as [->| <-]; [done|]. destruct (rd buf 0); try done. destruct (negb _); [done|].
  cbv zeta. destruct (parse_rlp_list_header_le 1 (wrap w (n - 1))) as [->| <-]; [done|].
  destruct (parse_rlp_list_header w buf 1 _) as [[len hlen]| |]; try done.
  destruct (_ <? _); [done|].
  destruct (decode_items_le (1 + hlen + len) (DState (1 + hlen) (wrap w (wrap w (n - 1) - hlen)) tx))
    as [->| ->]; done.
Qed.
End prefix.

(** ** Decoded fields *)
Record payload_sizes (q : payloads) : Prop := {
  sz_chain_id : (length (pl_chain_id q) <= 32)%nat /\ bytes (pl_chain_id q);
  sz_nonce : (length (pl_nonce q) <= 8)%nat /\ bytes (pl_nonce q);
  sz_tip : (length (pl_tip q) <= 32)%nat /\ bytes (pl_tip q);
  sz_cap : (length (pl_cap q) <= 32)%nat /\ bytes (pl_cap q);
  sz_gas : (length (pl_gas q) <= 8)%nat /\ bytes (pl_gas q);
  sz_to : (length (pl_to q) = 64%nat \/ pl_to q = []) /\ bytes (pl_to q);
  sz_value : (length (pl_value q) <= 32)%nat /\ bytes (pl_value q) }.

Lemma rlp_item_payload_bytes w enc p : rlp_item w enc p -> bytes enc -> bytes p.
Proof. intros [hdr ->]%rlp_item_header. by intros [_ ?]%Forall_app. Qed.

Lemma uint_field_size w max enc p :
  uint_field w max enc p -> bytes enc -> (length p <= max)%nat /\ bytes p.
Proof. intros (Hi & Hl & _) Hb. split; [done|]. by eapply rlp_item_payload_bytes. Qed.
Lemma to_field_size w enc p :
  to_field w enc p -> bytes enc -> (length p = 64%nat \/ p = []) /\ bytes p.
Proof. intros (Hi & Hl) Hb. split; [done|]. by eapply rlp_item_payload_bytes. Qed.

Lemma preimage_sizes w raw q t : preimage w raw q t -> bytes raw -> payload_sizes q.
Proof.
  intros (lst & e1 & e2 & e3 & e4 & e5 & e6 & e7 & e8 & e9 & e10 & e11 & -> & Hl & H1 & H2 & H3 &
    H4 & H5 & H6 & H7 & _) Hb.
  apply Forall_cons_1 in Hb as [_ [Hb _]%Forall_app].
  apply rlp_item_payload_bytes with (w := w) (1 := or_intror Hl) in Hb.
  rewrite !Forall_app in Hb. destruct Hb as (B1 & B2 & B3 & B4 & B5 & B6 & B7 & _).
  split; eauto using uint_field_size, to_field_size.
Qed.

(** The field of an integer payload: its bytes in front, its length. *)
Lemma fill_zero_field n p : (length p <= n)%nat -> (n <= 32)%nat ->
  Z.to_nat (flen (fill (zero_field n) p)) = length p /\
  fbytes (fill (zero_field n) p) = p ++ replicate (n - length p) 0.
Proof.
  intros Hp Hn. unfold fill, zero_field, memcpy; cbn [fbytes flen].
  rewrite u8_id by lia. rewrite take_ge by lia. split; [lia|]. by rewrite drop_replicate.
Qed.
