(* ===== verification/TxFormat.v ===== *)
(** * Amounts and integers on the screen ([src/src/ui/tx_format.c])

    Big-endian integers to decimal text, the 18-decimals amount format and the
    product that gives the maximum fee.  Characters are their codes; a buffer is
    the list of its cells and an operation returns its result with the buffer it
    leaves. *)
From S2P Require Import Prelude CInt Constants.

Definition MAX_INTEGER_BYTES : nat := 40.
Definition MAX_DECIMAL_DIGITS : nat := 97.
Definition MAX_AMOUNT_LEN : nat := 100.

(** One pass of the schoolbook division of [temp[0..len)] by ten. *)
Definition div10_pass (len : nat) (temp : list Z) : list Z * Z * bool :=
  for_ 0 len (fun i '(temp, remainder, zero) =>
    let val := Z.lor (u32 (Z.shiftl remainder 8)) (temp !!! i) in
    let q := u8 (val / 10) in
    (<[i := q]> temp, val mod 10, zero && (q =? 0))) (temp, 0, true).

(** The [do ... while (true)] loop; [index] decreases at every turn. *)
Fixpoint decimal_loop (len : nat) (index : nat) (temp result : list Z) : option (nat * list Z) :=
  let '(temp, remainder, zero) := div10_pass len temp in
  match index with
  | O => None
  | S index =>
    let result := <[index := 48 + remainder]> result in
    if (zero : bool) then Some (index, result) else decimal_loop len index temp result
  end.

Definition uint8_array_to_decimal (bytes : option (list Z)) (len : nat)
    (out : option (list Z)) (out_len : nat) : bool * list Z :=
  match bytes, out with
  | Some bytes, Some out =>
    if (out_len =? 0)%nat || (MAX_INTEGER_BYTES <? len)%nat then (false, out) else
    let temp := memcpy (replicate MAX_INTEGER_BYTES 0) bytes len in
    let index := MAX_DECIMAL_DIGITS in
    let result := <[index := 0]> (replicate (MAX_DECIMAL_DIGITS + 1) 0) in
    match decimal_loop len index temp result with
    | None => (false, out)
    | Some (index, result) =>
      let bytes_needed := (MAX_DECIMAL_DIGITS + 1 - index)%nat in
      if (out_len <? bytes_needed)%nat then (false, out)
      else (true, blit out 0 (take bytes_needed (drop index result)))
    end
  | _, _ => (false, default [] out)
  end.

(** The characters before the terminator. *)
Fixpoint cstr (s : list Z) : list Z :=
  match s with [] => [] | c :: s => if c =? 0 then [] else c :: cstr s end.
Definition strlen (s : list Z) : nat := length (cstr s).

(** [while (pos && out[pos - 1] == '0') out[--pos] = 0;] *)
Fixpoint strip_zeros (pos : nat) (out : list Z) : nat * list Z :=
  match pos with
  | O => (O, out)
  | S p => if out !!! p =? 48 then strip_zeros p (<[p := 0]> out) else (pos, out)
  end.

(** The removal of trailing zeros and of a trailing point. *)
Definition strip_point (pos : nat) (out : list Z) : list Z :=
  let '(pos, out) := strip_zeros pos out in
  match pos with
  | S p => if out !!! p =? 46 then <[p := 0]> out else out
  | O => out
  end.

(** The digits of [raw] around the point, from [out[0]]; the end position. *)
Definition place_digits (raw : list Z) (len decimals leading : nat) (out : list Z)
    : nat * list Z :=
  let pos := 0%nat in
  if (len <=? decimals)%nat then
    let out := <[pos := 48]> out in let pos := (pos + 1)%nat in
    let out := <[pos := 46]> out in let pos := (pos + 1)%nat in
    let out := blit out pos (replicate leading 48) in let pos := (pos + leading)%nat in
    let out := blit out pos (take len raw) in ((pos + len)%nat, out)
  else
    let integer_len := (len - decimals)%nat in
    let out := blit out pos (take integer_len raw) in
    let pos := (pos + integer_len)%nat in
    let out := <[pos := 46]> out in let pos := (pos + 1)%nat in
    let out := blit out pos (take decimals (drop integer_len raw)) in
    ((pos + decimals)%nat, out).

Definition format_with_decimals (raw : option (list Z)) (decimals : nat)
    (out : option (list Z)) (out_len : nat) : bool * list Z :=
  match raw, out with
  | Some raw, Some out =>
    if (out_len =? 0)%nat then (false, out) else
    let len := strlen raw in
    if (decimals =? 0)%nat then
      if (out_len <? len + 1)%nat then (false, out)
      else (true, blit out 0 (take (len + 1) raw))
    else
    let leading := (if len <? decimals then decimals - len else 0)%nat in
    let needed := ((if decimals <? len then len - decimals else 1) + 1 + leading +
                   (if decimals <? len then decimals else len) + 1)%nat in
    if (out_len <? needed)%nat then (false, out) else
    let '(pos, out) := place_digits raw len decimals leading out in
    let out := <[pos := 0]> out in
    (true, strip_point pos out)
  | _, _ => (false, default [] out)
  end.

Definition format_qrl_amount (amount : option (list Z)) (len : nat)
    (out : option (list Z)) (out_len : nat) : bool * list Z :=
  let '(ok, decimal) := uint8_array_to_decimal amount len
    (Some (replicate (MAX_DECIMAL_DIGITS + 1) 0)) (MAX_DECIMAL_DIGITS + 1) in
  if (ok : bool) then format_with_decimals (Some decimal) 18 out out_len
  else (false, default [] out).

(** The inner loop of the product. *)
Definition mul_row (a : list Z) (a_len : nat) (b : list Z) (b_len i : nat)
    (accum : list Z) : list Z :=
  let full_len := (a_len + b_len)%nat in
  for_ 0 b_len (fun j accum =>
    let k := (full_len - 1 - i - j)%nat in
    <[k := u32 (accum !!! k + u32 (a !!! (a_len - 1 - i)%nat * b !!! (b_len - 1 - j)%nat))]> accum)
    accum.
Definition mul_accumulate (a : list Z) (a_len : nat) (b : list Z) (b_len : nat)
    (accum : list Z) : list Z :=
  for_ 0 a_len (fun i accum => mul_row a a_len b b_len i accum) accum.

(** [for (i = full_len - 1; i > 0; i--)], [n] turns from [i = n]. *)
Fixpoint mul_carry (n : nat) (accum : list Z) : list Z :=
  match n with
  | O => accum
  | S p =>
    let accum := <[p := u32 (accum !!! p + Z.shiftr (accum !!! n) 8)]> accum in
    let accum := <[n := Z.land (accum !!! n) 0xff]> accum in
    mul_carry p accum
  end.

(** [while (first + 1 < full_len && accum[first] == 0) first++;] with at most
    [n = full_len - 1 - first] turns left. *)
Fixpoint skip_zeros (n first : nat) (accum : list Z) : nat :=
  match n with
  | O => first
  | S n => if accum !!! first =? 0 then skip_zeros n (Datatypes.S first) accum else first
  end.

(** The result is the return value, [out] and [*out_len]. *)
Definition multiply_uint8_arrays (a : option (list Z)) (a_len : nat) (b : option (list Z))
    (b_len : nat) (out : option (list Z)) (out_len : option nat)
    : bool * list Z * option nat :=
  match a, b, out, out_len with
  | Some a, Some b, Some out, Some olen =>
    if (MAX_INTEGER_BYTES <? a_len + b_len)%nat then (false, out, Some olen) else
    let full_len := (a_len + b_len)%nat in
    if (full_len =? 0)%nat then
      if (olen <? 1)%nat then (false, out, Some olen)
      else (true, <[0%nat := 0]> out, Some 1%nat)
    else
    let accum := mul_accumulate a a_len b b_len (replicate MAX_INTEGER_BYTES 0) in
    let accum := mul_carry (full_len - 1) accum in
    let first := skip_zeros (full_len - 1) 0 accum in
    let significant := (full_len - first)%nat in
    if (olen <? significant)%nat then (false, out, Some olen) else
    let out := for_ 0 significant (fun i out => <[i := u8 (accum !!! (first + i)%nat)]> out) out in
    (true, out, Some significant)
  | _, _, _, _ => (false, default [] out, out_len)
  end.

(** ** Decimal text *)
Definition digit (c : Z) : Prop := 48 <= c <= 57.
Definition dec_val (s : list Z) : Z := fold_left (fun acc c => acc * 10 + (c - 48)) s 0.

(** [s] is the decimal numeral of [n]: digits, no superfluous leading zero. *)
Definition is_decimal (n : Z) (s : list Z) : Prop :=
  s <> [] /\ Forall digit s /\ dec_val s = n /\ (head s = Some 48 -> s = [48]).

(** [s] is [n] units of [10^-d] in decimal: an integer part and, when it is not
    zero, a fraction of at most [d] digits that does not end in zero. *)
Definition is_amount (d : nat) (n : Z) (s : list Z) : Prop :=
  exists ip frac i, is_decimal i ip /\ Forall digit frac /\ (length frac <= d)%nat /\
    list.last frac <> Some 48 /\ s = ip ++ (match frac with [] => [] | _ => 46 :: frac end) /\
    n = i * 10 ^ Z.of_nat d + dec_val frac * 10 ^ Z.of_nat (d - length frac).

Lemma dec_val_app s t :
  dec_val (s ++ t) = dec_val s * 10 ^ Z.of_nat (length t) + dec_val t.
Proof.
  unfold dec_val. rewrite fold_left_app.
  generalize (fold_left (fun acc c => acc * 10 + (c - 48)) s 0).
  induction t as [|c t IH] using rev_ind; intros z; cbn [fold_left length]; [lia|].
  rewrite !fold_left_app, length_app; cbn [fold_left length]. rewrite IH.
  rewrite Nat2Z.inj_add, Z.pow_add_r by lia. lia.
Qed.

Lemma dec_val_range s : Forall digit s -> 0 <= dec_val s < 10 ^ Z.of_nat (length s).
Proof.
  induction s as [|c s IH] using rev_ind; intros Hs.
  - vm_compute. split; congruence.
  - apply Forall_app in Hs as [Hs [Hc _]%Forall_cons_1].
    rewrite dec_val_app, length_app, Nat2Z.inj_add, Z.pow_add_r by lia.
    specialize (IH Hs). unfold digit in Hc.
    change (10 ^ Z.of_nat (length [c])) with 10. change (dec_val [c]) with (c - 48). nia.
Qed.

Lemma dec_val_zeros n : dec_val (replicate n 48) = 0.
Proof.
  induction n as [|n IH]; [done|]. rewrite replicate_S_end, dec_val_app, IH. done.
Qed.

Lemma digits_replicate n : Forall digit (replicate n 48).
Proof. apply Forall_replicate. unfold digit. lia. Qed.

(** ** uint8_array_to_decimal *)
Lemma be_val_zero l : bytes l -> be_val l = 0 <-> forallb (fun b => b =? 0) l = true.
Proof.
  induction l as [|b l IH]; intros Hl; [done|].
  apply Forall_cons_1 in Hl as [Hb Hl]. unfold is_u8 in Hb.
  rewrite be_val_cons. simpl. rewrite andb_true_iff, Z.eqb_eq, <- IH by done.
  pose proof (be_val_range l Hl). nia.
Qed.

(** A pass divides the number by ten. *)
Lemma div10_pass_spec len temp :
  bytes temp -> (len <= length temp)%nat ->
  exists pre, let n := be_val (take len temp) in
    div10_pass len temp = (written pre temp, n mod 10, n / 10 =? 0) /\
    bytes pre /\ length pre = len /\ be_val pre = n / 10.
Proof.
  intros Hb Hlen. cbv zeta.
  pose (I := fun i '(t, r, z) => exists pre, t = written pre temp /\ length pre = i /\
    bytes pre /\ be_val (take i temp) = 10 * be_val pre + r /\ 0 <= r < 10 /\
    z = forallb (fun b => b =? 0) pre).
  assert (HI : I len (div10_pass len temp)).
  { unfold div10_pass. apply (for_ind I 0 len).
    - exists []. split_and!; try done; lia.
    - intros i [[t r] z] Hi (pre & -> & Hl & Hp & Hv & Hr & ->).
      destruct (lookup_lt_is_Some_2 temp i ltac:(lia)) as [b Hbi].
      pose proof (bytes_lookup _ _ _ Hb Hbi) as Hb8.
      assert (Hget : written pre temp !!! i = b).
      { apply list_lookup_total_correct. unfold written.
        rewrite lookup_app_r, lookup_drop by lia. by replace (_ + _)%nat with i by lia. }
      rewrite Hget, Z.lor_comm.
      assert (Hval : Z.lor b (u32 (Z.shiftl r 8)) = r * 256 + b).
      { rewrite u32_id by (shifts; lia). rewrite lor_add_disjoint by lia.
        change (2 ^ 8) with 256. lia. }
      rewrite Hval. rewrite u8_id by dlia.
      exists (pre ++ [(r * 256 + b) / 10]).
      rewrite insert_written by lia. rewrite length_app. cbn [length].
      split; [done|]. split; [lia|]. split.
      { apply Forall_app. split; [done|]. repeat constructor; dlia. }
      rewrite (take_S_r _ _ _ Hbi), !be_val_app, Hv.
      change (256 ^ Z.of_nat (length [_])) with 256. change (be_val [?x]) with x.
      split; [dlia|]. split; [dlia|]. rewrite forallb_app. simpl. by rewrite andb_true_r. }
  destruct (div10_pass len temp) as [[t r] z].
  destruct HI as (pre & -> & Hl & Hp & -> & Hr & ->). exists pre.
  assert (be_val pre = (10 * be_val pre + r) / 10) as <- by dlia.
  split_and!; try done. f_equal; [f_equal; dlia|].
  pose proof (be_val_zero pre Hp).
  destruct (forallb _ pre), (Z.eqb_spec (be_val pre) 0); intuition congruence.
Qed.

Lemma is_decimal_digit n : 0 <= n < 10 -> is_decimal n [48 + n].
Proof.
  intros Hn. split_and!; [done| | |].
  - repeat constructor; lia.
  - unfold dec_val. simpl. lia.
  - by intros [= ->].
Qed.

Lemma is_decimal_snoc n s : 10 <= n -> is_decimal (n / 10) s -> is_decimal n (s ++ [48 + n mod 10]).
Proof.
  intros Hn (H1 & H2 & H3 & H4). split_and!.
  - by destruct s.
  - apply Forall_app. split; [done|]. repeat constructor; dlia.
  - rewrite dec_val_app, H3. change (10 ^ Z.of_nat (length [_])) with 10.
    unfold dec_val. simpl. dlia.
  - intros H. destruct s as [|c s]; [done|]. simpl in H.
    specialize (H4 H). injection H4 as -> ->. unfold dec_val in H3. simpl in H3. dlia.
Qed.

(** The loop ends, having written the numeral right-aligned below [index]. *)
Lemma decimal_loop_spec len index temp result :
  bytes temp -> (len <= length temp)%nat -> (index < length result)%nat -> (0 < index)%nat ->
  be_val (take len temp) < 10 ^ Z.of_nat index ->
  exists s result', is_decimal (be_val (take len temp)) s /\ (length s <= index)%nat /\
    decimal_loop len index temp result = Some ((index - length s)%nat, result') /\
    length result' = length result /\
    drop (index - length s) result' = s ++ drop index result.
Proof.
  revert temp result. induction index as [|index IH]; [lia|].
  intros temp result Hb Hlen Hres _ Hn. cbn [decimal_loop].
  destruct (div10_pass_spec len temp Hb Hlen) as (pre & -> & Hp & Hl & Hv).
  set (n := be_val (take len temp)) in *.
  assert (0 <= n) by (apply be_val_range; by apply Forall_take).
  destruct (lookup_lt_is_Some_2 result (index)) as [y Hy]; [lia|].
  assert (Hdrop : drop index (<[index := 48 + n mod 10]> result) =
    [48 + n mod 10] ++ drop (Datatypes.S index) result).
  { rewrite (drop_S _ (48 + n mod 10)) by (apply list_lookup_insert_eq; lia).
    by rewrite drop_insert_lt by lia. }
  destruct (Z.eqb_spec (n / 10) 0) as [H0|H0].
  - exists [48 + n mod 10]. eexists. replace (n mod 10) with n by dlia.
    replace (n mod 10) with n in Hdrop by dlia. cbn [length].
    replace (Datatypes.S index - 1)%nat with index by lia.
    split; [apply is_decimal_digit; dlia|]. split; [lia|]. split; [done|].
    split; [by rewrite length_insert|done].
  - assert (0 < index)%nat.
    { destruct index; [|lia]. change (10 ^ Z.of_nat 1) with 10 in Hn. dlia. }
    rewrite Nat2Z.inj_succ, Z.pow_succ_r in Hn by lia.
    assert (Ht : take len (written pre temp) = pre) by (unfold written; by rewrite <- Hl, take_app_length).
    destruct (IH (written pre temp) (<[index := 48 + n mod 10]> result)) as
      (s & result' & Hs & Hls & Heq & Hlr & Hd).
    + unfold written. apply Forall_app. split; [done|]. by apply Forall_drop.
    + rewrite written_length; lia.
    + rewrite length_insert. lia.
    + lia.
    + rewrite Ht, Hv. apply Z.div_lt_upper_bound; lia.
    + rewrite Ht, Hv in Hs. exists (s ++ [48 + n mod 10]), result'.
      rewrite length_app, <- app_assoc. cbn [length].
      replace (Datatypes.S index - (length s + 1))%nat with (index - length s)%nat by lia.
      split; [apply is_decimal_snoc; [dlia|done]|]. split; [lia|]. split; [done|].
      split; [by rewrite Hlr, length_insert|]. by rewrite Hd, Hdrop.
Qed.

Lemma pow256_40 n : (n <= 40)%nat -> 256 ^ Z.of_nat n < 10 ^ Z.of_nat MAX_DECIMAL_DIGITS.
Proof.
  intros. apply Z.le_lt_trans with (256 ^ 40); [apply Z.pow_le_mono_r; lia|].
  vm_compute. reflexivity.
Qed.

(** Both outcomes of the conversion of a value of at most 40 bytes; [m] is the
    length declared, of a buffer that may be longer. *)
Lemma uint8_array_to_decimal_room l len out m :
  bytes l -> (len <= MAX_INTEGER_BYTES)%nat -> (len <= length l)%nat -> (0 < m <= length out)%nat ->
  exists s, is_decimal (be_val (take len l)) s /\ (length s <= MAX_DECIMAL_DIGITS)%nat /\
    uint8_array_to_decimal (Some l) len (Some out) m =
      if (m <? length s + 1)%nat then (false, out)
      else (true, written (s ++ [0]) out).
Proof.
  intros Hb H40 Hlen Hout. unfold uint8_array_to_decimal.
  rewrite (proj2 (Nat.eqb_neq _ _)), (proj2 (Nat.ltb_ge _ _)) by lia. cbn [orb].
  set (temp := memcpy _ l len). set (result := <[_ := _]> _).
  assert (Htake : take len temp = take len l).
  { unfold temp, memcpy. rewrite take_app_le by (rewrite length_take; lia).
    rewrite take_take. f_equal. lia. }
  assert (Hb' : bytes temp).
  { unfold temp, memcpy. apply Forall_app. split; [by apply Forall_take|].
    apply Forall_drop, Forall_replicate. unfold is_u8. lia. }
  pose proof (be_val_range (take len l) ltac:(by apply Forall_take)) as Hr.
  rewrite length_take, Nat.min_l in Hr by lia. pose proof (pow256_40 len H40).
  destruct (decimal_loop_spec len MAX_DECIMAL_DIGITS temp result) as
    (s & result' & Hs & Hls & -> & Hlr & Hd); [done| |vm_compute; lia|vm_compute; lia| |].
  - unfold temp, memcpy. rewrite length_app, length_take, length_drop, length_replicate. lia.
  - rewrite Htake. lia.
  - rewrite Htake in Hs. exists s. split; [done|]. split; [done|].
    replace (MAX_DECIMAL_DIGITS + 1 - (MAX_DECIMAL_DIGITS - length s))%nat
      with (length s + 1)%nat by lia.
    destruct (Nat.ltb_spec m (length s + 1)); [done|]. f_equal.
    rewrite Hd. change (drop MAX_DECIMAL_DIGITS result) with [0].
    rewrite take_ge by (rewrite length_app; simpl; lia).
    rewrite <- (written_nil out) at 1. rewrite blit_written; [done|done|].
    rewrite length_app. simpl. lia.
Qed.

Lemma uint8_array_to_decimal_spec l len out :
  bytes l -> (len <= MAX_INTEGER_BYTES)%nat -> (len <= length l)%nat -> (0 < length out)%nat ->
  exists s, is_decimal (be_val (take len l)) s /\ (length s <= MAX_DECIMAL_DIGITS)%nat /\
    uint8_array_to_decimal (Some l) len (Some out) (length out) =
      if (length out <? length s + 1)%nat then (false, out)
      else (true, written (s ++ [0]) out).
Proof. intros Hb H40 Hlen Hout. by apply uint8_array_to_decimal_room. Qed.

(** ** format_with_decimals *)
Lemma cstr_app s rest : Forall (fun c => c <> 0) s -> cstr (s ++ rest) = s ++ cstr rest.
Proof.
  induction s as [|c s IH]; intros Hs; [done|]. apply Forall_cons_1 in Hs as [Hc Hs].
  simpl. rewrite (proj2 (Z.eqb_neq _ _)) by done. by rewrite IH.
Qed.

Lemma cstr_zero rest : cstr (0 :: rest) = [].
Proof. done. Qed.

Lemma digit_nonzero s : Forall digit s -> Forall (fun c => c <> 0) s.
Proof. apply Forall_impl. unfold digit. lia. Qed.

Lemma lookup_total_last {A} `{Inhabited A} (s : list A) (c : A) rest p :
  p = length s -> ((s ++ [c]) ++ rest) !!! p = c.
Proof.
  intros ->. apply list_lookup_total_correct.
  rewrite <- app_assoc. cbn [app]. by apply list_lookup_middle.
Qed.

Lemma strip_zeros_spec w k rest :
  list.last w <> Some 48 ->
  strip_zeros (length w + k) ((w ++ replicate k 48) ++ rest) =
    (length w, w ++ replicate k 0 ++ rest).
Proof.
  intros Hw. revert rest. induction k as [|k IH]; intros rest.
  - rewrite Nat.add_0_r, app_nil_r. destruct w as [|c w] using rev_ind; [done|]. clear IHw.
    rewrite last_snoc in Hw. rewrite length_app, Nat.add_1_r. cbn [strip_zeros].
    rewrite lookup_total_last by done. by rewrite (proj2 (Z.eqb_neq _ _)) by congruence.
  - rewrite replicate_S_end, app_assoc, Nat.add_succ_r. cbn [strip_zeros].
    assert (Hp : (length w + k)%nat = length (w ++ replicate k 48))
      by (rewrite length_app, length_replicate; done).
    rewrite lookup_total_last by done. cbn [Z.eqb Pos.eqb].
    rewrite <- app_assoc, insert_app_r_alt by lia. rewrite Hp, Nat.sub_diag, <- Hp. simpl.
    rewrite IH. rewrite (app_comm_cons (replicate k 0)), replicate_cons_app.
    by rewrite <- app_assoc.
Qed.

Lemma split_trailing (f : list Z) :
  exists f' k, f = f' ++ replicate k 48 /\ list.last f' <> Some 48.
Proof.
  induction f as [|c f IH] using rev_ind; [by exists [], 0%nat|].
  destruct (Z.eq_dec c 48) as [->|Hc].
  - destruct IH as (f' & k & -> & Hl). exists f', (Datatypes.S k).
    by rewrite replicate_S_end, app_assoc.
  - exists (f ++ [c]), 0%nat. rewrite app_nil_r, last_snoc. split; [done|congruence].
Qed.

Lemma strip_point_spec ip f rest :
  Forall digit ip -> Forall digit f ->
  exists frac, cstr (strip_point (length (ip ++ 46 :: f)) ((ip ++ 46 :: f) ++ 0 :: rest)) =
      ip ++ (match frac with [] => [] | _ => 46 :: frac end) /\
    Forall digit frac /\ (length frac <= length f)%nat /\ list.last frac <> Some 48 /\
    dec_val f = dec_val frac * 10 ^ Z.of_nat (length f - length frac).
Proof.
  intros Hip Hf. destruct (split_trailing f) as (f' & k & -> & Hl).
  apply Forall_app in Hf as [Hf' _]. exists f'.
  rewrite (length_app f' (replicate k 48)), length_replicate.
  replace (length f' + k - length f')%nat with k by lia.
  rewrite dec_val_app, dec_val_zeros, length_replicate, Z.add_0_r.
  split; [|split_and!; [done|lia|done|done]].
  unfold strip_point.
  replace (ip ++ 46 :: f' ++ replicate k 48) with ((ip ++ 46 :: f') ++ replicate k 48)
    by (by rewrite <- app_assoc).
  rewrite (length_app _ (replicate k 48)), length_replicate, strip_zeros_spec.
  2:{ rewrite last_app_cons. by destruct f'. }
  destruct f' as [|c f' _] using rev_ind.
  - rewrite length_app, Nat.add_1_r, lookup_total_last by done.
    rewrite Z.eqb_refl, <- app_assoc, insert_app_r_alt, Nat.sub_diag by lia. simpl.
    rewrite cstr_app by (by apply digit_nonzero). by rewrite cstr_zero.
  - apply Forall_app in Hf' as [Hf' [Hc _]%Forall_cons_1]. unfold digit in Hc.
    assert (Hnz : Forall (fun x => x <> 0) (ip ++ 46 :: f' ++ [c])).
    { apply Forall_app. split; [by apply digit_nonzero|]. constructor; [lia|].
      apply Forall_app. split; [by apply digit_nonzero|]. repeat constructor. lia. }
    replace (match f' ++ [c] with [] => [] | _ :: _ => 46 :: f' ++ [c] end)
      with (46 :: f' ++ [c]) by (by destruct f').
    replace (ip ++ 46 :: f' ++ [c]) with ((ip ++ 46 :: f') ++ [c]) in *
      by (by rewrite <- app_assoc).
    rewrite length_app, Nat.add_1_r, lookup_total_last by done.
    rewrite (proj2 (Z.eqb_neq _ _)) by lia. rewrite cstr_app by done.
    destruct k; apply app_nil_r.
Qed.

(** The integer and fraction parts a numeral splits into. *)
Lemma decimal_split n s d :
  0 <= n -> is_decimal n s -> (0 < d)%nat ->
  let leading := (d - length s)%nat in
  let ip := if (length s <=? d)%nat then [48] else take (length s - d) s in
  let f := if (length s <=? d)%nat then replicate leading 48 ++ s
           else drop (length s - d) s in
  exists i, is_decimal i ip /\ Forall digit f /\ length f = d /\
    n = i * 10 ^ Z.of_nat d + dec_val f.
Proof.
  intros Hn (Hne & Hdig & Hv & Hz) Hd. cbv zeta.
  destruct (Nat.leb_spec (length s) d) as [Hle|Hgt].
  - exists 0. split; [by apply (is_decimal_digit 0)|]. split.
    { apply Forall_app. split; [apply digits_replicate|done]. }
    rewrite length_app, length_replicate, dec_val_app, dec_val_zeros. split; lia.
  - exists (dec_val (take (length s - d) s)). split.
    + split_and!; [|by apply Forall_take|done|].
      * destruct s; [done|]. cbn [length] in Hgt |- *.
        by replace (Datatypes.S (length s) - d)%nat with (Datatypes.S (length s - d)) by lia.
      * intros H. assert (s = [48]) as ->; [apply Hz|simpl in Hgt; lia].
        destruct s as [|c s]; [done|]. cbn [length] in *.
        replace (Datatypes.S (length s) - d)%nat with (Datatypes.S (length s - d)) in H by lia.
        exact H.
    + split; [by apply Forall_drop|]. rewrite length_drop. split; [lia|].
      rewrite <- Hv, <- (take_drop (length s - d) s) at 1.
      rewrite dec_val_app, length_drop. repeat f_equal. lia.
Qed.

Lemma place_digits_spec s tail d out :
  let len := length s in
  let ip := if (len <=? d)%nat then [48] else take (len - d) s in
  let f := if (len <=? d)%nat then replicate (d - len) 48 ++ s else drop (len - d) s in
  (length ip + 1 + d < length out)%nat ->
  place_digits (s ++ 0 :: tail) len d (if (len <? d)%nat then (d - len)%nat else 0%nat) out =
    (length (ip ++ 46%Z :: f), written (ip ++ 46%Z :: f) out).
Proof.
  intros len ip f. unfold place_digits, ip, f. clear ip f.
  destruct (Nat.leb_spec len d) as [Hle|Hgt]; intros Hlen.
  - replace (if (len <? d)%nat then (d - len)%nat else 0%nat) with (d - len)%nat
      by (destruct (Nat.ltb_spec len d); lia).
    replace (take len (s ++ 0 :: tail)) with s by (symmetry; apply take_app_length).
    cbn [length] in Hlen.
    rewrite <- (written_nil out) at 1.
    rewrite (insert_written [] 48) by (done || (simpl; lia)).
    rewrite (insert_written _ 46) by (done || (simpl; lia)).
    rewrite (blit_written _ (replicate _ _))
      by (rewrite ?length_app, ?length_replicate; simpl; lia).
    rewrite (blit_written _ s)
      by (rewrite ?length_app, ?length_replicate; simpl; fold len; lia).
    f_equal. rewrite !length_app. cbn [length]. rewrite length_app, length_replicate.
    fold len. lia.
  - rewrite length_take in Hlen. rewrite take_app_le by lia. rewrite drop_app_le by lia.
    rewrite take_app_le by (rewrite length_drop; fold len; lia).
    rewrite (take_ge (drop _ s)) by (rewrite length_drop; fold len; lia).
    rewrite <- (written_nil out) at 1. rewrite Nat.add_0_l.
    rewrite (blit_written []) by (rewrite ?length_take; simpl; fold len; lia). cbn [app].
    rewrite (insert_written _ 46) by (rewrite length_take; fold len; lia).
    rewrite blit_written
      by (rewrite ?length_app, ?length_take, ?length_drop; simpl; fold len; lia).
    rewrite <- app_assoc. f_equal. rewrite length_app, length_take. cbn [length].
    rewrite length_drop. fold len. lia.
Qed.

Lemma strip_point_length pos out : length (strip_point pos out) = length out.
Proof.
  assert (Hz : length (snd (strip_zeros pos out)) = length out).
  { revert out. induction pos as [|p IH]; intros out; [done|]. cbn [strip_zeros].
    destruct (_ =? 48); [|done]. by rewrite IH, length_insert. }
  unfold strip_point. destruct (strip_zeros pos out) as [[|p] o]; [done|]. cbn [snd] in Hz.
  destruct (_ =? 46); [|done]. by rewrite length_insert.
Qed.

(** The number of characters with the terminator. *)
Definition amount_room (len d : nat) : nat := Nat.max (len + 2) (d + 3).

(** Only characters before [pos] are removed. *)
Lemma strip_point_drop pos m out : (pos <= m)%nat -> drop m (strip_point pos out) = drop m out.
Proof.
  intros Hm.
  assert (Hz : drop m (snd (strip_zeros pos out)) = drop m out /\ (fst (strip_zeros pos out) <= pos)%nat).
  { revert out Hm. induction pos as [|p IH]; intros out Hm; [done|]. cbn [strip_zeros].
    destruct (_ =? 48); [|split; [done|cbn; lia]].
    destruct (IH (<[p := 0]> out)) as [-> Hp]; [lia|]. split; [by rewrite drop_insert_lt by lia|lia]. }
  unfold strip_point. destruct (strip_zeros pos out) as [[|p] o]; cbn [fst snd] in Hz; [tauto|].
  destruct Hz as [Hz Hp]. destruct (_ =? 46); [|done]. by rewrite drop_insert_lt by lia.
Qed.

Lemma format_with_decimals_room n s tail d out m :
  0 <= n -> is_decimal n s -> (0 < d)%nat -> (0 < m <= length out)%nat ->
  let '(ok, out') :=
    format_with_decimals (Some (s ++ 0 :: tail)) d (Some out) m in
  if (m <? amount_room (length s) d)%nat then ok = false /\ out' = out
  else ok = true /\ is_amount d n (cstr out') /\ length out' = length out /\
    drop m out' = drop m out /\ (strlen out' < m)%nat.
Proof.
  intros Hn Hs Hd Hout. pose proof (decimal_split n s d Hn Hs Hd) as Hsplit.
  pose proof (place_digits_spec s tail d out) as Hplace.
  destruct Hs as (_ & Hdig & _). unfold format_with_decimals, strlen.
  rewrite (proj2 (Nat.eqb_neq _ _)), (proj2 (Nat.eqb_neq d 0)) by lia.
  rewrite cstr_app, cstr_zero, app_nil_r by (by apply digit_nonzero).
  set (len := length s) in *. cbv zeta in Hsplit, Hplace. set (needed := (_ + _ + 1)%nat).
  assert (needed = amount_room len d) as ->.
  { unfold needed, amount_room. destruct (Nat.ltb_spec d len), (Nat.ltb_spec len d); lia. }
  destruct (Nat.ltb_spec m (amount_room len d)) as [Hsmall|Hbig]; [done|].
  unfold amount_room in Hbig.
  set (ip := if (len <=? d)%nat then [48] else _) in Hsplit, Hplace.
  set (f := if (len <=? d)%nat then replicate (d - len) 48 ++ s else _) in Hsplit, Hplace.
  destruct Hsplit as (i & Hi & Hf & Hlf & Hsum).
  assert (Hlen : (length ip + 1 + d < m)%nat).
  { unfold ip. destruct (Nat.leb_spec len d); [simpl; lia|]. rewrite length_take. fold len. lia. }
  rewrite (Hplace ltac:(lia)).
  rewrite insert_written by (rewrite ?length_app; cbn [length]; lia).
  destruct (strip_point_spec ip f (drop (length ((ip ++ 46 :: f) ++ [0])) out))
    as (frac & Hc & Hfd & Hfl & Hlast & Hv); [apply Hi|done|].
  assert (Hw : written ((ip ++ 46 :: f) ++ [0]) out =
    (ip ++ 46 :: f) ++ 0 :: drop (length ((ip ++ 46 :: f) ++ [0])) out) by (unfold written; by rewrite <- app_assoc).
  split; [done|]. split; [|split; [|split]].
  - rewrite Hw. exists ip, frac, i. split_and!; [done|done|lia|done|exact Hc|]. by rewrite Hsum, Hv, Hlf.
  - rewrite strip_point_length, written_length; [done|]. rewrite !length_app. cbn [length]. lia.
  - rewrite strip_point_drop by (rewrite !length_app; cbn [length]; lia).
    unfold written. rewrite drop_app_ge by (rewrite !length_app; cbn [length]; lia).
    rewrite drop_drop. f_equal. rewrite !length_app. cbn [length]. lia.
  - rewrite Hw, Hc, length_app. destruct frac; cbn [length] in *; lia.
Qed.

Lemma format_with_decimals_spec n s tail d out :
  0 <= n -> is_decimal n s -> (0 < d)%nat -> (0 < length out)%nat ->
  let '(ok, out') :=
    format_with_decimals (Some (s ++ 0 :: tail)) d (Some out) (length out) in
  if (length out <? amount_room (length s) d)%nat then ok = false /\ out' = out
  else ok = true /\ is_amount d n (cstr out') /\ length out' = length out.
Proof.
  intros Hn Hs Hd Hout.
  pose proof (format_with_decimals_room n s tail d out (length out) Hn Hs Hd ltac:(lia)) as H.
  destruct (format_with_decimals _ _ _ _). destruct (_ <? _)%nat; [done|]. tauto.
Qed.

(** ** multiply_uint8_arrays *)

(** [p] is the shortest big-endian byte string of [n]; zero is one byte. *)
Definition is_be_min (n : Z) (p : list Z) : Prop :=
  p <> [] /\ bytes p /\ be_val p = n /\ (head p = Some 0 -> p = [0]).

Lemma be_val_insert l k x :
  (k < length l)%nat ->
  be_val (<[k := x]> l) = be_val l + (x - l !!! k) * 256 ^ Z.of_nat (length l - 1 - k).
Proof.
  intros Hk. destruct (lookup_lt_is_Some_2 l k Hk) as [y Hy].
  rewrite (list_lookup_total_correct _ _ _ Hy).
  rewrite (insert_take_drop _ _ _ Hk). rewrite <- (take_drop_middle _ _ _ Hy) at 3.
  rewrite !be_val_app, (be_val_cons x), (be_val_cons y), !length_drop. cbn [length].
  rewrite length_drop. replace (length l - 1 - k)%nat with (length l - Datatypes.S k)%nat by lia.
  lia.
Qed.

Lemma be_val_take_insert m l k x :
  (k < m <= length l)%nat ->
  be_val (take m (<[k := x]> l)) = be_val (take m l) + (x - l !!! k) * 256 ^ Z.of_nat (m - 1 - k).
Proof.
  intros Hk. rewrite take_insert_lt by lia.
  rewrite be_val_insert by (rewrite length_take; lia). rewrite length_take, Nat.min_l by lia.
  do 3 f_equal. rewrite !list_lookup_total_alt. by rewrite lookup_take_lt by lia.
Qed.

(** The suffix that the loops have consumed. *)
Lemma be_val_suffix l i :
  (i < length l)%nat ->
  be_val (drop (length l - Datatypes.S i) l) =
    l !!! (length l - 1 - i)%nat * 256 ^ Z.of_nat i + be_val (drop (length l - i) l).
Proof.
  intros Hi. set (k := (length l - 1 - i)%nat).
  destruct (lookup_lt_is_Some_2 l k) as [y Hy]; [lia|].
  rewrite (list_lookup_total_correct _ _ _ Hy).
  replace (length l - Datatypes.S i)%nat with k by lia.
  replace (length l - i)%nat with (Datatypes.S k) by lia.
  rewrite (drop_S _ _ _ Hy), be_val_cons, length_drop. repeat f_equal. lia.
Qed.

Lemma bytes_get l i : bytes l -> (i < length l)%nat -> 0 <= l !!! i < 256.
Proof.
  intros Hl Hi. destruct (lookup_lt_is_Some_2 l i Hi) as [b Hb].
  rewrite (list_lookup_total_correct _ _ _ Hb). by eapply bytes_lookup.
Qed.

(** Cells below [full - i - j] have received at most [i] products, the others
    at most [i + 1]. *)
Definition acc_bound (i j full : nat) (t : list Z) : Prop :=
  forall k, (k < length t)%nat -> 0 <= t !!! k <=
    (if (full - i - j <=? k)%nat then Z.of_nat i + 1 else Z.of_nat i) * 65025.

Lemma mul_row_spec a b i t :
  bytes a -> bytes b -> (length a + length b <= length t)%nat -> (i < length a <= 40)%nat ->
  let full := (length a + length b)%nat in
  let ai := a !!! (length a - 1 - i)%nat in
  acc_bound i 0 full t ->
  let u := mul_row a (length a) b (length b) i t in
  length u = length t /\
  be_val (take full u) = be_val (take full t) + ai * 256 ^ Z.of_nat i * be_val b /\
  acc_bound i (length b) full u.
Proof.
  intros Ha Hb Hlt Hi full ai Hbd u.
  pose proof (bytes_get a (length a - 1 - i) Ha ltac:(lia)) as Hai. fold ai in Hai.
  replace (be_val b) with (be_val (drop (length b - length b) b))
    by (by rewrite Nat.sub_diag, drop_0).
  apply (for_ind (fun j u => length u = length t /\
    be_val (take full u) = be_val (take full t) +
      ai * 256 ^ Z.of_nat i * be_val (drop (length b - j) b) /\
    acc_bound i j full u) 0 (length b)).
  { split; [done|]. rewrite Nat.sub_0_r, drop_all. change (be_val []) with 0. split; [lia|].
    exact Hbd. }
  clear u. intros j u Hj (Hlu & Hvu & Hbu). fold full ai.
  set (k := (full - 1 - i - j)%nat). set (bj := b !!! (length b - 1 - j)%nat).
  pose proof (bytes_get b (length b - 1 - j) Hb ltac:(lia)) as Hbj. fold bj in Hbj.
  assert (Hk : (k < full <= length u)%nat) by (unfold k, full in *; lia).
  pose proof (Hbu k ltac:(lia)) as Huk.
  rewrite (proj2 (Nat.leb_gt _ _)) in Huk by (unfold k, full in *; lia).
  cbv zeta. rewrite (u32_id (ai * bj)) by nia. rewrite u32_id by nia. rewrite length_insert.
  split; [done|]. split.
  - rewrite be_val_take_insert by done. rewrite Hvu, (be_val_suffix b j) by lia.
    fold bj. replace (full - 1 - k)%nat with (i + j)%nat by (unfold k, full in *; lia).
    rewrite Nat2Z.inj_add, Z.pow_add_r by lia. ring.
  - intros k' Hk'. rewrite length_insert in Hk'. destruct (decide (k' = k)) as [->|Hne].
    + rewrite list_lookup_total_insert_eq by lia.
      rewrite (proj2 (Nat.leb_le _ _)) by (unfold k, full in *; lia). nia.
    + rewrite list_lookup_total_insert_ne by done. specialize (Hbu k' Hk').
      destruct (Nat.leb_spec (full - i - j) k'), (Nat.leb_spec (full - i - Datatypes.S j) k'); lia.
Qed.

Lemma be_val_zeros n : be_val (replicate n 0) = 0.
Proof. induction n as [|n IH]; [done|]. simpl. rewrite be_val_cons, IH. lia. Qed.

Lemma mul_accumulate_spec a b m :
  bytes a -> bytes b -> (length a + length b <= m)%nat -> (length a <= 40)%nat ->
  let full := (length a + length b)%nat in
  let r := mul_accumulate a (length a) b (length b) (replicate m 0) in
  length r = m /\ be_val (take full r) = be_val a * be_val b /\
  (forall k, (k < m)%nat -> 0 <= r !!! k <= 2666025).
Proof.
  intros Ha Hb Hacc H40 full r.
  assert (Hr : length r = m /\
    be_val (take full r) = be_val (drop (length a - length a) a) * be_val b /\
    acc_bound (length a) 0 full r).
  { unfold r, mul_accumulate.
    apply (for_ind (fun i t => length t = m /\
      be_val (take full t) = be_val (drop (length a - i) a) * be_val b /\
      acc_bound i 0 full t) 0 (length a)).
    - rewrite length_replicate, Nat.sub_0_r, drop_all, take_replicate, be_val_zeros.
      split; [done|]. split; [done|]. intros k Hk. rewrite length_replicate in Hk.
      rewrite lookup_total_replicate_2 by done. destruct (_ <=? _)%nat; lia.
    - intros i t Hi (Hlt & Hv & Hbd).
      destruct (mul_row_spec a b i t Ha Hb) as (Hlu & Hvu & Hbu); [lia|lia|done|].
      split; [lia|]. unfold full. rewrite Hvu. fold full. rewrite Hv. split.
      + rewrite (be_val_suffix a i) by lia. ring.
      + intros k Hk. specialize (Hbu k Hk). fold full in Hbu.
        destruct (Nat.leb_spec (full - i - length b) k), (Nat.leb_spec (full - Datatypes.S i - 0) k);
          lia. }
  destruct Hr as (Hl & Hv & Hbd). split; [done|]. rewrite Hv, Nat.sub_diag, drop_0.
  split; [done|]. intros k Hk. specialize (Hbd k ltac:(lia)).
  destruct (_ <=? _)%nat in Hbd; nia.
Qed.

(** Carrying keeps the value and leaves bytes above cell 0. *)
Lemma mul_carry_spec n m t :
  (n < m <= length t)%nat ->
  (forall k, (k < n)%nat -> 0 <= t !!! k <= 2666025) -> 0 <= t !!! n <= 3000000 ->
  (forall k, (n < k < m)%nat -> 0 <= t !!! k < 256) ->
  let r := mul_carry n t in
  length r = length t /\ be_val (take m r) = be_val (take m t) /\
  0 <= r !!! 0%nat <= 3000000 /\ (forall k, (0 < k < m)%nat -> 0 <= r !!! k < 256).
Proof.
  revert t. induction n as [|p IH]; intros t Hm Hlow Hn Hhigh; cbn [mul_carry].
  { split_and!; [done|done|lia|lia|done]. }
  set (n := Datatypes.S p) in *. set (x := t !!! n) in *.
  pose proof (Hlow p ltac:(lia)) as Hp. set (y := t !!! p) in *.
  assert (Hx : Z.shiftr x 8 = x / 256) by (by rewrite Z.shiftr_div_pow2).
  rewrite Hx, u32_id by dlia.
  rewrite list_lookup_total_insert_ne by (unfold n; lia). fold x. rewrite land_255.
  set (t' := <[n := x mod 256]> (<[p := y + x / 256]> t)).
  assert (Hlen : length t' = length t) by (unfold t'; by rewrite !length_insert).
  assert (Hget : forall k, k <> n -> k <> p -> t' !!! k = t !!! k).
  { intros k H1 H2. unfold t'. by rewrite !list_lookup_total_insert_ne by congruence. }
  assert (Hgn : t' !!! n = x mod 256).
  { unfold t'. apply list_lookup_total_insert_eq. rewrite length_insert. lia. }
  assert (Hgp : t' !!! p = y + x / 256).
  { unfold t'. rewrite list_lookup_total_insert_ne by (unfold n; lia).
    apply list_lookup_total_insert_eq. lia. }
  destruct (IH t') as (Hl & Hv & H0 & Hk).
  - rewrite Hlen. lia.
  - intros k Hk. rewrite Hget by (unfold n; lia). apply Hlow. lia.
  - rewrite Hgp. dlia.
  - intros k Hk. destruct (decide (k = n)) as [->|Hne]; [rewrite Hgn; dlia|].
    rewrite Hget by lia. apply Hhigh. lia.
  - split; [lia|]. split; [|by split].
    rewrite Hv. unfold t'. rewrite be_val_take_insert by (rewrite length_insert; lia).
    rewrite be_val_take_insert by lia. rewrite list_lookup_total_insert_ne by (unfold n; lia).
    fold x y. replace (m - 1 - p)%nat with (Datatypes.S (m - 1 - n)) by (unfold n in *; lia).
    rewrite Nat2Z.inj_succ, Z.pow_succ_r by lia. pose proof (Z.div_mod x 256 ltac:(lia)). nia.
Qed.

Lemma skip_zeros_spec n first t :
  let r := skip_zeros n first t in
  (first <= r <= first + n)%nat /\ (forall k, (first <= k < r)%nat -> t !!! k = 0) /\
  (r = (first + n)%nat \/ t !!! r <> 0).
Proof.
  revert first. induction n as [|n IH]; intros first; cbn [skip_zeros].
  - split; [lia|]. split; [intros; lia|left; lia].
  - destruct (Z.eqb_spec (t !!! first) 0) as [H0|H0].
    + destruct (IH (Datatypes.S first)) as (Hr & Hz & Hend). split; [lia|]. split.
      * intros k Hk. destruct (decide (k = first)) as [->|]; [done|]. apply Hz. lia.
      * destruct Hend; [left; lia|by right].
    + split; [lia|]. split; [intros; lia|by right].
Qed.

Lemma be_val_leading_zeros (t : list Z) first m :
  (first <= m <= length t)%nat -> (forall k, (k < first)%nat -> t !!! k = 0) ->
  be_val (take m t) = be_val (take (m - first) (drop first t)).
Proof.
  intros Hm Hz.
  assert (H0 : be_val (take first t) = 0).
  { pose proof (map_seq_slice t 0 first ltac:(lia)) as E. rewrite drop_0 in E.
    rewrite <- E, (map_ext_in _ (fun _ => 0)).
    - generalize 0%nat. clear. induction first as [|n IH]; intros i; [done|].
      cbn [seq map]. by rewrite be_val_cons, IH.
    - intros k [_ Hk]%in_seq. apply Hz. lia. }
  rewrite <- (take_drop first (take m t)), take_take, Nat.min_l by lia.
  rewrite be_val_app, H0, skipn_firstn_comm. lia.
Qed.

(** The limbs after the carries are the bytes of the product. *)
Lemma product_limbs a b :
  bytes a -> bytes b -> (0 < length a + length b <= MAX_INTEGER_BYTES)%nat ->
  let full := (length a + length b)%nat in
  let r := mul_carry (full - 1)
    (mul_accumulate a (length a) b (length b) (replicate MAX_INTEGER_BYTES 0)) in
  length r = MAX_INTEGER_BYTES /\ be_val (take full r) = be_val a * be_val b /\
  (forall k, (k < full)%nat -> 0 <= r !!! k < 256).
Proof.
  intros Ha Hb Hlen full r. unfold MAX_INTEGER_BYTES in *.
  destruct (mul_accumulate_spec a b 40 Ha Hb) as (Hl & Hv & Hbd); [lia|lia|].
  destruct (mul_carry_spec (full - 1) full
    (mul_accumulate a (length a) b (length b) (replicate 40 0))) as (Hl' & Hv' & H0 & Hk).
  - unfold full. lia.
  - intros k Hk. apply Hbd. unfold full in *. lia.
  - specialize (Hbd (full - 1)%nat ltac:(unfold full; lia)). lia.
  - lia.
  - fold full in Hv. rewrite Hv in Hv'. fold r in Hl', Hv', H0, Hk |- *.
    split; [lia|]. split; [done|]. intros k Hkf.
    destruct (decide (k = 0%nat)) as [->|]; [|apply Hk; lia]. split; [lia|].
    pose proof (be_val_range a Ha). pose proof (be_val_range b Hb).
    destruct (lookup_lt_is_Some_2 r 0) as [x Hx]; [lia|].
    rewrite (list_lookup_total_correct _ _ _ Hx).
    assert (Htake : take full r = x :: take (full - 1) (drop 1 r)).
    { rewrite <- (drop_0 r) at 1. rewrite (drop_S _ _ _ Hx).
      destruct full eqn:E; [unfold full in *; lia|]. simpl. by rewrite Nat.sub_0_r. }
    assert (Hrest : 0 <= be_val (take (full - 1) (drop 1 r))).
    { apply be_val_range. rewrite <- map_seq_slice by (unfold full in *; lia).
      apply Forall_map, Forall_seq. intros i Hi. unfold is_u8. simpl. apply Hk. lia. }
    rewrite Htake, be_val_cons, length_take, length_drop, Nat.min_l in Hv' by (unfold full in *; lia).
    assert (be_val a * be_val b < 256 ^ Z.of_nat full).
    { unfold full. rewrite Nat2Z.inj_add, Z.pow_add_r by lia. nia. }
    replace (Z.of_nat full) with (1 + Z.of_nat (full - 1)) in * by (unfold full in *; lia).
    rewrite Z.pow_add_r in * by lia. change (256 ^ 1) with 256 in *.
    assert (0 < 256 ^ Z.of_nat (full - 1)) by (apply Z.pow_pos_nonneg; lia). nia.
Qed.

Lemma multiply_spec a b out :
  bytes a -> bytes b -> (length a + length b <= MAX_INTEGER_BYTES)%nat ->
  exists p, is_be_min (be_val a * be_val b) p /\
    (length p <= Nat.max 1 (length a + length b))%nat /\
    multiply_uint8_arrays (Some a) (length a) (Some b) (length b) (Some out) (Some (length out)) =
      if (length out <? length p)%nat then (false, out, Some (length out))
      else (true, written p out, Some (length p)).
Proof.
  intros Ha Hb Hlen. unfold multiply_uint8_arrays.
  rewrite (proj2 (Nat.ltb_ge _ _)) by lia. set (full := (length a + length b)%nat).
  destruct (Nat.eqb_spec full 0) as [H0|H0].
  { exists [0]. destruct a, b; try (unfold full in H0; simpl in H0; lia).
    split; [|split; [simpl; lia|]].
    - split_and!; [done|by repeat constructor|done|done].
    - cbn [length]. destruct (Nat.ltb_spec (length out) 1); [done|].
      rewrite <- (written_nil out) at 1. by rewrite insert_written by (simpl; lia). }
  destruct (product_limbs a b Ha Hb) as (Hl & Hv & Hbd); [unfold full in *; lia|].
  fold full in Hl, Hv, Hbd |- *.
  set (r := mul_carry _ _) in *. clearbody r.
  destruct (skip_zeros_spec (full - 1) 0 r) as (Hf & Hz & Hend).
  set (first := skip_zeros (full - 1) 0 r) in *. clearbody first.
  unfold MAX_INTEGER_BYTES in *. fold full in Hlen.
  set (p := take (full - first) (drop first r)).
  assert (Hp : length p = (full - first)%nat)
    by (unfold p; rewrite length_take, length_drop; lia).
  exists p. split; [|split; [lia|]].
  - assert (Hhd : head p = Some (r !!! first)).
    { unfold p. destruct (lookup_lt_is_Some_2 r first) as [x Hx]; [lia|].
      rewrite (drop_S _ _ _ Hx), (list_lookup_total_correct _ _ _ Hx).
      destruct (full - first)%nat eqn:E; [lia|done]. }
    split_and!.
    + intros E. rewrite E in Hp. simpl in Hp. lia.
    + unfold p. rewrite <- map_seq_slice by lia. apply Forall_map, Forall_seq.
      intros i Hi. unfold is_u8. simpl. apply Hbd. lia.
    + unfold p. rewrite <- be_val_leading_zeros; [done|lia|]. intros k Hk. apply Hz. lia.
    + rewrite Hhd. intros [= E]. destruct Hend as [Hend|]; [|done].
      destruct p as [|x [|y p']]; cbn [length] in Hp; try lia. by injection Hhd as ->; rewrite E.
  - rewrite Hp. destruct (Nat.ltb_spec (length out) (full - first)) as [|Hout]; [done|].
    rewrite (for_write_table (fun i => u8 (r !!! (first + i)%nat))) by done.
    do 3 f_equal. unfold p. rewrite <- map_seq_slice by lia.
    apply map_ext_in. intros i [_ Hi]%in_seq. apply u8_id, Hbd. lia.
Qed.

(** ** What the entry points leave of a buffer longer than declared *)

(** Only the declared length [m] is written, with a text and its terminator
    when the call succeeds, and nothing at all when it fails. *)
Definition text_within (m : nat) (out : list Z) (r : bool * list Z) : Prop :=
  (fst r = true -> (strlen (snd r) < m)%nat) /\ (fst r = false -> snd r = out) /\
  drop m (snd r) = drop m out.

Lemma text_within_refl m out : text_within m out (false, out).
Proof. done. Qed.

Lemma uint8_array_to_decimal_within l len out m :
  bytes l -> (len <= length l)%nat -> (0 < m <= length out)%nat ->
  text_within m out (uint8_array_to_decimal (Some l) len (Some out) m).
Proof.
  intros Hb Hlen Hm. destruct (Nat.ltb_spec MAX_INTEGER_BYTES len) as [H|H].
  { unfold uint8_array_to_decimal. rewrite (proj2 (Nat.ltb_lt _ _)), orb_true_r by done.
    apply text_within_refl. }
  destruct (uint8_array_to_decimal_room l len out m Hb H Hlen Hm) as (s & (_ & Hd & _) & _ & ->).
  destruct (Nat.ltb_spec m (length s + 1)) as [|Hs]; [apply text_within_refl|].
  unfold text_within, written, strlen. split; [|split; [done|]]; cbn [fst snd].
  - intros _. rewrite <- app_assoc, cstr_app by (by apply digit_nonzero).
    cbn [app]. rewrite cstr_zero, app_nil_r. lia.
  - rewrite drop_app_ge, drop_drop by (rewrite length_app; cbn [length]; lia).
    f_equal. rewrite length_app. cbn [length]. lia.
Qed.

Lemma format_qrl_amount_within l len out m :
  bytes l -> (len <= length l)%nat -> (0 < m <= length out)%nat ->
  text_within m out (format_qrl_amount (Some l) len (Some out) m).
Proof.
  intros Hb Hlen Hm. unfold format_qrl_amount. set (room := replicate _ 0).
  destruct (Nat.ltb_spec MAX_INTEGER_BYTES len) as [H|H].
  { unfold uint8_array_to_decimal. rewrite (proj2 (Nat.ltb_lt _ _)), orb_true_r by done.
    apply text_within_refl. }
  assert (Hroom : length room = (MAX_DECIMAL_DIGITS + 1)%nat) by apply length_replicate.
  destruct (uint8_array_to_decimal_room l len room (MAX_DECIMAL_DIGITS + 1) Hb H Hlen)
    as (s & Hs & Hls & ->); [lia|].
  rewrite (proj2 (Nat.ltb_ge _ _)) by lia. unfold written. rewrite <- app_assoc. cbn [app].
  pose proof (be_val_range (take len l) ltac:(by apply Forall_take)) as Hr.
  pose proof (format_with_decimals_room (be_val (take len l)) s
    (drop (length (s ++ [0])) room) 18 out m ltac:(lia) Hs ltac:(lia) Hm) as Hf.
  destruct (format_with_decimals _ _ _ _) as [ok out'].
  destruct (m <? _)%nat; [destruct Hf as [-> ->]; apply text_within_refl|].
  destruct Hf as (-> & _ & _ & Hd & Hl). by split; [|split].
Qed.

(** The product writes within the length declared, returns a length of at most
    that, and writes nothing when it fails. *)
Lemma multiply_within a a_len b b_len out m :
  bytes out -> (m <= length out)%nat ->
  let '(ok, out', olen) :=
    multiply_uint8_arrays (Some a) a_len (Some b) b_len (Some out) (Some m) in
  bytes out' /\ length out' = length out /\ drop m out' = drop m out /\
  (ok = false -> out' = out) /\
  exists n, olen = Some n /\ (n <= m)%nat /\ (ok = true -> (0 < n)%nat).
Proof.
  intros Hb Hm. unfold multiply_uint8_arrays.
  destruct (MAX_INTEGER_BYTES <? _)%nat; [split_and!; [done..|by eexists]|].
  destruct (Nat.eqb_spec (a_len + b_len) 0) as [H0|H0].
  { destruct (Nat.ltb_spec m 1); [split_and!; [done..|by eexists]|]. split_and!.
    - apply Forall_insert; [done|]. unfold is_u8. lia.
    - by rewrite length_insert.
    - by rewrite drop_insert_lt by lia.
    - done.
    - exists 1%nat. split_and!; lia || done. }
  set (full := (a_len + b_len)%nat) in *. set (accum := mul_carry _ _). cbv zeta.
  destruct (skip_zeros_spec (full - 1) 0 accum) as (Hf & _ & _).
  set (first := skip_zeros _ _ _) in *. clearbody first accum.
  destruct (Nat.ltb_spec m (full - first)); [split_and!; [done..|by eexists]|].
  rewrite (for_write_table (fun i => u8 (accum !!! (first + i)%nat))) by lia.
  set (p := map _ _).
  assert (Hp : length p = (full - first)%nat) by (unfold p; by rewrite length_map, length_seq).
  split_and!.
  - apply Forall_app. split; [|by apply Forall_drop].
    apply Forall_map, Forall_true. intros i. apply u8_range.
  - apply written_length. lia.
  - unfold written. rewrite drop_app_ge, drop_drop by lia. f_equal. lia.
  - done.
  - exists (full - first)%nat. split_and!; lia || done.
Qed.

(** ** Properties *)

Lemma digits_prefix_unique a1 a2 t1 t2 :
  Forall digit a1 -> Forall digit a2 ->
  (forall c, head t1 = Some c -> ~ digit c) -> (forall c, head t2 = Some c -> ~ digit c) ->
  a1 ++ t1 = a2 ++ t2 -> a1 = a2 /\ t1 = t2.
Proof.
  revert a2. induction a1 as [|c a1 IH]; intros a2 H1 H2 Ht1 Ht2 E.
  - destruct a2 as [|d a2]; [done|]. simpl in E. subst t1.
    apply Forall_cons_1 in H2 as [Hd _]. by destruct (Ht1 d eq_refl).
  - apply Forall_cons_1 in H1 as [Hc H1]. destruct a2 as [|d a2].
    + simpl in E. subst t2. by destruct (Ht2 c eq_refl).
    + apply Forall_cons_1 in H2 as [_ H2]. injection E as -> E.
      by destruct (IH a2 H1 H2 Ht1 Ht2 E) as [-> ->].
Qed.

Lemma is_amount_functional d n m s : is_amount d n s -> is_amount d m s -> n = m.
Proof.
  assert (Hdot : forall f c,
    head (match f with [] => [] | _ => 46 :: f end) = Some c -> ~ digit c).
  { intros [|x f] c; [done|]. intros [= <-]. unfold digit. lia. }
  intros (ip1 & f1 & i1 & (_ & Hd1 & Hi1 & _) & _ & _ & _ & -> & ->)
    (ip2 & f2 & i2 & (_ & Hd2 & Hi2 & _) & _ & _ & _ & E & ->).
  destruct (digits_prefix_unique _ _ _ _ Hd1 Hd2 (Hdot f1) (Hdot f2) E) as [-> Ef].
  assert (f1 = f2) as -> by (destruct f1, f2; congruence). congruence.
Qed.

Lemma decimal_length n s k : is_decimal n s -> n < 10 ^ Z.of_nat k -> (0 < k)%nat ->
  (length s <= k)%nat.
Proof.
  intros (Hne & Hd & <- & Hz) Hn Hk. destruct s as [|c s]; [done|].
  destruct (decide (c = 48)) as [->|Hc]; [by rewrite Hz|].
  apply Forall_cons_1 in Hd as [Hc' Hd]. unfold digit in Hc'.
  pose proof (dec_val_range s Hd).
  change (c :: s) with ([c] ++ s) in Hn. rewrite dec_val_app in Hn.
  change (dec_val [c]) with (c - 48) in Hn.
  assert (10 ^ Z.of_nat (length s) < 10 ^ Z.of_nat k) as Hlt by nia.
  apply Z.pow_lt_mono_r_iff in Hlt; simpl; lia.
Qed.

Lemma format_qrl_amount_spec l len out :
  bytes l -> (len <= MAX_INTEGER_BYTES)%nat -> (len <= length l)%nat ->
  (MAX_AMOUNT_LEN <= length out)%nat ->
  exists out', format_qrl_amount (Some l) len (Some out) (length out) = (true, out') /\
    is_amount 18 (be_val (take len l)) (cstr out') /\ length out' = length out.
Proof.
  intros Hb H40 Hlen Hout. unfold MAX_AMOUNT_LEN in Hout. unfold format_qrl_amount.
  pose proof (be_val_range (take len l) ltac:(by apply Forall_take)) as Hr.
  set (room := replicate (MAX_DECIMAL_DIGITS + 1) 0).
  destruct (uint8_array_to_decimal_spec l len room Hb H40 Hlen) as (s & Hs & Hls & Heq);
    [unfold room; rewrite length_replicate; lia|].
  assert (Hroom : length room = (MAX_DECIMAL_DIGITS + 1)%nat) by apply length_replicate.
  rewrite Hroom in Heq. rewrite Heq, (proj2 (Nat.ltb_ge _ _)) by lia.
  unfold written. rewrite <- app_assoc. cbn [app].
  pose proof (format_with_decimals_spec (be_val (take len l)) s (drop (length (s ++ [0])) room) 18 out
    ltac:(lia) Hs ltac:(lia) ltac:(lia)) as Hf.
  destruct (format_with_decimals _ _ _ _) as [ok out'].
  unfold amount_room, MAX_DECIMAL_DIGITS in *.
  rewrite (proj2 (Nat.ltb_ge _ _)) in Hf by lia. destruct Hf as [-> Hf]. by exists out'.
Qed.

(** C28. The conversion writes the decimal numeral of the big-endian value, or
    nothing when the buffer is too small for it; it refuses more than 40
    bytes. *)
Theorem uint8_array_to_decimal_correct (l out : list Z) (len : nat)
  (Hb : bytes l) (Hlen : (len <= length l)%nat) (Hout : (0 < length out)%nat) :
  if (MAX_INTEGER_BYTES <? len)%nat then
    uint8_array_to_decimal (Some l) len (Some out) (length out) = (false, out)
  else exists s, is_decimal (be_val (take len l)) s /\
    uint8_array_to_decimal (Some l) len (Some out) (length out) =
      if (length out <? length s + 1)%nat then (false, out)
      else (true, written (s ++ [0]) out).
Proof.
  destruct (Nat.ltb_spec MAX_INTEGER_BYTES len) as [H|H].
  - unfold uint8_array_to_decimal. rewrite (proj2 (Nat.ltb_lt _ _)) by done.
    by rewrite orb_true_r.
  - destruct (uint8_array_to_decimal_spec l len out Hb H Hlen Hout) as (s & Hs & _ & E).
    by exists s.
Qed.

Lemma uint8_array_to_decimal_correct_witness :
  exists s, is_decimal (be_val (take 2 [1; 0])) s /\
    uint8_array_to_decimal (Some [1; 0]) 2 (Some (replicate 21 7)) 21 =
      if (21 <? length s + 1)%nat then (false, replicate 21 7)
      else (true, written (s ++ [0]) (replicate 21 7)).
Proof.
  apply (uint8_array_to_decimal_correct [1; 0] (replicate 21 7) 2);
    [by apply bytesb_bytes|simpl; lia|simpl; lia].
Defined.

(** C26. The amount written denotes the value in units of 10^-18 exactly, without
    trailing zeros, and the formatter cannot fail on the screen's buffers;
    distinct values therefore have distinct texts. *)
Theorem format_qrl_amount_exact (l1 l2 out1 out2 : list Z)
  (H1 : bytes l1) (H2 : bytes l2)
  (Hl1 : (length l1 <= MAX_INTEGER_BYTES)%nat) (Hl2 : (length l2 <= MAX_INTEGER_BYTES)%nat)
  (Ho1 : (MAX_AMOUNT_LEN <= length out1)%nat) (Ho2 : (MAX_AMOUNT_LEN <= length out2)%nat) :
  exists s1 s2,
    format_qrl_amount (Some l1) (length l1) (Some out1) (length out1) = (true, s1) /\
    format_qrl_amount (Some l2) (length l2) (Some out2) (length out2) = (true, s2) /\
    is_amount 18 (be_val l1) (cstr s1) /\ (cstr s1 = cstr s2 -> be_val l1 = be_val l2).
Proof.
  destruct (format_qrl_amount_spec l1 (length l1) out1) as (s1 & E1 & A1 & _); [done..|].
  destruct (format_qrl_amount_spec l2 (length l2) out2) as (s2 & E2 & A2 & _); [done..|].
  rewrite take_ge in A1, A2 by lia.
  exists s1, s2. split_and!; [done..|]. intros E. rewrite E in A1.
  by apply (is_amount_functional 18 _ _ (cstr s2)).
Qed.

Lemma format_qrl_amount_exact_witness :
  exists s1 s2,
    format_qrl_amount (Some [0x0d; 0xe0]) 2 (Some (replicate 100 0)) 100 = (true, s1) /\
    format_qrl_amount (Some [0xff]) 1 (Some (replicate 100 0)) 100 = (true, s2) /\
    is_amount 18 (be_val [0x0d; 0xe0]) (cstr s1) /\
    (cstr s1 = cstr s2 -> be_val [0x0d; 0xe0] = be_val [0xff]).
Proof.
  apply (format_qrl_amount_exact [0x0d; 0xe0] [0xff] (replicate 100 0) (replicate 100 0));
    first [by apply bytesb_bytes|vm_compute; lia].
Defined.

(** C27. The product is exact and minimal, with no 32-bit overflow, for operands of
    at most 40 bytes together; it fails only when the output buffer is shorter
    than the result, and longer operands are refused. *)
Theorem multiply_uint8_arrays_correct (a b out : list Z) (Ha : bytes a) (Hb : bytes b) :
  let r := multiply_uint8_arrays (Some a) (length a) (Some b) (length b) (Some out)
             (Some (length out)) in
  if (MAX_INTEGER_BYTES <? length a + length b)%nat then r = (false, out, Some (length out))
  else exists p, is_be_min (be_val a * be_val b) p /\
    r = if (length out <? length p)%nat then (false, out, Some (length out))
        else (true, written p out, Some (length p)).
Proof.
  cbv zeta. destruct (Nat.ltb_spec MAX_INTEGER_BYTES (length a + length b)) as [H|H].
  - unfold multiply_uint8_arrays. by rewrite (proj2 (Nat.ltb_lt _ _)).
  - destruct (multiply_spec a b out Ha Hb H) as (p & Hp & _ & E). by exists p.
Qed.

Lemma multiply_uint8_arrays_correct_witness :
  let r := multiply_uint8_arrays (Some [2; 255]) 2 (Some [1; 0]) 2 (Some (replicate 40 0))
             (Some 40%nat) in
  exists p, is_be_min (be_val [2; 255] * be_val [1; 0]) p /\
    r = if (40 <? length p)%nat then (false, replicate 40 0, Some 40%nat)
        else (true, written p (replicate 40 0), Some (length p)).
Proof.
  apply (multiply_uint8_arrays_correct [2; 255] [1; 0] (replicate 40 0));
    by apply bytesb_bytes.
Defined.
