(* ===== verification/Fuzz.v ===== *)
(** * The fuzzing harnesses ([src/fuzzing])

    [fuzz_tx_format] is [LLVMFuzzerTestOneInput] of [fuzz_tx_format.c]: the amount formatters are called on two
    operands cut out of the input, with a guard beyond the declared length of
    every buffer, and the harness asserts their contract.  [fuzz_tx_parser]
    is that of [fuzz_tx_parser.c], which only calls the decoder.  An assertion that fails
    ends the run with [None]; the entry points return 0. *)
From S2P Require Import Prelude CInt Constants Rlp RlpSpec TxFormat.

Definition GUARD : Z := 0xA5.
Definition REDZONE : nat := 32.

(** The loop over [buf[declared .. total)]. *)
Definition redzone_intact (buf : list Z) (declared total : nat) : bool :=
  forallb (fun i => u8 (buf !!! i) =? GUARD) (seq declared (total - declared)).

Definition assert (b : bool) : option unit := if b then Some tt else None.

(** A call that writes into a fresh guarded buffer of [declared] characters:
    the assertion on the text of a call that succeeds, then on the guard. *)
Definition guarded (declared : nat) (call : list Z -> bool * list Z) : option unit :=
  let out := replicate (declared + REDZONE) GUARD in
  let '(ok, out) := call out in
  _ ← (if (ok : bool) then assert (strlen out + 1 <=? declared)%nat else Some tt);
  assert (redzone_intact out declared (declared + REDZONE)).

(** The product and, when there is one, its amount. *)
Definition product_check (a : list Z) (a_len : nat) (b : list Z) (b_len : nat) : option unit :=
  let product := replicate (MAX_INTEGER_BYTES + REDZONE) GUARD in
  let product_len := MAX_INTEGER_BYTES in
  let '(ok, product, product_len) :=
    multiply_uint8_arrays (Some a) a_len (Some b) b_len (Some product) (Some product_len) in
  let product_len := default 0%nat product_len in
  _ ← (if (ok : bool) then
         _ ← assert (product_len <=? MAX_INTEGER_BYTES)%nat;
         guarded MAX_AMOUNT_LEN (fun out =>
           format_qrl_amount (Some product) product_len (Some out) MAX_AMOUNT_LEN)
       else Some tt);
  assert (redzone_intact product MAX_INTEGER_BYTES (MAX_INTEGER_BYTES + REDZONE)).

(** The first byte cuts the rest into the operands [a] and [b]. *)
Definition fuzz_tx_format (data : list Z) (size : nat) : option Z :=
  if (size <? 2)%nat then Some 0 else
  let split := (Z.to_nat (data !!! 0%nat) mod (if (1 <? size)%nat then size else 1))%nat in
  let a := drop 1 data in
  let a_len := split in
  let b := drop (1 + split) data in
  let b_len := (size - 1 - split)%nat in
  let declared := MAX_AMOUNT_LEN in
  _ ← guarded declared (fun out => uint8_array_to_decimal (Some a) a_len (Some out) declared);
  _ ← guarded declared (fun out => format_qrl_amount (Some a) a_len (Some out) declared);
  _ ← guarded 8 (fun tiny => format_qrl_amount (Some a) a_len (Some tiny) 8);
  _ ← product_check a a_len b b_len;
  Some 0.

(** [size_t] has 64 bits where the harness runs. *)
Definition fuzz_tx_parser (data : list Z) : option Z :=
  match decode_ledger_tx 64 (Some data) (Z.of_nat (length data)) (Some zero_tx) with
  | Decoded _ _ => Some 0
  | DecodeOob => None
  end.
(** ** The assertions *)
Lemma assert_true b : b = true -> assert b = Some tt.
Proof. by intros ->. Qed.

(** A buffer whose end was not written has its guard. *)
Lemma redzone_intact_spec out n :
  drop n out = drop n (replicate (n + REDZONE) GUARD) ->
  redzone_intact out n (n + REDZONE) = true.
Proof.
  intros E. unfold redzone_intact. apply forallb_forall. intros i Hi%in_seq.
  apply Z.eqb_eq. replace (out !!! i) with GUARD; [done|]. symmetry.
  apply list_lookup_total_correct. replace i with (n + (i - n))%nat by lia.
  rewrite <- lookup_drop, E, lookup_drop. apply lookup_replicate_2. lia.
Qed.

Lemma guarded_spec n call :
  (forall out, length out = (n + REDZONE)%nat -> text_within n out (call out)) ->
  guarded n call = Some tt.
Proof.
  intros H. unfold guarded. set (out := replicate _ _).
  destruct (H out (length_replicate _ _)) as (Hok & _ & Hd).
  destruct (call out) as [ok out']. cbn [fst snd] in *.
  assert ((if ok then assert (strlen out' + 1 <=? n)%nat else Some tt) = Some tt) as ->.
  { destruct ok; [|done]. apply assert_true, Nat.leb_le. specialize (Hok eq_refl). lia. }
  by apply assert_true, redzone_intact_spec.
Qed.

Lemma product_check_spec a a_len b b_len : product_check a a_len b b_len = Some tt.
Proof.
  unfold product_check. set (product := replicate _ _).
  pose proof (multiply_within a a_len b b_len product MAX_INTEGER_BYTES) as H.
  destruct (multiply_uint8_arrays _ _ _ _ _ _) as [[ok p] olen].
  destruct H as (Hb & Hl & Hd & _ & n & -> & Hn & _).
  { apply Forall_replicate. unfold is_u8, GUARD. lia. }
  { unfold product. rewrite length_replicate. lia. }
  unfold product in Hl. rewrite length_replicate in Hl.
  change (default 0%nat (Some n)) with n.
  rewrite (assert_true (redzone_intact p _ _)) by by apply redzone_intact_spec.
  destruct ok; [|done]. rewrite (assert_true (n <=? _)%nat) by (apply Nat.leb_le; lia).
  cbn [mbind option_bind]. rewrite guarded_spec; [done|]. intros out Ho.
  apply format_qrl_amount_within; [done|lia|]. unfold MAX_AMOUNT_LEN in *. lia.
Qed.

(** ** Properties *)

(** C29. On every input no assertion of the formatter harness fails and the parser
    harness reads nothing outside it; and, as the comment of the harness asks, a
    formatter that returns false has not written to its output. *)
Theorem harnesses_pass (data : list Z) (Hok : input_ok data) :
  fuzz_tx_format data (length data) = Some 0 /\
  fuzz_tx_parser data = Some 0 /\
  (forall len out m, (len <= length data)%nat -> (0 < m <= length out)%nat ->
     let decimal := uint8_array_to_decimal (Some data) len (Some out) m in
     let amount := format_qrl_amount (Some data) len (Some out) m in
     (fst decimal = false -> snd decimal = out) /\ (fst amount = false -> snd amount = out)).
Proof.
  destruct Hok as [Hb Hlen]. split; [|split].
  - unfold fuzz_tx_format.
    destruct (Nat.ltb_spec (length data) 2) as [|Hsize]; [done|].
    rewrite (proj2 (Nat.ltb_lt _ _)) by lia. set (split := (_ mod _)%nat).
    assert (split < length data)%nat by (apply Nat.mod_upper_bound; lia).
    assert (Ha : bytes (drop 1 data)) by by apply Forall_drop.
    assert (split <= length (drop 1 data))%nat by (rewrite length_drop; lia).
    rewrite product_check_spec, !guarded_spec; [done|..]; intros out Ho;
      first [apply format_qrl_amount_within|apply uint8_array_to_decimal_within];
      unfold MAX_AMOUNT_LEN in *; done || lia.
  - unfold fuzz_tx_parser.
    by destruct (decode_cases 64 ltac:(lia) data (conj Hb Hlen)) as [(? & ? & _ & ->)|[_ [? ->]]].
  - intros len out m Hl Hm. split.
    + by apply uint8_array_to_decimal_within.
    + by apply format_qrl_amount_within.
Qed.

Lemma harnesses_pass_witness :
  fuzz_tx_format [2; 255; 3; 7] 4 = Some 0 /\
  fuzz_tx_parser [2; 255; 3; 7] = Some 0 /\
  (forall len out m, (len <= 4)%nat -> (0 < m <= length out)%nat ->
     let decimal := uint8_array_to_decimal (Some [2; 255; 3; 7]) len (Some out) m in
     let amount := format_qrl_amount (Some [2; 255; 3; 7]) len (Some out) m in
     (fst decimal = false -> snd decimal = out) /\ (fst amount = false -> snd amount = out)).
Proof.
  apply (harnesses_pass [2; 255; 3; 7]). split; [by apply bytesb_bytes|vm_compute; reflexivity].
Defined.
