(* ===== verification/Keccak.v ===== *)
(** * The Keccak permutation and its sponges

    [keccakf.c], [keccak256.c], [shake256.c] and [shake128.c] of
    [src/src/mldsa87/].  The three sponges of the source are the same code with
    another rate and another padding byte: they are the instances of one section.
    Lanes are 64-bit integers, a state is the list of its 25 lanes. *)
From S2P Require Import Prelude CInt.

(** ** Keccak-f[1600] *)
Definition rol64 (x n : Z) : Z :=
  Z.lor (u64 (Z.shiftl x n)) (Z.shiftr x (Z.land (u32 (64 - n)) 63)).

Definition RC : list Z := [
  0x0000000000000001; 0x0000000000008082; 0x800000000000808A; 0x8000000080008000;
  0x000000000000808B; 0x0000000080000001; 0x8000000080008081; 0x8000000000008009;
  0x000000000000008A; 0x0000000000000088; 0x0000000080008009; 0x000000008000000A;
  0x000000008000808B; 0x800000000000008B; 0x8000000000008089; 0x8000000000008003;
  0x8000000000008002; 0x8000000000000080; 0x000000000000800A; 0x800000008000000A;
  0x8000000080008081; 0x8000000000008080; 0x0000000080000001; 0x8000000080008008].

Definition rot : list Z := [
  0; 1; 62; 28; 27; 36; 44; 6; 55; 20; 3; 10; 43;
  25; 39; 41; 45; 15; 21; 8; 18; 2; 61; 56; 14].

Definition keccak_round (round : nat) (s : list Z) : list Z :=
  let C := for_ 0 5 (fun x C =>
    <[x := Z.lxor (Z.lxor (Z.lxor (Z.lxor (s !!! x) (s !!! (x + 5)%nat)) (s !!! (x + 10)%nat))
             (s !!! (x + 15)%nat)) (s !!! (x + 20)%nat)]> C) (replicate 5 0) in
  let D := for_ 0 5 (fun x D =>
    <[x := Z.lxor (C !!! ((x + 4) mod 5)%nat) (rol64 (C !!! ((x + 1) mod 5)%nat) 1)]> D)
    (replicate 5 0) in
  let s := for_ 0 25 (fun i s => <[i := Z.lxor (s !!! i) (D !!! (i mod 5)%nat)]> s) s in
  let B := for_ 0 25 (fun i B =>
    let x := (i mod 5)%nat in let y := (i / 5)%nat in
    <[(y + 5 * ((2 * x + 3 * y) mod 5))%nat := rol64 (s !!! i) (rot !!! i)]> B)
    (replicate 25 0) in
  let s := for_ 0 25 (fun i s =>
    <[i := Z.lxor (B !!! i)
             (Z.land (u64 (Z.lnot (B !!! ((i + 1) mod 5 + 5 * (i / 5))%nat)))
                (B !!! ((i + 2) mod 5 + 5 * (i / 5))%nat))]> s) s in
  <[0%nat := Z.lxor (s !!! 0%nat) (RC !!! round)]> s.

Definition keccakf (s : list Z) : list Z := for_ 0 24 keccak_round s.

(** ** The sponge, for a permutation [f], a rate and a padding byte *)
Record sponge_ctx := SpongeCtx { st : list Z; pos : nat; squeezing : bool }.

Section sponge.
Context (f : list Z -> list Z) (rate : nat) (pad : Z).

Definition init : sponge_ctx := SpongeCtx (replicate 25 0) 0 false.

Definition absorb_byte (ctx : sponge_ctx) (b : Z) : sponge_ctx :=
  let i := pos ctx in
  let p := (i + 1)%nat in
  let s := <[(i / 8)%nat :=
    Z.lxor (st ctx !!! (i / 8)%nat) (u64 (Z.shiftl b (8 * Z.of_nat (i mod 8))))]> (st ctx) in
  if (p =? rate)%nat then SpongeCtx (f s) 0 (squeezing ctx) else SpongeCtx s p (squeezing ctx).

Definition absorb (ctx : sponge_ctx) (inp : list Z) (inlen : nat) : sponge_ctx :=
  fold_left absorb_byte (take inlen inp) ctx.

Definition finalize (ctx : sponge_ctx) : sponge_ctx :=
  let s := st ctx in
  let s := <[(pos ctx / 8)%nat :=
    Z.lxor (s !!! (pos ctx / 8)%nat) (u64 (Z.shiftl pad (8 * Z.of_nat (pos ctx mod 8))))]> s in
  let s := <[((rate - 1) / 8)%nat :=
    Z.lxor (s !!! ((rate - 1) / 8)%nat)
      (u64 (Z.shiftl 0x80 (8 * Z.of_nat ((rate - 1) mod 8))))]> s in
  SpongeCtx (f s) 0 true.

Definition squeeze_byte (ctx : sponge_ctx) : Z * sponge_ctx :=
  let b := Z.land (Z.shiftr (st ctx !!! (pos ctx / 8)%nat) (8 * Z.of_nat (pos ctx mod 8))) 0xff in
  let p := (pos ctx + 1)%nat in
  (b, if (p =? rate)%nat then SpongeCtx (f (st ctx)) 0 (squeezing ctx)
      else SpongeCtx (st ctx) p (squeezing ctx)).

Fixpoint squeeze_loop (outlen : nat) (ctx : sponge_ctx) : list Z * sponge_ctx :=
  match outlen with
  | O => ([], ctx)
  | S n =>
    let '(b, ctx) := squeeze_byte ctx in
    let '(out, ctx) := squeeze_loop n ctx in (b :: out, ctx)
  end.

(** The bytes written to [out] and the context left. *)
Definition squeeze (ctx : sponge_ctx) (outlen : nat) : list Z * sponge_ctx :=
  squeeze_loop outlen (if squeezing ctx then ctx else finalize ctx).

Definition clear (_ : sponge_ctx) : sponge_ctx := SpongeCtx (replicate 25 0) 0 false.
End sponge.

(** ** The three sponges *)
Definition KECCAK256_RATE : nat := 136.
Definition SHAKE256_RATE : nat := 136.
Definition SHAKE128_RATE : nat := 168.

Definition keccak256_init : sponge_ctx := init.
Definition keccak256_absorb := absorb keccakf KECCAK256_RATE.
Definition keccak256_finalize := finalize keccakf KECCAK256_RATE 0x01.
Definition keccak256_squeeze (ctx : sponge_ctx) : list Z * sponge_ctx :=
  squeeze keccakf KECCAK256_RATE 0x01 ctx 32.
Definition keccak256_clear := clear.

Definition shake256_init : sponge_ctx := init.
Definition shake256_absorb := absorb keccakf SHAKE256_RATE.
Definition shake256_finalize := finalize keccakf SHAKE256_RATE 0x1F.
Definition shake256_squeeze := squeeze keccakf SHAKE256_RATE 0x1F.
Definition shake256_clear := clear.

Definition shake128_init : sponge_ctx := init.
Definition shake128_absorb := absorb keccakf SHAKE128_RATE.
Definition shake128_finalize := finalize keccakf SHAKE128_RATE 0x1F.
Definition shake128_squeeze := squeeze keccakf SHAKE128_RATE 0x1F.
Definition shake128_clear := clear.
