(* ===== verification/KeccakSpec.v ===== *)
(** * FIPS 202

    The step mappings of the standard on bits, with the rotation offsets and the
    round constants computed as the standard generates them, and the sponge
    construction on byte strings; [keccakf] and the incremental contexts are shown
    to implement them. *)
From S2P Require Import Prelude CInt Keccak.

Module Fips202.
(** [A x y z], section 3.1.2. *)
Definition State := nat -> nat -> nat -> bool.

Definition parity (A : State) (x z : nat) : bool :=
  xorb (xorb (xorb (xorb (A x 0%nat z) (A x 1%nat z)) (A x 2%nat z)) (A x 3%nat z)) (A x 4%nat z).
Definition theta (A : State) : State := fun x y z =>
  xorb (A x y z) (xorb (parity A ((x + 4) mod 5)%nat z)
    (parity A ((x + 1) mod 5)%nat ((z + 63) mod 64)%nat)).

(** The walk [(x, y) := (y, 2x + 3y)] from [(1, 0)] with the triangular
    offsets. *)
Fixpoint rho_walk (n t x y : nat) (off : nat -> nat -> nat) : nat -> nat -> nat :=
  match n with
  | O => off
  | S n => rho_walk n (t + 1) y ((2 * x + 3 * y) mod 5) (fun a b =>
      if ((a =? x) && (b =? y))%nat then (((t + 1) * (t + 2) / 2) mod 64)%nat else off a b)
  end.
Definition rho_offset : nat -> nat -> nat := rho_walk 24 0 1 0 (fun _ _ => 0%nat).
Definition rho (A : State) : State := fun x y z =>
  A x y ((z + 64 - rho_offset x y) mod 64)%nat.
Definition pi (A : State) : State := fun x y z => A ((x + 3 * y) mod 5)%nat x z.
Definition chi (A : State) : State := fun x y z =>
  xorb (A x y z) (andb (negb (A ((x + 1) mod 5)%nat y z)) (A ((x + 2) mod 5)%nat y z)).

(** Algorithm 5: one step of the register [R] is [R := 0 || R] with feedback. *)
Definition lfsr_step (R : list bool) : list bool :=
  let R := false :: R in
  let r i := nth i R false in
  take 8 ([xorb (r 0%nat) (r 8%nat); r 1%nat; r 2%nat; r 3%nat; xorb (r 4%nat) (r 8%nat);
           xorb (r 5%nat) (r 8%nat); xorb (r 6%nat) (r 8%nat); r 7%nat]).
Definition rc (t : nat) : bool :=
  nth 0 (Nat.iter (t mod 255) lfsr_step [true; false; false; false; false; false; false; false])
    false.
(** Bit [z] of the round constant: only bits [2^j - 1] can be set. *)
Definition round_constant (ir z : nat) : bool :=
  existsb (fun j => if (z =? 2 ^ j - 1)%nat then rc (j + 7 * ir) else false) (seq 0 7).
Definition iota (ir : nat) (A : State) : State := fun x y z =>
  if ((x =? 0) && (y =? 0))%nat then xorb (A x y z) (round_constant ir z) else A x y z.

Definition Rnd (A : State) (ir : nat) : State := iota ir (chi (pi (rho (theta A)))).
Definition Keccak_f (A : State) : State := fold_left Rnd (seq 0 24) A.
End Fips202.

(** Bit [(x, y, z)] of a list of lanes. *)
Definition bit_of (s : list Z) : Fips202.State := fun x y z =>
  Z.testbit (s !!! (x + 5 * y)%nat) (Z.of_nat z).

Definition is_u64 (x : Z) : Prop := 0 <= x < 18446744073709551616.
Definition state_ok (s : list Z) : Prop := length s = 25%nat /\ Forall is_u64 s.

(** States that agree on the 1600 bits. *)
Definition steq (A B : Fips202.State) : Prop := forall x y z,
  (x < 5)%nat -> (y < 5)%nat -> (z < 64)%nat -> A x y z = B x y z.
#[export] Instance steq_equivalence : Equivalence steq.
Proof.
  split.
  - by intros A x y z.
  - intros A B H x y z Hx Hy Hz. by rewrite H.
  - intros A B C H G x y z Hx Hy Hz. rewrite H by done. by apply G.
Qed.

(** ** Lanes *)
Lemma u64_bits x i : 0 <= i < 64 -> Z.testbit (u64 x) i = Z.testbit x i.
Proof. intros. rewrite u64_mod. change 18446744073709551616 with (2 ^ 64). by rewrite Z.mod_pow2_bits_low by lia. Qed.

Lemma is_u64_bits x i : is_u64 x -> 64 <= i -> Z.testbit x i = false.
Proof.
  intros Hx Hi. rewrite <- (Z.mod_small x (2 ^ 64)) by (unfold is_u64 in Hx; lia).
  by apply Z.mod_pow2_bits_high; lia.
Qed.

Lemma bits_is_u64 x : 0 <= x -> (forall i, 64 <= i -> Z.testbit x i = false) -> is_u64 x.
Proof.
  intros Hx Hb. assert (E : x = x mod 2 ^ 64).
  { apply Z.bits_inj'. intros i Hi. destruct (Z.lt_ge_cases i 64).
    - by rewrite Z.mod_pow2_bits_low by lia.
    - rewrite Z.mod_pow2_bits_high by lia. by apply Hb. }
  rewrite E. apply Z.mod_pos_bound. lia.
Qed.

Lemma is_u64_u64 x : is_u64 (u64 x).
Proof. apply u64_range. Qed.
Lemma is_u64_lxor x y : is_u64 x -> is_u64 y -> is_u64 (Z.lxor x y).
Proof.
  intros Hx Hy. apply bits_is_u64.
  - unfold is_u64 in *. by apply Z.lxor_nonneg; lia.
  - intros i Hi. by rewrite Z.lxor_spec, !is_u64_bits.
Qed.
Lemma is_u64_land x y : is_u64 x -> is_u64 y -> is_u64 (Z.land x y).
Proof.
  intros Hx Hy. apply bits_is_u64.
  - unfold is_u64 in *. apply Z.land_nonneg. lia.
  - intros i Hi. by rewrite Z.land_spec, !is_u64_bits.
Qed.
Lemma is_u64_lor x y : is_u64 x -> is_u64 y -> is_u64 (Z.lor x y).
Proof.
  intros Hx Hy. apply bits_is_u64.
  - unfold is_u64 in *. apply Z.lor_nonneg. lia.
  - intros i Hi. by rewrite Z.lor_spec, !is_u64_bits.
Qed.
Lemma is_u64_shiftr x n : is_u64 x -> 0 <= n -> is_u64 (Z.shiftr x n).
Proof.
  intros Hx Hn. apply bits_is_u64.
  - unfold is_u64 in *. apply Z.shiftr_nonneg. lia.
  - intros i Hi. rewrite Z.shiftr_spec by lia. apply is_u64_bits; [done|lia].
Qed.

Lemma rol64_ok x n : is_u64 x -> is_u64 (rol64 x n).
Proof.
  intros Hx. unfold rol64. apply is_u64_lor; [apply is_u64_u64|].
  apply is_u64_shiftr; [done|]. rewrite land_63. dlia.
Qed.

(** Rotation by [n] reads bit [z - n]. *)
Lemma rol64_bits x n z :
  is_u64 x -> (n < 64)%nat -> (z < 64)%nat ->
  Z.testbit (rol64 x (Z.of_nat n)) (Z.of_nat z) =
  Z.testbit x (Z.of_nat ((z + 64 - n) mod 64)%nat).
Proof.
  intros Hx Hn Hz. unfold rol64. rewrite u32_id by lia. rewrite land_63, Z.lor_spec.
  rewrite u64_bits, Z.shiftl_spec, Z.shiftr_spec by lia.
  destruct (Nat.lt_ge_cases z n) as [Hlt|Hge].
  - rewrite (Z.testbit_neg_r x) by lia. rewrite orb_false_l. rewrite (Nat.mod_small _ 64) by lia.
    rewrite (Z.mod_small _ 64) by lia. f_equal. lia.
  - replace (z + 64 - n)%nat with (z - n + 1 * 64)%nat by lia.
    rewrite Nat.Div0.mod_add, (Nat.mod_small _ 64) by lia.
    rewrite Nat2Z.inj_sub by lia. destruct n as [|n].
    + change ((64 - Z.of_nat 0) mod 64) with 0. change (Z.of_nat 0) with 0.
      rewrite Z.add_0_r, Z.sub_0_r. apply orb_diag.
    + rewrite (Z.mod_small _ 64) by lia.
      rewrite (is_u64_bits x (_ + _)) by (done || lia). apply orb_false_r.
Qed.

(** ** The round, loop by loop *)
Section round.
Context (s : list Z) (Hs : length s = 25%nat).

Definition col (x : nat) : Z :=
  Z.lxor (Z.lxor (Z.lxor (Z.lxor (s !!! x) (s !!! (x + 5)%nat)) (s !!! (x + 10)%nat))
    (s !!! (x + 15)%nat)) (s !!! (x + 20)%nat).
Definition theta_lane (i : nat) : Z :=
  Z.lxor (s !!! i)
    (Z.lxor (col ((i mod 5 + 4) mod 5)) (rol64 (col ((i mod 5 + 1) mod 5)) 1)).
Definition rho_pi_src (j : nat) : nat := ((j mod 5 + 3 * (j / 5)) mod 5 + 5 * (j mod 5))%nat.
Definition rho_pi_lane (j : nat) : Z :=
  rol64 (theta_lane (rho_pi_src j)) (rot !!! rho_pi_src j).
Definition chi_lane (i : nat) : Z :=
  Z.lxor (rho_pi_lane i)
    (Z.land (u64 (Z.lnot (rho_pi_lane ((i + 1) mod 5 + 5 * (i / 5)))))
       (rho_pi_lane ((i + 2) mod 5 + 5 * (i / 5)))).

Lemma rho_pi_loop (f : nat -> Z) :
  for_ 0 25 (fun i B =>
    let x := (i mod 5)%nat in let y := (i / 5)%nat in
    <[(y + 5 * ((2 * x + 3 * y) mod 5))%nat := f i]> B) (replicate 25 0) =
  map (fun j => f (rho_pi_src j)) (seq 0 25).
Proof. reflexivity. Qed.

Lemma keccak_round_lanes round :
  keccak_round round s =
  <[0%nat := Z.lxor (chi_lane 0) (RC !!! round)]> (map chi_lane (seq 0 25)).
Proof.
  unfold keccak_round.
  rewrite (for_build col 5) by done.
  rewrite (for_build (fun x => Z.lxor (map col (seq 0 5) !!! ((x + 4) mod 5)%nat)
    (rol64 (map col (seq 0 5) !!! ((x + 1) mod 5)%nat) 1)) 5) by done.
  set (D := map _ (seq 0 5)).
  assert (HD : forall i, D !!! (i mod 5)%nat =
    Z.lxor (col ((i mod 5 + 4) mod 5)) (rol64 (col ((i mod 5 + 1) mod 5)) 1)).
  { intros i. unfold D. pose proof (Nat.mod_upper_bound i 5 ltac:(lia)).
    rewrite lookup_total_map_seq by done.
    by rewrite !lookup_total_map_seq by (apply Nat.mod_upper_bound; lia). }
  rewrite (for_imap (fun i v => Z.lxor v (D !!! (i mod 5)%nat)) 25 s Hs).
  rewrite (map_ext _ theta_lane) by (intros i; unfold theta_lane; by rewrite HD).
  rewrite rho_pi_loop.
  rewrite (map_ext_in _ rho_pi_lane).
  2:{ intros j Hj. unfold rho_pi_lane. rewrite lookup_total_map_seq; [done|].
      unfold rho_pi_src. pose proof (Nat.mod_upper_bound j 5 ltac:(lia)).
      pose proof (Nat.mod_upper_bound (j mod 5 + 3 * (j / 5)) 5 ltac:(lia)). lia. }
  set (B := map rho_pi_lane (seq 0 25)).
  rewrite (for_build (fun i => Z.lxor (B !!! i)
    (Z.land (u64 (Z.lnot (B !!! ((i + 1) mod 5 + 5 * (i / 5))%nat)))
      (B !!! ((i + 2) mod 5 + 5 * (i / 5))%nat))) 25)
    by (by rewrite length_map, length_seq).
  rewrite (map_ext_in _ chi_lane).
  2:{ intros i [_ Hi]%in_seq. unfold chi_lane, B.
      pose proof (Nat.Div0.div_lt_upper_bound i 5 5 ltac:(lia)).
      pose proof (Nat.mod_upper_bound (i + 1) 5 ltac:(lia)).
      pose proof (Nat.mod_upper_bound (i + 2) 5 ltac:(lia)).
      by rewrite !lookup_total_map_seq by lia. }
  by rewrite lookup_total_map_seq by lia.
Qed.

Context (Hok : Forall is_u64 s).

Lemma lane_ok i : (i < 25)%nat -> is_u64 (s !!! i).
Proof.
  intros Hi. destruct (lookup_lt_is_Some_2 s i) as [v Hv]; [lia|].
  rewrite (list_lookup_total_correct _ _ _ Hv).
  exact (Forall_lookup_1 is_u64 _ _ _ Hok Hv).
Qed.
Lemma col_ok x : (x < 5)%nat -> is_u64 (col x).
Proof. intros Hx. unfold col. repeat apply is_u64_lxor; apply lane_ok; lia. Qed.
Lemma theta_lane_ok i : (i < 25)%nat -> is_u64 (theta_lane i).
Proof.
  intros Hi. unfold theta_lane.
  pose proof (Nat.mod_upper_bound (i mod 5 + 4) 5 ltac:(lia)).
  pose proof (Nat.mod_upper_bound (i mod 5 + 1) 5 ltac:(lia)).
  apply is_u64_lxor; [by apply lane_ok|].
  apply is_u64_lxor; [by apply col_ok|]. apply rol64_ok. by apply col_ok.
Qed.
Lemma rho_pi_src_lt j : (rho_pi_src j < 25)%nat.
Proof.
  unfold rho_pi_src. pose proof (Nat.mod_upper_bound j 5 ltac:(lia)).
  pose proof (Nat.mod_upper_bound (j mod 5 + 3 * (j / 5)) 5 ltac:(lia)). lia.
Qed.
Lemma rho_pi_lane_ok j : is_u64 (rho_pi_lane j).
Proof. apply rol64_ok, theta_lane_ok, rho_pi_src_lt. Qed.
Lemma chi_lane_ok i : is_u64 (chi_lane i).
Proof.
  apply is_u64_lxor; [apply rho_pi_lane_ok|].
  apply is_u64_land; [apply is_u64_u64|apply rho_pi_lane_ok].
Qed.

(** *** The steps on bits *)
Lemma col_bits x z : Z.testbit (col x) (Z.of_nat z) = Fips202.parity (bit_of s) x z.
Proof.
  unfold col, Fips202.parity, bit_of. rewrite !Z.lxor_spec.
  rewrite Nat.mul_0_r, Nat.add_0_r. reflexivity.
Qed.

Lemma theta_bits x y z :
  (x < 5)%nat -> (y < 5)%nat -> (z < 64)%nat ->
  Z.testbit (theta_lane (x + 5 * y)) (Z.of_nat z) = Fips202.theta (bit_of s) x y z.
Proof.
  intros Hx Hy Hz. unfold theta_lane, Fips202.theta.
  rewrite (Nat.mul_comm 5 y), Nat.Div0.mod_add, (Nat.mod_small x 5) by done.
  rewrite !Z.lxor_spec, col_bits, (rol64_bits _ 1 z), col_bits
    by (done || lia || (apply col_ok, Nat.mod_upper_bound; lia)).
  unfold bit_of at 1. rewrite (Nat.mul_comm y 5).
  by replace (z + 64 - 1)%nat with (z + 63)%nat by lia.
Qed.

(** The table of rotations is the walk of the standard. *)
Lemma rot_offsets : forallb (fun i =>
  (rot !!! i =? Z.of_nat (Fips202.rho_offset (i mod 5) (i / 5))) &&
  (Fips202.rho_offset (i mod 5) (i / 5) <? 64)%nat) (seq 0 25) = true.
Proof. vm_compute. reflexivity. Qed.

Lemma rot_offset x y :
  (x < 5)%nat -> (y < 5)%nat ->
  rot !!! (x + 5 * y)%nat = Z.of_nat (Fips202.rho_offset x y) /\
  (Fips202.rho_offset x y < 64)%nat.
Proof.
  intros Hx Hy. pose proof rot_offsets as H. rewrite forallb_forall in H.
  specialize (H (x + 5 * y)%nat). rewrite in_seq in H. specialize (H ltac:(lia)).
  rewrite (Nat.mul_comm 5 y), Nat.Div0.mod_add, (Nat.mod_small x 5) in H by done.
  rewrite Nat.div_add, (Nat.div_small x 5), Nat.add_0_l in H by lia.
  rewrite (Nat.mul_comm 5 y). apply andb_true_iff in H as [H1%Z.eqb_eq H2%Nat.ltb_lt]. done.
Qed.

Lemma rho_pi_bits x y z :
  (x < 5)%nat -> (y < 5)%nat -> (z < 64)%nat ->
  Z.testbit (rho_pi_lane (x + 5 * y)) (Z.of_nat z) =
  Fips202.pi (Fips202.rho (Fips202.theta (bit_of s))) x y z.
Proof.
  intros Hx Hy Hz. unfold rho_pi_lane, Fips202.pi, Fips202.rho.
  assert (Hsrc : rho_pi_src (x + 5 * y) = ((x + 3 * y) mod 5 + 5 * x)%nat).
  { unfold rho_pi_src. rewrite (Nat.mul_comm 5 y), Nat.Div0.mod_add, (Nat.mod_small x 5) by done.
    by rewrite Nat.div_add, (Nat.div_small x 5), Nat.add_0_l by lia. }
  pose proof (Nat.mod_upper_bound (x + 3 * y) 5 ltac:(lia)) as Hm.
  destruct (rot_offset ((x + 3 * y) mod 5) x Hm Hx) as [Hrot Hlt].
  rewrite Hsrc, Hrot. rewrite rol64_bits; [|apply theta_lane_ok; lia|done|done].
  apply theta_bits; [done|done|]. apply Nat.mod_upper_bound. lia.
Qed.

Lemma chi_bits x y z :
  (x < 5)%nat -> (y < 5)%nat -> (z < 64)%nat ->
  Z.testbit (chi_lane (x + 5 * y)) (Z.of_nat z) =
  Fips202.chi (Fips202.pi (Fips202.rho (Fips202.theta (bit_of s)))) x y z.
Proof.
  intros Hx Hy Hz. unfold chi_lane, Fips202.chi.
  assert (Hidx : forall k, ((x + 5 * y + k) mod 5 + 5 * ((x + 5 * y) / 5) =
    (x + k) mod 5 + 5 * y)%nat).
  { intros k. rewrite (Nat.mul_comm 5 y).
    replace (x + y * 5 + k)%nat with (x + k + y * 5)%nat by lia.
    rewrite Nat.Div0.mod_add, Nat.div_add, (Nat.div_small x 5) by lia. lia. }
  rewrite !Hidx, Z.lxor_spec, Z.land_spec, u64_bits, Z.lnot_spec by lia.
  by rewrite !rho_pi_bits by (done || (apply Nat.mod_upper_bound; lia)).
Qed.

Lemma rc_bits : forallb (fun ir => forallb (fun z =>
  eqb (Z.testbit (RC !!! ir) (Z.of_nat z)) (Fips202.round_constant ir z)) (seq 0 64)) (seq 0 24)
  = true.
Proof. vm_compute. reflexivity. Qed.

Lemma rc_bit ir z :
  (ir < 24)%nat -> (z < 64)%nat ->
  Z.testbit (RC !!! ir) (Z.of_nat z) = Fips202.round_constant ir z.
Proof.
  intros Hi Hz. pose proof rc_bits as H. rewrite forallb_forall in H.
  specialize (H ir). rewrite in_seq in H. specialize (H ltac:(lia)).
  rewrite forallb_forall in H. specialize (H z). rewrite in_seq in H.
  specialize (H ltac:(lia)). by apply eqb_prop in H.
Qed.

Lemma keccak_round_bits ir :
  (ir < 24)%nat -> steq (bit_of (keccak_round ir s)) (Fips202.Rnd (bit_of s) ir).
Proof.
  intros Hir x y z Hx Hy Hz. unfold bit_of at 1, Fips202.Rnd, Fips202.iota.
  rewrite keccak_round_lanes.
  destruct (Nat.eqb_spec x 0) as [->|Hx0]; [destruct (Nat.eqb_spec y 0) as [->|Hy0]|].
  - change (0 + 5 * 0)%nat with 0%nat. cbn [andb].
    rewrite list_lookup_total_insert_eq by (rewrite length_map, length_seq; lia).
    rewrite Z.lxor_spec, rc_bit by done. f_equal. by apply (chi_bits 0 0 z).
  - rewrite list_lookup_total_insert_ne by lia.
    rewrite lookup_total_map_seq by lia. cbn [andb]. by apply chi_bits.
  - rewrite list_lookup_total_insert_ne by lia.
    rewrite lookup_total_map_seq by lia. cbn [andb]. by apply chi_bits.
Qed.

Lemma RC_ok ir : (ir < 24)%nat -> is_u64 (RC !!! ir).
Proof.
  intros Hi. assert (H : forallb (fun v => (0 <=? v) && (v <? 18446744073709551616)) RC = true)
    by (vm_compute; reflexivity).
  destruct (lookup_lt_is_Some_2 RC ir) as [v Hv]; [vm_compute; lia|].
  rewrite (list_lookup_total_correct _ _ _ Hv). rewrite forallb_forall in H.
  specialize (H v). unfold is_u64. apply list_elem_of_lookup_2 in Hv.
  apply list_elem_of_In in Hv. specialize (H Hv). lia.
Qed.

Lemma keccak_round_ok ir : (ir < 24)%nat -> state_ok (keccak_round ir s).
Proof.
  intros Hi. rewrite keccak_round_lanes. split; [by rewrite length_insert, length_map, length_seq|].
  apply Forall_insert.
  - apply Forall_map, Forall_seq. intros i _. apply chi_lane_ok.
  - apply is_u64_lxor; [apply chi_lane_ok|by apply RC_ok].
Qed.
End round.

(** ** The permutation *)

(** The standard's round looks at the 1600 bits only. *)
#[export] Instance Rnd_proper : Proper (steq ==> eq ==> steq) Fips202.Rnd.
Proof.
  intros A B H ir _ <- x y z Hx Hy Hz.
  assert (Hm : forall k, (k mod 5 < 5)%nat) by (intros; apply Nat.mod_upper_bound; lia).
  assert (Hm' : forall k, (k mod 64 < 64)%nat) by (intros; apply Nat.mod_upper_bound; lia).
  assert (Hth : steq (Fips202.theta A) (Fips202.theta B)).
  { intros a b c Ha Hb Hc. unfold Fips202.theta, Fips202.parity.
    by rewrite !H by (done || apply Hm || apply Hm' || lia). }
  assert (Hpi : steq (Fips202.pi (Fips202.rho (Fips202.theta A)))
                     (Fips202.pi (Fips202.rho (Fips202.theta B)))).
  { intros a b c Ha Hb Hc. unfold Fips202.pi, Fips202.rho. apply Hth; [apply Hm|done|apply Hm']. }
  unfold Fips202.Rnd, Fips202.iota, Fips202.chi.
  by rewrite !Hpi by (done || apply Hm).
Qed.

Lemma keccakf_ok s : state_ok s -> state_ok (keccakf s).
Proof.
  intros Hs. apply (for_ind (fun _ => state_ok) 0 24); [done|].
  intros i t Hi [Hl Ht]. apply keccak_round_ok; [done..|lia].
Qed.

Lemma keccakf_bits s :
  state_ok s -> steq (bit_of (keccakf s)) (Fips202.Keccak_f (bit_of s)).
Proof.
  intros Hs. unfold keccakf, Fips202.Keccak_f.
  apply (for_ind (fun i t => state_ok t /\
    steq (bit_of t) (fold_left Fips202.Rnd (seq 0 i) (bit_of s))) 0 24).
  - done.
  - intros i t Hi [[Hl Ht] E]. split; [apply keccak_round_ok; [done..|lia]|].
    rewrite seq_S, fold_left_app. cbn [fold_left]. rewrite <- E.
    apply keccak_round_bits; [done..|lia].
Qed.

(** The lanes of a state of bits. *)
Fixpoint lane_of (n : nat) (b : nat -> bool) : Z :=
  match n with O => 0 | S n => lane_of n b + 2 ^ Z.of_nat n * Z.b2z (b n) end.
Definition lanes_of (A : Fips202.State) : list Z :=
  map (fun i => lane_of 64 (A (i mod 5) (i / 5))%nat) (seq 0 25).

Lemma lane_of_bits n v b :
  (forall z, (z < n)%nat -> b z = Z.testbit v (Z.of_nat z)) ->
  lane_of n b = v mod 2 ^ Z.of_nat n.
Proof.
  induction n as [|n IH]; intros Hb; cbn [lane_of]; [by rewrite Z.mod_1_r|].
  rewrite IH by (intros; apply Hb; lia). rewrite Hb by lia.
  rewrite Z.testbit_spec', Nat2Z.inj_succ, Z.pow_succ_r by lia.
  rewrite (Z.mul_comm 2 (2 ^ Z.of_nat n)), (Z.rem_mul_r v (2 ^ Z.of_nat n) 2)
    by first [lia|apply Z.pow_nonzero; lia]. done.
Qed.

Lemma keccakf_lanes s :
  state_ok s -> keccakf s = lanes_of (Fips202.Keccak_f (bit_of s)).
Proof.
  intros Hs. destruct (keccakf_ok s Hs) as [Hl Hu]. pose proof (keccakf_bits s Hs) as Hb.
  set (t := keccakf s) in *. rewrite <- (map_id t) at 1.
  rewrite <- (map_seq_map id), Hl. apply map_ext_in. intros i [_ Hi]%in_seq.
  pose proof (lane_ok t Hl Hu i Hi) as Hlane. unfold id.
  rewrite (lane_of_bits 64 (t !!! i)).
  - symmetry. by apply Z.mod_small.
  - intros z Hz. rewrite <- Hb.
    + unfold bit_of. do 2 f_equal. pose proof (Nat.div_mod_eq i 5). lia.
    + apply Nat.mod_upper_bound. lia.
    + apply Nat.Div0.div_lt_upper_bound. lia.
    + done.
Qed.

(** C13. [keccakf] is the permutation of the standard on every state, with its
    rotation offsets and round constants: the tables of the source are the
    generated ones. *)
Theorem keccakf_fips202 (s : list Z) (Hs : state_ok s) :
  state_ok (keccakf s) /\ keccakf s = lanes_of (Fips202.Keccak_f (bit_of s)).
Proof. split; [by apply keccakf_ok|by apply keccakf_lanes]. Qed.

Lemma keccakf_fips202_witness :
  state_ok (keccakf (replicate 25 0)) /\
  keccakf (replicate 25 0) = lanes_of (Fips202.Keccak_f (bit_of (replicate 25 0))).
Proof.
  apply keccakf_fips202. split; [reflexivity|].
  apply Forall_replicate. unfold is_u64. split; vm_compute; congruence.
Defined.
