(* ===== verification/Sponge.v ===== *)
(** * The sponge construction

    The byte-at-a-time contexts of [Keccak] implement the sponge of FIPS 202 on
    byte strings, for every split of the message and of the output into calls. *)
From S2P Require Import Prelude CInt Keccak KeccakSpec.

(** ** States as strings of 200 bytes *)
Definition state_bytes (s : list Z) : list Z := s ≫= le_bytes 8.
Fixpoint lanes (n : nat) (bs : list Z) : list Z :=
  match n with O => [] | S n => le_val (take 8 bs) :: lanes n (drop 8 bs) end.

Lemma state_bytes_length s : length (state_bytes s) = (8 * length s)%nat.
Proof.
  induction s as [|v s IH]; [done|]. unfold state_bytes in *. cbn [mbind list_bind].
  rewrite length_app, le_bytes_length. cbn [length]. rewrite IH. lia.
Qed.

Lemma lanes_state_bytes s : Forall is_u64 s -> lanes (length s) (state_bytes s) = s.
Proof.
  induction 1 as [|v s Hv Hs IH]; [done|]. unfold state_bytes in *. cbn [mbind list_bind lanes length].
  rewrite take_app_le, take_ge, drop_app_ge by (rewrite le_bytes_length; lia).
  rewrite le_bytes_length, Nat.sub_diag, drop_0, IH. f_equal. by apply le_val_bytes.
Qed.

Lemma state_bytes_lookup s i :
  (i < 8 * length s)%nat ->
  state_bytes s !! i =
    Some (Z.land (Z.shiftr (s !!! (i / 8)%nat) (8 * Z.of_nat (i mod 8))) 0xff).
Proof.
  revert i. induction s as [|v s IH]; intros i Hi; [simpl in Hi; lia|].
  unfold state_bytes in *. cbn [mbind list_bind length] in *.
  destruct (Nat.lt_ge_cases i 8) as [Hlt|Hge].
  - rewrite lookup_app_l by (rewrite le_bytes_length; lia).
    rewrite le_bytes_lookup by lia. by rewrite Nat.div_small, Nat.mod_small by lia.
  - rewrite lookup_app_r, le_bytes_length by (rewrite le_bytes_length; lia).
    rewrite IH by lia. replace i with (i - 8 + 1 * 8)%nat at 3 4 by lia.
    rewrite Nat.div_add, Nat.Div0.mod_add, Nat.add_1_r by lia. done.
Qed.

(** XOR of a byte into a lane is XOR of the byte at its place. *)
Lemma xor_byte_bits v b j k :
  0 <= b < 256 -> (j < 8)%nat -> (k < 8)%nat ->
  Z.land (Z.shiftr (Z.lxor v (u64 (Z.shiftl b (8 * Z.of_nat k)))) (8 * Z.of_nat j)) 0xff =
  Z.lxor (Z.land (Z.shiftr v (8 * Z.of_nat j)) 0xff) (if (j =? k)%nat then b else 0).
Proof.
  intros Hb Hj Hk. apply Z.bits_inj'. intros n Hn. change 0xff with (Z.ones 8).
  rewrite Z.lxor_spec, !Z.land_spec, !Z.shiftr_spec, Z.lxor_spec by lia.
  destruct (Z.lt_ge_cases n 8) as [H8|H8].
  - rewrite Z.ones_spec_low, !andb_true_r by lia. f_equal.
    rewrite u64_bits, Z.shiftl_spec by lia. destruct (Nat.eqb_spec j k) as [->|Hne].
    + f_equal. lia.
    + rewrite Z.testbit_0_l. destruct (Nat.lt_ge_cases j k).
      * apply Z.testbit_neg_r. lia.
      * rewrite <- (Z.mod_small b (2 ^ 8)) by lia. apply Z.mod_pow2_bits_high. lia.
  - rewrite Z.ones_spec_high, !andb_false_r by lia. destruct (j =? k)%nat; [|by rewrite Z.testbit_0_l].
    rewrite <- (Z.mod_small b (2 ^ 8)) by lia. rewrite Z.mod_pow2_bits_high; [done|lia].
Qed.

Definition xor_lane (s : list Z) (i : nat) (b : Z) : list Z :=
  <[(i / 8)%nat := Z.lxor (s !!! (i / 8)%nat) (u64 (Z.shiftl b (8 * Z.of_nat (i mod 8))))]> s.

Lemma xor_lane_bytes s i b :
  (i < 8 * length s)%nat -> 0 <= b < 256 ->
  state_bytes (xor_lane s i b) = <[i := Z.lxor (state_bytes s !!! i) b]> (state_bytes s).
Proof.
  intros Hi Hb. assert (Hlen : length (xor_lane s i b) = length s) by apply length_insert.
  assert (Hdiv : (i / 8 < length s)%nat) by (apply Nat.Div0.div_lt_upper_bound; lia).
  apply list_eq. intros j. destruct (Nat.lt_ge_cases j (8 * length s)) as [Hj|Hj].
  2:{ transitivity (@None Z); [|symmetry]; apply lookup_ge_None_2;
      rewrite ?length_insert, state_bytes_length; lia. }
  rewrite state_bytes_lookup by lia. unfold xor_lane.
  pose proof (Nat.div_mod_eq i 8). pose proof (Nat.div_mod_eq j 8).
  pose proof (Nat.mod_upper_bound i 8 ltac:(lia)). pose proof (Nat.mod_upper_bound j 8 ltac:(lia)).
  destruct (decide (j = i)) as [->|Hne].
  - rewrite list_lookup_insert_eq by (rewrite state_bytes_length; lia).
    rewrite list_lookup_total_insert_eq by done.
    rewrite (list_lookup_total_correct _ _ _ (state_bytes_lookup s i Hi)).
    by rewrite xor_byte_bits, Nat.eqb_refl by lia.
  - rewrite list_lookup_insert_ne, state_bytes_lookup by (congruence || lia). f_equal.
    destruct (decide (i / 8 = j / 8)%nat) as [E|E].
    + rewrite <- E, list_lookup_total_insert_eq by done.
      rewrite xor_byte_bits by lia. rewrite (proj2 (Nat.eqb_neq _ _)) by lia. apply Z.lxor_0_r.
    + by rewrite list_lookup_total_insert_ne by done.
Qed.

Lemma xor_lane_ok s i b : state_ok s -> (i < 200)%nat -> state_ok (xor_lane s i b).
Proof.
  intros [Hl Hs] Hi. split; [by unfold xor_lane; rewrite length_insert|].
  apply Forall_insert; [done|]. apply is_u64_lxor; [|apply is_u64_u64].
  apply lane_ok; [done..|]. apply Nat.Div0.div_lt_upper_bound. lia.
Qed.

(** ** SPONGE of FIPS 202 *)
Section spec.
Context (F : list Z -> list Z) (rate : nat) (suffix : Z).

(** [S xor (P || 0^c)] *)
Definition xor_bytes (bs m : list Z) : list Z :=
  imap (fun i b => Z.lxor b (default 0 (m !! i))) bs.

(** The padding [suffix || 10*1], in bytes. *)
Definition padding (len : nat) : list Z :=
  let q := (rate - len mod rate)%nat in
  if (q =? 1)%nat then [Z.lxor suffix 0x80]
  else suffix :: replicate (q - 2) 0 ++ [0x80].

Fixpoint absorb_blocks (n : nat) (bs p : list Z) : list Z :=
  match n with
  | O => bs
  | S n => absorb_blocks n (F (xor_bytes bs (take rate p))) (drop rate p)
  end.
Fixpoint squeeze_blocks (n : nat) (bs : list Z) : list Z :=
  match n with O => [] | S n => take rate bs ++ squeeze_blocks n (F bs) end.

Definition SPONGE (m : list Z) (d : nat) : list Z :=
  take d (squeeze_blocks (d / rate + 1)
    (absorb_blocks (length m / rate + 1) (replicate 200 0) (m ++ padding (length m)))).
End spec.

(** Successive calls of [squeeze]. *)
Fixpoint squeezes (sq : sponge_ctx -> nat -> list Z * sponge_ctx) (ds : list nat)
    (ctx : sponge_ctx) : list Z :=
  match ds with
  | [] => []
  | d :: ds => let '(out, ctx) := sq ctx d in out ++ squeezes sq ds ctx
  end.
(** Successive calls of [absorb]. *)
Definition absorbs (ab : sponge_ctx -> list Z -> nat -> sponge_ctx) (ms : list (list Z))
    (ctx : sponge_ctx) : sponge_ctx :=
  fold_left (fun c m => ab c m (length m)) ms ctx.

(** ** The blocks *)
Lemma xor_bytes_length bs m : length (xor_bytes bs m) = length bs.
Proof. apply length_imap. Qed.

Lemma xor_bytes_lookup bs m i :
  xor_bytes bs m !! i = (fun b => Z.lxor b (default 0 (m !! i))) <$> bs !! i.
Proof. unfold xor_bytes. by rewrite list_lookup_imap. Qed.

Lemma xor_bytes_nil bs : xor_bytes bs [] = bs.
Proof.
  apply list_eq. intros i. rewrite xor_bytes_lookup. destruct (bs !! i); [|done].
  simpl. by rewrite Z.lxor_0_r.
Qed.

Lemma xor_bytes_snoc bs m b :
  (length m < length bs)%nat ->
  xor_bytes bs (m ++ [b]) =
  <[length m := Z.lxor (xor_bytes bs m !!! length m) b]> (xor_bytes bs m).
Proof.
  intros Hl. apply list_eq. intros i. destruct (lookup_lt_is_Some_2 bs (length m) Hl) as [v Hv].
  destruct (decide (i = length m)) as [->|Hne].
  - rewrite list_lookup_insert_eq by (rewrite xor_bytes_length; done).
    rewrite list_lookup_total_alt, !xor_bytes_lookup, Hv. simpl.
    rewrite list_lookup_middle, (lookup_ge_None_2 m) by done. simpl.
    by rewrite Z.lxor_0_r.
  - rewrite list_lookup_insert_ne, !xor_bytes_lookup by done.
    destruct (bs !! i); [|done]. simpl. do 3 f_equal.
    destruct (Nat.lt_ge_cases i (length m)); [by rewrite lookup_app_l by done|].
    rewrite (lookup_ge_None_2 m) by done. apply lookup_ge_None_2. rewrite length_app. simpl. lia.
Qed.

Lemma xor_bytes_zeros bs m n : xor_bytes bs (m ++ replicate n 0) = xor_bytes bs m.
Proof.
  apply list_eq. intros i. rewrite !xor_bytes_lookup. destruct (bs !! i); [|done].
  simpl. do 2 f_equal. destruct (Nat.lt_ge_cases i (length m)).
  - by rewrite lookup_app_l by done.
  - rewrite lookup_app_r, (lookup_ge_None_2 m) by done.
    destruct (Nat.lt_ge_cases (i - length m) n); [by rewrite lookup_replicate_2|].
    by rewrite (lookup_ge_None_2 (replicate _ _)) by (rewrite length_replicate; lia).
Qed.

Section refinement.
Context (f : list Z -> list Z) (rate : nat) (pad : Z).
Context (Hrate : (0 < rate <= 200)%nat) (Hpad : 0 <= pad < 256)
  (Hf : forall s, state_ok s -> state_ok (f s)).

(** The permutation on byte strings. *)
Definition on_bytes (bs : list Z) : list Z := state_bytes (f (lanes 25 bs)).

Lemma on_bytes_state s : state_ok s -> on_bytes (state_bytes s) = state_bytes (f s).
Proof. intros [Hl Hs]. unfold on_bytes. by rewrite <- Hl, lanes_state_bytes. Qed.

Lemma state_ok_bytes s : state_ok s -> length (state_bytes s) = 200%nat.
Proof. intros [Hl _]. rewrite state_bytes_length. lia. Qed.

Lemma absorb_partial m ctx :
  bytes m -> (length m < rate)%nat -> pos ctx = 0%nat -> state_ok (st ctx) ->
  let c := fold_left (absorb_byte f rate) m ctx in
  state_ok (st c) /\ pos c = length m /\ squeezing c = squeezing ctx /\
  state_bytes (st c) = xor_bytes (state_bytes (st ctx)) m.
Proof.
  intros Hm Hl Hp Hs. induction m as [|b m IH] using rev_ind.
  - simpl. by rewrite xor_bytes_nil.
  - apply Forall_app in Hm as [Hm [Hb _]%Forall_cons_1]. rewrite length_app in *. cbn [length] in *.
    destruct IH as (Hs' & Hp' & Hq & Hst); [done|lia|].
    rewrite fold_left_app. cbn [fold_left]. set (c := fold_left _ _ _) in *.
    unfold absorb_byte. rewrite Hp', (proj2 (Nat.eqb_neq _ _)) by lia. cbn [st pos squeezing].
    fold (xor_lane (st c) (length m) b).
    split; [by apply xor_lane_ok; [|lia]|]. split; [done|]. split; [done|].
    rewrite xor_lane_bytes by (rewrite ?(proj1 Hs'); done || lia).
    rewrite xor_bytes_snoc by (rewrite state_ok_bytes by done; lia). by rewrite Hst.
Qed.

Lemma absorb_block m ctx :
  bytes m -> length m = rate -> pos ctx = 0%nat -> state_ok (st ctx) ->
  let c := fold_left (absorb_byte f rate) m ctx in
  state_ok (st c) /\ pos c = 0%nat /\ squeezing c = squeezing ctx /\
  state_bytes (st c) = on_bytes (xor_bytes (state_bytes (st ctx)) m).
Proof.
  intros Hm Hl Hp Hs. destruct m as [|b m _] using rev_ind; [simpl in Hl; lia|].
  apply Forall_app in Hm as [Hm [Hb _]%Forall_cons_1]. rewrite length_app in Hl. cbn [length] in Hl.
  destruct (absorb_partial m ctx Hm ltac:(lia) Hp Hs) as (Hs' & Hp' & Hq & Hst).
  rewrite fold_left_app. cbn [fold_left]. set (c := fold_left _ _ _) in *.
  unfold absorb_byte. rewrite Hp', (proj2 (Nat.eqb_eq _ _)) by lia. cbn [st pos squeezing].
  fold (xor_lane (st c) (length m) b).
  assert (Hx : state_ok (xor_lane (st c) (length m) b)) by (apply xor_lane_ok; [done|lia]).
  split; [by apply Hf|]. split; [done|]. split; [done|].
  rewrite <- on_bytes_state by done. f_equal.
  rewrite xor_lane_bytes by (rewrite ?(proj1 Hs'); done || lia).
  rewrite xor_bytes_snoc by (rewrite state_ok_bytes by done; lia). by rewrite Hst.
Qed.

(** [n] whole blocks and a rest. *)
Lemma absorb_message n m ctx :
  bytes m -> (n * rate <= length m < n * rate + rate)%nat -> pos ctx = 0%nat -> state_ok (st ctx) ->
  let c := fold_left (absorb_byte f rate) m ctx in
  state_ok (st c) /\ pos c = (length m - n * rate)%nat /\ squeezing c = squeezing ctx /\
  state_bytes (st c) =
    xor_bytes (absorb_blocks on_bytes rate n (state_bytes (st ctx)) m) (drop (n * rate) m).
Proof.
  revert m ctx. induction n as [|n IH]; intros m ctx Hm Hl Hp Hs.
  - rewrite Nat.mul_0_l, Nat.sub_0_r, drop_0. apply absorb_partial; [done|lia|done|done].
  - assert (Hlt : length (take rate m) = rate) by (rewrite length_take; lia).
    destruct (absorb_block (take rate m) ctx) as (Hs' & Hp' & Hq & Hst);
      [by apply Forall_take|done|done|done|].
    assert (Hfold : fold_left (absorb_byte f rate) m ctx =
      fold_left (absorb_byte f rate) (drop rate m)
        (fold_left (absorb_byte f rate) (take rate m) ctx))
      by (by rewrite <- fold_left_app, take_drop).
    rewrite Hfold. set (c := fold_left _ (take rate m) ctx) in *.
    destruct (IH (drop rate m) c) as (Hs2 & Hp2 & Hq2 & Hst2);
      [by apply Forall_drop|rewrite length_drop; lia|done|done|].
    split; [done|]. split; [rewrite Hp2, length_drop; lia|]. split; [congruence|].
    rewrite Hst2, Hst, drop_drop. cbn [absorb_blocks]. f_equal.
Qed.

Lemma absorb_blocks_S n bs p :
  absorb_blocks on_bytes rate (Datatypes.S n) bs p =
  on_bytes (xor_bytes (absorb_blocks on_bytes rate n bs p) (take rate (drop (n * rate) p))).
Proof.
  revert bs p. induction n as [|n IH]; intros bs p; [done|].
  cbn [absorb_blocks] in *. by rewrite IH, drop_drop.
Qed.

Lemma absorb_blocks_app n bs m t :
  (n * rate <= length m)%nat ->
  absorb_blocks on_bytes rate n bs (m ++ t) = absorb_blocks on_bytes rate n bs m.
Proof.
  revert bs m. induction n as [|n IH]; intros bs m Hl; [done|]. cbn [absorb_blocks].
  rewrite take_app_le, drop_app_le by lia. apply IH. rewrite length_drop. lia.
Qed.

(** The two XORs of [finalize] are the padding. *)
Lemma finalize_bytes s0 tail bs :
  state_ok s0 -> length bs = 200%nat -> (length tail < rate)%nat ->
  state_bytes s0 = xor_bytes bs tail ->
  let s := xor_lane (xor_lane s0 (length tail) pad) (rate - 1) 0x80 in
  state_ok s /\ state_bytes s = xor_bytes bs (tail ++ padding rate pad (length tail)).
Proof.
  intros Hs Hbs Hl Hst s. unfold s. clear s.
  set (s1 := xor_lane s0 (length tail) pad).
  assert (Hs1 : state_ok s1) by (apply xor_lane_ok; [done|lia]).
  assert (Hst1 : state_bytes s1 = xor_bytes bs (tail ++ [pad])).
  { unfold s1. rewrite xor_lane_bytes by (rewrite ?(proj1 Hs); lia).
    rewrite xor_bytes_snoc by lia. by rewrite Hst. }
  split; [apply xor_lane_ok; [done|lia]|].
  rewrite xor_lane_bytes by (rewrite ?(proj1 Hs1); lia). rewrite Hst1. unfold padding.
  rewrite (Nat.mod_small (length tail)) by lia.
  destruct (Nat.eqb_spec (rate - length tail) 1) as [E|E].
  - replace (rate - 1)%nat with (length tail) by lia.
    rewrite !xor_bytes_snoc, list_insert_insert_eq by lia.
    rewrite list_lookup_total_insert_eq by (rewrite xor_bytes_length; lia).
    by rewrite Z.lxor_assoc.
  - rewrite app_comm_cons, app_assoc.
    rewrite (xor_bytes_snoc bs (tail ++ pad :: replicate (rate - length tail - 2) 0))
      by (rewrite !length_app; cbn [length]; rewrite length_replicate; lia).
    replace (rate - 1)%nat with (length (tail ++ pad :: replicate (rate - length tail - 2) 0))
      by (rewrite length_app; cbn [length]; rewrite length_replicate; lia).
    replace (tail ++ pad :: replicate (rate - length tail - 2) 0)
      with ((tail ++ [pad]) ++ replicate (rate - length tail - 2) 0) by (by rewrite <- app_assoc).
    by rewrite xor_bytes_zeros.
Qed.

(** [finalize] after the message leaves the absorbed state. *)
Lemma finalize_message m ctx :
  bytes m -> pos ctx = 0%nat -> state_ok (st ctx) ->
  let c := finalize f rate pad (fold_left (absorb_byte f rate) m ctx) in
  state_ok (st c) /\ pos c = 0%nat /\ squeezing c = true /\
  state_bytes (st c) =
    absorb_blocks on_bytes rate (length m / rate + 1) (state_bytes (st ctx))
      (m ++ padding rate pad (length m)).
Proof.
  intros Hm Hp Hs. set (n := (length m / rate)%nat).
  pose proof (Nat.div_mod_eq (length m) rate) as Hdm. fold n in Hdm.
  pose proof (Nat.mod_upper_bound (length m) rate ltac:(lia)) as Hmod.
  destruct (absorb_message n m ctx Hm) as (Hs' & Hp' & _ & Hst); [lia|done|done|].
  set (c := fold_left _ m ctx) in *. set (bs := absorb_blocks _ _ n _ m) in *.
  set (tail := drop (n * rate) m) in *.
  assert (Htl : length tail = (length m - n * rate)%nat) by apply length_drop.
  assert (Hbs : length bs = 200%nat).
  { rewrite <- (xor_bytes_length bs tail), <- Hst. by apply state_ok_bytes. }
  destruct (finalize_bytes (st c) tail bs Hs' Hbs) as (Hs2 & Hst2); [lia|done|].
  rewrite Htl, <- Hp' in Hs2, Hst2.
  unfold finalize. cbn [st pos squeezing].
  fold (xor_lane (st c) (pos c) pad).
  fold (xor_lane (xor_lane (st c) (pos c) pad) (rate - 1) 0x80).
  split; [by apply Hf|]. split; [done|]. split; [done|].
  rewrite <- on_bytes_state, Hst2 by done. rewrite Nat.add_1_r, absorb_blocks_S.
  rewrite absorb_blocks_app by lia. fold bs. rewrite drop_app_le by lia. fold tail.
  assert (Hpad' : padding rate pad (pos c) = padding rate pad (length m)).
  { unfold padding. rewrite Hp'. replace (length m - n * rate)%nat with (length m mod rate)%nat by lia.
    by rewrite Nat.Div0.mod_mod. }
  rewrite Hpad', (take_ge (tail ++ _)); [done|].
  rewrite length_app, Htl. unfold padding. destruct (Nat.eqb_spec (rate - length m mod rate) 1);
    cbn [length]; rewrite ?length_app, ?length_replicate; cbn [length]; lia.
Qed.

Lemma squeeze_blocks_lookup K bs p b :
  length bs = 200%nat -> (p < rate)%nat -> bs !! p = Some b ->
  squeeze_blocks on_bytes rate (Datatypes.S K) bs !! p = Some b.
Proof.
  intros Hl Hp Hb. cbn [squeeze_blocks]. rewrite lookup_app_l by (rewrite length_take; lia).
  by rewrite lookup_take_lt.
Qed.

Lemma squeeze_loop_blocks n : forall K ctx,
  state_ok (st ctx) -> (pos ctx < rate)%nat -> (n + pos ctx <= K * rate)%nat ->
  fst (squeeze_loop f rate n ctx) =
    take n (drop (pos ctx) (squeeze_blocks on_bytes rate K (state_bytes (st ctx)))).
Proof.
  induction n as [|n IH]; intros K ctx Hs Hp HK; [done|].
  destruct K as [|K]; [lia|]. pose proof (state_ok_bytes _ Hs) as Hlb.
  set (bs := state_bytes (st ctx)) in *. cbn [squeeze_loop]. unfold squeeze_byte.
  set (b := Z.land _ _).
  assert (Hb : bs !! pos ctx = Some b).
  { apply state_bytes_lookup. destruct Hs as [-> _]. lia. }
  pose proof (squeeze_blocks_lookup K bs (pos ctx) b Hlb Hp Hb) as HL.
  rewrite (drop_S _ _ _ HL). cbn [take].
  set (ctx' := if (pos ctx + 1 =? rate)%nat then _ else _).
  destruct (squeeze_loop f rate n ctx') as [out c] eqn:E. cbn [fst]. f_equal.
  change out with (fst (out, c)). rewrite <- E. unfold ctx'.
  destruct (Nat.eqb_spec (pos ctx + 1) rate) as [Hr|Hr].
  - rewrite (IH K) by (cbn [st pos]; first [by apply Hf|lia]). cbn [st pos].
    rewrite drop_0, <- on_bytes_state by done. fold bs. f_equal. cbn [squeeze_blocks].
    rewrite drop_app_ge by (rewrite length_take; lia). rewrite length_take.
    by replace (_ - _)%nat with 0%nat by lia.
  - rewrite (IH (Datatypes.S K)) by (cbn [st pos]; first [done|lia]). cbn [st pos].
    fold bs. by rewrite Nat.add_1_r.
Qed.

Lemma squeeze_loop_app a b ctx :
  squeeze_loop f rate (a + b) ctx =
  let '(x, c) := squeeze_loop f rate a ctx in
  let '(y, c) := squeeze_loop f rate b c in (x ++ y, c).
Proof.
  revert ctx. induction a as [|a IH]; intros ctx; cbn [squeeze_loop Nat.add].
  - by destruct (squeeze_loop f rate b ctx).
  - destruct (squeeze_byte f rate ctx) as [v c]. rewrite IH.
    destruct (squeeze_loop f rate a c) as [x c']. by destruct (squeeze_loop f rate b c').
Qed.

Lemma squeeze_loop_squeezing n ctx :
  squeezing (snd (squeeze_loop f rate n ctx)) = squeezing ctx.
Proof.
  revert ctx. induction n as [|n IH]; intros ctx; cbn [squeeze_loop]; [done|].
  unfold squeeze_byte. set (c := if (_ =? _)%nat then _ else _).
  specialize (IH c). destruct (squeeze_loop f rate n c) as [o c'] eqn:E. cbn [snd] in *.
  rewrite IH. unfold c. by case_match.
Qed.

Lemma absorbs_concat ms ctx :
  absorbs (absorb f rate) ms ctx = fold_left (absorb_byte f rate) (concat ms) ctx.
Proof.
  unfold absorbs. revert ctx. induction ms as [|m ms IH]; intros ctx; [done|].
  cbn [fold_left concat]. rewrite fold_left_app, IH. unfold absorb. by rewrite firstn_all.
Qed.

Lemma squeezes_sum ds ctx :
  squeezing ctx = true -> squeezes (squeeze f rate pad) ds ctx = fst (squeeze_loop f rate (sum_list ds) ctx).
Proof.
  revert ctx. induction ds as [|d ds IH]; intros ctx Hq; [done|].
  cbn [squeezes]. change (sum_list (d :: ds)) with (d + sum_list ds)%nat.
  unfold squeeze. rewrite Hq, squeeze_loop_app.
  pose proof (squeeze_loop_squeezing d ctx) as Hq'.
  destruct (squeeze_loop f rate d ctx) as [x c]. cbn [snd] in Hq'.
  rewrite IH by congruence. by destruct (squeeze_loop f rate (sum_list ds) c).
Qed.

Lemma init_ok : state_ok (st init).
Proof. split; [done|]. apply Forall_replicate. unfold is_u64. lia. Qed.

Lemma sponge_calls ms ds :
  bytes (concat ms) ->
  squeezes (squeeze f rate pad) ds (finalize f rate pad (absorbs (absorb f rate) ms init)) =
    SPONGE on_bytes rate pad (concat ms) (sum_list ds).
Proof.
  intros Hm. rewrite absorbs_concat.
  destruct (finalize_message (concat ms) init Hm eq_refl init_ok) as (Hs & Hp & Hq & Hst).
  rewrite squeezes_sum by done. set (c := finalize _ _ _ _) in *.
  set (d := sum_list ds). unfold SPONGE.
  assert (Hd : (d <= (d / rate + 1) * rate)%nat).
  { pose proof (Nat.div_mod_eq d rate). pose proof (Nat.mod_upper_bound d rate ltac:(lia)). nia. }
  rewrite (squeeze_loop_blocks d (d / rate + 1)); [|done|lia|lia].
  by rewrite Hp, drop_0, Hst.
Qed.
End refinement.

(** ** The hash functions *)

(** The permutation of the standard on strings of 200 bytes. *)
Definition keccak_p (bs : list Z) : list Z :=
  state_bytes (lanes_of (Fips202.Keccak_f (bit_of (lanes 25 bs)))).
Definition SHAKE128 (m : list Z) (d : nat) : list Z := SPONGE keccak_p 168 0x1F m d.
Definition SHAKE256 (m : list Z) (d : nat) : list Z := SPONGE keccak_p 136 0x1F m d.
Definition KECCAK256 (m : list Z) : list Z := SPONGE keccak_p 136 0x01 m 32.

Lemma le_val_range l : bytes l -> 0 <= le_val l < 256 ^ Z.of_nat (length l).
Proof.
  induction 1 as [|b l Hb Hl IH]; [vm_compute; split; congruence|].
  cbn [le_val length]. rewrite Nat2Z.inj_succ, Z.pow_succ_r by lia. unfold is_u8 in Hb. lia.
Qed.

Lemma lanes_ok n bs : bytes bs -> length (lanes n bs) = n /\ Forall is_u64 (lanes n bs).
Proof.
  revert bs. induction n as [|n IH]; intros bs Hb; cbn [lanes]; [by split|].
  destruct (IH (drop 8 bs)) as [Hl Hu]; [by apply Forall_drop|].
  split; [simpl; by rewrite Hl|]. constructor; [|done].
  pose proof (le_val_range (take 8 bs) ltac:(by apply Forall_take)) as Hr.
  assert (256 ^ Z.of_nat (length (take 8 bs)) <= 256 ^ 8).
  { apply Z.pow_le_mono_r; [lia|]. rewrite length_take. lia. }
  unfold is_u64. change 18446744073709551616 with (256 ^ 8). lia.
Qed.

Lemma on_bytes_keccak bs : bytes bs -> on_bytes keccakf bs = keccak_p bs.
Proof.
  intros Hb. destruct (lanes_ok 25 bs Hb) as [Hl Hu].
  unfold on_bytes, keccak_p. by rewrite keccakf_lanes.
Qed.

Lemma state_bytes_bytes s : bytes (state_bytes s).
Proof.
  induction s as [|v s IH]; [constructor|]. unfold state_bytes in *. cbn [mbind list_bind].
  apply Forall_app. split; [apply le_bytes_bytes|done].
Qed.

Lemma lxor_u8 a b : 0 <= a < 256 -> 0 <= b < 256 -> 0 <= Z.lxor a b < 256.
Proof.
  intros Ha Hb. split; [apply Z.lxor_nonneg; lia|].
  assert (Z.lxor a b mod 2 ^ 8 = Z.lxor a b) as <-; [|apply Z.mod_pos_bound; lia].
  apply Z.bits_inj'. intros n Hn. destruct (Z.lt_ge_cases n 8).
  - by rewrite Z.mod_pow2_bits_low by lia.
  - rewrite Z.mod_pow2_bits_high, Z.lxor_spec by lia.
    rewrite <- (Z.mod_small a (2 ^ 8)), <- (Z.mod_small b (2 ^ 8)) by lia.
    by rewrite !Z.mod_pow2_bits_high by lia.
Qed.

Lemma xor_bytes_bytes bs m : bytes bs -> bytes m -> bytes (xor_bytes bs m).
Proof.
  intros Hb Hm. apply Forall_lookup. intros i v. rewrite xor_bytes_lookup.
  destruct (bs !! i) as [b|] eqn:E; [|done]. intros [= <-].
  pose proof (bytes_lookup _ _ _ Hb E). destruct (m !! i) as [c|] eqn:Em; simpl.
  - apply lxor_u8; [done|]. by eapply bytes_lookup.
  - by rewrite Z.lxor_0_r.
Qed.

(** The construction uses its permutation on byte strings only. *)
Lemma SPONGE_ext F G rate pad m d :
  (forall bs, bytes bs -> F bs = G bs) -> (forall bs, bytes (G bs)) ->
  bytes m -> 0 <= pad < 256 -> SPONGE F rate pad m d = SPONGE G rate pad m d.
Proof.
  intros HFG HG Hm Hp. unfold SPONGE.
  assert (Hpad : bytes (m ++ padding rate pad (length m))).
  { apply Forall_app. split; [done|]. unfold padding. destruct (_ =? _)%nat.
    - constructor; [apply lxor_u8; lia|done].
    - constructor; [done|]. apply Forall_app. split; [apply bytes_zeros|].
      repeat constructor; lia. }
  assert (Hab : forall n bs p, bytes bs -> bytes p ->
    absorb_blocks F rate n bs p = absorb_blocks G rate n bs p /\
    bytes (absorb_blocks G rate n bs p)).
  { induction n as [|n IH]; intros bs p Hb Hpb; cbn [absorb_blocks]; [done|].
    rewrite HFG by (apply xor_bytes_bytes; [done|by apply Forall_take]).
    apply IH; [apply HG|by apply Forall_drop]. }
  assert (Hsq : forall n bs, bytes bs -> squeeze_blocks F rate n bs = squeeze_blocks G rate n bs).
  { induction n as [|n IH]; intros bs Hb; cbn [squeeze_blocks]; [done|].
    rewrite HFG by done. by rewrite IH by apply HG. }
  destruct (Hab (length m / rate + 1)%nat (replicate 200 0) (m ++ padding rate pad (length m)))
    as [-> Hb]; [apply bytes_zeros|done|]. by rewrite Hsq.
Qed.

Lemma keccak_sponge rate pad ms ds :
  (0 < rate <= 200)%nat -> 0 <= pad < 256 -> bytes (concat ms) ->
  squeezes (squeeze keccakf rate pad) ds
    (finalize keccakf rate pad (absorbs (absorb keccakf rate) ms init)) =
  SPONGE keccak_p rate pad (concat ms) (sum_list ds).
Proof.
  intros Hr Hp Hm. rewrite (sponge_calls keccakf rate pad Hr Hp keccakf_ok ms ds Hm).
  apply SPONGE_ext; [apply on_bytes_keccak|intros; apply state_bytes_bytes|done|done].
Qed.

Lemma shake256_oneshot m n d :
  bytes (take n m) ->
  fst (shake256_squeeze (shake256_finalize (shake256_absorb shake256_init m n)) d) =
  SHAKE256 (take n m) d.
Proof.
  intros Hm.
  pose proof (keccak_sponge SHAKE256_RATE 0x1F [take n m] [d] ltac:(vm_compute; lia) ltac:(lia)) as H.
  cbn [concat squeezes absorbs fold_left] in H. rewrite app_nil_r in H.
  replace (sum_list [d]) with d in H by (symmetry; apply Nat.add_0_r).
  specialize (H Hm).
  unfold shake256_squeeze, shake256_finalize, shake256_absorb, shake256_init, absorb in *.
  rewrite firstn_all in H. destruct (squeeze _ _ _ _ d) as [o c].
  by rewrite app_nil_r in H.
Qed.

(** ** Streams

    A finalised context as a position in the output stream of its message: the
    callers that squeeze in several steps read consecutive slices of it. *)
Section streams.
Context (rate : nat) (pad : Z) (Hrate : (0 < rate <= 200)%nat) (Hpad : 0 <= pad < 256).

(** The context after [n] bytes of output for the message [m]. *)
Definition ctx_after (m : list Z) (n : nat) : sponge_ctx :=
  snd (squeeze_loop keccakf rate n
    (finalize keccakf rate pad (absorbs (absorb keccakf rate) [m] init))).

Lemma squeeze_loop_length n ctx : length (fst (squeeze_loop keccakf rate n ctx)) = n.
Proof.
  revert ctx. induction n as [|n IH]; intros ctx; cbn [squeeze_loop]; [done|].
  destruct (squeeze_byte keccakf rate ctx) as [b c]. specialize (IH c).
  destruct (squeeze_loop keccakf rate n c) as [o c']. cbn [fst length] in *. congruence.
Qed.

Lemma squeeze_loop_bytes n ctx : bytes (fst (squeeze_loop keccakf rate n ctx)).
Proof.
  revert ctx. induction n as [|n IH]; intros ctx; cbn [squeeze_loop]; [done|].
  unfold squeeze_byte. set (c := if (_ =? _)%nat then _ else _). specialize (IH c).
  destruct (squeeze_loop keccakf rate n c) as [o c']. cbn [fst] in *. constructor; [|done].
  rewrite land_255. unfold is_u8. apply Z.mod_pos_bound. lia.
Qed.

Lemma finalize_stream m n : bytes m ->
  fst (squeeze_loop keccakf rate n
    (finalize keccakf rate pad (absorbs (absorb keccakf rate) [m] init))) =
  SPONGE keccak_p rate pad m n.
Proof.
  intros Hm. assert (Hc : concat [m] = m) by apply app_nil_r.
  pose proof (keccak_sponge rate pad [m] [n] Hrate Hpad) as H. rewrite Hc in H. specialize (H Hm).
  replace (sum_list [n]) with n in H by (symmetry; apply Nat.add_0_r).
  rewrite <- H. set (c := finalize _ _ _ _). cbn [squeezes]. unfold squeeze.
  assert (Hq : squeezing c = true) by done. rewrite Hq.
  destruct (squeeze_loop keccakf rate n c) as [o c']. symmetry. apply app_nil_r.
Qed.

Lemma ctx_after_squeezing m n : squeezing (ctx_after m n) = true.
Proof. unfold ctx_after. by rewrite squeeze_loop_squeezing. Qed.

Lemma absorbs_start ms :
  finalize keccakf rate pad (absorbs (absorb keccakf rate) ms init) = ctx_after (concat ms) 0.
Proof. unfold ctx_after. cbn [squeeze_loop snd]. rewrite !absorbs_concat. cbn [concat]. by rewrite app_nil_r. Qed.

(** Squeezing [d] bytes at position [n] reads bytes [n .. n + d) of the stream. *)
Lemma squeeze_after m n d : bytes m ->
  squeeze keccakf rate pad (ctx_after m n) d =
  (drop n (SPONGE keccak_p rate pad m (n + d)), ctx_after m (n + d)).
Proof.
  intros Hm. unfold squeeze. rewrite ctx_after_squeezing, <- finalize_stream by done.
  unfold ctx_after. set (c := finalize _ _ _ _). rewrite squeeze_loop_app.
  pose proof (squeeze_loop_length n c) as Hl. destruct (squeeze_loop keccakf rate n c) as [x c'].
  cbn [snd fst] in *. subst n. destruct (squeeze_loop keccakf rate d c') as [y c''].
  cbn [fst snd]. by rewrite drop_app_length.
Qed.

Lemma stream_length m n : bytes m -> length (SPONGE keccak_p rate pad m n) = n.
Proof. intros Hm. rewrite <- finalize_stream by done. apply squeeze_loop_length. Qed.
Lemma stream_bytes m n : bytes m -> bytes (SPONGE keccak_p rate pad m n).
Proof. intros Hm. rewrite <- finalize_stream by done. apply squeeze_loop_bytes. Qed.
Lemma stream_prefix m n d : bytes m ->
  take n (SPONGE keccak_p rate pad m (n + d)) = SPONGE keccak_p rate pad m n.
Proof.
  intros Hm. rewrite <- !finalize_stream by done. rewrite squeeze_loop_app.
  set (c := finalize _ _ _ _).
  pose proof (squeeze_loop_length n c) as Hl. destruct (squeeze_loop keccakf rate n c) as [x c'].
  cbn [fst] in *. subst n. destruct (squeeze_loop keccakf rate d c') as [y c''].
  cbn [fst]. by rewrite take_app_length.
Qed.
End streams.

(** C11. For every split of the message into [absorb] calls and of the output into
    [squeeze] calls, the three contexts compute SHAKE128, SHAKE256 and
    Keccak-256 as the standard defines them, down to the bits of the
    permutation. *)
Theorem sponges_fips202 (ms : list (list Z)) (ds : list nat) (Hm : bytes (concat ms)) :
  squeezes shake128_squeeze ds (shake128_finalize (absorbs shake128_absorb ms shake128_init))
    = SHAKE128 (concat ms) (sum_list ds) /\
  squeezes shake256_squeeze ds (shake256_finalize (absorbs shake256_absorb ms shake256_init))
    = SHAKE256 (concat ms) (sum_list ds) /\
  fst (keccak256_squeeze (keccak256_finalize (absorbs keccak256_absorb ms keccak256_init)))
    = KECCAK256 (concat ms).
Proof.
  split; [|split]; [apply keccak_sponge; (done || vm_compute; lia)..|].
  pose proof (keccak_sponge KECCAK256_RATE 0x01 ms [32%nat] ltac:(vm_compute; lia) ltac:(lia) Hm)
    as H. etransitivity; [|exact H]. cbn [squeezes].
  unfold keccak256_squeeze, keccak256_finalize, keccak256_absorb, keccak256_init.
  destruct (squeeze _ _ _ _ 32) as [o c]. cbn [fst]. symmetry. apply app_nil_r.
Qed.

Lemma sponges_fips202_witness :
  squeezes shake128_squeeze [1%nat; 2%nat]
    (shake128_finalize (absorbs shake128_absorb [[1]; [2; 3]] shake128_init))
    = SHAKE128 [1; 2; 3] 3 /\
  squeezes shake256_squeeze [1%nat; 2%nat]
    (shake256_finalize (absorbs shake256_absorb [[1]; [2; 3]] shake256_init))
    = SHAKE256 [1; 2; 3] 3 /\
  fst (keccak256_squeeze (keccak256_finalize (absorbs keccak256_absorb [[1]; [2; 3]] keccak256_init)))
    = KECCAK256 [1; 2; 3].
Proof.
  apply (sponges_fips202 [[1]; [2; 3]] [1%nat; 2%nat]). by apply bytesb_bytes.
Defined.

(** The empty message, from the published test vectors. *)
Example sponge_vectors :
  fst (shake128_squeeze (shake128_finalize shake128_init) 4) = [0x7f; 0x9c; 0x2b; 0xa4] /\
  fst (shake256_squeeze (shake256_finalize shake256_init) 4) = [0x46; 0xb9; 0xdd; 0x2b] /\
  take 4 (fst (keccak256_squeeze (keccak256_finalize keccak256_init))) =
    [0xc5; 0xd2; 0x46; 0x01].
Proof. vm_compute. repeat split. Qed.
