(* ===== verification/Address.v ===== *)
(** * Paths and addresses ([src/src/address_format.c])

    The derivation paths the application accepts and the checksummed text of an
    address: the upper-casing of its hexadecimal digits encodes the SHAKE-256
    digest of the lower-case text. *)
From S2P Require Import Prelude CInt Constants Keccak KeccakSpec Sponge.

Definition is_valid_zond_bip32_path (bip32_path : list Z) (bip32_path_len : nat) : bool :=
  if negb (bip32_path_len =? 5)%nat then false
  else if negb (bip32_path !!! 0%nat =? 0x8000002C) || negb (bip32_path !!! 1%nat =? 0x800000EE) ||
     (Z.land (bip32_path !!! 2%nat) 0x80000000 =? 0) ||
     negb (Z.land (bip32_path !!! 3%nat) 0x80000000 =? 0) ||
     negb (Z.land (bip32_path !!! 4%nat) 0x80000000 =? 0) then false
  else true.

(** ["0123456789abcdef"] *)
Definition hexc : list Z :=
  [48; 49; 50; 51; 52; 53; 54; 55; 56; 57; 97; 98; 99; 100; 101; 102].

(** The two digits of every byte, from [out[0]]. *)
Definition write_hex (bytes : list Z) (len : nat) (out : list Z) : list Z :=
  for_ 0 len (fun i out =>
    let out := <[(2 * i)%nat := hexc !!! Z.to_nat (Z.shiftr (bytes !!! i) 4)]> out in
    <[(2 * i + 1)%nat := hexc !!! Z.to_nat (Z.land (bytes !!! i) 0x0f)]> out) out.

(** [body] is [out + 1]. *)
Definition format_checksummed_address (address out : option (list Z)) (out_len : nat)
    : bool * list Z :=
  match address, out with
  | Some address, Some out =>
    if (out_len <? 1 + 2 * ADDRESS_SIZE + 1)%nat then (false, out) else
    let body := drop 1 out in
    let body := write_hex address ADDRESS_SIZE body in
    let ctx := shake256_init in
    let ctx := shake256_absorb ctx body (2 * ADDRESS_SIZE) in
    let ctx := shake256_finalize ctx in
    let mask := fst (shake256_squeeze ctx ADDRESS_SIZE) in
    let body := for_ 0 (2 * ADDRESS_SIZE) (fun i body =>
      let nibble := if (i mod 2 =? 0)%nat then Z.shiftr (mask !!! (i / 2)%nat) 4
                    else Z.land (mask !!! (i / 2)%nat) 0x0f in
      if (97 <=? body !!! i) && (body !!! i <=? 102) && (8 <=? nibble)
      then <[i := body !!! i - (97 - 65)]> body else body) body in
    let out := take 1 out ++ body in
    let out := <[0%nat := 81]> out in
    (true, <[(1 + 2 * ADDRESS_SIZE)%nat := 0]> out)
  | _, _ => (false, default [] out)
  end.

(** ** Paths *)

(** C36. Exactly the paths [m/44'/238'/account'/change/index]. *)
Theorem valid_paths (p : list Z) (len : nat) (Hp : Forall (fun x => 0 <= x < 4294967296) p)
  (Hlen : (len <= length p)%nat) :
  is_valid_zond_bip32_path p len = true <->
  len = 5%nat /\ exists account change index rest,
    p = [2147483648 + 44; 2147483648 + 238; 2147483648 + account; change; index] ++ rest /\
    0 <= account < 2147483648 /\ 0 <= change < 2147483648 /\ 0 <= index < 2147483648.
Proof.
  assert (Hbit : forall x, 0 <= x < 4294967296 ->
    Z.land x 0x80000000 = if decide (2147483648 <= x) then 0x80000000 else 0).
  { intros x Hx.
    replace (Z.land x 0x80000000) with (Z.shiftl (Z.land (Z.shiftr x 31) 1) 31).
    - rewrite land_1. shifts. case_decide; dlia.
    - change 0x80000000 with (Z.shiftl 1 31). apply Z.bits_inj'. intros i Hi.
      rewrite !Z.land_spec, !Z.shiftl_spec, Z.land_spec by lia.
      destruct (Z.lt_ge_cases i 31).
      + rewrite !(Z.testbit_neg_r _ (i - 31)) by lia. by rewrite !andb_false_r.
      + rewrite Z.shiftr_spec by lia. do 2 f_equal. lia. }
  unfold is_valid_zond_bip32_path. destruct (Nat.eqb_spec len 5) as [->|Hne]; cbn [negb].
  2:{ split; [done|]. by intros [? _]. }
  destruct p as [|a [|b [|c [|d [|e rest]]]]]; cbn [length] in Hlen; try lia.
  repeat (apply Forall_cons_1 in Hp as [? Hp]). cbv beta in *.
  cbn [lookup_total list_lookup_total].
  rewrite (Hbit c), (Hbit d), (Hbit e) by lia.
  split.
  - intros Hv. split; [done|]. exists (c - 2147483648), d, e, rest.
    destruct (Z.eqb_spec a 0x8000002C), (Z.eqb_spec b 0x800000EE); try done. cbn [negb orb] in Hv.
    repeat case_decide; try done. split; [|lia]. simpl. repeat f_equal; lia.
  - intros (_ & ac & ch & ix & r & [= -> -> -> -> -> ->] & ? & ? & ?).
    rewrite decide_True, !decide_False by lia. done.
Qed.

Lemma valid_paths_witness :
  let p := [0x8000002C; 0x800000EE; 0x80000000; 0; 3] in
  is_valid_zond_bip32_path p 5 = true <->
  5%nat = 5%nat /\ exists account change index rest,
    p = [2147483648 + 44; 2147483648 + 238; 2147483648 + account; change; index] ++ rest /\
    0 <= account < 2147483648 /\ 0 <= change < 2147483648 /\ 0 <= index < 2147483648.
Proof.
  intros p. apply (valid_paths p 5); [|vm_compute; lia].
  repeat constructor; vm_compute; congruence.
Defined.

(** ** Text of an address *)
Definition hex_body (a : list Z) : list Z :=
  a ≫= fun b => [hexc !!! Z.to_nat (b / 16); hexc !!! Z.to_nat (b mod 16)].

(** Digit [i] of the digest of the text. *)
Definition digest_nibble (mask : list Z) (i : nat) : Z :=
  if (i mod 2 =? 0)%nat then mask !!! (i / 2)%nat / 16 else mask !!! (i / 2)%nat mod 16.
Definition upcase (mask : list Z) (i : nat) (c : Z) : Z :=
  if (97 <=? c) && (c <=? 102) && (8 <=? digest_nibble mask i) then c - 32 else c.
Definition checksummed (a : list Z) : list Z :=
  81 :: imap (upcase (SHAKE256 (hex_body a) ADDRESS_SIZE)) (hex_body a).
Definition lower (c : Z) : Z := if (65 <=? c) && (c <=? 70) then c + 32 else c.

Lemma hex_body_length a : length (hex_body a) = (2 * length a)%nat.
Proof. unfold hex_body. induction a as [|b a IH]; [done|]. cbn [mbind list_bind length app]. simpl in IH. lia. Qed.

Lemma hex_body_app a b : hex_body (a ++ b) = hex_body a ++ hex_body b.
Proof. apply bind_app. Qed.

Lemma write_hex_spec a len out :
  (len <= length a)%nat -> (2 * len <= length out)%nat ->
  write_hex a len out = written (hex_body (take len a)) out.
Proof.
  intros Ha Hout. unfold write_hex.
  apply (for_ind (fun i t => t = written (hex_body (take i a)) out) 0 len).
  - by rewrite take_0.
  - intros i t Hi ->. destruct (lookup_lt_is_Some_2 a i) as [b Hb]; [lia|].
    rewrite (list_lookup_total_correct _ _ _ Hb), (take_S_r _ _ _ Hb), hex_body_app.
    assert (Hl : length (hex_body (take i a)) = (2 * i)%nat)
      by (rewrite hex_body_length, length_take; lia).
    rewrite (insert_written _ _ out) by lia.
    rewrite insert_written by (rewrite length_app; simpl; lia).
    rewrite <- app_assoc. cbn [app]. unfold hex_body at 3. cbn [mbind list_bind app].
    rewrite (Z.shiftr_div_pow2 b 4), land_15 by lia. done.
Qed.

Lemma hexc_cases n :
  0 <= n < 16 -> exists c, hexc !!! Z.to_nat n = c /\ (48 <= c <= 57 \/ 97 <= c <= 102) /\
    n = (if c <=? 57 then c - 48 else c - 87).
Proof.
  intros Hn. assert (H : forallb (fun k => let c := hexc !!! k in
    (((48 <=? c) && (c <=? 57)) || ((97 <=? c) && (c <=? 102))) &&
    (Z.of_nat k =? (if c <=? 57 then c - 48 else c - 87))) (seq 0 16) = true)
    by (vm_compute; reflexivity).
  rewrite forallb_forall in H. specialize (H (Z.to_nat n)). rewrite in_seq in H.
  specialize (H ltac:(lia)). eexists. split; [done|]. cbv zeta in H.
  set (c := hexc !!! Z.to_nat n) in *. clearbody c.
  apply andb_true_iff in H as [Hr He%Z.eqb_eq]. split; [|rewrite <- He; lia].
  apply orb_true_iff in Hr as [[? ?]%andb_true_iff|[? ?]%andb_true_iff]; lia.
Qed.

Lemma hex_body_digits a :
  bytes a -> Forall (fun c => 48 <= c <= 57 \/ 97 <= c <= 102) (hex_body a).
Proof.
  induction 1 as [|b a Hb Ha IH]; [constructor|]. unfold is_u8 in Hb.
  unfold hex_body in *. cbn [mbind list_bind app].
  destruct (hexc_cases (b / 16) ltac:(dlia)) as (c1 & -> & H1 & _).
  destruct (hexc_cases (b mod 16) ltac:(dlia)) as (c2 & -> & H2 & _).
  constructor; [done|]. by constructor.
Qed.

Lemma hex_body_inj a b : bytes a -> bytes b -> hex_body a = hex_body b -> a = b.
Proof.
  intros Ha. revert b. induction Ha as [|x a Hx Ha IH]; intros [|y b] Hb E; try done.
  apply Forall_cons_1 in Hb as [Hy Hb]. unfold is_u8 in *.
  unfold hex_body in E, IH. cbn [mbind list_bind app] in E. injection E as E1 E2 E.
  destruct (hexc_cases (x / 16) ltac:(dlia)) as (c1 & K1 & _ & D1).
  destruct (hexc_cases (x mod 16) ltac:(dlia)) as (c2 & K2 & _ & D2).
  destruct (hexc_cases (y / 16) ltac:(dlia)) as (c3 & K3 & _ & D3).
  destruct (hexc_cases (y mod 16) ltac:(dlia)) as (c4 & K4 & _ & D4).
  assert (c1 = c3) as <- by congruence. assert (c2 = c4) as <- by congruence.
  f_equal; [dlia|by apply IH].
Qed.

Lemma lower_upcase mask i c :
  48 <= c <= 57 \/ 97 <= c <= 102 -> lower (upcase mask i c) = c.
Proof.
  intros [Hc|Hc]; unfold upcase, lower.
  - rewrite (proj2 (Z.leb_gt 97 c)) by lia. cbn [andb].
    by rewrite (proj2 (Z.leb_gt 65 c)) by lia.
  - rewrite (proj2 (Z.leb_le 97 c)), (proj2 (Z.leb_le c 102)) by lia. cbn [andb].
    destruct (8 <=? digest_nibble mask i).
    + rewrite (proj2 (Z.leb_le 65 _)), (proj2 (Z.leb_le _ 70)) by lia. cbn [andb]. lia.
    + by rewrite (proj2 (Z.leb_gt c 70)), andb_false_r by lia.
Qed.

Lemma lower_checksummed a : bytes a -> map lower (tail (checksummed a)) = hex_body a.
Proof.
  intros Ha. cbn [checksummed tail]. pose proof (hex_body_digits a Ha) as Hd.
  generalize (SHAKE256 (hex_body a) ADDRESS_SIZE). intros mask. apply list_eq. intros i.
  change (map lower ?l) with (lower <$> l). rewrite list_lookup_fmap, list_lookup_imap.
  destruct (hex_body a !! i) as [c|] eqn:E; [|done]. simpl. f_equal. apply lower_upcase.
  exact (Forall_lookup_1 (fun c => 48 <= c <= 57 \/ 97 <= c <= 102) _ _ _ Hd E).
Qed.

Lemma hex_body_bytes a : bytes a -> bytes (hex_body a).
Proof.
  intros Ha. pose proof (hex_body_digits a Ha) as H. revert H. apply Forall_impl.
  unfold is_u8. intros c Hc. lia.
Qed.

Lemma format_checksummed_address_spec a out :
  bytes a -> length a = ADDRESS_SIZE -> (1 + 2 * ADDRESS_SIZE + 1 <= length out)%nat ->
  format_checksummed_address (Some a) (Some out) (length out) =
    (true, written (checksummed a ++ [0]) out).
Proof.
  intros Ha Hl Hout. unfold format_checksummed_address.
  rewrite (proj2 (Nat.ltb_ge _ _)) by done. destruct out as [|o0 out]; [simpl in Hout; lia|].
  cbn [length] in Hout. change (drop 1 (o0 :: out)) with out.
  change (take 1 (o0 :: out)) with [o0]. cbn [app].
  rewrite write_hex_spec by lia. rewrite (take_ge a) by lia.
  pose proof (hex_body_length a) as Hh. rewrite Hl in Hh.
  assert (Htake : take (2 * ADDRESS_SIZE) (written (hex_body a) out) = hex_body a)
    by (unfold written; rewrite <- Hh; apply take_app_length).
  rewrite shake256_oneshot, Htake by (rewrite Htake; by apply hex_body_bytes).
  set (mask := SHAKE256 (hex_body a) ADDRESS_SIZE). f_equal.
  rewrite (for_ext _ _ _ (fun i t => <[i := upcase mask i (t !!! i)]> t)).
  2:{ intros i t _. unfold upcase, digest_nibble.
      rewrite (Z.shiftr_div_pow2 _ 4), land_15 by lia. change (2 ^ 4) with 16.
      case_match; [done|]. symmetry. destruct (t !! i) as [c|] eqn:E.
      - apply list_insert_id. by rewrite (list_lookup_total_correct _ _ _ E).
      - apply lookup_ge_None in E. by apply list_insert_ge. }
  rewrite for_imap_prefix by (rewrite written_length; lia).
  assert (Hm : map (fun i => upcase mask i (written (hex_body a) out !!! i))
    (seq 0 (2 * ADDRESS_SIZE)) = imap (upcase mask) (hex_body a)).
  { rewrite <- map_seq_lookup, Hh. apply map_ext_in. intros i [_ Hi]%in_seq. f_equal.
    unfold written. rewrite lookup_total_app_l by lia. done. }
  rewrite Hm. unfold written. rewrite length_imap, Hh.
  rewrite drop_app_ge, Hh, Nat.sub_diag, drop_0 by lia.
  cbn [insert list_insert]. unfold checksummed. fold mask.
  assert (Hlen : length (81 :: imap (upcase mask) (hex_body a)) = (1 + 2 * ADDRESS_SIZE)%nat)
    by (cbn [length]; rewrite length_imap; lia).
  rewrite (app_comm_cons (imap _ _)), <- Hlen.
  rewrite insert_app_r_alt, Nat.sub_diag by lia. rewrite <- app_assoc. f_equal.
  rewrite length_app, Hlen. cbn [app length Nat.add].
  destruct (lookup_lt_is_Some_2 out (2 * ADDRESS_SIZE)) as [y Hy]; [lia|].
  rewrite (drop_S _ _ _ Hy). cbn [insert list_insert]. f_equal.
Qed.

(** C25. The text is ['Q'] and the digits of the address, cased by the digest of the
    lower-case text; it determines the address, and a buffer shorter than 130
    characters is refused. *)
Theorem checksummed_address_correct (a out : list Z)
  (Ha : bytes a) (Hl : length a = ADDRESS_SIZE) :
  if (length out <? 130)%nat then
    format_checksummed_address (Some a) (Some out) (length out) = (false, out)
  else
    format_checksummed_address (Some a) (Some out) (length out) =
      (true, written (checksummed a ++ [0]) out) /\
    map lower (tail (checksummed a)) = hex_body a /\
    forall b, bytes b -> checksummed b = checksummed a -> b = a.
Proof.
  destruct (Nat.ltb_spec (length out) 130) as [H|H].
  - unfold format_checksummed_address. by rewrite (proj2 (Nat.ltb_lt _ _)).
  - split; [by apply format_checksummed_address_spec|].
    split; [by apply lower_checksummed|]. intros b Hb E.
    apply hex_body_inj; [done|done|]. rewrite <- !lower_checksummed by done. by rewrite E.
Qed.

Lemma checksummed_address_correct_witness :
  let a := replicate 64 0xb5 in let out := replicate 130 0 in
  format_checksummed_address (Some a) (Some out) 130 = (true, written (checksummed a ++ [0]) out) /\
  map lower (tail (checksummed a)) = hex_body a /\
  forall b, bytes b -> checksummed b = checksummed a -> b = a.
Proof.
  intros a out. apply (checksummed_address_correct a out); [by apply bytesb_bytes|reflexivity].
Defined.
