(* ===== verification/Vectors.v ===== *)
(** * The unit tests of the repository, evaluated

    [src/unit-tests]: the known answers and the expected refusals of the C tests,
    on the definitions of this development.  Every example bears the name of its
    test; [size_t] has 64 bits where the tests run.  The theorems do not depend on
    this file: it shows that the definitions compute what the code is expected to
    compute. *)
From Stdlib Require Import String Ascii.
From S2P Require Import Prelude CInt Constants Rlp TxFormat Keccak Address.

(** ** Literals *)

(** The characters of a C string, without the terminator. *)
Definition chars (s : string) : list Z :=
  map (fun c => Z.of_N (N_of_ascii c)) (list_ascii_of_string s).

(** The value of a hexadecimal digit. *)
Definition hex_digit (c : Z) : Z := if c <=? 57 then c - 48 else if c <=? 70 then c - 55 else c - 87.
Fixpoint unhex_chars (s : list Z) : list Z :=
  match s with h :: l :: s => hex_digit h * 16 + hex_digit l :: unhex_chars s | _ => [] end.
Definition unhex (s : string) : list Z := unhex_chars (chars s).

(** ** [test_tx_format.c] *)

(** A call that succeeds and the text it writes. *)
Definition writes (r : bool * list Z) (s : string) : bool :=
  fst r && bool_decide (cstr (snd r) = chars s).
Definition decimal_of (b : list Z) (out_len : nat) : bool * list Z :=
  uint8_array_to_decimal (Some b) (length b) (Some (replicate (MAX_DECIMAL_DIGITS + 1) 0)) out_len.
Definition amount_of (b : list Z) : bool * list Z :=
  format_qrl_amount (Some b) (length b) (Some (replicate MAX_AMOUNT_LEN 0)) MAX_AMOUNT_LEN.

Example test_decimal_boundaries :
  writes (decimal_of [0xff] 98) "255" = true /\
  writes (decimal_of (replicate 8 0xff) 98) "18446744073709551615" = true /\
  strlen (snd (decimal_of (replicate 17 0xff) 98)) = 41%nat /\
  writes (decimal_of (replicate 32 0xff) 98)
    "115792089237316195423570985008687907853269984665640564039457584007913129639935" = true /\
  fst (decimal_of (replicate 32 0xff) 78) = false.
Proof. by vm_compute. Qed.

Example test_qrl_format : writes (amount_of (unhex "2386f26fc10000")) "0.01" = true.
Proof. by vm_compute. Qed.

(** 10 gwei times 500000. *)
Example test_fee_product :
  match multiply_uint8_arrays (Some (unhex "02540be400")) 5 (Some (unhex "07a120")) 3
    (Some (replicate MAX_INTEGER_BYTES 0)) (Some MAX_INTEGER_BYTES) with
  | (true, product, Some n) => writes (amount_of (take n product)) "0.005"
  | _ => false
  end = true.
Proof. by vm_compute. Qed.

(** ** [test_address_format.c] *)
Definition checksummed_text (address : list Z) : bool * list Z :=
  format_checksummed_address (Some address) (Some (replicate (1 + 2 * ADDRESS_SIZE + 1) 0))
    (1 + 2 * ADDRESS_SIZE + 1).

Example test_checksum_known_answers :
  writes (checksummed_text (replicate ADDRESS_SIZE 0xab))
    ("QabaBABabaBAbAbAbABaBABaBabaBabaBAbabaBABABAbAbabababAbaBaBABABabABaBaBABABaBabaBA" ++
     "BaBabABAbABabaBAbABAbABAbaBabABababAbaBaBabaBAB") = true /\
  writes (checksummed_text (map Z.of_nat (seq 0 ADDRESS_SIZE)))
    ("Q000102030405060708090a0B0C0D0e0f101112131415161718191A1B1C1D1e1F202122232425262728" ++
     "292a2B2c2d2E2f303132333435363738393A3B3C3d3e3f") = true.
Proof. by vm_compute. Qed.

Example test_checksum_is_sensitive_to_input :
  bool_decide (snd (checksummed_text (replicate 64 0xab)) =
    snd (checksummed_text (replicate 63 0xab ++ [0xaa]))) = false.
Proof. by vm_compute. Qed.

Example test_checksum_rejects_small_buffer :
  let small := replicate (1 + 2 * ADDRESS_SIZE) 0 in
  let addr := replicate ADDRESS_SIZE 0 in
  fst (format_checksummed_address (Some addr) (Some small) (length small)) = false /\
  fst (format_checksummed_address (Some addr) None (length small + 1)) = false /\
  fst (format_checksummed_address None (Some small) (length small + 1)) = false.
Proof. by vm_compute. Qed.

Example test_bip32_path_validation :
  let ok := [0x8000002C; 0x800000EE; 0x80000000; 0; 0] in
  is_valid_zond_bip32_path ok 5 = true /\
  is_valid_zond_bip32_path ok 4 = false /\ is_valid_zond_bip32_path ok 6 = false /\
  is_valid_zond_bip32_path [0x8000002D; 0x800000EE; 0x80000000; 0; 0] 5 = false /\
  is_valid_zond_bip32_path [0x8000002C; 0x800000EF; 0x80000000; 0; 0] 5 = false /\
  is_valid_zond_bip32_path [0x8000002C; 0x800000EE; 0; 0; 0] 5 = false /\
  is_valid_zond_bip32_path [0x8000002C; 0x800000EE; 0x80000000; 0x80000000; 0] 5 = false /\
  is_valid_zond_bip32_path [0x8000002C; 0x800000EE; 0x80000000; 0; 0x80000000] 5 = false.
Proof. by vm_compute. Qed.

(** ** [test_rlp_decode.c] *)
Definition VALID_64B_TO : list Z := unhex
  ("02f8658330182401843b9aca008502540be4008307a120b8400838a121a6e4dd8a51e743" ++
   "7b152fabbc76a173f077132f2c2ed021c7b0991e70da4dba44e9ec00984a90f28dfb0aab" ++
   "bda1ddc9e98a76ab0acb6644c5e76fbbe8872386f26fc1000080c08301000080").
Definition VALID_CONTRACT_CREATION : list Z := unhex
  ("02e48330182401843b9aca008502540be4008307a12080872386f26fc1000080c0830100" ++ "0080").
Definition INVALID_20B_TO : list Z := unhex
  ("02f8388330182401843b9aca008502540be4008307a120940838a121a6e4dd8a51e74377" ++
   "b152fabbc76a173f0872386f26fc1000080c08301000080").
Definition INVALID_LEGACY_10_FIELDS : list Z := unhex
  ("02f89301038477359400850ba43b74008261a894b94f5374fce5edbc8e2a8697c1533167" ++
   "7e6ebf0b88016345785d8a0000825544f85bf85994b94f5374fce5edbc8e2a8697c15331" ++
   "677e6ebf0bf842a000000000000000000000000000000000000000000000000000000000" ++
   "00000000a0000000000000000000000000000000000000000000000000000000000000000" ++
   "183010000").
Definition oversized_nonce : list Z := unhex
  ("02f86e83301824890101010101010101010101843b9aca008502540be4008307a120" ++
   "b8400838a121a6e4dd8a51e7437b152fabbc76a173f077132f2c2ed021c7b0991e70" ++
   "da4dba44e9ec00984a90f28dfb0aabbda1ddc9e98a76ab0acb6644c5e76fbbe88723" ++
   "86f26fc1000080c08301000080").

Definition decode_n (buf : list Z) (n : nat) : decoded :=
  decode_ledger_tx 64 (Some buf) (Z.of_nat n) (Some zero_tx).
Definition decode (buf : list Z) : decoded := decode_n buf (length buf).
Definition rejected (r : decoded) : bool :=
  match r with Decoded ret _ => negb (ret =? 0) | DecodeOob => false end.

Example test_decode_valid_64byte_recipient :
  match decode VALID_64B_TO with
  | Decoded 0 tx =>
    flen (descriptor tx) = 3 /\ fbytes (descriptor tx) = [1; 0; 0] /\
    to_ tx !!! 0%nat = 0x08 /\ to_ tx !!! 63%nat = 0xe8 /\
    flen (chain_id tx) = 3 /\ flen (nonce tx) = 1 /\ fbytes (nonce tx) !!! 0%nat = 1 /\
    has_data tx = false /\ has_access_list tx = false
  | _ => False
  end.
Proof. by vm_compute. Qed.

Example test_decode_contract_creation :
  match decode VALID_CONTRACT_CREATION with Decoded ret _ => ret | DecodeOob => -1 end = 0.
Proof. by vm_compute. Qed.

(** The nonce written in two bytes, inside a list longer by one. *)
Example test_reject_noncanonical_integer :
  rejected (decode (<[2%nat := 0x66]> (take 7 VALID_64B_TO ++ 0x81 :: drop 7 VALID_64B_TO))) = true.
Proof. by vm_compute. Qed.

Example test_rejects :
  rejected (decode INVALID_20B_TO) = true /\
  rejected (decode INVALID_LEGACY_10_FIELDS) = true /\
  rejected (decode oversized_nonce) = true.
Proof. by vm_compute. Qed.

(** Single bytes of the valid preimage: the descriptor, the extra parameters, the
    type byte. *)
Example test_reject_flipped :
  let n := length VALID_64B_TO in
  rejected (decode (<[(n - 2)%nat := 1]> VALID_64B_TO)) = true /\
  rejected (decode (<[(n - 1)%nat := 1]> VALID_64B_TO)) = true /\
  rejected (decode (<[0%nat := 1]> VALID_64B_TO)) = true.
Proof. by vm_compute. Qed.

(** The regression that a fuzzer found. *)
Example test_reject_length_overflow :
  rejected (decode ([0x02; 0xf8; 0x3b] ++ replicate 61 0xff)) = true.
Proof. by vm_compute. Qed.

(** Every proper prefix, and null pointers. *)
Example test_reject_truncated :
  forallb (fun n => rejected (decode_n VALID_64B_TO n)) (seq 0 (length VALID_64B_TO)) = true /\
  rejected (decode_ledger_tx 64 None (Z.of_nat (length VALID_64B_TO)) (Some zero_tx)) = true /\
  rejected (decode_ledger_tx 64 (Some VALID_64B_TO) (Z.of_nat (length VALID_64B_TO)) None) = true.
Proof. by vm_compute. Qed.

(** ** [test_hash_kat.c] *)
Definition keccak256_text (msg : string) : list Z :=
  fst (keccak256_squeeze (keccak256_finalize
    (keccak256_absorb keccak256_init (chars msg) (String.length msg)))).
Definition shake128_text (msg : string) (outlen : nat) : list Z :=
  fst (shake128_squeeze (shake128_finalize
    (shake128_absorb shake128_init (chars msg) (String.length msg))) outlen).
Definition shake256_text (msg : string) (outlen : nat) : list Z :=
  fst (shake256_squeeze (shake256_finalize
    (shake256_absorb shake256_init (chars msg) (String.length msg))) outlen).

Example test_keccak256_kat :
  keccak256_text "" = unhex "c5d2460186f7233c927e7db2dcc703c0e500b653ca82273b7bfad8045d85a470" /\
  keccak256_text "abc" = unhex "4e03657aea45a94fc7d47ba826c8d667c0d1e6e33a64a036ec44f58fa12d6c45" /\
  keccak256_text "The quick brown fox jumps over the lazy dog" =
    unhex "4d741b6f1eb29cb2a9b9911c82f56fa8d73b04959d3d9d222895df6c0b28aa15".
Proof. by vm_compute. Qed.

(** The last output is one full rate. *)
Example test_shake128_kat :
  shake128_text "" 32 = unhex "7f9c2ba4e88f827d616045507605853ed73b8093f6efbc88eb1a6eacfa66ef26" /\
  shake128_text "abc" 32 = unhex "5881092dd818bf5cf8a3ddb793fbcba74097d5c526a6d35f97b83351940f2cc8" /\
  shake128_text "abc" 168 = unhex
   ("5881092dd818bf5cf8a3ddb793fbcba74097d5c526a6d35f97b83351940f2cc844c50af32acd3f2cdd0665687" ++
    "06f509bc1bdde58295dae3f891a9a0fca5783789a41f8611214ce612394df286a62d1a2252aa94db9c538956c" ++
    "717dc2bed4f232a0294c857c730aa16067ac1062f1201fb0d377cfb9cde4c63599b27f3462bba4a0ed296c801" ++
    "f9ff7f57302bb3076ee145f97a32ae68e76ab66c48d51675bd49acc29082f5647584e").
Proof. by vm_compute. Qed.

Example test_shake256_kat :
  shake256_text "" 32 = unhex "46b9dd2b0ba88d13233b3feb743eeb243fcd52ea62b81b82b50c27646ed5762f" /\
  shake256_text "abc" 32 = unhex "483366601360a8771c6863080cc4114d8db44530f8f1e1ee4f94ea37e78b5739" /\
  shake256_text "abc" 136 = unhex
   ("483366601360a8771c6863080cc4114d8db44530f8f1e1ee4f94ea37e78b5739d5a15bef186a5386c75744c05" ++
    "27e1faa9f8726e462a12a4feb06bd8801e751e41385141204f329979fd3047a13c5657724ada64d2470157b3c" ++
    "dc288620944d78dbcddbd912993f0913f164fb2ce95131a2d09a3e6d51cbfc622720d7a75c6334e8a2d7ec71a" ++
    "7cc29").
Proof. by vm_compute. Qed.

Example test_incremental_absorb_matches_single :
  let c := shake256_absorb shake256_init (chars "The quick brown ") 16 in
  let c := shake256_absorb c (chars "fox jumps over ") 15 in
  let c := shake256_absorb c (chars "the lazy dog") 12 in
  fst (shake256_squeeze (shake256_finalize c) 32) =
  shake256_text "The quick brown fox jumps over the lazy dog" 32.
Proof. by vm_compute. Qed.
