(* ===== verification/Poly.v ===== *)
(** * Polynomials ([src/src/mldsa87/poly.c])

    A polynomial is the list of its [N] coefficients.  A function of the source
    that writes through a pointer takes the old contents of that array and returns
    the new ones; the loops read and write one index at a time, so passing the
    same array twice models the aliased calls.  Sampling and packing are in
    [Sampling] and [Packing], the transforms in [Ntt]. *)
From S2P Require Import Prelude CInt Constants Reduce Rounding.

Abbreviation Poly := (list Z).
Definition zero_poly : Poly := replicate N 0.

Definition poly_c_addq (a : Poly) : Poly := for_ 0 N (fun i a => <[i := c_addq (a !!! i)]> a) a.
Definition poly_reduce (a : Poly) : Poly :=
  for_ 0 N (fun i a => <[i := reduce_32 (a !!! i)]> a) a.
Definition poly_add (c a b : Poly) : Poly :=
  for_ 0 N (fun i c => <[i := s32 (a !!! i + b !!! i)]> c) c.
Definition poly_sub (c a b : Poly) : Poly :=
  for_ 0 N (fun i c => <[i := s32 (a !!! i - b !!! i)]> c) c.
Definition poly_shitf_l (a : Poly) : Poly :=
  for_ 0 N (fun i a => <[i := s32 (Z.shiftl (a !!! i) D)]> a) a.
Definition poly_pointwise_montgomery (c a b : Poly) : Poly :=
  for_ 0 N (fun i c => <[i := montgomery_reduce (s64 (a !!! i * b !!! i))]> c) c.

(** [a1] and [a0] after the loop. *)
Definition poly_power2_round (a1 a0 a : Poly) : Poly * Poly :=
  for_ 0 N (fun i '(a1, a0) =>
    let '(hi, lo) := power2_round (a !!! i) in (<[i := hi]> a1, <[i := lo]> a0)) (a1, a0).
Definition poly_decompose (a1 a0 a : Poly) : Poly * Poly :=
  for_ 0 N (fun i '(a1, a0) =>
    let '(hi, lo) := decompose (a !!! i) in (<[i := hi]> a1, <[i := lo]> a0)) (a1, a0).

(** The hint polynomial and the returned count. *)
Definition poly_make_hint (h a0 a1 : Poly) : Poly * Z :=
  for_ 0 N (fun i '(h, s) =>
    let hi := s32 (make_hint (a0 !!! i) (a1 !!! i)) in
    (<[i := hi]> h, u32 (s + u32 hi))) (h, 0).
Definition poly_use_hint (b a h : Poly) : Poly :=
  for_ 0 N (fun i b => <[i := use_hint (a !!! i) (s32 (h !!! i))]> b) b.

Definition poly_chk_norm (a : Poly) (B : Z) : Z :=
  if (Q_CONST - 1) / 8 <? B then 1 else
  let violation := for_ 0 N (fun i violation =>
    let t := Z.shiftr (a !!! i) 31 in
    let t := s32 (a !!! i - Z.land t (s32 (2 * a !!! i))) in
    Z.lor violation (Z.lxor 1 (Z.shiftr (u32 (s32 (t - B))) 31))) 0 in
  s32 (Z.land violation 1).

(** ** The loops as maps *)
Definition wf_poly (a : Poly) : Prop := length a = N.

Lemma poly_c_addq_map a : wf_poly a -> poly_c_addq a = map c_addq a.
Proof. apply for_map. Qed.
Lemma poly_reduce_map a : wf_poly a -> poly_reduce a = map reduce_32 a.
Proof. apply for_map. Qed.
Lemma poly_shitf_l_map a : wf_poly a -> poly_shitf_l a = map (fun x => s32 (Z.shiftl x D)) a.
Proof. apply (for_map (fun x => s32 (Z.shiftl x D))). Qed.

(** Loops that fill [c] from two arrays; [c] may be one of them. *)
Lemma for_zip (f : Z -> Z -> Z) (c a b : Poly) :
  wf_poly c -> wf_poly a -> wf_poly b ->
  for_ 0 N (fun i c => <[i := f (a !!! i) (b !!! i)]> c) c = zip_with f a b.
Proof.
  intros Hc Ha Hb. rewrite (for_build (fun i => f (a !!! i) (b !!! i))) by done.
  rewrite <- Ha. apply map_seq_zip. congruence.
Qed.

Lemma poly_add_zip c a b : wf_poly c -> wf_poly a -> wf_poly b ->
  poly_add c a b = zip_with (fun x y => s32 (x + y)) a b.
Proof. apply (for_zip (fun x y => s32 (x + y))). Qed.
Lemma poly_sub_zip c a b : wf_poly c -> wf_poly a -> wf_poly b ->
  poly_sub c a b = zip_with (fun x y => s32 (x - y)) a b.
Proof. apply (for_zip (fun x y => s32 (x - y))). Qed.
Lemma poly_pointwise_zip c a b : wf_poly c -> wf_poly a -> wf_poly b ->
  poly_pointwise_montgomery c a b = zip_with (fun x y => montgomery_reduce (s64 (x * y))) a b.
Proof. apply (for_zip (fun x y => montgomery_reduce (s64 (x * y)))). Qed.
Lemma poly_use_hint_zip b a h : wf_poly b -> wf_poly a -> wf_poly h ->
  poly_use_hint b a h = zip_with (fun x y => use_hint x (s32 y)) a h.
Proof. apply (for_zip (fun x y => use_hint x (s32 y))). Qed.

(** Two outputs. *)
Lemma for_pair (f : Z -> Z * Z) (a1 a0 a : Poly) n :
  length a1 = n -> length a0 = n -> length a = n ->
  for_ 0 n (fun i '(a1, a0) =>
    let '(hi, lo) := f (a !!! i) in (<[i := hi]> a1, <[i := lo]> a0)) (a1, a0) =
  (map (fun x => fst (f x)) a, map (fun x => snd (f x)) a).
Proof.
  intros H1 H0 Ha.
  transitivity (for_ 0 n (fun i t => <[i := fst (f (a !!! i))]> t) a1,
                for_ 0 n (fun i t => <[i := snd (f (a !!! i))]> t) a0).
  - apply (for_ind (fun i p => p = (for_ 0 i (fun i t => <[i := fst (f (a !!! i))]> t) a1,
      for_ 0 i (fun i t => <[i := snd (f (a !!! i))]> t) a0)) 0 n); [done|].
    intros i p _ ->. rewrite !for_S_r. cbn [Nat.add]. by destruct (f (a !!! i)).
  - rewrite !for_build by done. rewrite <- Ha.
    by rewrite (map_seq_map (fun x => fst (f x))), (map_seq_map (fun x => snd (f x))).
Qed.

Lemma poly_power2_round_map a1 a0 a : wf_poly a1 -> wf_poly a0 -> wf_poly a ->
  poly_power2_round a1 a0 a =
  (map (fun x => fst (power2_round x)) a, map (fun x => snd (power2_round x)) a).
Proof. apply for_pair. Qed.
Lemma poly_decompose_map a1 a0 a : wf_poly a1 -> wf_poly a0 -> wf_poly a ->
  poly_decompose a1 a0 a =
  (map (fun x => fst (decompose x)) a, map (fun x => snd (decompose x)) a).
Proof. apply for_pair. Qed.

(** ** The norm check *)
Lemma violation_bit x B :
  -1073741824 < x < 1073741824 -> 0 <= B < 1073741824 ->
  let t := Z.shiftr x 31 in
  let t := s32 (x - Z.land t (s32 (2 * x))) in
  Z.lxor 1 (Z.shiftr (u32 (s32 (t - B))) 31) = if decide (Z.abs x < B) then 0 else 1.
Proof.
  intros Hx HB. cbv zeta. rewrite (s32_id (2 * x)), sar31_mask by lia.
  replace (s32 (x - _)) with (Z.abs x) by (case_decide; rewrite s32_id; lia).
  rewrite s32_id, u32_sign by lia. repeat case_decide; try lia; reflexivity.
Qed.

Lemma land_lor_bit v b : v = 0 \/ v = 1 -> b = 0 \/ b = 1 ->
  Z.lor v b = 0 \/ Z.lor v b = 1.
Proof. intros [-> | ->] [-> | ->]; vm_compute; auto. Qed.

(** The check refuses exactly the polynomials with a coefficient of absolute
    value at least [B]. *)
Lemma poly_chk_norm_spec a B :
  wf_poly a -> Forall (fun x => -1073741824 < x < 1073741824) a -> 0 <= B < 1073741824 ->
  poly_chk_norm a B =
    if decide (B <= (Q_CONST - 1) / 8 /\ Forall (fun x => Z.abs x < B) a) then 0 else 1.
Proof.
  intros Hl Ha HB. unfold poly_chk_norm.
  destruct (Z.ltb_spec ((Q_CONST - 1) / 8) B) as [Hq|Hq]; [by rewrite decide_False by lia|].
  assert (Hv : forall i, (i <= N)%nat ->
    let v := for_ 0 i (fun i violation =>
      let t := Z.shiftr (a !!! i) 31 in
      let t := s32 (a !!! i - Z.land t (s32 (2 * a !!! i))) in
      Z.lor violation (Z.lxor 1 (Z.shiftr (u32 (s32 (t - B))) 31))) 0 in
    v = if decide (Forall (fun x => Z.abs x < B) (take i a)) then 0 else 1).
  { intros i Hi.
    pose (I := fun j (v : Z) =>
      v = if decide (Forall (fun x => Z.abs x < B) (take j a)) then 0 else 1).
    apply (for_ind I 0 i).
    - unfold I. by rewrite decide_True by constructor.
    - unfold I. intros j v Hj ->. destruct (lookup_lt_is_Some_2 a j) as [x Hx]; [rewrite Hl; lia|].
      rewrite (list_lookup_total_correct _ _ _ Hx).
      pose proof (Forall_lookup_1 (fun x => -1073741824 < x < 1073741824) _ _ _ Ha Hx) as Hr.
      rewrite violation_bit by (simpl in *; lia). rewrite (take_S_r _ _ _ Hx).
      destruct (decide (Forall _ (take j a))) as [H1|H1], (decide (Z.abs x < B)) as [H2|H2].
      + rewrite decide_True; [done|]. apply Forall_app. split; [done|by constructor].
      + rewrite decide_False; [done|]. intros [_ [H _]%Forall_cons_1]%Forall_app. lia.
      + rewrite decide_False; [done|]. by intros [? _]%Forall_app.
      + rewrite decide_False; [done|]. by intros [? _]%Forall_app. }
  specialize (Hv N ltac:(lia)). cbv zeta in Hv |- *. rewrite Hv.
  rewrite take_ge by (rewrite Hl; lia).
  destruct (decide (Forall _ a)), (decide (_ /\ _)); tauto.
Qed.

(** The norm check answers 0 exactly when every coefficient lies strictly
    within the bound, for the bounds the signer and the verifier use. *)
Theorem poly_chk_norm_correct (a : Poly) (B : Z) (Hl : wf_poly a)
  (Ha : Forall (fun x => -1073741824 < x < 1073741824) a)
  (HB : B = GAMMA1 - BETA \/ B = GAMMA2 - BETA \/ B = GAMMA2) :
  (poly_chk_norm a B = 0 \/ poly_chk_norm a B = 1) /\
  (poly_chk_norm a B = 0 <-> Forall (fun x => Z.abs x < B) a).
Proof.
  assert (HB' : 0 <= B <= (Q_CONST - 1) / 8 /\ B < 1073741824)
    by (destruct HB as [-> |[-> | ->]]; vm_compute; repeat split; congruence).
  rewrite poly_chk_norm_spec by (done || lia).
  destruct (decide _) as [[_ H]|H]; split; auto; split; [done|done|done|].
  intros HF. destruct H. split; [lia|done].
Qed.

Lemma poly_chk_norm_correct_witness :
  let a := <[3%nat := -524168]> zero_poly in
  (poly_chk_norm a (GAMMA1 - BETA) = 0 \/ poly_chk_norm a (GAMMA1 - BETA) = 1) /\
  (poly_chk_norm a (GAMMA1 - BETA) = 0 <-> Forall (fun x => Z.abs x < GAMMA1 - BETA) a).
Proof.
  intros a. apply poly_chk_norm_correct; [reflexivity| |auto].
  apply Forall_insert; [apply Forall_replicate; lia|lia].
Defined.
