(* ===== verification/Packing.v ===== *)
(** * Bit packing of polynomials ([poly_*_pack] and [poly_*_unpack] of
    [src/src/mldsa87/poly.c])

    One step of a loop of the source fills the block [w*i .. w*i + w - 1] of its
    output from a block of the input; it is written as one [blit] of the values the
    source stores there. *)
From S2P Require Import Prelude CInt Constants Poly.

(** [ETA - a] in three bits. *)
Definition poly_eta_pack (r : list Z) (a : Poly) : list Z :=
  for_ 0 (N / 8) (fun i r =>
    let t k := u8 (s32 (ETA - a !!! (8 * i + k)%nat)) in
    blit r (3 * i) [
      u8 (Z.lor (Z.lor (Z.shiftr (t 0%nat) 0) (Z.shiftl (t 1%nat) 3)) (Z.shiftl (t 2%nat) 6));
      u8 (Z.lor (Z.lor (Z.lor (Z.shiftr (t 2%nat) 2) (Z.shiftl (t 3%nat) 1))
            (Z.shiftl (t 4%nat) 4)) (Z.shiftl (t 5%nat) 7));
      u8 (Z.lor (Z.lor (Z.shiftr (t 5%nat) 1) (Z.shiftl (t 6%nat) 2)) (Z.shiftl (t 7%nat) 5))]) r.

Definition poly_eta_unpack (r : Poly) (a : list Z) : Poly :=
  for_ 0 (N / 8) (fun i r =>
    let b k := a !!! (3 * i + k)%nat in
    let c x := s32 (ETA - x) in
    blit r (8 * i) [
      c (Z.land (Z.shiftr (b 0%nat) 0) 7);
      c (Z.land (Z.shiftr (b 0%nat) 3) 7);
      c (Z.land (Z.lor (Z.shiftr (b 0%nat) 6) (Z.shiftl (b 1%nat) 2)) 7);
      c (Z.land (Z.shiftr (b 1%nat) 1) 7);
      c (Z.land (Z.shiftr (b 1%nat) 4) 7);
      c (Z.land (Z.lor (Z.shiftr (b 1%nat) 7) (Z.shiftl (b 2%nat) 1)) 7);
      c (Z.land (Z.shiftr (b 2%nat) 2) 7);
      c (Z.land (Z.shiftr (b 2%nat) 5) 7)]) r.

(** Ten bits. *)
Definition poly_t1_pack (r : list Z) (a : Poly) : list Z :=
  for_ 0 (N / 4) (fun i r =>
    let t k := a !!! (4 * i + k)%nat in
    blit r (5 * i) [
      u8 (Z.shiftr (t 0%nat) 0);
      u8 (Z.lor (Z.shiftr (t 0%nat) 8) (s32 (Z.shiftl (t 1%nat) 2)));
      u8 (Z.lor (Z.shiftr (t 1%nat) 6) (s32 (Z.shiftl (t 2%nat) 4)));
      u8 (Z.lor (Z.shiftr (t 2%nat) 4) (s32 (Z.shiftl (t 3%nat) 6)));
      u8 (Z.shiftr (t 3%nat) 2)]) r.

Definition poly_t1_unpack (r : Poly) (a : list Z) : Poly :=
  for_ 0 (N / 4) (fun i r =>
    let b k := a !!! (5 * i + k)%nat in
    blit r (4 * i) [
      s32 (Z.land (Z.lor (Z.shiftr (b 0%nat) 0) (u32 (Z.shiftl (b 1%nat) 8))) 0x3FF);
      s32 (Z.land (Z.lor (Z.shiftr (b 1%nat) 2) (u32 (Z.shiftl (b 2%nat) 6))) 0x3FF);
      s32 (Z.land (Z.lor (Z.shiftr (b 2%nat) 4) (u32 (Z.shiftl (b 3%nat) 4))) 0x3FF);
      s32 (Z.land (Z.lor (Z.shiftr (b 3%nat) 6) (u32 (Z.shiftl (b 4%nat) 2))) 0x3FF)]) r.

(** [2^(D-1) - a] in thirteen bits. *)
Definition poly_t0_pack (r : list Z) (a : Poly) : list Z :=
  for_ 0 (N / 8) (fun i r =>
    let t k := u32 (s32 (Z.shiftl 1 (D - 1) - a !!! (8 * i + k)%nat)) in
    let shl x n := u8 (u32 (Z.shiftl x n)) in
    let shr x n := u8 (Z.shiftr x n) in
    blit r (13 * i) [
      u8 (t 0%nat);
      Z.lor (shr (t 0%nat) 8) (shl (t 1%nat) 5);
      shr (t 1%nat) 3;
      Z.lor (shr (t 1%nat) 11) (shl (t 2%nat) 2);
      Z.lor (shr (t 2%nat) 6) (shl (t 3%nat) 7);
      shr (t 3%nat) 1;
      Z.lor (shr (t 3%nat) 9) (shl (t 4%nat) 4);
      shr (t 4%nat) 4;
      Z.lor (shr (t 4%nat) 12) (shl (t 5%nat) 1);
      Z.lor (shr (t 5%nat) 7) (shl (t 6%nat) 6);
      shr (t 6%nat) 2;
      Z.lor (shr (t 6%nat) 10) (shl (t 7%nat) 3);
      shr (t 7%nat) 5]) r.

Definition poly_t0_unpack (r : Poly) (a : list Z) : Poly :=
  for_ 0 (N / 8) (fun i r =>
    let b k := a !!! (13 * i + k)%nat in
    let shl x n := s32 (u32 (Z.shiftl x n)) in
    let c x := s32 (Z.shiftl 1 (D - 1) - Z.land x 0x1FFF) in
    blit r (8 * i) [
      c (Z.lor (b 0%nat) (shl (b 1%nat) 8));
      c (Z.lor (Z.lor (Z.shiftr (b 1%nat) 5) (shl (b 2%nat) 3)) (shl (b 3%nat) 11));
      c (Z.lor (Z.shiftr (b 3%nat) 2) (shl (b 4%nat) 6));
      c (Z.lor (Z.lor (Z.shiftr (b 4%nat) 7) (shl (b 5%nat) 1)) (shl (b 6%nat) 9));
      c (Z.lor (Z.lor (Z.shiftr (b 6%nat) 4) (shl (b 7%nat) 4)) (shl (b 8%nat) 12));
      c (Z.lor (Z.shiftr (b 8%nat) 1) (shl (b 9%nat) 7));
      c (Z.lor (Z.lor (Z.shiftr (b 9%nat) 6) (shl (b 10%nat) 2)) (shl (b 11%nat) 10));
      c (Z.lor (Z.shiftr (b 11%nat) 3) (shl (b 12%nat) 5))]) r.

(** [GAMMA1 - a] in twenty bits. *)
Definition poly_z_pack (r : list Z) (a : Poly) : list Z :=
  for_ 0 (N / 2) (fun i r =>
    let t k := u32 (s32 (GAMMA1 - a !!! (2 * i + k)%nat)) in
    blit r (5 * i) [
      u8 (t 0%nat);
      u8 (Z.shiftr (t 0%nat) 8);
      Z.lor (u8 (Z.shiftr (t 0%nat) 16)) (u8 (u32 (Z.shiftl (t 1%nat) 4)));
      u8 (Z.shiftr (t 1%nat) 4);
      u8 (Z.shiftr (t 1%nat) 12)]) r.

Definition poly_z_unpack (r : Poly) (a : list Z) : Poly :=
  for_ 0 (N / 2) (fun i r =>
    let b k := a !!! (5 * i + k)%nat in
    let shl x n := s32 (u32 (Z.shiftl x n)) in
    blit r (2 * i) [
      s32 (GAMMA1 -
        Z.land (Z.lor (Z.lor (b 0%nat) (shl (b 1%nat) 8)) (shl (b 2%nat) 16)) 0xFFFFF);
      s32 (GAMMA1 - Z.lor (Z.lor (Z.shiftr (b 2%nat) 4) (shl (b 3%nat) 4)) (shl (b 4%nat) 12))]) r.

(** Four bits. *)
Definition poly_w1_pack (r : list Z) (a : Poly) : list Z :=
  for_ 0 (N / 2) (fun i r =>
    <[i := u8 (Z.lor (a !!! (2 * i)%nat) (s32 (Z.shiftl (a !!! (2 * i + 1)%nat) 4)))]> r) r.

(** ** Blocks *)
Section blocks.
Context (w : nat).

Lemma for_blit_blocks n (g : nat -> list Z) (r : list Z) :
  (forall i, length (g i) = w) -> (w * n <= length r)%nat ->
  for_ 0 n (fun i r => blit r (w * i) (g i)) r = written (concat (map g (seq 0 n))) r.
Proof.
  intros Hg. assert (Hlen : forall m, length (concat (map g (seq 0 m))) = (w * m)%nat).
  { induction m as [|m IH]; [simpl; lia|].
    rewrite seq_S, map_app, concat_app, length_app, IH. cbn [map concat Nat.add].
    rewrite app_nil_r, Hg. lia. }
  induction n as [|n IH]; intros Hr; [done|].
  rewrite for_S_r, IH, seq_S, map_app, concat_app by lia. cbn [map concat Nat.add].
  rewrite app_nil_r. apply blit_written; [by rewrite Hlen|rewrite Hlen, Hg; lia].
Qed.

Lemma concat_blocks_length n (g : nat -> list Z) :
  (forall i, length (g i) = w) -> length (concat (map g (seq 0 n))) = (w * n)%nat.
Proof.
  intros Hg. induction n as [|n IH]; [simpl; lia|].
  rewrite seq_S, map_app, concat_app, length_app, IH. cbn [map concat Nat.add].
  rewrite app_nil_r, Hg. lia.
Qed.

Lemma lookup_concat_blocks n (g : nat -> list Z) i k :
  (forall i, length (g i) = w) -> (i < n)%nat -> (k < w)%nat ->
  concat (map g (seq 0 n)) !!! (w * i + k)%nat = g i !!! k.
Proof.
  intros Hg. induction n as [|n IH]; intros Hi Hk; [lia|].
  rewrite seq_S, map_app, concat_app. cbn [map concat Nat.add]. rewrite app_nil_r.
  pose proof (concat_blocks_length n g Hg) as Hl.
  destruct (decide (i = n)) as [->|Hne].
  - rewrite lookup_total_app_r by lia. f_equal. lia.
  - rewrite lookup_total_app_l; [apply IH; lia|]. rewrite Hl.
    assert (w * (i + 1) <= w * n)%nat by (apply Nat.mul_le_mono_l; lia). lia.
Qed.

(** A list is the concatenation of its blocks. *)
Lemma concat_self n (a : list Z) (f : nat -> nat -> Z) :
  length a = (w * n)%nat ->
  (forall i k, (i < n)%nat -> (k < w)%nat -> f i k = a !!! (w * i + k)%nat) ->
  concat (map (fun i => map (f i) (seq 0 w)) (seq 0 n)) = a.
Proof.
  revert a. induction n as [|n IH]; intros a Hl Hf.
  - destruct a; [done|simpl in Hl; lia].
  - rewrite seq_S, map_app, concat_app. cbn [map concat Nat.add]. rewrite app_nil_r.
    rewrite <- (take_drop (w * n) a). f_equal.
    + apply IH; [rewrite length_take; lia|]. intros i k Hi Hk. rewrite Hf by lia.
      assert (w * (i + 1) <= w * n)%nat by (apply Nat.mul_le_mono_l; lia).
      rewrite !list_lookup_total_alt, lookup_take_lt; [done|lia].
    + pose proof (map_seq_slice a (w * n) w ltac:(lia)) as Hs.
      rewrite (take_ge (drop _ a)) in Hs by (rewrite length_drop; lia). rewrite <- Hs.
      apply map_ext_in. intros k [_ Hk]%in_seq. apply Hf; lia.
Qed.
End blocks.

(** ** Disjoint bits *)
Lemma lor_shl a b n : 0 <= n -> 0 <= a < 2 ^ n -> Z.lor a (Z.shiftl b n) = a + 2 ^ n * b.
Proof. intros. rewrite lor_add_disjoint by done. lia. Qed.

(** The low bits of a shifted byte. *)
Lemma lor_u8_shl a b n :
  0 <= n <= 8 -> 0 <= a < 2 ^ n ->
  Z.lor a (u8 (Z.shiftl b n)) = a + 2 ^ n * (b mod 2 ^ (8 - n)).
Proof.
  intros Hn Ha. rewrite Z.shiftl_mul_pow2 by lia. unfold u8.
  replace 256 with (2 ^ n * 2 ^ (8 - n))
    by (rewrite <- Z.pow_add_r by lia; by replace (n + (8 - n)) with 8 by lia).
  rewrite (Z.mul_comm b), Z.mul_mod_distr_l by (apply Z.pow_nonzero; lia).
  rewrite (Z.mul_comm (2 ^ n) (b mod _)), <- Z.shiftl_mul_pow2 by lia.
  rewrite lor_shl by (done || lia). rewrite Z.shiftl_mul_pow2 by lia. lia.
Qed.

(** Shifts that stay below [2^31] do not wrap. *)
Lemma u32_shl b n : 0 <= n -> 0 <= b * 2 ^ n < 2147483648 -> u32 (Z.shiftl b n) = Z.shiftl b n.
Proof. intros. rewrite Z.shiftl_mul_pow2 by done. apply u32_id. lia. Qed.
Lemma s32_shl b n : 0 <= n -> 0 <= b * 2 ^ n < 2147483648 -> s32 (Z.shiftl b n) = Z.shiftl b n.
Proof. intros. rewrite Z.shiftl_mul_pow2 by done. apply s32_id. lia. Qed.

(** Equality of explicit lists, entry by entry. *)
Ltac list_cong :=
  repeat lazymatch goal with
    | |- _ :: _ = _ :: _ => apply (f_equal2 (@cons Z))
    | |- [] = [] => reflexivity
    end.
(** Evaluate powers of two. *)
Ltac pow2 :=
  repeat match goal with
    | |- context [2 ^ ?n] =>
        let v := eval vm_compute in (2 ^ n) in
        lazymatch v with Zpos _ => change (2 ^ n) with v end
    end.
(** Bit expressions over small values to arithmetic. *)
Ltac bits_side := pow2; dlia.
Ltac bits_step :=
  match goal with
  | |- context [Z.lor ?a (Z.shiftl ?b ?n)] =>
      lazymatch a with context [Z.lor _ _] => fail | _ => idtac end;
      rewrite (lor_shl a b n) by first [lia|bits_side]
  | |- context [Z.lor ?a (u8 (Z.shiftl ?b ?n))] =>
      lazymatch a with context [Z.lor _ _] => fail | _ => idtac end;
      rewrite (lor_u8_shl a b n) by first [lia|bits_side]
  end.
Ltac bits_arith :=
  repeat match goal with
    | |- context [u32 (Z.shiftl ?b ?n)] => rewrite (u32_shl b n) by first [lia|bits_side]
    | |- context [s32 (Z.shiftl ?b ?n)] => rewrite (s32_shl b n) by first [lia|bits_side]
    end;
  rewrite ?Z.shiftr_div_pow2 by lia; repeat bits_step;
  rewrite ?Z.shiftl_mul_pow2 by lia; pow2.

Lemma written_all (x r : list Z) : length x = length r -> written x r = x.
Proof. intros H. unfold written. rewrite H, drop_all. apply app_nil_r. Qed.

(** Name the input values of a block, with their ranges. *)
Ltac gen_lookups :=
  repeat match goal with
    | |- context [?b !!! (?w * ?i + ?k)%nat] => generalize dependent (b !!! (w * i + k)%nat)
    end; intros.

(** [n] loop steps that store the block [g i] of [w] entries. *)
Lemma pack_loop_written w n (body : nat -> list Z -> list Z) (g : nat -> list Z) (r : list Z) :
  (forall i t, (i < n)%nat -> body i t = blit t (w * i) (g i)) ->
  (forall i, length (g i) = w) -> (w * n <= length r)%nat ->
  for_ 0 n body r = written (concat (map g (seq 0 n))) r.
Proof.
  intros Hb Hg Hr. rewrite (for_ext _ _ _ (fun i t => blit t (w * i) (g i))).
  - by rewrite for_blit_blocks by (done || lia).
  - intros i t Hi. apply Hb. lia.
Qed.
Lemma pack_loop w n (body : nat -> list Z -> list Z) (g : nat -> list Z) (r : list Z) :
  (forall i t, (i < n)%nat -> body i t = blit t (w * i) (g i)) ->
  (forall i, length (g i) = w) -> length r = (w * n)%nat ->
  for_ 0 n body r = concat (map g (seq 0 n)).
Proof.
  intros Hb Hg Hr. rewrite (pack_loop_written w n _ g) by (done || lia). apply written_all.
  by rewrite (concat_blocks_length w).
Qed.

(** The [w] entries of block [i]. *)
Definition chunk (w : nat) (l : list Z) (i : nat) : list Z :=
  map (fun k => l !!! (w * i + k)%nat) (seq 0 w).

(** Reading back block by block. *)
Lemma blocks_roundtrip w v n (g : nat -> list Z) (u : list Z -> nat -> list Z) (a : list Z) :
  (forall i, length (g i) = w) -> length a = (v * n)%nat ->
  (forall b i, (i < n)%nat -> chunk w b i = g i -> u b i = chunk v a i) ->
  concat (map (u (concat (map g (seq 0 n)))) (seq 0 n)) = a.
Proof.
  intros Hg Ha Hrt. set (b := concat (map g (seq 0 n))).
  rewrite <- (concat_self v n a (fun i k => a !!! (v * i + k)%nat) Ha) by done.
  f_equal. apply map_ext_in. intros i [_ Hi]%in_seq. apply Hrt; [done|].
  unfold chunk. pose proof (map_seq_slice (g i) 0 w ltac:(rewrite Hg; lia)) as E.
  rewrite drop_0, take_ge in E by (rewrite Hg; lia). rewrite <- E.
  apply map_ext_in. intros k [_ Hk]%in_seq. by apply lookup_concat_blocks.
Qed.

(** A chunk of inputs with its ranges. *)
Lemma chunk_range (P : Z -> Prop) (l : list Z) w n i :
  Forall P l -> length l = (w * n)%nat -> (i < n)%nat ->
  forall k, (k < w)%nat -> P (l !!! (w * i + k)%nat).
Proof.
  intros HP Hl Hi k Hk. apply Forall_get; [done|]. rewrite Hl.
  assert (w * (i + 1) <= w * n)%nat by (apply Nat.mul_le_mono_l; lia). lia.
Qed.

(** Specialise a bounded statement at [0 .. n - 1]. *)
Ltac instances H n :=
  lazymatch n with
  | O => clear H
  | S ?m => pose proof (H m ltac:(lia)); instances H m
  end.

(** *** Three bits: [ETA - a] *)
Section eta.
Definition eta_range (x : Z) : Prop := - ETA <= x <= ETA.
Definition eta_block (a : Poly) (i : nat) : list Z :=
  let t k := 2 - a !!! (8 * i + k)%nat in
  [ t 0%nat + 8 * t 1%nat + 64 * (t 2%nat mod 4);
    t 2%nat / 4 + 2 * t 3%nat + 16 * t 4%nat + 128 * (t 5%nat mod 2);
    t 5%nat / 2 + 4 * t 6%nat + 32 * t 7%nat ].
Definition eta_ublock (b : list Z) (i : nat) : list Z :=
  let b k := b !!! (3 * i + k)%nat in
  [ 2 - b 0%nat mod 8; 2 - b 0%nat / 8 mod 8; 2 - (b 0%nat / 64 + 4 * (b 1%nat mod 2));
    2 - b 1%nat / 2 mod 8; 2 - b 1%nat / 16 mod 8;
    2 - (b 1%nat / 128 + 2 * (b 2%nat mod 4)); 2 - b 2%nat / 4 mod 8; 2 - b 2%nat / 32 ].

Lemma poly_eta_pack_blocks r a :
  wf_poly a -> Forall eta_range a -> length r = POLY_ETA_PACKED_BYTES ->
  poly_eta_pack r a = concat (map (eta_block a) (seq 0 32)).
Proof.
  intros Ha Hr Hl. apply (pack_loop 3); [|done|done].
  intros i t Hi. f_equal. unfold eta_block, ETA.
  pose proof (chunk_range _ a 8 32 i Hr Ha Hi) as H. unfold eta_range, ETA in H.
  instances H 8%nat. gen_lookups. rewrite !(s32_id (2 - _)), !(u8_id (2 - _)) by lia.
  unfold u8. bits_arith. list_cong; dlia.
Qed.

Lemma poly_eta_unpack_blocks r b :
  wf_poly r -> bytes b -> length b = POLY_ETA_PACKED_BYTES ->
  poly_eta_unpack r b = concat (map (eta_ublock b) (seq 0 32)).
Proof.
  intros Hr Hb Hl. apply (pack_loop 8); [|done|done].
  intros i t Hi. f_equal. unfold eta_ublock, ETA.
  pose proof (chunk_range _ b 3 32 i Hb Hl Hi) as H. unfold is_u8 in H.
  instances H 3%nat. gen_lookups.
  rewrite ?land_7. bits_arith. list_cong; rewrite ?s32_mod; dlia.
Qed.

Lemma eta_unpack_pack a :
  wf_poly a -> Forall eta_range a ->
  concat (map (eta_ublock (concat (map (eta_block a) (seq 0 32)))) (seq 0 32)) = a.
Proof.
  intros Ha Hr. apply (blocks_roundtrip 3 8 32); [done|exact Ha|].
  intros b i Hi Hb. pose proof (chunk_range _ a 8 32 i Hr Ha Hi) as H.
  unfold eta_range, ETA in H. instances H 8%nat. unfold eta_ublock.
  unfold chunk, eta_block in *. cbn [map seq] in *. revert Hb. gen_lookups.
  simplify_eq. list_cong; dlia.
Qed.
End eta.

(** *** Ten bits *)
Section t1.
Definition t1_range (x : Z) : Prop := 0 <= x < 1024.
Definition t1_block (a : Poly) (i : nat) : list Z :=
  let t k := a !!! (4 * i + k)%nat in
  [ t 0%nat mod 256; t 0%nat / 256 + 4 * (t 1%nat mod 64); t 1%nat / 64 + 16 * (t 2%nat mod 16);
    t 2%nat / 16 + 64 * (t 3%nat mod 4); t 3%nat / 4 ].
Definition t1_ublock (b : list Z) (i : nat) : list Z :=
  let b k := b !!! (5 * i + k)%nat in
  [ b 0%nat + 256 * (b 1%nat mod 4); b 1%nat / 4 + 64 * (b 2%nat mod 16);
    b 2%nat / 16 + 16 * (b 3%nat mod 64); b 3%nat / 64 + 4 * b 4%nat ].

Lemma poly_t1_pack_blocks r a :
  wf_poly a -> Forall t1_range a -> length r = POLY_T1_PACKED_BYTES ->
  poly_t1_pack r a = concat (map (t1_block a) (seq 0 64)).
Proof.
  intros Ha Hr Hl. apply (pack_loop 5); [|done|done].
  intros i t Hi. f_equal. unfold t1_block.
  pose proof (chunk_range _ a 4 64 i Hr Ha Hi) as H. unfold t1_range in H.
  instances H 4%nat. gen_lookups. unfold u8. bits_arith. list_cong; dlia.
Qed.

Lemma poly_t1_unpack_blocks r b :
  wf_poly r -> bytes b -> length b = POLY_T1_PACKED_BYTES ->
  poly_t1_unpack r b = concat (map (t1_ublock b) (seq 0 64)).
Proof.
  intros Hr Hb Hl. apply (pack_loop 4); [|done|done].
  intros i t Hi. f_equal. unfold t1_ublock.
  pose proof (chunk_range _ b 5 64 i Hb Hl Hi) as H. unfold is_u8 in H.
  instances H 5%nat. gen_lookups.
  rewrite ?land_1023. bits_arith. list_cong; rewrite ?s32_mod; dlia.
Qed.

Lemma t1_unpack_pack a :
  wf_poly a -> Forall t1_range a ->
  concat (map (t1_ublock (concat (map (t1_block a) (seq 0 64)))) (seq 0 64)) = a.
Proof.
  intros Ha Hr. apply (blocks_roundtrip 5 4 64); [done|exact Ha|].
  intros b i Hi Hb. pose proof (chunk_range _ a 4 64 i Hr Ha Hi) as H.
  unfold t1_range in H. instances H 4%nat.
  unfold chunk, t1_block, t1_ublock in *. cbn [map seq] in *. revert Hb. gen_lookups.
  simplify_eq. list_cong; dlia.
Qed.

Lemma t1_pack_unpack b :
  bytes b -> length b = POLY_T1_PACKED_BYTES ->
  concat (map (t1_block (concat (map (t1_ublock b) (seq 0 64)))) (seq 0 64)) = b.
Proof.
  intros Hb Hl. apply (blocks_roundtrip 4 5 64); [done|exact Hl|].
  intros a i Hi Ha. pose proof (chunk_range _ b 5 64 i Hb Hl Hi) as H. unfold is_u8 in H.
  instances H 5%nat.
  unfold chunk, t1_block, t1_ublock in *. cbn [map seq] in *. revert Ha. gen_lookups.
  simplify_eq. list_cong; dlia.
Qed.
End t1.

(** *** Thirteen bits: [2^12 - a] *)
Section t0.
Definition t0_range (x : Z) : Prop := -4096 < x <= 4096.
Definition t0_block (a : Poly) (i : nat) : list Z :=
  let t k := 4096 - a !!! (8 * i + k)%nat in
  [ t 0%nat mod 256; t 0%nat / 256 + 32 * (t 1%nat mod 8); t 1%nat / 8 mod 256;
    t 1%nat / 2048 + 4 * (t 2%nat mod 64); t 2%nat / 64 + 128 * (t 3%nat mod 2);
    t 3%nat / 2 mod 256; t 3%nat / 512 + 16 * (t 4%nat mod 16); t 4%nat / 16 mod 256;
    t 4%nat / 4096 + 2 * (t 5%nat mod 128); t 5%nat / 128 + 64 * (t 6%nat mod 4);
    t 6%nat / 4 mod 256; t 6%nat / 1024 + 8 * (t 7%nat mod 32); t 7%nat / 32 ].
Definition t0_ublock (b : list Z) (i : nat) : list Z :=
  let b k := b !!! (13 * i + k)%nat in
  [ 4096 - (b 0%nat + 256 * (b 1%nat mod 32));
    4096 - (b 1%nat / 32 + 8 * b 2%nat + 2048 * (b 3%nat mod 4));
    4096 - (b 3%nat / 4 + 64 * (b 4%nat mod 128));
    4096 - (b 4%nat / 128 + 2 * b 5%nat + 512 * (b 6%nat mod 16));
    4096 - (b 6%nat / 16 + 16 * b 7%nat + 4096 * (b 8%nat mod 2));
    4096 - (b 8%nat / 2 + 128 * (b 9%nat mod 64));
    4096 - (b 9%nat / 64 + 4 * b 10%nat + 1024 * (b 11%nat mod 8));
    4096 - (b 11%nat / 8 + 32 * b 12%nat) ].

Lemma poly_t0_pack_blocks r a :
  wf_poly a -> Forall t0_range a -> length r = POLY_T0_PACKED_BYTES ->
  poly_t0_pack r a = concat (map (t0_block a) (seq 0 32)).
Proof.
  intros Ha Hr Hl. apply (pack_loop 13); [|done|done].
  intros i t Hi. f_equal. unfold t0_block, D. change (Z.shiftl 1 (13 - 1)) with 4096.
  pose proof (chunk_range _ a 8 32 i Hr Ha Hi) as H. unfold t0_range in H.
  instances H 8%nat. gen_lookups.
  rewrite !(s32_id (4096 - _)), !(u32_id (4096 - _)) by lia.
  rewrite ?(u8_id (Z.shiftr _ 8)), ?(u8_id (Z.shiftr _ 11)), ?(u8_id (Z.shiftr _ 6)),
    ?(u8_id (Z.shiftr _ 9)), ?(u8_id (Z.shiftr _ 12)), ?(u8_id (Z.shiftr _ 7)),
    ?(u8_id (Z.shiftr _ 10)), ?(u8_id (Z.shiftr _ 5)) by (shifts; dlia).
  bits_arith. unfold u8. list_cong; dlia.
Qed.

Lemma poly_t0_unpack_blocks r b :
  wf_poly r -> bytes b -> length b = POLY_T0_PACKED_BYTES ->
  poly_t0_unpack r b = concat (map (t0_ublock b) (seq 0 32)).
Proof.
  intros Hr Hb Hl. apply (pack_loop 8); [|done|done].
  intros i t Hi. f_equal. unfold t0_ublock, D. change (Z.shiftl 1 (13 - 1)) with 4096.
  pose proof (chunk_range _ b 13 32 i Hb Hl Hi) as H. unfold is_u8 in H.
  instances H 13%nat. gen_lookups.
  rewrite ?land_8191. bits_arith. list_cong; rewrite ?s32_mod; dlia.
Qed.

Lemma t0_unpack_pack a :
  wf_poly a -> Forall t0_range a ->
  concat (map (t0_ublock (concat (map (t0_block a) (seq 0 32)))) (seq 0 32)) = a.
Proof.
  intros Ha Hr. apply (blocks_roundtrip 13 8 32); [done|exact Ha|].
  intros b i Hi Hb. pose proof (chunk_range _ a 8 32 i Hr Ha Hi) as H.
  unfold t0_range in H. instances H 8%nat.
  unfold chunk, t0_block, t0_ublock in *. cbn [map seq] in *. revert Hb. gen_lookups.
  simplify_eq. list_cong; dlia.
Qed.

Lemma t0_pack_unpack b :
  bytes b -> length b = POLY_T0_PACKED_BYTES ->
  concat (map (t0_block (concat (map (t0_ublock b) (seq 0 32)))) (seq 0 32)) = b.
Proof.
  intros Hb Hl. apply (blocks_roundtrip 8 13 32); [done|exact Hl|].
  intros a i Hi Ha. pose proof (chunk_range _ b 13 32 i Hb Hl Hi) as H. unfold is_u8 in H.
  instances H 13%nat.
  unfold chunk, t0_block, t0_ublock in *. cbn [map seq] in *. revert Ha. gen_lookups.
  simplify_eq. list_cong; dlia.
Qed.
End t0.

(** *** Twenty bits: [GAMMA1 - a] *)
Section z.
Definition z_range (x : Z) : Prop := - GAMMA1 < x <= GAMMA1.
Definition z_block (a : Poly) (i : nat) : list Z :=
  let t k := 524288 - a !!! (2 * i + k)%nat in
  [ t 0%nat mod 256; t 0%nat / 256 mod 256; t 0%nat / 65536 + 16 * (t 1%nat mod 16);
    t 1%nat / 16 mod 256; t 1%nat / 4096 ].
Definition z_ublock (b : list Z) (i : nat) : list Z :=
  let b k := b !!! (5 * i + k)%nat in
  [ 524288 - (b 0%nat + 256 * b 1%nat + 65536 * (b 2%nat mod 16));
    524288 - (b 2%nat / 16 + 16 * b 3%nat + 4096 * b 4%nat) ].

Lemma poly_z_pack_written r a :
  wf_poly a -> Forall z_range a -> (POLY_Z_PACKED_BYTES <= length r)%nat ->
  poly_z_pack r a = written (concat (map (z_block a) (seq 0 128))) r.
Proof.
  intros Ha Hr Hl. apply (pack_loop_written 5); [|done|exact Hl].
  intros i t Hi. f_equal. unfold z_block. change GAMMA1 with 524288.
  pose proof (chunk_range _ a 2 128 i Hr Ha Hi) as H. unfold z_range in H.
  change GAMMA1 with 524288 in H. instances H 2%nat. gen_lookups.
  rewrite !(s32_id (524288 - _)), !(u32_id (524288 - _)) by lia.
  rewrite (u8_id (Z.shiftr _ 16)), (u8_id (Z.shiftr _ 12)) by (shifts; dlia).
  bits_arith. unfold u8. list_cong; dlia.
Qed.
Lemma poly_z_pack_blocks r a :
  wf_poly a -> Forall z_range a -> length r = POLY_Z_PACKED_BYTES ->
  poly_z_pack r a = concat (map (z_block a) (seq 0 128)).
Proof.
  intros Ha Hr Hl. rewrite poly_z_pack_written by (done || lia). apply written_all.
  by rewrite (concat_blocks_length 5).
Qed.

Lemma poly_z_unpack_blocks r b :
  wf_poly r -> bytes b -> length b = POLY_Z_PACKED_BYTES ->
  poly_z_unpack r b = concat (map (z_ublock b) (seq 0 128)).
Proof.
  intros Hr Hb Hl. apply (pack_loop 2); [|done|done].
  intros i t Hi. f_equal. unfold z_ublock. change GAMMA1 with 524288.
  pose proof (chunk_range _ b 5 128 i Hb Hl Hi) as H. unfold is_u8 in H.
  instances H 5%nat. gen_lookups.
  rewrite ?land_1048575. bits_arith. list_cong; rewrite ?s32_mod; dlia.
Qed.

Lemma z_unpack_pack a :
  wf_poly a -> Forall z_range a ->
  concat (map (z_ublock (concat (map (z_block a) (seq 0 128)))) (seq 0 128)) = a.
Proof.
  intros Ha Hr. apply (blocks_roundtrip 5 2 128); [done|exact Ha|].
  intros b i Hi Hb. pose proof (chunk_range _ a 2 128 i Hr Ha Hi) as H.
  unfold z_range in H. change GAMMA1 with 524288 in H. instances H 2%nat.
  unfold chunk, z_block, z_ublock in *. cbn [map seq] in *. revert Hb. gen_lookups.
  simplify_eq. list_cong; dlia.
Qed.

Lemma z_pack_unpack b :
  bytes b -> length b = POLY_Z_PACKED_BYTES ->
  concat (map (z_block (concat (map (z_ublock b) (seq 0 128)))) (seq 0 128)) = b.
Proof.
  intros Hb Hl. apply (blocks_roundtrip 2 5 128); [done|exact Hl|].
  intros a i Hi Ha. pose proof (chunk_range _ b 5 128 i Hb Hl Hi) as H. unfold is_u8 in H.
  instances H 5%nat.
  unfold chunk, z_block, z_ublock in *. cbn [map seq] in *. revert Ha. gen_lookups.
  simplify_eq. list_cong; dlia.
Qed.
End z.

(** ** Packed polynomials are bytes, unpacked ones are in range *)
Lemma Forall_blocks (P : Z -> Prop) (g : nat -> list Z) n :
  (forall i, (i < n)%nat -> Forall P (g i)) -> Forall P (concat (map g (seq 0 n))).
Proof.
  intros Hg. apply Forall_concat. apply Forall_map, Forall_seq. intros i Hi. apply Hg. lia.
Qed.

(** Entries of an explicit block, each by arithmetic. *)
Ltac block_entries :=
  cbn [map seq]; gen_lookups; repeat (constructor; [dlia|]); constructor.

Lemma eta_block_bytes a :
  wf_poly a -> Forall eta_range a -> bytes (concat (map (eta_block a) (seq 0 32))).
Proof.
  intros Ha Hr. apply Forall_blocks. intros i Hi. unfold eta_block, is_u8.
  pose proof (chunk_range _ a 8 32 i Hr Ha Hi) as H. unfold eta_range, ETA in H.
  instances H 8%nat. block_entries.
Qed.
Lemma t1_block_bytes a :
  wf_poly a -> Forall t1_range a -> bytes (concat (map (t1_block a) (seq 0 64))).
Proof.
  intros Ha Hr. apply Forall_blocks. intros i Hi. unfold t1_block, is_u8.
  pose proof (chunk_range _ a 4 64 i Hr Ha Hi) as H. unfold t1_range in H.
  instances H 4%nat. block_entries.
Qed.
Lemma t0_block_bytes a :
  wf_poly a -> Forall t0_range a -> bytes (concat (map (t0_block a) (seq 0 32))).
Proof.
  intros Ha Hr. apply Forall_blocks. intros i Hi. unfold t0_block, is_u8.
  pose proof (chunk_range _ a 8 32 i Hr Ha Hi) as H. unfold t0_range in H.
  instances H 8%nat. block_entries.
Qed.
Lemma z_block_bytes a :
  wf_poly a -> Forall z_range a -> bytes (concat (map (z_block a) (seq 0 128))).
Proof.
  intros Ha Hr. apply Forall_blocks. intros i Hi. unfold z_block, is_u8.
  pose proof (chunk_range _ a 2 128 i Hr Ha Hi) as H. unfold z_range in H.
  change GAMMA1 with 524288 in H. instances H 2%nat. block_entries.
Qed.

Lemma t1_ublock_range b :
  bytes b -> length b = POLY_T1_PACKED_BYTES ->
  Forall t1_range (concat (map (t1_ublock b) (seq 0 64))).
Proof.
  intros Hb Hl. apply Forall_blocks. intros i Hi. unfold t1_ublock, t1_range.
  pose proof (chunk_range _ b 5 64 i Hb Hl Hi) as H. unfold is_u8 in H.
  instances H 5%nat. block_entries.
Qed.
Lemma t0_ublock_range b :
  bytes b -> length b = POLY_T0_PACKED_BYTES ->
  Forall t0_range (concat (map (t0_ublock b) (seq 0 32))).
Proof.
  intros Hb Hl. apply Forall_blocks. intros i Hi. unfold t0_ublock, t0_range.
  pose proof (chunk_range _ b 13 32 i Hb Hl Hi) as H. unfold is_u8 in H.
  instances H 13%nat. block_entries.
Qed.
Lemma z_ublock_range b :
  bytes b -> length b = POLY_Z_PACKED_BYTES ->
  Forall z_range (concat (map (z_ublock b) (seq 0 128))).
Proof.
  intros Hb Hl. apply Forall_blocks. intros i Hi. unfold z_ublock, z_range.
  change GAMMA1 with 524288. pose proof (chunk_range _ b 5 128 i Hb Hl Hi) as H.
  unfold is_u8 in H. instances H 5%nat. block_entries.
Qed.

Lemma eta_ublock_length b : wf_poly (concat (map (eta_ublock b) (seq 0 32))).
Proof. by apply (concat_blocks_length 8 32). Qed.
Lemma t1_ublock_length b : wf_poly (concat (map (t1_ublock b) (seq 0 64))).
Proof. by apply (concat_blocks_length 4 64). Qed.
Lemma t0_ublock_length b : wf_poly (concat (map (t0_ublock b) (seq 0 32))).
Proof. by apply (concat_blocks_length 8 32). Qed.
Lemma z_ublock_length b : wf_poly (concat (map (z_ublock b) (seq 0 128))).
Proof. by apply (concat_blocks_length 2 128). Qed.

(** C34. Coefficients in the range of their format survive packing and unpacking;
    the old contents of the output arrays do not matter. *)
Theorem packing_roundtrip (a r : Poly) (re r1 r0 rz : list Z)
  (Ha : wf_poly a) (Hr : wf_poly r)
  (He : length re = POLY_ETA_PACKED_BYTES) (H1 : length r1 = POLY_T1_PACKED_BYTES)
  (H0 : length r0 = POLY_T0_PACKED_BYTES) (Hz : length rz = POLY_Z_PACKED_BYTES) :
  (Forall eta_range a -> poly_eta_unpack r (poly_eta_pack re a) = a) /\
  (Forall t1_range a -> poly_t1_unpack r (poly_t1_pack r1 a) = a) /\
  (Forall t0_range a -> poly_t0_unpack r (poly_t0_pack r0 a) = a) /\
  (Forall z_range a -> poly_z_unpack r (poly_z_pack rz a) = a).
Proof.
  split_and!; intros Hrange.
  - rewrite poly_eta_pack_blocks by done. rewrite poly_eta_unpack_blocks;
      [by apply eta_unpack_pack|done|by apply eta_block_bytes|by apply (concat_blocks_length 3)].
  - rewrite poly_t1_pack_blocks by done. rewrite poly_t1_unpack_blocks;
      [by apply t1_unpack_pack|done|by apply t1_block_bytes|by apply (concat_blocks_length 5)].
  - rewrite poly_t0_pack_blocks by done. rewrite poly_t0_unpack_blocks;
      [by apply t0_unpack_pack|done|by apply t0_block_bytes|by apply (concat_blocks_length 13)].
  - rewrite poly_z_pack_blocks by done. rewrite poly_z_unpack_blocks;
      [by apply z_unpack_pack|done|by apply z_block_bytes|by apply (concat_blocks_length 5)].
Qed.

Lemma packing_roundtrip_witness :
  let a := zero_poly in
  (Forall eta_range a -> poly_eta_unpack a (poly_eta_pack (replicate 96 7) a) = a) /\
  (Forall t1_range a -> poly_t1_unpack a (poly_t1_pack (replicate 320 7) a) = a) /\
  (Forall t0_range a -> poly_t0_unpack a (poly_t0_pack (replicate 416 7) a) = a) /\
  (Forall z_range a -> poly_z_unpack a (poly_z_pack (replicate 640 7) a) = a).
Proof. intros a. apply packing_roundtrip; reflexivity. Defined.

(** The formats of [t1], [t0] and [z] have no spare code: every byte string of
    the right length unpacks to coefficients in range, and packing them gives the
    string back. *)
Theorem packing_surjective (r : Poly) (b1 b0 bz r1 r0 rz : list Z) (Hr : wf_poly r)
  (B1 : bytes b1) (L1 : length b1 = POLY_T1_PACKED_BYTES) (H1 : length r1 = POLY_T1_PACKED_BYTES)
  (B0 : bytes b0) (L0 : length b0 = POLY_T0_PACKED_BYTES) (H0 : length r0 = POLY_T0_PACKED_BYTES)
  (Bz : bytes bz) (Lz : length bz = POLY_Z_PACKED_BYTES) (Hz : length rz = POLY_Z_PACKED_BYTES) :
  (Forall t1_range (poly_t1_unpack r b1) /\ poly_t1_pack r1 (poly_t1_unpack r b1) = b1) /\
  (Forall t0_range (poly_t0_unpack r b0) /\ poly_t0_pack r0 (poly_t0_unpack r b0) = b0) /\
  (Forall z_range (poly_z_unpack r bz) /\ poly_z_pack rz (poly_z_unpack r bz) = bz).
Proof.
  rewrite poly_t1_unpack_blocks, poly_t0_unpack_blocks, poly_z_unpack_blocks by done.
  split_and!.
  - by apply t1_ublock_range.
  - rewrite poly_t1_pack_blocks; [by apply t1_pack_unpack|apply t1_ublock_length
      |by apply t1_ublock_range|done].
  - by apply t0_ublock_range.
  - rewrite poly_t0_pack_blocks; [by apply t0_pack_unpack|apply t0_ublock_length
      |by apply t0_ublock_range|done].
  - by apply z_ublock_range.
  - rewrite poly_z_pack_blocks; [by apply z_pack_unpack|apply z_ublock_length
      |by apply z_ublock_range|done].
Qed.

Lemma packing_surjective_witness :
  let b1 := replicate 320 0xa5 in let b0 := replicate 416 0x5a in let bz := replicate 640 0xff in
  (Forall t1_range (poly_t1_unpack zero_poly b1) /\
     poly_t1_pack b1 (poly_t1_unpack zero_poly b1) = b1) /\
  (Forall t0_range (poly_t0_unpack zero_poly b0) /\
     poly_t0_pack b0 (poly_t0_unpack zero_poly b0) = b0) /\
  (Forall z_range (poly_z_unpack zero_poly bz) /\
     poly_z_pack bz (poly_z_unpack zero_poly bz) = bz).
Proof.
  intros b1 b0 bz. apply packing_surjective;
    first [by apply bytesb_bytes|reflexivity].
Defined.

(** *** Four bits *)
Lemma poly_w1_pack_map r a :
  wf_poly a -> Forall (fun x => 0 <= x < 16) a -> length r = POLY_W1_PACKED_BYTES ->
  poly_w1_pack r a =
    map (fun i => a !!! (2 * i)%nat + 16 * a !!! (2 * i + 1)%nat) (seq 0 128).
Proof.
  intros Ha Hr Hl. unfold poly_w1_pack. change (N / 2)%nat with 128%nat.
  rewrite (for_build (fun i => u8 (Z.lor (a !!! (2 * i)%nat)
    (s32 (Z.shiftl (a !!! (2 * i + 1)%nat) 4)))) 128) by done.
  apply map_ext_in. intros i [_ Hi]%in_seq.
  pose proof (Forall_get _ a (2 * i) Hr ltac:(rewrite Ha; unfold N; lia)).
  pose proof (Forall_get _ a (2 * i + 1) Hr ltac:(rewrite Ha; unfold N; lia)).
  cbv beta in *. unfold u8. bits_arith. dlia.
Qed.
