(* ===== verification/Ntt.v ===== *)
(** * The number-theoretic transform ([src/src/mldsa87/ntt.c])

    [ntt] and [inv_ntt_to_mont] with their loops and the running index into
    [ZETAS].  A layer of the transform is one turn of the outer loop, a block one
    turn of the middle loop. *)
From S2P Require Import Prelude CInt Constants Reduce Poly.

(** The inner loop on [start .. start + count). *)
Definition ntt_block (count start : nat) (zeta : Z) (a : Poly) : Poly :=
  for_ start count (fun j a =>
    let t := montgomery_reduce (s64 (zeta * a !!! (j + count)%nat)) in
    let a := <[(j + count)%nat := s32 (a !!! j - t)]> a in
    <[j := s32 (a !!! j + t)]> a) a.

(** The middle loop; [j] ends at [start + count]. *)
Definition ntt_layer (count : nat) (st : nat * Poly) : nat * Poly :=
  for_ 0 (N / (2 * count)) (fun b '(k, a) =>
    let start := (b * (2 * count))%nat in
    let k := (k + 1)%nat in
    (k, ntt_block count start (ZETAS !!! k) a)) st.

Definition ntt (a : Poly) : Poly :=
  snd (for_ 0 8 (fun l st => ntt_layer (Nat.shiftr 128 l) st) (0%nat, a)).

Definition inv_ntt_block (count start : nat) (zeta : Z) (a : Poly) : Poly :=
  for_ start count (fun j a =>
    let t := a !!! j in
    let a := <[j := s32 (t + a !!! (j + count)%nat)]> a in
    let a := <[(j + count)%nat := s32 (t - a !!! (j + count)%nat)]> a in
    <[(j + count)%nat := montgomery_reduce (s64 (zeta * a !!! (j + count)%nat))]> a) a.

Definition inv_ntt_layer (count : nat) (st : nat * Poly) : nat * Poly :=
  for_ 0 (N / (2 * count)) (fun b '(k, a) =>
    let start := (b * (2 * count))%nat in
    let k := (k - 1)%nat in
    (k, inv_ntt_block count start (s32 (- ZETAS !!! k)) a)) st.

Definition inv_ntt_to_mont (a : Poly) : Poly :=
  let f := 41978 in
  let a := snd (for_ 0 8 (fun l st => inv_ntt_layer (Nat.shiftl 1 l) st) (256%nat, a)) in
  for_ 0 N (fun j a => <[j := montgomery_reduce (s64 (f * a !!! j))]> a) a.

Definition poly_ntt (a : Poly) : Poly := ntt a.
Definition poly_inv_ntt_to_mont (a : Poly) : Poly := inv_ntt_to_mont a.

(** ** Butterflies *)

Lemma get_insert (a : Poly) i j v :
  (i < length a)%nat -> <[i := v]> a !!! j = if decide (i = j) then v else a !!! j.
Proof.
  intros Hi. rewrite list_lookup_total_insert. repeat case_decide; try done; tauto.
Qed.

(** Case analysis on the position of an index. *)
Ltac nat_cases :=
  repeat match goal with
    | |- context [(?a <=? ?b)%nat] => destruct (Nat.leb_spec a b)
    | |- context [(?a <? ?b)%nat] => destruct (Nat.ltb_spec a b)
    end; cbn [andb]; try done; try lia.

(** Entry [i] after the butterflies of the pairs [(j, j + c)], [start <= j < n]. *)
Definition bf_entry (lo hi : Z -> Z -> Z) (c start n : nat) (a : Poly) (i : nat) : Z :=
  if ((start <=? i) && (i <? n))%nat then lo (a !!! i) (a !!! (i + c)%nat)
  else if ((start + c <=? i) && (i <? n + c))%nat then hi (a !!! (i - c)%nat) (a !!! i)
  else a !!! i.

(** A loop of butterflies on disjoint pairs. *)
Lemma butterfly_loop (lo hi : Z -> Z -> Z) (body : nat -> Poly -> Poly) c start (a : Poly) :
  (0 < c)%nat ->
  (forall j t, (start <= j < start + c)%nat -> length t = length a ->
     length (body j t) = length a /\
     forall i, body j t !!! i =
       if decide (i = j) then lo (t !!! j) (t !!! (j + c)%nat)
       else if decide (i = (j + c)%nat) then hi (t !!! j) (t !!! (j + c)%nat) else t !!! i) ->
  let r := for_ start c body a in
  length r = length a /\ forall i, r !!! i = bf_entry lo hi c start (start + c) a i.
Proof.
  intros Hc Hbody.
  apply (for_ind (fun n t => length t = length a /\
    forall i, t !!! i = bf_entry lo hi c start n a i) start c); unfold bf_entry.
  - split; [done|]. intros i. nat_cases.
  - intros j t Hj [Hl Ht]. destruct (Hbody j t Hj Hl) as [Hl' Hb]. split; [done|].
    assert (Hlow : t !!! j = a !!! j) by (rewrite Ht; nat_cases).
    assert (Hhigh : t !!! (j + c)%nat = a !!! (j + c)%nat) by (rewrite Ht; nat_cases).
    intros i. rewrite Hb, Hlow, Hhigh, Ht. clear Hb Ht Hlow Hhigh.
    case_decide; [subst i; nat_cases|case_decide; [subst i|nat_cases]].
    replace (j + c - c)%nat with j by lia. nat_cases.
Qed.

(** *** The two kinds of butterfly, modulo [q] and with bounds *)
Definition bounded (M : Z) (a : Poly) : Prop := forall i, (i < N)%nat -> - M < a !!! i < M.

(** A Montgomery product with a factor below [q]. *)
Lemma mont_mul z x :
  - Q_CONST < z < Q_CONST -> -2147483648 <= x <= 2147483648 ->
  - Q_CONST < montgomery_reduce (s64 (z * x)) < Q_CONST /\
  montgomery_reduce (s64 (z * x)) ≡q z * RINV * x.
Proof.
  unfold Q_CONST. intros Hz Hx. rewrite s64_id by nia.
  destruct (montgomery_reduce_exact (z * x)) as (t & _ & Heq & Hr); [unfold Q_CONST; nia|].
  split; [done|]. apply R32_cancel. rewrite Heq.
  replace (z * RINV * x * R32) with (z * x * (RINV * R32)) by ring. rewrite RINV_R32.
  exists (- t). unfold Q_CONST. ring.
Qed.

Definition ZR (k : nat) : Z := ZETAS !!! k * RINV.

Lemma zetas_range k : (k < 256)%nat -> - Q_CONST < ZETAS !!! k < Q_CONST.
Proof.
  intros Hk. assert (H : forallb (fun z => (- Q_CONST <? z) && (z <? Q_CONST)) ZETAS = true)
    by (vm_compute; reflexivity).
  rewrite forallb_forall in H.
  destruct (lookup_lt_is_Some_2 ZETAS k) as [z Hz]; [vm_compute; lia|].
  rewrite (list_lookup_total_correct _ _ _ Hz).
  specialize (H z). apply list_elem_of_lookup_2, list_elem_of_In in Hz. specialize (H Hz). lia.
Qed.

Lemma ntt_block_entries c start zeta a :
  (0 < c)%nat -> (start + 2 * c <= N)%nat -> wf_poly a ->
  let r := ntt_block c start zeta a in
  wf_poly r /\ forall i, r !!! i =
    bf_entry (fun x y => s32 (x + montgomery_reduce (s64 (zeta * y))))
      (fun x y => s32 (x - montgomery_reduce (s64 (zeta * y)))) c start (start + c) a i.
Proof.
  intros Hc Hlen Hwf. unfold wf_poly. rewrite <- Hwf. apply butterfly_loop; [done|].
  intros j t Hj Ht. rewrite Hwf in Ht. cbv zeta. split; [by rewrite !length_insert, Hwf|].
  intros i. rewrite get_insert by (rewrite length_insert; lia).
  rewrite !get_insert by lia. rewrite (decide_False (P := (j + c)%nat = j)) by lia.
  repeat case_decide; try lia; subst; try done.
Qed.

Lemma inv_ntt_block_entries c start zeta a :
  (0 < c)%nat -> (start + 2 * c <= N)%nat -> wf_poly a ->
  let r := inv_ntt_block c start zeta a in
  wf_poly r /\ forall i, r !!! i =
    bf_entry (fun x y => s32 (x + y))
      (fun x y => montgomery_reduce (s64 (zeta * s32 (x - y)))) c start (start + c) a i.
Proof.
  intros Hc Hlen Hwf. unfold wf_poly. rewrite <- Hwf. apply butterfly_loop; [done|].
  intros j t Hj Ht. rewrite Hwf in Ht. cbv zeta. split; [by rewrite !length_insert, Hwf|].
  intros i. repeat rewrite get_insert by (rewrite ?length_insert; lia).
  rewrite (decide_False (P := j = (j + c)%nat)) by lia.
  rewrite (decide_True (P := (j + c)%nat = (j + c)%nat)) by done.
  repeat case_decide; try lia; subst; try done.
Qed.

(** A layer updates every block with its own twiddle factor. *)
Definition upd_entry (lo hi : Z -> Z -> Z -> Z) (c : nat) (zeta : nat -> Z)
    (f : nat -> Z) (i : nat) : Z :=
  let b := (i / (2 * c))%nat in
  if (i mod (2 * c) <? c)%nat then lo (zeta b) (f i) (f (i + c)%nat)
  else hi (zeta b) (f (i - c)%nat) (f i).

(** The coefficients of an array. *)
Abbreviation coeffs a := (fun i => a !!! i).

Lemma layer_entries (lo hi : Z -> Z -> Z -> Z) (block : nat -> nat -> Poly -> Poly)
    (next : nat -> nat) (zt : nat -> Z) c k (a : Poly) :
  (0 < c)%nat -> (N / (2 * c) * (2 * c) = N)%nat -> wf_poly a ->
  (forall b k t, (b < N / (2 * c))%nat -> wf_poly t ->
     wf_poly (block b k t) /\ forall i, block b k t !!! i =
       bf_entry (lo (zt k)) (hi (zt k)) c (b * (2 * c)) (b * (2 * c) + c) t i) ->
  let r := for_ 0 (N / (2 * c)) (fun b '(k, a) => (next k, block b (next k) a)) (k, a) in
  fst r = Nat.iter (N / (2 * c)) next k /\ wf_poly (snd r) /\
  forall i, (i < N)%nat ->
    snd r !!! i = upd_entry lo hi c (fun b => zt (Nat.iter (b + 1) next k)) (coeffs a) i.
Proof.
  intros Hc HN Hwf Hblock. set (B := (N / (2 * c))%nat) in *.
  assert (H : let r := for_ 0 B (fun b '(k, a) => (next k, block b (next k) a)) (k, a) in
    fst r = Nat.iter B next k /\ wf_poly (snd r) /\
    forall i, (i < N)%nat -> snd r !!! i =
      if (i <? B * (2 * c))%nat then upd_entry lo hi c (fun b => zt (Nat.iter (b + 1) next k)) (coeffs a) i
      else a !!! i).
  { pose (I := fun b (st : nat * Poly) => fst st = Nat.iter b next k /\ wf_poly (snd st) /\
      forall i, (i < N)%nat -> snd st !!! i =
        if (i <? b * (2 * c))%nat
        then upd_entry lo hi c (fun b => zt (Nat.iter (b + 1) next k)) (coeffs a) i else a !!! i).
    apply (for_ind I 0 B); [by split_and!|].
    intros b [k' t] Hb (Hk & Ht & Hi). cbn [fst snd] in *. subst k'.
    destruct (Hblock b (next (Nat.iter b next k)) t ltac:(lia) Ht) as [Hw He].
    split; [done|]. split; [done|]. cbn [fst snd]. intros i HiN. rewrite He.
    assert (Hbnd : ((b + 1) * (2 * c) <= N)%nat).
    { rewrite <- HN. apply Nat.mul_le_mono_r. lia. }
    unfold bf_entry, upd_entry.
    assert (Hpos : forall p, (p < 2 * c)%nat -> i = (b * (2 * c) + p)%nat ->
      (i / (2 * c) = b /\ i mod (2 * c) = p)%nat).
    { intros p Hp ->. rewrite (Nat.add_comm _ p), Nat.div_add, Nat.Div0.mod_add by lia.
      by rewrite Nat.div_small, Nat.mod_small by lia. }
    replace (Nat.iter (b + 1) next k) with (next (Nat.iter b next k))
      by (by rewrite Nat.add_1_r).
    replace (Datatypes.S b * (2 * c))%nat with (b * (2 * c) + 2 * c)%nat by lia.
    destruct (Nat.lt_ge_cases i (b * (2 * c))) as [Hlt|Hge];
      [rewrite Hi by done; unfold upd_entry; nat_cases|].
    destruct (Nat.lt_ge_cases i (b * (2 * c) + 2 * c)) as [Hin|Hout];
      [|rewrite Hi by done; unfold upd_entry; nat_cases].
    destruct (Hpos (i - b * (2 * c))%nat) as [Hd Hm]; [lia|lia|].
    assert (Ho : forall j, (b * (2 * c) <= j < N)%nat -> t !!! j = a !!! j).
    { intros j Hj. rewrite Hi by lia. nat_cases. }
    rewrite Hd, Hm. clear Hd Hm Hi He Hpos.
    destruct (Nat.ltb_spec (i - b * (2 * c)) c); nat_cases;
      rewrite !Ho, Nat.add_1_r by lia; done. }
  cbv zeta in *. destruct H as (Hk & Hw & Hi). split; [done|]. split; [done|].
  intros i Hlt. rewrite Hi by done. by rewrite (proj2 (Nat.ltb_lt _ _)) by lia.
Qed.

(** ** The layers as maps on coefficients modulo [q]

    [fl c] and [il c] are a forward and an inverse layer with distance [c] over
    the integers: no reduction, no wrap-around, the twiddle factors out of the
    Montgomery domain. *)
Definition twiddle (c b : nat) : Z := ZR (128 / c + b).
Definition fl (c : nat) : (nat -> Z) -> nat -> Z :=
  upd_entry (fun z x y => x + z * y) (fun z x y => x - z * y) c (twiddle c).
Definition il (c : nat) : (nat -> Z) -> nat -> Z :=
  upd_entry (fun z x y => x + y) (fun z x y => z * (x - y)) c
    (fun b => - ZR (2 * (128 / c) - 1 - b)).

Definition distances : list nat := [1; 2; 4; 8; 16; 32; 64; 128]%nat.

Definition cong (f g : nat -> Z) : Prop := forall i, (i < N)%nat -> f i ≡q g i.
#[export] Instance cong_equivalence : Equivalence cong.
Proof.
  split; unfold cong; [intros f i _; done|intros f g H i Hi; by rewrite H|].
  intros f g h H1 H2 i Hi. by rewrite H1, H2.
Qed.

(** Every fact about a distance that is a closed computation. *)
Lemma for_distances (P : nat -> bool) c : c ∈ distances -> forallb P distances = true -> P c = true.
Proof.
  intros Hc HP. rewrite forallb_forall in HP. apply HP. by apply list_elem_of_In.
Qed.

Lemma distance_facts c :
  c ∈ distances -> (0 < c)%nat /\ (N / (2 * c) * (2 * c) = N)%nat /\ (N / (2 * c) = 128 / c)%nat /\
  (0 < 128 / c)%nat /\ (128 / c <= 128)%nat.
Proof.
  intros Hc. pose proof (for_distances (fun c => (0 <? c) && (N / (2 * c) * (2 * c) =? N) &&
    (N / (2 * c) =? 128 / c) && (0 <? 128 / c) && (128 / c <=? 128))%nat c Hc eq_refl) as H.
  cbv beta in H.
  apply andb_prop in H as [H H5]. apply andb_prop in H as [H H4]. apply andb_prop in H as [H H3].
  apply andb_prop in H as [H1 H2].
  split_and!; first [by apply Nat.ltb_lt|by apply Nat.eqb_eq|by apply Nat.leb_le].
Qed.

(** Positions of a block: [i] is entry [i mod 2c] of block [i / 2c]. *)
Lemma block_pos c i :
  c ∈ distances -> (i < N)%nat ->
  exists b p, (i = b * (2 * c) + p /\ p < 2 * c /\ b < 128 / c /\
    i / (2 * c) = b /\ i mod (2 * c) = p /\ (b + 1) * (2 * c) <= N)%nat.
Proof.
  intros Hc Hi. destruct (distance_facts c Hc) as (H0 & HN & HB & _).
  exists (i / (2 * c))%nat, (i mod (2 * c))%nat.
  pose proof (Nat.div_mod_eq i (2 * c)). pose proof (Nat.mod_upper_bound i (2 * c) ltac:(lia)).
  assert (i / (2 * c) < N / (2 * c))%nat.
  { apply Nat.Div0.div_lt_upper_bound. lia. }
  split_and!; try lia. rewrite <- HN. apply Nat.mul_le_mono_r. lia.
Qed.

(** The pairs of a butterfly stay inside the block. *)
Lemma upd_entry_lo lo hi c zeta f b p :
  (p < c)%nat -> upd_entry lo hi c zeta f (b * (2 * c) + p) =
    lo (zeta b) (f (b * (2 * c) + p)%nat) (f (b * (2 * c) + c + p)%nat).
Proof.
  intros Hp. unfold upd_entry. rewrite (Nat.add_comm _ p), Nat.div_add, Nat.Div0.mod_add by lia.
  rewrite Nat.div_small, Nat.mod_small, (proj2 (Nat.ltb_lt _ _) Hp) by lia. f_equal; f_equal; lia.
Qed.
Lemma upd_entry_hi lo hi c zeta f b p :
  (p < c)%nat -> upd_entry lo hi c zeta f (b * (2 * c) + c + p) =
    hi (zeta b) (f (b * (2 * c) + p)%nat) (f (b * (2 * c) + c + p)%nat).
Proof.
  intros Hp. unfold upd_entry. replace (b * (2 * c) + c + p)%nat with (c + p + b * (2 * c))%nat by lia.
  rewrite Nat.div_add, Nat.Div0.mod_add by lia.
  rewrite Nat.div_small, Nat.mod_small, (proj2 (Nat.ltb_ge _ _)) by lia. f_equal; f_equal; lia.
Qed.

(** Case analysis on the half a position lies in. *)
Lemma halves c i :
  c ∈ distances -> (i < N)%nat ->
  exists b p, (p < c /\ b < 128 / c /\ (b + 1) * (2 * c) <= N)%nat /\
    (i = (b * (2 * c) + p)%nat \/ i = (b * (2 * c) + c + p)%nat).
Proof.
  intros Hc Hi. destruct (block_pos c i Hc Hi) as (b & p & -> & Hp & Hb & _ & _ & HN).
  destruct (Nat.lt_ge_cases p c) as [H|H]; [exists b, p|exists b, (p - c)%nat];
    (split; [lia|]); [by left|right; lia].
Qed.

(** A layer of machine operations [lo], [hi] whose results are, modulo [q], those
    of [lo'], [hi'] and below [M']. *)
Lemma upd_entry_refines (lo hi lo' hi' : Z -> Z -> Z -> Z) c (zeta zeta' : nat -> Z) M M' a f :
  c ∈ distances -> bounded M a -> cong (coeffs a) f ->
  (forall b x y, (b < 128 / c)%nat -> - M < x < M -> - M < y < M ->
     (- M' < lo (zeta b) x y < M' /\ lo (zeta b) x y ≡q lo' (zeta' b) x y) /\
     (- M' < hi (zeta b) x y < M' /\ hi (zeta b) x y ≡q hi' (zeta' b) x y)) ->
  (forall z, Proper (eqmq ==> eqmq ==> eqmq) (lo' z)) ->
  (forall z, Proper (eqmq ==> eqmq ==> eqmq) (hi' z)) ->
  forall i, (i < N)%nat -> - M' < upd_entry lo hi c zeta (coeffs a) i < M' /\
    upd_entry lo hi c zeta (coeffs a) i ≡q upd_entry lo' hi' c zeta' f i.
Proof.
  intros Hc Hb Hf H Hlo Hhi i Hi.
  destruct (halves c i Hc Hi) as (b & p & (Hp & Hbb & HN) & Hip).
  destruct (H b (a !!! (b * (2 * c) + p)%nat) (a !!! (b * (2 * c) + c + p)%nat) Hbb)
    as [[Hl1 Hl2] [Hh1 Hh2]]; [apply Hb; lia|apply Hb; lia|].
  destruct Hip as [->| ->]; [rewrite !upd_entry_lo by done|rewrite !upd_entry_hi by done];
    (split; [done|]); cbv beta.
  - rewrite Hl2. apply Hlo; apply Hf; lia.
  - rewrite Hh2. apply Hhi; apply Hf; lia.
Qed.

Lemma iter_succ n k : Nat.iter n (fun k => k + 1)%nat k = (k + n)%nat.
Proof. induction n as [|n IH]; simpl; lia. Qed.
Lemma iter_pred n k : Nat.iter n (fun k => k - 1)%nat k = (k - n)%nat.
Proof. induction n as [|n IH]; simpl; lia. Qed.

(** One forward layer: no overflow, the bound grows by [q]. *)
Lemma ntt_layer_correct c M a f :
  c ∈ distances -> 0 < M -> M + Q_CONST <= 2147483648 ->
  wf_poly a -> bounded M a -> cong (coeffs a) f ->
  exists r, ntt_layer c (128 / c - 1, a)%nat = (2 * (128 / c) - 1, r)%nat /\
    wf_poly r /\ bounded (M + Q_CONST) r /\ cong (coeffs r) (fl c f).
Proof.
  intros Hc HM Hq Hwf Hb Hf. destruct (distance_facts c Hc) as (H0 & HN & HB & HB0 & HB1).
  destruct (layer_entries (fun z x y => s32 (x + montgomery_reduce (s64 (z * y))))
    (fun z x y => s32 (x - montgomery_reduce (s64 (z * y))))
    (fun b k a => ntt_block c (b * (2 * c)) (ZETAS !!! k) a) (fun k => k + 1)%nat
    (fun k => ZETAS !!! k) c (128 / c - 1) a H0 HN Hwf) as (Hk & Hw & He).
  { intros b k t Hlt Ht. apply ntt_block_entries; [done| |done].
    assert (((b + 1) * (2 * c) <= N)%nat) by (rewrite <- HN; apply Nat.mul_le_mono_r; lia). lia. }
  unfold ntt_layer. cbv zeta in *. destruct (for_ _ _ _ _) as [k r]. cbn [fst snd] in *.
  exists r. split; [f_equal; rewrite Hk, iter_succ; lia|]. split; [done|].
  assert (Hx : forall i, (i < N)%nat -> - (M + Q_CONST) < r !!! i < M + Q_CONST /\ r !!! i ≡q fl c f i).
  { intros i Hi. rewrite He by done. unfold fl.
    apply (upd_entry_refines _ _ _ _ c _ _ M); try done;
      [|intros z ? ? Ha ? ? Hb'; by rewrite Ha, Hb'..].
    intros b x y Hlt Hx Hy. rewrite iter_succ. unfold twiddle.
    replace (128 / c - 1 + (b + 1))%nat with (128 / c + b)%nat by lia.
    destruct (mont_mul (ZETAS !!! (128 / c + b)%nat) y) as [Hr Hm]; [apply zetas_range; lia|unfold Q_CONST in *; lia|].
    fold (ZR (128 / c + b)) in Hm. unfold Q_CONST in *. rewrite !s32_id by lia.
    split; (split; [lia|by rewrite Hm]). }
  split; intros i Hi; apply Hx; done.
Qed.

(** One inverse layer: no overflow, the bound doubles. *)
Lemma inv_ntt_layer_correct c M a f :
  c ∈ distances -> Q_CONST <= M -> 2 * M <= 2147483648 ->
  wf_poly a -> bounded M a -> cong (coeffs a) f ->
  exists r, inv_ntt_layer c (2 * (128 / c), a)%nat = (128 / c, r)%nat /\
    wf_poly r /\ bounded (2 * M) r /\ cong (coeffs r) (il c f).
Proof.
  intros Hc HM Hq Hwf Hb Hf. destruct (distance_facts c Hc) as (H0 & HN & HB & HB0 & HB1).
  destruct (layer_entries (fun z x y => s32 (x + y))
    (fun z x y => montgomery_reduce (s64 (z * s32 (x - y))))
    (fun b k a => inv_ntt_block c (b * (2 * c)) (s32 (- ZETAS !!! k)) a) (fun k => k - 1)%nat
    (fun k => s32 (- ZETAS !!! k)) c (2 * (128 / c)) a H0 HN Hwf) as (Hk & Hw & He).
  { intros b k t Hlt Ht. apply inv_ntt_block_entries; [done| |done].
    assert (((b + 1) * (2 * c) <= N)%nat) by (rewrite <- HN; apply Nat.mul_le_mono_r; lia). lia. }
  unfold inv_ntt_layer. cbv zeta in *. destruct (for_ _ _ _ _) as [k r]. cbn [fst snd] in *.
  exists r. split; [f_equal; rewrite Hk, iter_pred; lia|]. split; [done|].
  assert (Hx : forall i, (i < N)%nat -> - (2 * M) < r !!! i < 2 * M /\ r !!! i ≡q il c f i).
  { intros i Hi. rewrite He by done. unfold il.
    apply (upd_entry_refines _ _ _ _ c _ _ M); try done;
      [|intros z ? ? Ha ? ? Hb'; by rewrite Ha, Hb'..].
    intros b x y Hlt Hx Hy. rewrite iter_pred.
    replace (2 * (128 / c) - (b + 1))%nat with (2 * (128 / c) - 1 - b)%nat by lia.
    set (k' := (2 * (128 / c) - 1 - b)%nat).
    pose proof (zetas_range k' ltac:(lia)) as Hz. unfold Q_CONST in *.
    rewrite (s32_id (- _)), !s32_id by lia.
    destruct (mont_mul (- ZETAS !!! k') (x - y)) as [Hr Hm]; [unfold Q_CONST; lia|lia|].
    unfold Q_CONST in Hr. split; (split; [lia|]); [done|].
    rewrite Hm. unfold ZR. by rewrite Z.mul_opp_l. }
  split; intros i Hi; apply Hx; done.
Qed.

(** ** The whole transforms *)
Definition ntt_abs (n : nat) (f : nat -> Z) : nat -> Z :=
  for_ 0 n (fun l f => fl (Nat.shiftr 128 l) f) f.
Definition inv_abs (n : nat) (f : nat -> Z) : nat -> Z :=
  for_ 0 n (fun l f => il (Nat.shiftl 1 l) f) f.

Lemma forward_distance l :
  (l < 8)%nat -> Nat.shiftr 128 l ∈ distances /\ (128 / Nat.shiftr 128 l = 2 ^ l)%nat.
Proof.
  intros Hl. do 8 (destruct l as [|l]; [split; [repeat constructor|reflexivity]|]). lia.
Qed.
Lemma inverse_distance l :
  (l < 8)%nat -> Nat.shiftl 1 l ∈ distances /\ (128 / Nat.shiftl 1 l = 2 ^ (7 - l))%nat /\
  (2 * 2 ^ (7 - l) = 2 ^ (8 - l))%nat /\ (2 ^ Z.of_nat l * 2 <= 256)%Z.
Proof.
  intros Hl. do 8 (destruct l as [|l]; [split_and!; [repeat constructor|by vm_compute..]|]). lia.
Qed.

(** [ntt] on coefficients below [M] in absolute value: no overflow, the result
    below [M + 8 q]. *)
Lemma ntt_spec M a f :
  0 < M -> M + 8 * Q_CONST <= 2147483648 -> wf_poly a -> bounded M a -> cong (coeffs a) f ->
  wf_poly (ntt a) /\ bounded (M + 8 * Q_CONST) (ntt a) /\ cong (coeffs (ntt a)) (ntt_abs 8 f).
Proof.
  intros HM Hq Hwf Hb Hf.
  pose (I := fun l (st : nat * Poly) => fst st = (2 ^ l - 1)%nat /\ wf_poly (snd st) /\
    bounded (M + Z.of_nat l * Q_CONST) (snd st) /\ cong (coeffs (snd st)) (ntt_abs l f)).
  assert (HI : I 8%nat (for_ 0 8 (fun l st => ntt_layer (Nat.shiftr 128 l) st) (0%nat, a))).
  { apply (for_ind I 0 8).
    - split_and!; try done. by rewrite Z.add_0_r.
    - intros l [k t] Hl (Hk & Hw & Hbt & Hc). cbn [fst snd] in *. subst k.
      destruct (forward_distance l) as [Hd Hp]; [lia|].
      destruct (ntt_layer_correct _ (M + Z.of_nat l * Q_CONST) t _ Hd ltac:(unfold Q_CONST in *; lia)
        ltac:(unfold Q_CONST in *; lia) Hw Hbt Hc) as (r & Er & Wr & Br & Cr).
      rewrite Hp in Er. rewrite Er. unfold I. cbn [fst snd].
      split; [simpl; lia|]. split; [exact Wr|]. split.
      + intros i Hi. specialize (Br i Hi). unfold Q_CONST in *. lia.
      + unfold ntt_abs. rewrite for_S_r. exact Cr. }
  destruct HI as (_ & Hw & Hbt & Hc).
  split; [exact Hw|]. split; [exact Hbt|exact Hc].
Qed.

(** [inv_ntt_to_mont] on coefficients below [q] in absolute value: the layers, then
    the scaling, which brings the coefficients close to [q / 2]. *)
Definition INV_BOUND : Z := 4211200.

Lemma inv_layers a f :
  wf_poly a -> bounded Q_CONST a -> cong (coeffs a) f ->
  let t := snd (for_ 0 8 (fun l st => inv_ntt_layer (Nat.shiftl 1 l) st) (256%nat, a)) in
  wf_poly t /\ bounded (256 * Q_CONST) t /\ cong (coeffs t) (inv_abs 8 f).
Proof.
  intros Hwf Hb Hf.
  pose (I := fun l (st : nat * Poly) => fst st = (2 ^ (8 - l))%nat /\ wf_poly (snd st) /\
    bounded (2 ^ Z.of_nat l * Q_CONST) (snd st) /\ cong (coeffs (snd st)) (inv_abs l f)).
  assert (HI : I 8%nat (for_ 0 8 (fun l st => inv_ntt_layer (Nat.shiftl 1 l) st) (256%nat, a))).
  { apply (for_ind I 0 8).
    - split_and!; done.
    - intros l [k t] Hl (Hk & Hw & Hbt & Hc). cbn [fst snd] in *. subst k.
      destruct (inverse_distance l) as (Hd & Hp & Hp2 & Hp3); [lia|].
      assert (0 < 2 ^ Z.of_nat l) by (apply Z.pow_pos_nonneg; lia).
      destruct (inv_ntt_layer_correct _ (2 ^ Z.of_nat l * Q_CONST) t _ Hd ltac:(unfold Q_CONST in *; lia)
        ltac:(unfold Q_CONST in *; lia) Hw Hbt Hc) as (r & Er & Wr & Br & Cr).
      rewrite Hp, Hp2 in Er. rewrite Er. unfold I. cbn [fst snd].
      split; [f_equal; lia|]. split; [exact Wr|]. split.
      + intros i Hi. specialize (Br i Hi).
        rewrite Nat2Z.inj_succ, Z.pow_succ_r by lia. lia.
      + unfold inv_abs. rewrite for_S_r. exact Cr. }
  destruct HI as (_ & Hw & Hbt & Hc). split; [exact Hw|]. split; [exact Hbt|exact Hc].
Qed.

Lemma inv_ntt_spec a f :
  wf_poly a -> bounded Q_CONST a -> cong (coeffs a) f ->
  wf_poly (inv_ntt_to_mont a) /\ bounded INV_BOUND (inv_ntt_to_mont a) /\
  cong (coeffs (inv_ntt_to_mont a)) (fun i => 41978 * RINV * inv_abs 8 f i).
Proof.
  intros Hwf Hb Hf. destruct (inv_layers a f Hwf Hb Hf) as (Hw & Hbt & Hc).
  unfold inv_ntt_to_mont. cbv zeta. set (t := snd _) in *. clearbody t.
  rewrite (for_map (fun x => montgomery_reduce (s64 (41978 * x)))) by exact Hw.
  assert (Hx : forall i, (i < N)%nat ->
    map (fun x => montgomery_reduce (s64 (41978 * x))) t !!! i =
    montgomery_reduce (s64 (41978 * t !!! i))).
  { intros i Hi. apply (lookup_total_map (fun x => montgomery_reduce (s64 (41978 * x)))). by rewrite Hw. }
  assert (Hm : forall i, (i < N)%nat ->
    - INV_BOUND < montgomery_reduce (s64 (41978 * t !!! i)) < INV_BOUND /\
    montgomery_reduce (s64 (41978 * t !!! i)) ≡q 41978 * RINV * t !!! i).
  { intros i Hi. specialize (Hbt i Hi). unfold Q_CONST in *.
    split; [|apply mont_mul; unfold Q_CONST; lia].
    rewrite s64_id by lia. destruct (montgomery_reduce_exact (41978 * t !!! i)) as (m & Hm & He & _);
      [unfold Q_CONST; lia|]. unfold R32, Q_CONST, INV_BOUND in *. lia. }
  split; [unfold wf_poly; by rewrite length_map|].
  split; intros i Hi; rewrite Hx by done; destruct (Hm i Hi) as [H1 H2]; [done|].
  rewrite H2. by rewrite (Hc i Hi).
Qed.

(** ** Inverse layers undo forward layers, up to a factor 2 *)
Lemma mul_pointwise_cong k f g : cong f g -> cong (fun i => k * f i) (fun i => k * g i).
Proof. intros H i Hi. by rewrite (H i Hi). Qed.

Definition inverse_twiddles (c : nat) : bool :=
  forallb (fun b => bool_decide (- ZR (2 * (128 / c) - 1 - b) * twiddle c b ≡q 1))
    (seq 0 (128 / c)).

Lemma twiddles_inverse c b :
  c ∈ distances -> (b < 128 / c)%nat ->
  - ZR (2 * (128 / c) - 1 - b) * twiddle c b ≡q 1.
Proof.
  intros Hc Hb.
  assert (H : forallb inverse_twiddles distances = true) by (vm_compute; reflexivity).
  pose proof (for_distances inverse_twiddles c Hc H) as Hi. unfold inverse_twiddles in Hi.
  rewrite forallb_forall in Hi. apply (bool_decide_eq_true_1 _), Hi, in_seq. lia.
Qed.

Lemma fl_cong c f g : c ∈ distances -> cong f g -> cong (fl c f) (fl c g).
Proof.
  intros Hc H i Hi. unfold fl. destruct (halves c i Hc Hi) as (b & p & (Hp & _ & HN) & [->| ->]);
    rewrite ?upd_entry_lo, ?upd_entry_hi by done;
    by rewrite (H (b * (2 * c) + p)%nat), (H (b * (2 * c) + c + p)%nat) by lia.
Qed.
Lemma il_cong c f g : c ∈ distances -> cong f g -> cong (il c f) (il c g).
Proof.
  intros Hc H i Hi. unfold il. destruct (halves c i Hc Hi) as (b & p & (Hp & _ & HN) & [->| ->]);
    rewrite ?upd_entry_lo, ?upd_entry_hi by done;
    by rewrite (H (b * (2 * c) + p)%nat), (H (b * (2 * c) + c + p)%nat) by lia.
Qed.
Lemma fl_scale c k f : c ∈ distances -> cong (fl c (fun i => k * f i)) (fun i => k * fl c f i).
Proof.
  intros Hc i Hi. unfold fl. destruct (halves c i Hc Hi) as (b & p & (Hp & _ & HN) & [->| ->]);
    rewrite ?upd_entry_lo, ?upd_entry_hi by done; apply eq_subrelation; [typeclasses eauto|ring|typeclasses eauto|ring].
Qed.
Lemma il_scale c k f : c ∈ distances -> cong (il c (fun i => k * f i)) (fun i => k * il c f i).
Proof.
  intros Hc i Hi. unfold il. destruct (halves c i Hc Hi) as (b & p & (Hp & _ & HN) & [->| ->]);
    rewrite ?upd_entry_lo, ?upd_entry_hi by done; apply eq_subrelation; [typeclasses eauto|ring|typeclasses eauto|ring].
Qed.

Lemma il_fl c f : c ∈ distances -> cong (il c (fl c f)) (fun i => 2 * f i).
Proof.
  intros Hc i Hi. destruct (halves c i Hc Hi) as (b & p & (Hp & Hb & HN) & Hip).
  pose proof (twiddles_inverse c b Hc Hb) as Ht.
  unfold il, fl. destruct Hip as [->| ->];
    repeat ((rewrite upd_entry_lo by done) || (rewrite upd_entry_hi by done)); cbv beta;
    generalize (f (b * (2 * c) + p)%nat) (f (b * (2 * c) + c + p)%nat); intros x y.
  - replace (x + twiddle c b * y + (x - twiddle c b * y)) with (2 * x) by ring. reflexivity.
  - replace (_ * (_ - _)) with (- ZR (2 * (128 / c) - 1 - b) * twiddle c b * (2 * y)) by ring.
    by rewrite Ht, Z.mul_1_l.
Qed.

Lemma distance_swap l : (l < 8)%nat -> Nat.shiftl 1 l = Nat.shiftr 128 (7 - l).
Proof. intros Hl. do 8 (destruct l as [|l]; [done|]). lia. Qed.

(** The first [n] inverse layers undo the last [n] forward layers. *)
Lemma inv_ntt_abs n f :
  (n <= 8)%nat -> cong (inv_abs n (ntt_abs 8 f)) (fun i => 2 ^ Z.of_nat n * ntt_abs (8 - n) f i).
Proof.
  induction n as [|n IH]; intros Hn.
  - intros i Hi. change (2 ^ Z.of_nat 0) with 1. by rewrite Z.mul_1_l.
  - unfold inv_abs in *. rewrite for_S_r, Nat.add_0_l.
    destruct (inverse_distance n) as [Hd _]; [lia|].
    etransitivity; [eapply il_cong; [exact Hd|apply IH; lia]|].
    etransitivity; [apply il_scale; done|].
    unfold ntt_abs. replace (8 - n)%nat with (Datatypes.S (7 - n)) by lia. rewrite for_S_r, Nat.add_0_l.
    rewrite (distance_swap n) in * by lia.
    etransitivity; [eapply mul_pointwise_cong, il_fl; done|].
    intros i Hi. rewrite Nat2Z.inj_succ, Z.pow_succ_r by lia.
    replace (8 - Datatypes.S n)%nat with (7 - n)%nat by lia.
    qring.
Qed.

(** The inverse transform returns to the coefficients, in the Montgomery domain. *)
Lemma ntt_roundtrip M a :
  0 < M -> M + 8 * Q_CONST <= 2147483648 -> wf_poly a -> bounded M a ->
  forall r, wf_poly r -> bounded Q_CONST r -> cong (coeffs r) (coeffs (ntt a)) ->
  cong (coeffs (inv_ntt_to_mont r)) (fun i => R32 * a !!! i).
Proof.
  intros HM Hq Hwf Hb r Hr Hbr Hc.
  destruct (ntt_spec M a (coeffs a) HM Hq Hwf Hb) as (_ & _ & Hn); [done|].
  destruct (inv_ntt_spec r (ntt_abs 8 (coeffs a)) Hr Hbr) as (_ & _ & Hi); [by rewrite Hc|].
  rewrite Hi. intros i Hlt. rewrite (inv_ntt_abs 8 _ ltac:(lia) i Hlt).
  change (ntt_abs (8 - 8) (coeffs a) i) with (a !!! i). rewrite !Z.mul_assoc.
  assert (Hk : 41978 * RINV * 2 ^ Z.of_nat 8 ≡q R32)
    by (apply (bool_decide_eq_true_1 (_ ≡q _)); vm_compute; reflexivity).
  by rewrite Hk.
Qed.

(** ** Evaluation at the roots of [X^256 + 1] *)

(** The value at [x] of the polynomial with coefficients [f s .. f (s + m - 1)]. *)
Fixpoint evalm (m : nat) (f : nat -> Z) (s : nat) (x : Z) : Z :=
  match m with O => 0 | Datatypes.S m => f s + x * evalm m f (Datatypes.S s) x end.

(** The value at [x] of a polynomial given by its list of coefficients. *)
Definition peval (a : Poly) (x : Z) : Z := foldr (fun c acc => c + x * acc) 0 a.

Lemma evalm_peval (a l : Poly) x :
  evalm (length a) (coeffs (l ++ a)) (length l) x = peval a x.
Proof.
  revert l. induction a as [|c a IH]; intros l; [done|]. cbn [length evalm peval foldr].
  rewrite list_lookup_total_middle by done. specialize (IH (l ++ [c])).
  rewrite <- app_assoc, length_app, Nat.add_1_r in IH. cbn [app] in IH. by rewrite IH.
Qed.

Lemma evalm_add m n f s x :
  evalm (m + n) f s x = evalm m f s x + x ^ Z.of_nat m * evalm n f (s + m) x.
Proof.
  revert s. induction m as [|m IH]; intros s; cbn [evalm Nat.add].
  - change (x ^ Z.of_nat 0) with 1. rewrite Nat.add_0_r. ring.
  - rewrite IH, Nat2Z.inj_succ, Z.pow_succ_r by lia.
    replace (Datatypes.S s + m)%nat with (s + Datatypes.S m)%nat by lia. ring.
Qed.

Lemma evalm_combine m f g h z s t u x :
  (forall p, (p < m)%nat -> h (u + p)%nat ≡q f (s + p)%nat + z * g (t + p)%nat) ->
  evalm m h u x ≡q evalm m f s x + z * evalm m g t x.
Proof.
  revert s t u. induction m as [|m IH]; intros s t u H; cbn [evalm]; [by rewrite Z.mul_0_r|].
  rewrite (IH (Datatypes.S s) (Datatypes.S t)).
  - pose proof (H 0%nat ltac:(lia)) as H0. rewrite !Nat.add_0_r in H0. rewrite H0.
    qring.
  - intros p Hp. specialize (H (Datatypes.S p) ltac:(lia)). by rewrite <- !Nat.add_succ_comm in H.
Qed.

(** [root i ^ c] for every distance [c], and the root itself at [c = 1]. *)
Definition root_pow (c i : nat) : Z :=
  if (i mod (2 * c) <? c)%nat then twiddle c (i / (2 * c)) else - twiddle c (i / (2 * c)).
Definition root (i : nat) : Z := root_pow 1 i.

Definition root_squares (c : nat) : bool :=
  forallb (fun i => bool_decide (root_pow c i * root_pow c i ≡q
    if (c =? 128)%nat then -1 else root_pow (2 * c) i)) (seq 0 N).

Lemma root_square c i :
  c ∈ distances -> (i < N)%nat ->
  root_pow c i * root_pow c i ≡q if (c =? 128)%nat then -1 else root_pow (2 * c) i.
Proof.
  intros Hc Hi.
  assert (H : forallb root_squares distances = true) by (vm_compute; reflexivity).
  pose proof (for_distances root_squares c Hc H) as Hr. unfold root_squares in Hr.
  rewrite forallb_forall in Hr. apply (bool_decide_eq_true_1 _), Hr, in_seq. lia.
Qed.

Lemma root_power l i :
  (l < 8)%nat -> (i < N)%nat -> root i ^ Z.of_nat (Nat.shiftl 1 l) ≡q root_pow (Nat.shiftl 1 l) i.
Proof.
  intros Hl Hi. induction l as [|l IH].
  - change (Z.of_nat (Nat.shiftl 1 0)) with 1. by rewrite Z.pow_1_r.
  - destruct (inverse_distance l) as [Hd _]; [lia|].
    replace (Nat.shiftl 1 (Datatypes.S l)) with (2 * Nat.shiftl 1 l)%nat by (simpl; lia).
    rewrite Nat2Z.inj_mul, Z.mul_comm, Z.pow_mul_r, (Z.pow_2_r (_ ^ _)) by lia.
    rewrite IH by lia. rewrite root_square by done.
    by rewrite (proj2 (Nat.eqb_neq _ _)) by (do 7 (destruct l as [|l]; [done|]); lia).
Qed.

Lemma root_256 i : (i < N)%nat -> root i ^ Z.of_nat N ≡q -1.
Proof.
  intros Hi. change (Z.of_nat N) with (Z.of_nat (Nat.shiftl 1 7) * 2).
  rewrite Z.pow_mul_r, Z.pow_2_r by lia. rewrite root_power by (done || lia).
  rewrite root_square; [done|repeat constructor|done].
Qed.

(** A forward layer keeps the value of the block of position [i] at [root i]. *)
Lemma fl_eval l f i :
  (l < 8)%nat -> (i < N)%nat ->
  let c := Nat.shiftl 1 l in
  evalm c (fl c f) (i / c * c) (root i) ≡q evalm (2 * c) f (i / (2 * c) * (2 * c)) (root i).
Proof.
  intros Hl Hi c. pose proof (root_power l i Hl Hi) as Hp. fold c in Hp. unfold root_pow in Hp.
  destruct (inverse_distance l Hl) as [Hd _]. fold c in Hd.
  destruct (block_pos c i Hd Hi) as (b & p & -> & Hpl & Hb & Eb & Ep & HN).
  rewrite Eb, Ep in Hp. rewrite Eb. replace (evalm (2 * c)) with (evalm (c + c)) by (f_equal; lia).
  rewrite evalm_add, Hp.
  destruct (Nat.ltb_spec p c) as [Hlt|Hge].
  - replace ((b * (2 * c) + p) / c * c)%nat with (b * (2 * c))%nat.
    + apply evalm_combine. intros r Hr. unfold fl. rewrite upd_entry_lo by done. done.
    + replace (b * (2 * c) + p)%nat with (p + b * 2 * c)%nat by lia.
      rewrite Nat.div_add, Nat.div_small by lia. lia.
  - replace ((b * (2 * c) + p) / c * c)%nat with (b * (2 * c) + c)%nat.
    + apply evalm_combine. intros r Hr. unfold fl. rewrite upd_entry_hi by done.
      qring.
    + replace (b * (2 * c) + p)%nat with ((p - c) + (b * 2 + 1) * c)%nat by lia.
      rewrite Nat.div_add, Nat.div_small by lia. lia.
Qed.

(** Entry [i] of the transform is the value at [root i]. *)
Lemma ntt_abs_eval f i : (i < N)%nat -> ntt_abs 8 f i ≡q evalm N f 0 (root i).
Proof.
  intros Hi.
  assert (H : forall n, (n <= 8)%nat -> let c := Nat.shiftl 1 (8 - n) in
    evalm c (ntt_abs n f) (i / c * c) (root i) ≡q evalm N f 0 (root i)).
  { induction n as [|n IH]; intros Hn c.
    - change c with N. by rewrite Nat.div_small by done.
    - unfold ntt_abs. rewrite for_S_r, Nat.add_0_l.
      change (for_ 0 n _ f) with (ntt_abs n f).
      replace (Nat.shiftr 128 n) with c.
      2: { unfold c. rewrite distance_swap by lia. f_equal. lia. }
      unfold c. rewrite fl_eval by (done || lia).
      replace (2 * Nat.shiftl 1 (8 - Datatypes.S n))%nat with (Nat.shiftl 1 (8 - n)) by
        (replace (8 - n)%nat with (Datatypes.S (8 - Datatypes.S n)) by lia; simpl; lia).
      apply IH. lia. }
  specialize (H 8%nat ltac:(lia)). cbv zeta in H. change (Nat.shiftl 1 (8 - 8)) with 1%nat in H.
  rewrite <- H, Nat.div_1_r, Nat.mul_1_r. cbn [evalm]. by rewrite Z.mul_0_r, Z.add_0_r.
Qed.

(** *** The roots of FIPS 204 *)
Fixpoint powq (x : Z) (p : positive) : Z :=
  match p with
  | xH => x mod Q_CONST
  | xO p => let r := powq x p in (r * r) mod Q_CONST
  | xI p => let r := powq x p in (x * (r * r)) mod Q_CONST
  end.

Lemma mod_eqmq x : x mod Q_CONST ≡q x.
Proof. exists (- (x / Q_CONST)). pose proof (Z.div_mod x Q_CONST ltac:(done)). lia. Qed.

Lemma powq_eqmq x p : powq x p ≡q x ^ Zpos p.
Proof.
  induction p as [p IH|p IH|]; cbn [powq]; rewrite mod_eqmq.
  - replace (Z.pos p~1) with (1 + (Z.pos p + Z.pos p)) by lia.
    by rewrite IH, (Z.pow_add_r x 1), (Z.pow_add_r x (Z.pos p)), Z.pow_1_r by lia.
  - replace (Z.pos p~0) with (Z.pos p + Z.pos p) by lia. by rewrite IH, (Z.pow_add_r x (Z.pos p) (Z.pos p)) by lia.
  - by rewrite Z.pow_1_r.
Qed.

(** The reversal of the low eight bits, and [zeta = 1753]. *)
Definition brv8 (i : nat) : Z :=
  foldr (fun k acc => 2 * acc + Z.of_nat ((i / 2 ^ k) mod 2)) 0 [7; 6; 5; 4; 3; 2; 1; 0]%nat.
Definition ZETA : Z := 1753.

Lemma root_zeta i : (i < N)%nat -> root i ≡q ZETA ^ (2 * brv8 i + 1).
Proof.
  intros Hi.
  assert (H : forallb (fun i => match 2 * brv8 i + 1 with
    | Zpos p => bool_decide (root i ≡q powq ZETA p) | _ => false end) (seq 0 N) = true)
    by (vm_compute; reflexivity).
  rewrite forallb_forall in H. specialize (H i (proj2 (in_seq N 0 i) ltac:(lia))). cbv beta in H.
  destruct (2 * brv8 i + 1) as [|p|p]; try done.
  apply bool_decide_eq_true_1 in H. by rewrite H, powq_eqmq.
Qed.

(** *** Multiplication modulo [X^256 + 1] *)

(** [X * r], and the product by Horner's rule. *)
Definition xmul (r : Poly) : Poly := - r !!! (N - 1)%nat :: take (N - 1) r.
Definition pmul (a b : Poly) : Poly :=
  foldr (fun c acc => zip_with Z.add (map (Z.mul c) b) (xmul acc)) zero_poly a.

Lemma peval_app l m x : peval (l ++ m) x = peval l x + x ^ Z.of_nat (length l) * peval m x.
Proof.
  induction l as [|c l IH]; cbn [app peval foldr length].
  - change (x ^ Z.of_nat 0) with 1. unfold peval. ring.
  - fold (peval (l ++ m) x) (peval l x). rewrite IH, Nat2Z.inj_succ, Z.pow_succ_r by lia. ring.
Qed.
Lemma peval_add a b x : length a = length b -> peval (zip_with Z.add a b) x = peval a x + peval b x.
Proof.
  revert b. induction a as [|c a IH]; intros [|d b] Hl; simplify_eq/=; [done|].
  fold (peval (zip_with Z.add a b) x) (peval a x) (peval b x). rewrite IH by done. ring.
Qed.
Lemma peval_scale k a x : peval (map (Z.mul k) a) x = k * peval a x.
Proof.
  induction a as [|c a IH]; simpl; [lia|].
  fold (peval (map (Z.mul k) a) x) (peval a x). rewrite IH. ring.
Qed.
Lemma peval_zeros n x : peval (replicate n 0) x = 0.
Proof. induction n as [|n IH]; [done|]. simpl. fold (peval (replicate n 0) x). rewrite IH. ring. Qed.

Lemma xmul_length r : wf_poly r -> wf_poly (xmul r).
Proof. intros H. unfold wf_poly, xmul in *. cbn [length]. rewrite length_take, H. done. Qed.

Lemma pmul_length a b : wf_poly b -> wf_poly (pmul a b).
Proof.
  intros Hb. unfold pmul. induction a as [|c a IH]; cbn [foldr]; [done|].
  apply xmul_length in IH. unfold wf_poly in *.
  rewrite length_zip_with, length_map, Hb, IH. done.
Qed.

Lemma peval_xmul r x : wf_poly r -> x ^ Z.of_nat N ≡q -1 -> peval (xmul r) x ≡q x * peval r x.
Proof.
  intros Hr Hx.
  assert (Hs : r = take (N - 1) r ++ [r !!! (N - 1)%nat]).
  { rewrite <- (take_drop (N - 1) r) at 1. f_equal.
    destruct (lookup_lt_is_Some_2 r (N - 1)) as [y Hy]; [rewrite Hr; vm_compute; lia|].
    rewrite (drop_S _ _ _ Hy), (list_lookup_total_correct _ _ _ Hy), drop_ge; [done|].
    rewrite Hr. done. }
  rewrite Hs at 2. rewrite peval_app, length_take, Hr. cbn [peval foldr xmul].
  fold (peval (take (N - 1) r) x).
  assert (HP : x * x ^ Z.of_nat ((N - 1) `min` N) ≡q -1).
  { rewrite <- Z.pow_succ_r by lia.
    replace (Z.succ (Z.of_nat ((N - 1) `min` N))) with (Z.of_nat N) by reflexivity. exact Hx. }
  revert HP. generalize (x ^ Z.of_nat ((N - 1) `min` N)) (peval (take (N - 1) r) x) (r !!! (N - 1)%nat).
  intros P e c HP. transitivity (x * e + (x * P) * c).
  - rewrite HP. qring.
  - qring.
Qed.

Lemma peval_pmul a b x :
  wf_poly b -> x ^ Z.of_nat N ≡q -1 -> peval (pmul a b) x ≡q peval a x * peval b x.
Proof.
  intros Hb Hx. induction a as [|c a IH].
  - change (peval (pmul [] b) x) with (peval zero_poly x). unfold zero_poly. by rewrite peval_zeros.
  - pose proof (pmul_length a b Hb) as Hl. cbn [pmul foldr]. fold (pmul a b).
    rewrite peval_add, peval_scale, peval_xmul, IH; [|done..|].
    + cbn [peval foldr]. fold (peval a x). qring.
    + rewrite length_map. apply xmul_length in Hl. unfold wf_poly in *. congruence.
Qed.

(** ** Correctness *)
Lemma evalm_coeffs a x : wf_poly a -> evalm N (coeffs a) 0 x = peval a x.
Proof. intros Ha. rewrite <- Ha. apply (evalm_peval a []). Qed.

Lemma peval_cong a x y : x ≡q y -> peval a x ≡q peval a y.
Proof.
  intros H. induction a as [|c a IH]; [done|]. cbn [peval foldr].
  fold (peval a x) (peval a y). by rewrite IH, H.
Qed.

Lemma ntt_root M a i :
  0 < M -> M + 8 * Q_CONST <= 2147483648 -> wf_poly a -> bounded M a -> (i < N)%nat ->
  ntt a !!! i ≡q peval a (root i).
Proof.
  intros HM Hq Hwf Hb Hi. destruct (ntt_spec M a (coeffs a) HM Hq Hwf Hb) as (_ & _ & Hn); [done|].
  rewrite (Hn i Hi), ntt_abs_eval by done. by rewrite evalm_coeffs.
Qed.

(** C31. The transform of coefficients below [M] never overflows an [int32_t] and
    computes the NTT of FIPS 204: entry [i] is, modulo [q], the value of the
    polynomial at 1753^(2 brv8(i) + 1). *)
Theorem ntt_fips204 (M : Z) (a : Poly)
  (HM : 0 < M) (Hq : M + 8 * Q_CONST <= 2147483648) (Hwf : wf_poly a) (Hb : bounded M a) :
  wf_poly (ntt a) /\ bounded (M + 8 * Q_CONST) (ntt a) /\
  forall i, (i < N)%nat -> ntt a !!! i ≡q peval a (ZETA ^ (2 * brv8 i + 1)).
Proof.
  destruct (ntt_spec M a (coeffs a) HM Hq Hwf Hb) as (Hw & Hbn & _); [done|].
  split_and!; [done|done|]. intros i Hi. rewrite (ntt_root M) by done.
  by apply peval_cong, root_zeta.
Qed.

(** Polynomials of constant coefficients satisfy every bound above them. *)
Lemma bounded_replicate M c : - M < c < M -> bounded M (replicate N c).
Proof. intros Hc i Hi. by rewrite lookup_total_replicate_2. Qed.

Lemma ntt_fips204_witness :
  wf_poly (ntt (replicate N 2)) /\ bounded (3 + 8 * Q_CONST) (ntt (replicate N 2)) /\
  forall i, (i < N)%nat -> ntt (replicate N 2) !!! i ≡q peval (replicate N 2) (ZETA ^ (2 * brv8 i + 1)).
Proof.
  apply (ntt_fips204 3 (replicate N 2));
    [lia|vm_compute; congruence|apply length_replicate|apply bounded_replicate; lia].
Defined.

Lemma lookup_total_zip (f : Z -> Z -> Z) (a b : Poly) i :
  (i < length a)%nat -> (i < length b)%nat -> zip_with f a b !!! i = f (a !!! i) (b !!! i).
Proof.
  intros Ha Hb. destruct (lookup_lt_is_Some_2 a i Ha) as [x Hx].
  destruct (lookup_lt_is_Some_2 b i Hb) as [y Hy].
  rewrite (list_lookup_total_correct _ _ _ Hx), (list_lookup_total_correct _ _ _ Hy).
  apply list_lookup_total_correct. by rewrite lookup_zip_with, Hx, Hy.
Qed.

(** Pointwise products of bounded transforms. *)
Lemma pointwise_spec A B c a b :
  0 < A -> 0 < B -> A * B <= 2147483648 * Q_CONST -> wf_poly c -> wf_poly a -> wf_poly b ->
  bounded A a -> bounded B b ->
  let r := poly_pointwise_montgomery c a b in
  wf_poly r /\ bounded Q_CONST r /\ forall i, (i < N)%nat -> r !!! i ≡q RINV * (a !!! i * b !!! i).
Proof.
  intros HA HB HAB Hc Ha Hb Ba Bb. cbv zeta. rewrite poly_pointwise_zip by done.
  assert (Hm : forall i, (i < N)%nat ->
    - Q_CONST < montgomery_reduce (s64 (a !!! i * b !!! i)) < Q_CONST /\
    montgomery_reduce (s64 (a !!! i * b !!! i)) ≡q RINV * (a !!! i * b !!! i)).
  { intros i Hi. specialize (Ba i Hi). specialize (Bb i Hi).
    assert (Hr : - (2147483648 * Q_CONST) <= a !!! i * b !!! i < 2147483648 * Q_CONST) by nia.
    rewrite s64_id by (unfold Q_CONST in Hr; lia).
    destruct (montgomery_reduce_exact _ Hr) as (t & _ & Heq & Hlt). split; [done|].
    apply R32_cancel. rewrite Heq.
    replace (RINV * (a !!! i * b !!! i) * R32) with (RINV * R32 * (a !!! i * b !!! i)) by ring.
    rewrite RINV_R32. exists (- t). ring. }
  unfold wf_poly in *. split_and!.
  - by rewrite length_zip_with, Ha, Hb.
  - intros i Hi. rewrite lookup_total_zip by congruence. by apply Hm.
  - intros i Hi. rewrite lookup_total_zip by congruence. by apply Hm.
Qed.

Lemma bounded_mono M M' a : M <= M' -> bounded M a -> bounded M' a.
Proof. intros H Hb i Hi. specialize (Hb i Hi). lia. Qed.

(** Any array congruent to the transform of [a], scaled out of the Montgomery
    domain, transforms back to [a]. *)
Lemma inv_ntt_eval r (a : Poly) :
  wf_poly r -> bounded Q_CONST r -> wf_poly a ->
  (forall i, (i < N)%nat -> r !!! i ≡q RINV * peval a (root i)) ->
  wf_poly (inv_ntt_to_mont r) /\ bounded INV_BOUND (inv_ntt_to_mont r) /\
  forall i, (i < N)%nat -> inv_ntt_to_mont r !!! i ≡q a !!! i.
Proof.
  intros Hr Br Ha Hra.
  destruct (inv_ntt_spec r (ntt_abs 8 (fun i => RINV * a !!! i)) Hr Br) as (Hw & Hb & Hi).
  { intros i Hi. rewrite (Hra i Hi), ntt_abs_eval by done.
    rewrite <- (evalm_coeffs a) by done. symmetry.
    rewrite (evalm_combine N (fun _ => 0) (coeffs a) _ RINV 0 0 0).
    - assert (Hz : forall m s x, evalm m (fun _ => 0) s x = 0).
      { induction m as [|m IH]; intros s x; [done|]. cbn [evalm]. rewrite IH. ring. }
      by rewrite Hz, Z.add_0_l.
    - intros p _. by rewrite Z.add_0_l. }
  split_and!; [done|done|]. intros i Hlt. rewrite (Hi i Hlt), (inv_ntt_abs 8 _ ltac:(lia) i Hlt).
  change (ntt_abs (8 - 8) ?f i) with (f i). cbv beta. rewrite !Z.mul_assoc.
  assert (Hk : 41978 * RINV * 2 ^ Z.of_nat 8 * RINV ≡q 1)
    by (apply (bool_decide_eq_true_1 (_ ≡q _)); vm_compute; reflexivity).
  by rewrite Hk, Z.mul_1_l.
Qed.

(** C12. Multiplication through the transform: the inverse of the pointwise Montgomery
    product of two transforms is the product in Z_q[X]/(X^256 + 1), with no overflow
    on the way and every coefficient of the result below [INV_BOUND], just above
    [q / 2], in absolute value. *)
Theorem ntt_multiplication (A B : Z) (c a b : Poly)
  (HA : 0 < A) (HB : 0 < B) (Hqa : A + 8 * Q_CONST <= 2147483648)
  (Hqb : B + 8 * Q_CONST <= 2147483648)
  (Hab : (A + 8 * Q_CONST) * (B + 8 * Q_CONST) <= 2147483648 * Q_CONST)
  (Hc : wf_poly c) (Ha : wf_poly a) (Hb : wf_poly b) (Ba : bounded A a) (Bb : bounded B b) :
  let r := inv_ntt_to_mont (poly_pointwise_montgomery c (ntt a) (ntt b)) in
  wf_poly r /\ bounded INV_BOUND r /\ forall i, (i < N)%nat -> r !!! i ≡q pmul a b !!! i.
Proof.
  destruct (ntt_spec A a (coeffs a) HA Hqa Ha Ba) as (Wa & Na & _); [done|].
  destruct (ntt_spec B b (coeffs b) HB Hqb Hb Bb) as (Wb & Nb & _); [done|].
  assert (0 < Q_CONST) by done.
  destruct (pointwise_spec (A + 8 * Q_CONST) (B + 8 * Q_CONST) c (ntt a) (ntt b) ltac:(clear - H HA; lia)
    ltac:(clear - H HB; lia) Hab Hc Wa Wb Na Nb) as (Wr & Br & Hr).
  apply inv_ntt_eval; [done|done|by apply pmul_length|].
  intros i Hi. rewrite (Hr i Hi), (ntt_root A a i), (ntt_root B b i) by done.
  by rewrite peval_pmul by (try apply root_256; done).
Qed.

Lemma ntt_multiplication_witness :
  let a := replicate N 2 in let b := replicate N (-1) in
  let r := inv_ntt_to_mont (poly_pointwise_montgomery zero_poly (ntt a) (ntt b)) in
  wf_poly r /\ bounded INV_BOUND r /\ forall i, (i < N)%nat -> r !!! i ≡q pmul a b !!! i.
Proof.
  apply (ntt_multiplication 3 2 zero_poly (replicate N 2) (replicate N (-1)));
    try apply length_replicate; try (apply bounded_replicate; lia); vm_compute; congruence.
Defined.

(** The concrete product of the witness, computed by the transform. *)
Example ntt_product_value :
  take 3 (inv_ntt_to_mont (poly_pointwise_montgomery zero_poly
    (ntt (replicate N 2)) (ntt (replicate N (-1))))) = [508; 504; 500].
Proof. vm_compute. reflexivity. Qed.

(** ** Values at the roots

    [hat a i] is what the transform computes at position [i]; two polynomials with
    the same values at every root have congruent coefficients, and the inverse
    transform of an array has that array, scaled, as its values. *)
Definition hat (a : Poly) (i : nat) : Z := peval a (root i).

Lemma hat_spec a i : wf_poly a -> (i < N)%nat -> ntt_abs 8 (coeffs a) i ≡q hat a i.
Proof. intros Ha Hi. rewrite ntt_abs_eval by done. by rewrite evalm_coeffs. Qed.

Lemma inv_abs_cong n f g : (n <= 8)%nat -> cong f g -> cong (inv_abs n f) (inv_abs n g).
Proof.
  intros Hn Hfg. induction n as [|n IH]; [done|]. unfold inv_abs in *. rewrite !for_S_r, !Nat.add_0_l.
  apply il_cong; [apply inverse_distance; lia|]. apply IH. lia.
Qed.

Lemma hat_inj a b : wf_poly a -> wf_poly b ->
  (forall i, (i < N)%nat -> hat a i ≡q hat b i) -> cong (coeffs a) (coeffs b).
Proof.
  intros Ha Hb H i Hi.
  assert (Hc : cong (ntt_abs 8 (coeffs a)) (ntt_abs 8 (coeffs b))).
  { intros j Hj. rewrite !hat_spec by done. by apply H. }
  pose proof (inv_abs_cong 8 _ _ ltac:(lia) Hc i Hi) as He.
  rewrite (inv_ntt_abs 8 _ ltac:(lia) i Hi), (inv_ntt_abs 8 _ ltac:(lia) i Hi) in He.
  change (ntt_abs (8 - 8) ?f i) with (f i) in He. cbv beta in He.
  assert (Hk : 8347681 * 2 ^ Z.of_nat 8 ≡q 1)
    by (apply (bool_decide_eq_true_1 (_ ≡q _)); vm_compute; reflexivity).
  rewrite <- (Z.mul_1_l (a !!! i)), <- (Z.mul_1_l (b !!! i)), <- Hk, <- !Z.mul_assoc. by rewrite He.
Qed.

Lemma fl_il c f : c ∈ distances -> cong (fl c (il c f)) (fun i => 2 * f i).
Proof.
  intros Hc i Hi. destruct (halves c i Hc Hi) as (b & p & (Hp & Hb & HN) & Hip).
  pose proof (twiddles_inverse c b Hc Hb) as Ht.
  unfold il, fl. destruct Hip as [->| ->];
    repeat ((rewrite upd_entry_lo by done) || (rewrite upd_entry_hi by done)); cbv beta;
    generalize (f (b * (2 * c) + p)%nat) (f (b * (2 * c) + c + p)%nat); intros u v.
  - transitivity (u + v + - ZR (2 * (128 / c) - 1 - b) * twiddle c b * (u - v)).
    + qring.
    + rewrite Ht. qring.
  - transitivity (u + v - - ZR (2 * (128 / c) - 1 - b) * twiddle c b * (u - v)).
    + qring.
    + rewrite Ht. qring.
Qed.

(** The last [n] forward layers undo the first [n] inverse layers. *)
Definition last_layers (n : nat) (f : nat -> Z) : nat -> Z :=
  for_ (8 - n) n (fun l f => fl (Nat.shiftr 128 l) f) f.

Lemma last_layers_S n f :
  (n < 8)%nat -> last_layers (Datatypes.S n) f = last_layers n (fl (Nat.shiftr 128 (7 - n)) f).
Proof.
  intros Hn. unfold last_layers. rewrite for_S.
  replace (8 - Datatypes.S n)%nat with (7 - n)%nat by lia.
  by replace (Datatypes.S (7 - n)) with (8 - n)%nat by lia.
Qed.
Lemma last_layers_cong n f g : (n <= 8)%nat -> cong f g -> cong (last_layers n f) (last_layers n g).
Proof.
  revert f g. induction n as [|n IH]; intros f g Hn Hfg; [done|].
  rewrite !last_layers_S by lia. apply IH; [lia|].
  apply fl_cong; [apply forward_distance; lia|done].
Qed.
Lemma last_layers_scale n k f :
  (n <= 8)%nat -> cong (last_layers n (fun i => k * f i)) (fun i => k * last_layers n f i).
Proof.
  revert f. induction n as [|n IH]; intros f Hn; [done|].
  rewrite !last_layers_S by lia. etransitivity; [|apply IH; lia].
  apply last_layers_cong; [lia|]. apply fl_scale, forward_distance. lia.
Qed.

Lemma ntt_inv_abs n f :
  (n <= 8)%nat -> cong (last_layers n (inv_abs n f)) (fun i => 2 ^ Z.of_nat n * f i).
Proof.
  induction n as [|n IH]; intros Hn.
  - intros i Hi. change (2 ^ Z.of_nat 0) with 1. by rewrite Z.mul_1_l.
  - rewrite last_layers_S by lia. unfold inv_abs. rewrite for_S_r, Nat.add_0_l.
    rewrite (distance_swap n) by lia. fold (inv_abs n f).
    etransitivity; [apply last_layers_cong; [lia|apply fl_il, forward_distance; lia]|].
    etransitivity; [apply last_layers_scale; lia|].
    etransitivity; [apply mul_pointwise_cong, IH; lia|].
    intros i Hi. rewrite Nat2Z.inj_succ, Z.pow_succ_r by lia.
    qring.
Qed.

Lemma hat_inv_ntt r i :
  wf_poly r -> bounded Q_CONST r -> (i < N)%nat ->
  hat (inv_ntt_to_mont r) i ≡q R32 * r !!! i.
Proof.
  intros Hr Hb Hi. destruct (inv_ntt_spec r (coeffs r) Hr Hb) as (Hw & _ & Hc); [done|].
  rewrite <- hat_spec by done.
  change (ntt_abs 8 (coeffs (inv_ntt_to_mont r)) i)
    with (last_layers 8 (coeffs (inv_ntt_to_mont r)) i).
  rewrite (last_layers_cong 8 _ _ ltac:(lia) Hc i Hi).
  rewrite (last_layers_scale 8 _ _ ltac:(lia) i Hi).
  rewrite (ntt_inv_abs 8 _ ltac:(lia) i Hi). rewrite !Z.mul_assoc.
  assert (Hk : 41978 * RINV * 2 ^ Z.of_nat 8 ≡q R32)
    by (apply (bool_decide_eq_true_1 (_ ≡q _)); vm_compute; reflexivity).
  by rewrite Hk.
Qed.
