(* ===== verification/Sampling.v ===== *)
(** * Sampling ([src/src/mldsa87/poly.c])

    Rejection sampling of uniform and small polynomials, the mask polynomial and
    the challenge.  The bounded loops carry a fuel that provably suffices; the
    [while] loops that wait for good bytes of an XOF take their fuel as an
    argument and return [None] when it runs out. *)
From S2P Require Import Prelude CInt Constants Reduce Rounding KeccakSpec Keccak Sponge Poly Packing.

(** ** Operations *)

(** Three bytes of a candidate, as the loops assemble them. *)
Definition candidate (buf : list Z) (pos : nat) : Z :=
  let t := u32 (buf !!! pos) in
  let t := Z.lor t (u32 (Z.shiftl (u32 (buf !!! (pos + 1)%nat)) 8)) in
  let t := Z.lor t (u32 (Z.shiftl (u32 (buf !!! (pos + 2)%nat)) 16)) in
  Z.land t 0x7fffff.

Fixpoint rej_uniform_loop (fuel aLen bufLen : nat) (buf : list Z) (ctr pos : nat) (a : list Z)
    : option (nat * list Z) :=
  if ((ctr <? aLen) && (pos + 3 <=? bufLen))%nat then
    match fuel with
    | O => None
    | S fuel =>
      let t := candidate buf pos in
      let pos := (pos + 3)%nat in
      if t <? Q_CONST then rej_uniform_loop fuel aLen bufLen buf (ctr + 1) pos (<[ctr := s32 t]> a)
      else rej_uniform_loop fuel aLen bufLen buf ctr pos a
    end
  else Some (ctr, a).

(** The count and the array. *)
Definition rej_uniform (a : list Z) (a_len : nat) (buf : list Z) (buf_len : nat)
    : option (nat * list Z) :=
  rej_uniform_loop (buf_len / 3) a_len buf_len buf 0 0 a.

(** [t - (205 * t >> 10) * 5] and the subtraction from [2], on [uint32_t]. *)
Definition eta_coeff (t : Z) : Z :=
  let t := u32 (t - u32 (Z.shiftr (u32 (205 * t)) 10 * 5)) in s32 (u32 (2 - t)).

Fixpoint rej_eta_loop (fuel aLen bufLen : nat) (buf : list Z) (ctr pos : nat) (a : list Z)
    : option (nat * list Z) :=
  if ((ctr <? aLen) && (pos <? bufLen))%nat then
    match fuel with
    | O => None
    | S fuel =>
      let t0 := Z.land (buf !!! pos) 0x0F in
      let t1 := Z.shiftr (buf !!! pos) 4 in
      let pos := (pos + 1)%nat in
      let '(ctr, a) := if t0 <? 15 then ((ctr + 1)%nat, <[ctr := eta_coeff t0]> a) else (ctr, a) in
      let '(ctr, a) :=
        if (t1 <? 15) && (ctr <? aLen)%nat then ((ctr + 1)%nat, <[ctr := eta_coeff t1]> a)
        else (ctr, a) in
      rej_eta_loop fuel aLen bufLen buf ctr pos a
    end
  else Some (ctr, a).

Definition rej_eta (a : list Z) (a_len : nat) (buf : list Z) (buf_len : nat)
    : option (nat * list Z) :=
  rej_eta_loop buf_len a_len buf_len buf 0 0 a.

(** The two bytes of the nonce. *)
Definition nonce_bytes (nonce : Z) : list Z := [u8 nonce; u8 (Z.shiftr nonce 8)].

(** The refill loop of [poly_uniform]; it hands [a->coeffs], not
    [a->coeffs + ctr], to [rej_uniform]. *)
Fixpoint poly_uniform_refill (fuel : nat) (ctx : sponge_ctx) (buf : list Z) (ptr bufLen ctr : nat)
    (a : Poly) : option Poly :=
  if (ctr <? N)%nat then
    match fuel with
    | O => None
    | S fuel =>
      let off := (bufLen mod 3)%nat in
      let buf := for_ 0 off (fun i buf => <[i := buf !!! (bufLen - off + i)%nat]> buf) buf in
      let ptr := (ptr + off)%nat in
      let '(out, ctx) := shake128_squeeze ctx STREAM_128_BLOCK_BYTES in
      let buf := blit buf ptr out in
      let bufLen := (STREAM_128_BLOCK_BYTES + off)%nat in
      '(n, a) ← rej_uniform a (N - ctr) buf bufLen;
      poly_uniform_refill fuel ctx buf ptr bufLen (ctr + n) a
    end
  else Some a.

Definition poly_uniform (fuel : nat) (a : Poly) (seed : list Z) (nonce : Z) : option (Z * Poly) :=
  let bufLen := (POLY_UNIFORM_N_BLOCKS * STREAM_128_BLOCK_BYTES)%nat in
  let buf := replicate (bufLen + 2) 0 in
  let ctx := shake128_init in
  let ctx := shake128_absorb ctx seed SEED_BYTES in
  let ctx := shake128_absorb ctx (nonce_bytes nonce) 2 in
  let ctx := shake128_finalize ctx in
  let '(out, ctx) := shake128_squeeze ctx (bufLen + 2) in
  let buf := blit buf 0 out in
  '(ctr, a) ← rej_uniform a N buf bufLen;
  a ← poly_uniform_refill fuel ctx buf 0 bufLen ctr a;
  Some (0, a).

Fixpoint poly_uniform_eta_refill (fuel : nat) (ctx : sponge_ctx) (buf : list Z) (ctr : nat) (a : Poly)
    : option Poly :=
  if (ctr <? N)%nat then
    match fuel with
    | O => None
    | S fuel =>
      let '(out, ctx) := shake256_squeeze ctx STREAM_256_BLOCK_BYTES in
      let buf := blit buf 0 out in
      '(n, tail) ← rej_eta (drop ctr a) (N - ctr) buf STREAM_256_BLOCK_BYTES;
      poly_uniform_eta_refill fuel ctx buf (ctr + n) (take ctr a ++ tail)
    end
  else Some a.

Definition poly_uniform_eta (fuel : nat) (a : Poly) (seed : list Z) (nonce : Z) : option (Z * Poly) :=
  let len := (POLY_UNIFORM_ETA_N_BLOCKS * STREAM_256_BLOCK_BYTES)%nat in
  let buf := replicate len 0 in
  let ctx := shake256_init in
  let ctx := shake256_absorb ctx seed CRH_BYTES in
  let ctx := shake256_absorb ctx (nonce_bytes nonce) 2 in
  let ctx := shake256_finalize ctx in
  let '(out, ctx) := shake256_squeeze ctx len in
  let buf := blit buf 0 out in
  '(ctr, a) ← rej_eta a N buf len;
  a ← poly_uniform_eta_refill fuel ctx buf ctr a;
  Some (0, a).

Definition poly_uniform_gamma1 (a : Poly) (seed : list Z) (nonce : Z) : Poly :=
  let len := (POLY_UNIFORM_GAMMA1_N_BLOCKS * STREAM_256_BLOCK_BYTES)%nat in
  let ctx := shake256_init in
  let ctx := shake256_absorb ctx seed CRH_BYTES in
  let ctx := shake256_absorb ctx (nonce_bytes nonce) 2 in
  let ctx := shake256_finalize ctx in
  let '(out, _) := shake256_squeeze ctx len in
  poly_z_unpack a (blit (replicate len 0) 0 out).

(** The inner [while (1)] of the challenge: the next byte that is at most [i]. *)
Fixpoint challenge_index (fuel : nat) (i : Z) (ctx : sponge_ctx) (buf : list Z) (pos : nat)
    : option (Z * (sponge_ctx * list Z * nat)) :=
  match fuel with
  | O => None
  | S fuel =>
    let '(ctx, buf, pos) :=
      if (SHAKE256_RATE <=? pos)%nat then
        let '(out, ctx) := shake256_squeeze ctx SHAKE256_RATE in (ctx, blit buf 0 out, 0%nat)
      else (ctx, buf, pos) in
    let b := buf !!! pos in
    let pos := (pos + 1)%nat in
    if i <? b then challenge_index fuel i ctx buf pos else Some (b, (ctx, buf, pos))
  end.

(** One turn of the outer loop. *)
Definition challenge_step (fuel : nat) (i : nat)
    (st : option (Poly * Z * (sponge_ctx * list Z * nat)))
    : option (Poly * Z * (sponge_ctx * list Z * nat)) :=
  '(c, signs, (ctx, buf, pos)) ← st;
  '(b, xof) ← challenge_index fuel (Z.of_nat i) ctx buf pos;
  let c := <[i := c !!! Z.to_nat b]> c in
  let c := <[Z.to_nat b := s32 (u64 (1 - 2 * Z.land signs 1))]> c in
  Some (c, Z.shiftr signs 1, xof).

Definition challenge_signs (buf : list Z) : Z :=
  for_ 0 8 (fun i signs => Z.lor signs (u64 (Z.shiftl (buf !!! i) (8 * Z.of_nat i)))) 0.

Definition poly_challenge (fuel : nat) (c : Poly) (seed : list Z) (seed_len : nat)
    : option (Z * Poly) :=
  if negb (seed_len =? CTILDE_BYTES)%nat then Some (ERR_INVALID_SEED_LENGTH, c) else
  let ctx := shake256_init in
  let ctx := shake256_absorb ctx seed seed_len in
  let ctx := shake256_finalize ctx in
  let '(buf, ctx) := shake256_squeeze ctx SHAKE256_RATE in
  let signs := challenge_signs buf in
  let c := for_ 0 N (fun i c => <[i := 0]> c) c in
  '(c, _, _) ← for_ (N - TAU) TAU (challenge_step fuel) (Some (c, signs, (ctx, buf, 8%nat)));
  Some (0, c).

(** ** The sampling functions of FIPS 204

    [CoeffFromThreeBytes] and [CoeffFromHalfByte] (for [eta = 2]) over a whole
    string, and [SampleInBall] over a finite prefix of its stream. *)
Fixpoint accepted3 (buf : list Z) : list Z :=
  match buf with
  | b0 :: b1 :: b2 :: buf =>
    let z := b0 + 256 * b1 + 65536 * (b2 mod 128) in
    if z <? Q_CONST then z :: accepted3 buf else accepted3 buf
  | _ => []
  end.

Definition half_byte (b : Z) : list Z := if b <? 15 then [2 - b mod 5] else [].
Definition accepted_half (buf : list Z) : list Z :=
  buf ≫= (fun b => half_byte (b mod 16) ++ half_byte (b / 16)).

(** The first byte of the stream that is at most [i], and the stream after it. *)
Fixpoint next_index (i : Z) (stream : list Z) : option (Z * list Z) :=
  match stream with
  | [] => None
  | j :: stream => if i <? j then next_index i stream else Some (j, stream)
  end.
Definition ball_step (signs : Z) (i : nat) (st : option (Poly * list Z)) : option (Poly * list Z) :=
  '(c, stream) ← st;
  '(j, stream) ← next_index (Z.of_nat i) stream;
  let sign := signs / 2 ^ Z.of_nat (i + TAU - N) mod 2 in
  Some (<[Z.to_nat j := (-1) ^ sign]> (<[i := c !!! Z.to_nat j]> c), stream).
Definition SampleInBall (stream : list Z) : option Poly :=
  fst <$> for_ (N - TAU) TAU (ball_step (le_val (take 8 stream))) (Some (zero_poly, drop 8 stream)).

(** ** The bounded loops *)
Lemma candidate_val buf pos b0 b1 b2 :
  buf !!! pos = b0 -> buf !!! (pos + 1)%nat = b1 -> buf !!! (pos + 2)%nat = b2 ->
  0 <= b0 < 256 -> 0 <= b1 < 256 -> 0 <= b2 < 256 ->
  candidate buf pos = b0 + 256 * b1 + 65536 * (b2 mod 128).
Proof.
  intros E0 E1 E2 H0 H1 H2. unfold candidate. rewrite E0, E1, E2.
  rewrite (u32_id b0), (u32_id b1), (u32_id b2) by lia.
  rewrite (u32_id (Z.shiftl b1 8)), (u32_id (Z.shiftl b2 16)) by (shifts; lia).
  rewrite (lor_add_disjoint b0 b1 8), (lor_add_disjoint _ b2 16), land_8388607 by lia.
  change (2 ^ 8) with 256. change (2 ^ 16) with 65536. dlia.
Qed.

Lemma blit_snoc (a : list Z) ctr x acc :
  (ctr < length a)%nat -> blit (<[ctr := x]> a) (ctr + 1) acc = blit a ctr (x :: acc).
Proof.
  intros Hc. unfold blit.
  replace (ctr + 1)%nat with (S ctr) by lia.
  rewrite (take_S_r _ _ x) by (by apply list_lookup_insert_eq).
  rewrite take_insert_ge by lia. rewrite <- app_assoc. cbn [app length]. do 3 f_equal.
  rewrite drop_insert_lt by lia. f_equal. lia.
Qed.
Lemma blit_nil (a : list Z) n : blit a n [] = a.
Proof. unfold blit. cbn [app length]. by rewrite Nat.add_0_r, take_drop. Qed.

Lemma drop_3 (buf : list Z) pos :
  (pos + 3 <= length buf)%nat ->
  drop pos buf = buf !!! pos :: buf !!! (pos + 1)%nat :: buf !!! (pos + 2)%nat :: drop (pos + 3) buf.
Proof.
  intros Hl.
  destruct (lookup_lt_is_Some_2 buf pos) as [x Hx]; [lia|].
  destruct (lookup_lt_is_Some_2 buf (pos + 1)) as [y Hy]; [lia|].
  destruct (lookup_lt_is_Some_2 buf (pos + 2)) as [z Hz]; [lia|].
  rewrite (drop_S _ _ _ Hx), (list_lookup_total_correct _ _ _ Hx).
  rewrite (list_lookup_total_correct _ _ _ Hy), (list_lookup_total_correct _ _ _ Hz).
  replace (S pos) with (pos + 1)%nat by lia. rewrite (drop_S _ _ _ Hy).
  replace (S (pos + 1)) with (pos + 2)%nat by lia. rewrite (drop_S _ _ _ Hz). do 4 f_equal. lia.
Qed.

Lemma accepted3_short l : (length l < 3)%nat -> accepted3 l = [].
Proof. destruct l as [|? [|? [|? l]]]; cbn [length]; intros; done || lia. Qed.

Lemma accepted3_range l : bytes l -> Forall (fun z => 0 <= z < Q_CONST) (accepted3 l).
Proof.
  revert l. fix IH 1. intros [|b0 [|b1 [|b2 l]]] Hl; cbn [accepted3]; try constructor.
  apply Forall_cons_1 in Hl as [H0 Hl]. apply Forall_cons_1 in Hl as [H1 Hl].
  apply Forall_cons_1 in Hl as [H2 Hl]. unfold is_u8 in *.
  destruct (Z.ltb_spec (b0 + 256 * b1 + 65536 * (b2 mod 128)) Q_CONST).
  - constructor; [split; [dlia|done]|by apply IH].
  - by apply IH.
Qed.

Lemma rej_uniform_loop_spec fuel aLen bufLen buf ctr pos (a : list Z) :
  bytes buf -> (ctr <= aLen <= length a)%nat -> (pos <= bufLen <= length buf)%nat ->
  ((bufLen - pos) / 3 <= fuel)%nat ->
  let acc := take (aLen - ctr) (accepted3 (drop pos (take bufLen buf))) in
  rej_uniform_loop fuel aLen bufLen buf ctr pos a = Some ((ctr + length acc)%nat, blit a ctr acc).
Proof.
  intros Hb. revert ctr pos a. induction fuel as [|fuel IH]; intros ctr pos a Hc Hp Hf; cbv zeta.
  - cbn [rej_uniform_loop].
    assert (Hsh : (bufLen - pos < 3)%nat).
    { apply Nat.le_0_r, Nat.div_small_iff in Hf; lia. }
    rewrite (proj2 (Nat.leb_gt _ _)), andb_false_r by lia.
    rewrite accepted3_short by (rewrite length_drop, length_take; lia).
    rewrite take_nil, Nat.add_0_r, blit_nil. done.
  - cbn [rej_uniform_loop].
    destruct (Nat.ltb_spec ctr aLen) as [Hlt|Hge]; cbn [andb].
    2: { replace (aLen - ctr)%nat with 0%nat by lia. cbn [take length]. by rewrite Nat.add_0_r, blit_nil. }
    destruct (Nat.leb_spec (pos + 3) bufLen) as [Hle|Hgt].
    2: { rewrite accepted3_short by (rewrite length_drop, length_take; lia).
         by rewrite take_nil, Nat.add_0_r, blit_nil. }
    assert (Hf' : ((bufLen - (pos + 3)) / 3 <= fuel)%nat).
    { replace (bufLen - pos)%nat with ((bufLen - (pos + 3)) + 1 * 3)%nat in Hf by lia.
      rewrite Nat.div_add in Hf by lia. lia. }
    assert (Hd : drop pos (take bufLen buf) =
      buf !!! pos :: buf !!! (pos + 1)%nat :: buf !!! (pos + 2)%nat :: drop (pos + 3) (take bufLen buf)).
    { rewrite drop_3 by (rewrite length_take; lia). rewrite !lookup_total_take. by rewrite !decide_True by lia. }
    rewrite Hd. cbn [accepted3].
    rewrite (candidate_val _ _ _ _ _ eq_refl eq_refl eq_refl)
      by (apply (Forall_get is_u8); [done|lia]).
    set (z := _ + _ + _).
    assert (Hz : z < Q_CONST -> s32 z = z).
    { intros Hz. apply s32_id. unfold Q_CONST in Hz. split; [|lia].
      pose proof (Forall_get is_u8 buf pos Hb ltac:(lia)) as G0.
      pose proof (Forall_get is_u8 buf (pos + 1) Hb ltac:(lia)) as G1.
      unfold is_u8 in *. unfold z. dlia. }
    destruct (Z.ltb_spec z Q_CONST) as [Hq|Hq].
    + rewrite Hz by done. rewrite IH by (rewrite ?length_insert; lia).
      replace (aLen - ctr)%nat with (S (aLen - (ctr + 1))) by lia. cbn [take length].
      rewrite blit_snoc by lia. do 2 f_equal. lia.
    + apply IH; lia.
Qed.

(** [rej_uniform] always returns: the accepted candidates of the buffer, at most
    [a_len] of them, written from the front. *)
Lemma rej_uniform_spec a a_len buf buf_len :
  bytes buf -> (a_len <= length a)%nat -> (buf_len <= length buf)%nat ->
  let acc := take a_len (accepted3 (take buf_len buf)) in
  rej_uniform a a_len buf buf_len = Some (length acc, blit a 0 acc).
Proof.
  intros Hb Ha Hl. unfold rej_uniform.
  rewrite rej_uniform_loop_spec by (done || rewrite ?Nat.sub_0_r; lia).
  by rewrite Nat.sub_0_r, drop_0.
Qed.

Lemma eta_coeff_mod t : 0 <= t < 15 -> eta_coeff t = 2 - t mod 5.
Proof.
  intros Ht.
  assert (H : forallb (fun t => eta_coeff t =? 2 - t mod 5) (map Z.of_nat (seq 0 15)) = true)
    by (vm_compute; reflexivity).
  rewrite forallb_forall in H. apply Z.eqb_eq, H.
  rewrite <- (Z2Nat.id t) by lia. apply in_map, in_seq. lia.
Qed.

Lemma half_byte_eta t : 0 <= t < 15 -> half_byte t = [eta_coeff t].
Proof.
  intros Ht. unfold half_byte. rewrite (proj2 (Z.ltb_lt _ _)) by lia. by rewrite eta_coeff_mod.
Qed.

Lemma take_S_app1 {A} n (x : A) l : take (S n) (x :: l) = x :: take n l.
Proof. done. Qed.

(** One nibble: at most one coefficient, only while there is room. *)
Lemma nibble_step t ctr aLen (a rest : list Z) :
  0 <= t < 16 -> (ctr <= aLen <= length a)%nat ->
  let '(ctr', a') := if (t <? 15) && (ctr <? aLen)%nat
    then ((ctr + 1)%nat, <[ctr := eta_coeff t]> a) else (ctr, a) in
  (ctr <= ctr' <= aLen)%nat /\ length a' = length a /\
  forall r, r = take (aLen - ctr') rest ->
    (ctr' + length r = ctr + length (take (aLen - ctr) (half_byte t ++ rest)))%nat /\
    blit a' ctr' r = blit a ctr (take (aLen - ctr) (half_byte t ++ rest)).
Proof.
  intros Ht Hc. destruct (Z.ltb_spec t 15) as [H15|H15]; cbn [andb].
  - rewrite half_byte_eta by lia. destruct (Nat.ltb_spec ctr aLen) as [Hlt|Hge].
    + rewrite length_insert. split; [lia|]. split; [done|]. intros r ->.
      replace (aLen - ctr)%nat with (S (aLen - (ctr + 1))) by lia. cbn [app take length].
      rewrite blit_snoc by lia. split; [lia|done].
    + split; [lia|]. split; [done|]. intros r ->. replace (aLen - ctr)%nat with 0%nat by lia. done.
  - unfold half_byte. rewrite (proj2 (Z.ltb_ge _ _)) by lia. split; [lia|]. split; [done|].
    by intros r ->.
Qed.

Lemma rej_eta_loop_spec fuel aLen bufLen buf ctr pos (a : list Z) :
  bytes buf -> (ctr <= aLen <= length a)%nat -> (pos <= bufLen <= length buf)%nat ->
  (bufLen - pos <= fuel)%nat ->
  let acc := take (aLen - ctr) (accepted_half (drop pos (take bufLen buf))) in
  rej_eta_loop fuel aLen bufLen buf ctr pos a = Some ((ctr + length acc)%nat, blit a ctr acc).
Proof.
  intros Hb. revert ctr pos a. induction fuel as [|fuel IH]; intros ctr pos a Hc Hp Hf; cbv zeta.
  - cbn [rej_eta_loop]. rewrite (proj2 (Nat.ltb_ge pos bufLen)), andb_false_r by lia.
    rewrite drop_ge by (rewrite length_take; lia). change (accepted_half []) with (@nil Z). 
    rewrite take_nil, Nat.add_0_r, blit_nil. done.
  - cbn [rej_eta_loop].
    destruct (Nat.ltb_spec ctr aLen) as [Hlt|Hge]; cbn [andb].
    2: { replace (aLen - ctr)%nat with 0%nat by lia. cbn [take length]. by rewrite Nat.add_0_r, blit_nil. }
    destruct (Nat.ltb_spec pos bufLen) as [Hle|Hgt].
    2: { rewrite drop_ge by (rewrite length_take; lia).
         change (accepted_half []) with (@nil Z). by rewrite take_nil, Nat.add_0_r, blit_nil. }
    pose proof (Forall_get is_u8 buf pos Hb ltac:(lia)) as Hbyte. unfold is_u8 in Hbyte.
    assert (Hd : drop pos (take bufLen buf) = buf !!! pos :: drop (pos + 1) (take bufLen buf)).
    { destruct (lookup_lt_is_Some_2 (take bufLen buf) pos) as [x Hx]; [rewrite length_take; lia|].
      rewrite (drop_S _ _ _ Hx), Nat.add_1_r. f_equal.
      apply lookup_take_Some in Hx as [Hx _]. by rewrite (list_lookup_total_correct _ _ _ Hx). }
    rewrite Hd. unfold accepted_half. cbn [mbind list_bind]. fold (accepted_half (drop (pos + 1) (take bufLen buf))).
    rewrite <- app_assoc. set (rest := accepted_half _).
    set (b := buf !!! pos) in *.
    rewrite land_15. replace (Z.shiftr b 4) with (b / 16) by (shifts; done).
    pose proof (nibble_step (b mod 16) ctr aLen a (half_byte (b / 16) ++ rest) ltac:(dlia) Hc) as H0.
    rewrite (proj2 (Nat.ltb_lt ctr aLen)), andb_true_r in H0 by lia.
    destruct (if b mod 16 <? 15 then _ else _) as [ctr1 a1]. destruct H0 as (Hc1 & Hl1 & H0).
    pose proof (nibble_step (b / 16) ctr1 aLen a1 rest ltac:(dlia) ltac:(lia)) as H1.
    destruct (if (b / 16 <? 15) && _ then _ else _) as [ctr2 a2]. destruct H1 as (Hc2 & Hl2 & H1).
    rewrite IH by lia. fold rest.
    destruct (H0 _ eq_refl) as [<- <-]. destruct (H1 _ eq_refl) as [<- <-]. done.
Qed.

Lemma rej_eta_spec a a_len buf buf_len :
  bytes buf -> (a_len <= length a)%nat -> (buf_len <= length buf)%nat ->
  let acc := take a_len (accepted_half (take buf_len buf)) in
  rej_eta a a_len buf buf_len = Some (length acc, blit a 0 acc).
Proof.
  intros Hb Ha Hl. unfold rej_eta.
  rewrite rej_eta_loop_spec by (done || lia). by rewrite Nat.sub_0_r, drop_0.
Qed.

Lemma accepted_half_app l m : accepted_half (l ++ m) = accepted_half l ++ accepted_half m.
Proof. unfold accepted_half. apply bind_app. Qed.

Lemma accepted_half_range l : Forall eta_range (accepted_half l).
Proof.
  unfold accepted_half. apply Forall_bind, Forall_true. intros b. apply Forall_app.
  split; unfold half_byte; case_match; repeat constructor; unfold eta_range, ETA; dlia.
Qed.

(** Both bounded loops always return, within their fuel, with the accepted
    candidates of the buffer in order, at most [a_len] of them, and the rest of
    the array unchanged: [CoeffFromThreeBytes] and [CoeffFromHalfByte] of FIPS 204
    applied to the buffer. *)
Theorem rejection_loops (a buf : list Z) (a_len buf_len : nat)
  (Hb : bytes buf) (Ha : (a_len <= length a)%nat) (Hl : (buf_len <= length buf)%nat) :
  (let acc := take a_len (accepted3 (take buf_len buf)) in
   rej_uniform a a_len buf buf_len = Some (length acc, blit a 0 acc)) /\
  (let acc := take a_len (accepted_half (take buf_len buf)) in
   rej_eta a a_len buf buf_len = Some (length acc, blit a 0 acc)).
Proof. split; [by apply rej_uniform_spec|by apply rej_eta_spec]. Qed.

Lemma rejection_loops_witness :
  let a := [9; 9; 9; 9] in let buf := [0xff; 0xff; 0x7f; 1; 2; 3; 4] in
  (let acc := take 3 (accepted3 (take 7 buf)) in
   rej_uniform a 3 buf 7 = Some (length acc, blit a 0 acc)) /\
  (let acc := take 3 (accepted_half (take 7 buf)) in
   rej_eta a 3 buf 7 = Some (length acc, blit a 0 acc)).
Proof. apply (rejection_loops [9; 9; 9; 9]); [by apply bytesb_bytes|simpl; lia|simpl; lia]. Defined.

(** ** Streams *)
Lemma nonce_bytes_bytes nonce : bytes (nonce_bytes nonce).
Proof. repeat constructor; apply u8_range. Qed.

Lemma absorbs_two (ab : sponge_ctx -> list Z -> nat -> sponge_ctx) c m1 n1 m2 n2 :
  length m1 = n1 -> length m2 = n2 -> ab (ab c m1 n1) m2 n2 = absorbs ab [m1; m2] c.
Proof. by intros <- <-. Qed.

(** The contexts of the samplers: seed and nonce absorbed, nothing squeezed yet. *)
Lemma shake256_seeded seed nonce :
  length seed = CRH_BYTES ->
  shake256_finalize (shake256_absorb (shake256_absorb shake256_init seed CRH_BYTES) (nonce_bytes nonce) 2) =
  ctx_after SHAKE256_RATE 0x1F (seed ++ nonce_bytes nonce) 0.
Proof.
  intros Hl. rewrite absorbs_two by done. unfold shake256_finalize, shake256_absorb, shake256_init.
  rewrite absorbs_start. cbn [concat]. by rewrite app_nil_r.
Qed.
Lemma shake128_seeded seed nonce :
  length seed = SEED_BYTES ->
  shake128_finalize (shake128_absorb (shake128_absorb shake128_init seed SEED_BYTES) (nonce_bytes nonce) 2) =
  ctx_after SHAKE128_RATE 0x1F (seed ++ nonce_bytes nonce) 0.
Proof.
  intros Hl. rewrite absorbs_two by done. unfold shake128_finalize, shake128_absorb, shake128_init.
  rewrite absorbs_start. cbn [concat]. by rewrite app_nil_r.
Qed.

Lemma shake256_squeeze_after m n d : bytes m ->
  shake256_squeeze (ctx_after SHAKE256_RATE 0x1F m n) d =
  (drop n (SHAKE256 m (n + d)), ctx_after SHAKE256_RATE 0x1F m (n + d)).
Proof. intros Hm. apply squeeze_after; [vm_compute; lia|lia|done]. Qed.
Lemma shake128_squeeze_after m n d : bytes m ->
  shake128_squeeze (ctx_after SHAKE128_RATE 0x1F m n) d =
  (drop n (SHAKE128 m (n + d)), ctx_after SHAKE128_RATE 0x1F m (n + d)).
Proof. intros Hm. apply squeeze_after; [vm_compute; lia|lia|done]. Qed.

Lemma SHAKE256_length m n : bytes m -> length (SHAKE256 m n) = n.
Proof. apply stream_length; [vm_compute; lia|lia]. Qed.
Lemma SHAKE256_bytes m n : bytes m -> bytes (SHAKE256 m n).
Proof. apply stream_bytes; [vm_compute; lia|lia]. Qed.
Lemma SHAKE256_prefix m n d : bytes m -> take n (SHAKE256 m (n + d)) = SHAKE256 m n.
Proof. apply stream_prefix; [vm_compute; lia|lia]. Qed.
Lemma SHAKE128_length m n : bytes m -> length (SHAKE128 m n) = n.
Proof. apply stream_length; [vm_compute; lia|lia]. Qed.
Lemma SHAKE128_bytes m n : bytes m -> bytes (SHAKE128 m n).
Proof. apply stream_bytes; [vm_compute; lia|lia]. Qed.
Lemma SHAKE128_prefix m n d : bytes m -> take n (SHAKE128 m (n + d)) = SHAKE128 m n.
Proof. apply stream_prefix; [vm_compute; lia|lia]. Qed.

(** The stream grows by the bytes squeezed. *)
Lemma SHAKE256_snoc m n d : bytes m ->
  SHAKE256 m (n + d) = SHAKE256 m n ++ drop n (SHAKE256 m (n + d)).
Proof. intros Hm. rewrite <- (SHAKE256_prefix m n d) by done. symmetry. apply take_drop. Qed.
Lemma SHAKE128_snoc m n d : bytes m ->
  SHAKE128 m (n + d) = SHAKE128 m n ++ drop n (SHAKE128 m (n + d)).
Proof. intros Hm. rewrite <- (SHAKE128_prefix m n d) by done. symmetry. apply take_drop. Qed.


(** The first [n] accepted coefficients after [k] blocks. *)
Definition first_coeffs (acc : list Z) : option (Z * Poly) :=
  if (N <=? length acc)%nat then Some (0, take N acc) else None.

(** Filling an array with the next accepted values. *)
Lemma fill_more (a acc more : list Z) :
  wf_poly a -> (length acc < N)%nat ->
  let r := take (N - length acc) more in
  take (length acc) (blit a 0 acc) ++ blit (drop (length acc) (blit a 0 acc)) 0 r =
    blit a 0 (take N (acc ++ more)) /\
  (length acc + length r)%nat = length (take N (acc ++ more)).
Proof.
  intros Ha Hl r. unfold wf_poly in Ha. rewrite !blit_0.
  rewrite take_app_length, drop_app_length, (take_app_ge acc more) by lia.
  rewrite (drop_drop a). fold r. rewrite length_app. split; [|done].
  by rewrite <- app_assoc.
Qed.

Section eta.
Context (seed : list Z) (nonce : Z) (Hs : bytes seed) (Hl : length seed = CRH_BYTES).
Let m := seed ++ nonce_bytes nonce.
Definition eta_accepted (k : nat) : list Z :=
  accepted_half (SHAKE256 (seed ++ nonce_bytes nonce) (STREAM_256_BLOCK_BYTES * k)).

Local Lemma m_bytes : bytes m.
Proof. apply Forall_app. split; [done|apply nonce_bytes_bytes]. Qed.

Lemma eta_accepted_S k :
  eta_accepted (S k) = eta_accepted k ++
    accepted_half (drop (STREAM_256_BLOCK_BYTES * k) (SHAKE256 m (STREAM_256_BLOCK_BYTES * S k))).
Proof.
  unfold eta_accepted. fold m. rewrite <- accepted_half_app. f_equal.
  replace (STREAM_256_BLOCK_BYTES * S k)%nat
    with (STREAM_256_BLOCK_BYTES * k + STREAM_256_BLOCK_BYTES)%nat by lia.
  apply SHAKE256_snoc, m_bytes.
Qed.

Lemma eta_accepted_mono k n :
  (N <= length (eta_accepted k))%nat -> first_coeffs (eta_accepted (k + n)) = first_coeffs (eta_accepted k).
Proof.
  intros Hk. induction n as [|n IH]; [by rewrite Nat.add_0_r|].
  rewrite Nat.add_succ_r, eta_accepted_S. rewrite <- IH. unfold first_coeffs in *.
  destruct (Nat.leb_spec N (length (eta_accepted k))); [|lia].
  destruct (Nat.leb_spec N (length (eta_accepted (k + n)))); [|done].
  rewrite length_app, (proj2 (Nat.leb_le _ _)) by lia. by rewrite take_app_le by lia.
Qed.

Lemma poly_uniform_eta_refill_spec fuel k buf a ctr :
  wf_poly a -> length buf = STREAM_256_BLOCK_BYTES ->
  ctr = length (take N (eta_accepted k)) ->
  poly_uniform_eta_refill fuel (ctx_after SHAKE256_RATE 0x1F m (STREAM_256_BLOCK_BYTES * k)) buf ctr
    (blit a 0 (take N (eta_accepted k))) =
  snd <$> first_coeffs (eta_accepted (k + fuel)).
Proof.
  intros Ha. revert k buf ctr. induction fuel as [|fuel IH]; intros k buf ctr Hbuf ->;
    cbn [poly_uniform_eta_refill]; rewrite length_take.
  - rewrite Nat.add_0_r. unfold first_coeffs.
    destruct (Nat.ltb_spec (N `min` length (eta_accepted k)) N);
      destruct (Nat.leb_spec N (length (eta_accepted k))); try lia; [done|].
    cbn [fmap option_fmap option_map snd]. f_equal. apply blit_all. rewrite length_take, Ha. lia.
  - destruct (Nat.ltb_spec (N `min` length (eta_accepted k)) N) as [Hlt|Hge].
    2: { rewrite eta_accepted_mono by lia. unfold first_coeffs.
         rewrite (proj2 (Nat.leb_le _ _)) by lia. cbn [fmap option_fmap option_map snd].
         f_equal. apply blit_all. rewrite length_take, Ha. lia. }
    rewrite shake256_squeeze_after by apply m_bytes.
    replace (STREAM_256_BLOCK_BYTES * k + STREAM_256_BLOCK_BYTES)%nat
      with (STREAM_256_BLOCK_BYTES * S k)%nat by lia.
    set (out := drop _ (SHAKE256 m _)).
    assert (Hout : length out = STREAM_256_BLOCK_BYTES).
    { unfold out. rewrite length_drop, SHAKE256_length by apply m_bytes. lia. }
    rewrite blit_all by congruence. rewrite (take_ge (eta_accepted k)) by lia.
    replace (N `min` length (eta_accepted k))%nat with (length (eta_accepted k)) by lia.
    pose proof (fill_more a (eta_accepted k) (accepted_half out) Ha ltac:(lia)) as [Hf1 Hf2].
    rewrite rej_eta_spec.
    + rewrite (take_ge out) by lia. cbn [mbind option_bind]. rewrite Hf1, Hf2.
      unfold out. rewrite <- eta_accepted_S. rewrite IH by (done || congruence).
      by rewrite Nat.add_succ_comm.
    + apply Forall_drop, SHAKE256_bytes, m_bytes.
    + rewrite length_drop, blit_0. rewrite length_app, length_drop, Ha. lia.
    + lia.
Qed.

(** [RejBoundedPoly]: with [fuel] refills allowed, the first [N] coefficients
    accepted in the first [fuel + 1] blocks of the stream, if there are as many. *)
Lemma poly_uniform_eta_spec fuel a :
  wf_poly a -> poly_uniform_eta fuel a seed nonce = first_coeffs (eta_accepted (S fuel)).
Proof.
  intros Ha. unfold poly_uniform_eta. rewrite shake256_seeded by done. fold m.
  change (POLY_UNIFORM_ETA_N_BLOCKS * STREAM_256_BLOCK_BYTES)%nat with STREAM_256_BLOCK_BYTES.
  cbv zeta. rewrite shake256_squeeze_after by apply m_bytes. rewrite Nat.add_0_l, drop_0.
  rewrite blit_all by (rewrite SHAKE256_length, length_replicate by apply m_bytes; done).
  rewrite rej_eta_spec; [|apply SHAKE256_bytes, m_bytes|by rewrite Ha|
    rewrite SHAKE256_length by apply m_bytes; done].
  rewrite (take_ge (SHAKE256 m STREAM_256_BLOCK_BYTES)) by (rewrite SHAKE256_length by apply m_bytes; done).
  cbn [mbind option_bind].
  assert (H1 : accepted_half (SHAKE256 m STREAM_256_BLOCK_BYTES) = eta_accepted 1)
    by (unfold eta_accepted; by rewrite Nat.mul_1_r).
  rewrite H1. rewrite <- (Nat.mul_1_r STREAM_256_BLOCK_BYTES) at 1.
  rewrite poly_uniform_eta_refill_spec; [|done|by rewrite SHAKE256_length by apply m_bytes|done].
  rewrite Nat.add_1_l. unfold first_coeffs. by destruct (_ <=? _)%nat.
Qed.
End eta.

(** *** The other samplers *)
Lemma wf_take_N (l : list Z) : (N <= length l)%nat -> wf_poly (take N l).
Proof. intros H. unfold wf_poly. rewrite length_take. lia. Qed.

(** [poly_uniform] when the first five blocks contain enough coefficients: [RejNTTPoly]. *)
Lemma poly_uniform_spec fuel a seed nonce :
  bytes seed -> length seed = SEED_BYTES -> wf_poly a ->
  let acc := accepted3 (SHAKE128 (seed ++ nonce_bytes nonce) 840) in
  (N <= length acc)%nat -> poly_uniform fuel a seed nonce = Some (0, take N acc).
Proof.
  intros Hs Hl Ha acc Hacc. unfold poly_uniform. rewrite shake128_seeded by done.
  set (m := seed ++ nonce_bytes nonce) in *.
  assert (Hm : bytes m) by (apply Forall_app; split; [done|apply nonce_bytes_bytes]).
  change (POLY_UNIFORM_N_BLOCKS * STREAM_128_BLOCK_BYTES)%nat with 840%nat. cbv zeta.
  rewrite shake128_squeeze_after, Nat.add_0_l, drop_0 by done.
  rewrite blit_all by (by rewrite SHAKE128_length, length_replicate).
  rewrite rej_uniform_spec;
    [|by apply SHAKE128_bytes|by rewrite Ha|rewrite SHAKE128_length by done; lia].
  rewrite (SHAKE128_prefix m 840 2) by done. fold acc. cbn [mbind option_bind].
  rewrite length_take, Nat.min_l by lia. rewrite blit_all by (rewrite length_take, Ha; lia).
  destruct fuel; reflexivity.
Qed.

(** Seeds and nonces of the right shape. *)
Lemma seeded_bytes seed nonce : bytes seed -> bytes (seed ++ nonce_bytes nonce).
Proof. intros. apply Forall_app. split; [done|apply nonce_bytes_bytes]. Qed.

(** The unpacking reads 640 bytes. *)
Lemma poly_z_unpack_take r b : poly_z_unpack r b = poly_z_unpack r (take POLY_Z_PACKED_BYTES b).
Proof.
  apply for_ext. intros i t Hi. change (N / 2)%nat with 128%nat in Hi. cbv beta zeta.
  rewrite !lookup_total_take.
  by rewrite !decide_True by (unfold POLY_Z_PACKED_BYTES; lia).
Qed.

(** [ExpandMask]: the polynomial of 20-bit fields of the stream. *)
Lemma poly_uniform_gamma1_spec a seed nonce :
  bytes seed -> length seed = CRH_BYTES -> wf_poly a ->
  poly_uniform_gamma1 a seed nonce =
  poly_z_unpack a (SHAKE256 (seed ++ nonce_bytes nonce) POLY_Z_PACKED_BYTES).
Proof.
  intros Hs Hl Ha. unfold poly_uniform_gamma1. rewrite shake256_seeded by done. cbv zeta.
  rewrite shake256_squeeze_after, Nat.add_0_l, drop_0 by (by apply seeded_bytes).
  rewrite blit_all by (rewrite SHAKE256_length, length_replicate; [done|by apply seeded_bytes]).
  rewrite poly_z_unpack_take.
  replace (POLY_UNIFORM_GAMMA1_N_BLOCKS * STREAM_256_BLOCK_BYTES)%nat
    with (POLY_Z_PACKED_BYTES + 40)%nat by reflexivity.
  by rewrite SHAKE256_prefix by by apply seeded_bytes.
Qed.

Lemma poly_uniform_gamma1_range a seed nonce :
  bytes seed -> length seed = CRH_BYTES -> wf_poly a ->
  wf_poly (poly_uniform_gamma1 a seed nonce) /\ Forall z_range (poly_uniform_gamma1 a seed nonce).
Proof.
  intros Hs Hl Ha. rewrite poly_uniform_gamma1_spec by done.
  assert (Hb : bytes (seed ++ nonce_bytes nonce)) by by apply seeded_bytes.
  rewrite poly_z_unpack_blocks by (done || by apply SHAKE256_bytes || by apply SHAKE256_length).
  split; [apply z_ublock_length|].
  apply z_ublock_range; [by apply SHAKE256_bytes|by apply SHAKE256_length].
Qed.

(** C32. For every fuel, [poly_uniform_eta] is [RejBoundedPoly] of FIPS 204: with
    [fuel] refills allowed it returns, when they contain enough, the first 256
    coefficients that [CoeffFromHalfByte] accepts in the first [fuel + 1] blocks
    of SHAKE256(seed || nonce), all in [-2, 2], and otherwise does not return; and
    more fuel never changes a result. *)
Theorem poly_uniform_eta_fips204 (fuel more : nat) (a : Poly) (seed : list Z) (nonce : Z)
  (Hs : bytes seed) (Hl : length seed = CRH_BYTES) (Ha : wf_poly a) :
  let acc := accepted_half (SHAKE256 (seed ++ nonce_bytes nonce) (136 * S fuel)) in
  poly_uniform_eta fuel a seed nonce =
    (if (N <=? length acc)%nat then Some (0, take N acc) else None) /\
  Forall eta_range (take N acc) /\
  (poly_uniform_eta fuel a seed nonce <> None ->
   poly_uniform_eta (fuel + more) a seed nonce = poly_uniform_eta fuel a seed nonce).
Proof.
  cbv zeta. rewrite !poly_uniform_eta_spec by done. split; [done|].
  split; [apply Forall_take, accepted_half_range|]. intros Hr.
  change (S (fuel + more)) with (S fuel + more)%nat. apply eta_accepted_mono; [done|done|].
  unfold first_coeffs in Hr. by destruct (Nat.leb_spec N (length (eta_accepted seed nonce (S fuel)))).
Qed.

Lemma poly_uniform_eta_fips204_witness :
  let seed := replicate 64 7 in
  let acc := accepted_half (SHAKE256 (seed ++ nonce_bytes 1) (136 * 2)) in
  poly_uniform_eta 1 zero_poly seed 1 =
    (if (N <=? length acc)%nat then Some (0, take N acc) else None) /\
  Forall eta_range (take N acc) /\
  (poly_uniform_eta 1 zero_poly seed 1 <> None ->
   poly_uniform_eta (1 + 1) zero_poly seed 1 = poly_uniform_eta 1 zero_poly seed 1).
Proof.
  exact (poly_uniform_eta_fips204 1 1 zero_poly (replicate 64 7) 1
    (bytesb_bytes (replicate 64 7) eq_refl) eq_refl eq_refl).
Defined.

(** One refill is enough for this seed, and none is not. *)
Example poly_uniform_eta_value :
  poly_uniform_eta 0 zero_poly (replicate 64 7) 0 = None /\
  match poly_uniform_eta 1 zero_poly (replicate 64 7) 0 with
  | Some (err, a) => err = 0 /\ take 6 a = [-2; -2; 2; 2; -2; 2]
  | None => False
  end.
Proof. vm_compute. repeat split. Qed.

(** ** The challenge *)

(** The code's view of position [p] of the stream: [pos] bytes of the current
    block have been used. *)
Definition at_pos (m : list Z) (p : nat) (xof : sponge_ctx * list Z * nat) : Prop :=
  exists k, p = (SHAKE256_RATE * k + snd xof)%nat /\ (snd xof <= SHAKE256_RATE)%nat /\
    fst (fst xof) = ctx_after SHAKE256_RATE 0x1F m (SHAKE256_RATE * k + SHAKE256_RATE) /\
    snd (fst xof) = drop (SHAKE256_RATE * k) (SHAKE256 m (SHAKE256_RATE * k + SHAKE256_RATE)).

Lemma SHAKE256_lookup m n n' i : bytes m -> (i < n)%nat -> (n <= n')%nat ->
  SHAKE256 m n' !!! i = SHAKE256 m n !!! i.
Proof.
  intros Hm Hi Hn. replace n' with (n + (n' - n))%nat by lia.
  rewrite <- (SHAKE256_prefix m n (n' - n)) by done. rewrite lookup_total_take.
  by rewrite decide_True by done.
Qed.

Section challenge.
Context (m : list Z) (Hm : bytes m).

(** One byte: the refill, if any, and the read. *)
Lemma challenge_byte p ctx buf pos n :
  at_pos m p (ctx, buf, pos) -> (p < n)%nat ->
  let '(ctx', buf', pos') :=
    if (SHAKE256_RATE <=? pos)%nat then
      let '(out, ctx) := shake256_squeeze ctx SHAKE256_RATE in (ctx, blit buf 0 out, 0%nat)
    else (ctx, buf, pos) in
  buf' !!! pos' = SHAKE256 m n !!! p /\ at_pos m (p + 1) (ctx', buf', (pos' + 1)%nat).
Proof.
  intros (k & Hp & Hle & Hctx & Hbuf) Hn. cbn [fst snd] in *. subst ctx buf p.
  assert (Hpos : (0 < SHAKE256_RATE)%nat) by (unfold SHAKE256_RATE; lia).
  assert (Hread : forall j q, (q < SHAKE256_RATE)%nat -> (SHAKE256_RATE * j + q < n)%nat ->
    drop (SHAKE256_RATE * j) (SHAKE256 m (SHAKE256_RATE * j + SHAKE256_RATE)) !!! q =
    SHAKE256 m n !!! (SHAKE256_RATE * j + q)%nat).
  { intros j q Hq Hlt. rewrite lookup_total_drop.
    destruct (Nat.le_ge_cases n (SHAKE256_RATE * j + SHAKE256_RATE)).
    - apply SHAKE256_lookup; done.
    - symmetry. apply SHAKE256_lookup; [done|lia|done]. }
  destruct (Nat.leb_spec SHAKE256_RATE pos) as [Hge|Hlt].
  - assert (pos = SHAKE256_RATE) by lia. subst pos. rewrite shake256_squeeze_after by done.
    rewrite blit_all by (rewrite !length_drop, !SHAKE256_length by done; lia).
    replace (SHAKE256_RATE * k + SHAKE256_RATE)%nat with (SHAKE256_RATE * S k)%nat in * by lia.
    split; [rewrite Hread by lia; f_equal; lia|].
    exists (S k). cbn [fst snd]. split_and!; [lia|vm_compute; lia|done|done].
  - split; [apply Hread; lia|]. exists k. cbn [fst snd]. split_and!; [lia|lia|done|done].
Qed.

Lemma challenge_index_spec fuel i p ctx buf pos n j rest :
  at_pos m p (ctx, buf, pos) -> (p <= n)%nat ->
  next_index i (drop p (SHAKE256 m n)) = Some (j, rest) -> (n - p <= fuel)%nat ->
  exists q xof, challenge_index fuel i ctx buf pos = Some (j, xof) /\ at_pos m q xof /\
    (p < q <= n)%nat /\ rest = drop q (SHAKE256 m n).
Proof.
  revert p ctx buf pos. induction fuel as [|fuel IH]; intros p ctx buf pos Hat Hpn Hni Hf.
  - rewrite drop_ge in Hni by (rewrite SHAKE256_length by done; lia). done.
  - destruct (Nat.eq_dec p n) as [->|Hne].
    { rewrite drop_ge in Hni by (rewrite SHAKE256_length by done; lia). done. }
    assert (Hlt : (p < n)%nat) by lia.
    destruct (lookup_lt_is_Some_2 (SHAKE256 m n) p) as [b Hb]; [by rewrite SHAKE256_length|].
    rewrite (drop_S _ _ _ Hb) in Hni. cbn [next_index] in Hni.
    pose proof (challenge_byte p ctx buf pos n Hat Hlt) as Hc. cbn [challenge_index].
    destruct (if (SHAKE256_RATE <=? pos)%nat then _ else _) as [[ctx' buf'] pos'].
    destruct Hc as [Hrd Hat']. rewrite (list_lookup_total_correct _ _ _ Hb) in Hrd. rewrite Hrd.
    rewrite <- Nat.add_1_r in Hni. destruct (i <? b).
    + destruct (IH (p + 1)%nat ctx' buf' (pos' + 1)%nat Hat' ltac:(lia) Hni ltac:(lia))
        as (q & xof & H1 & H2 & H3 & H4).
      exists q, xof. split_and!; [done|done|lia|lia|done].
    + injection Hni as <- <-. eexists _, _. split_and!; [reflexivity|exact Hat'|lia|lia|done].
Qed.
End challenge.

(** The signs are the first eight bytes, little-endian. *)
Lemma challenge_signs_val buf :
  bytes buf -> (8 <= length buf)%nat -> challenge_signs buf = le_val (take 8 buf).
Proof.
  intros Hb Hl.
  assert (Hi : forall n, (n <= 8)%nat ->
    for_ 0 n (fun i signs => Z.lor signs (u64 (Z.shiftl (buf !!! i) (8 * Z.of_nat i)))) 0 =
      le_val (take n buf) /\ 0 <= le_val (take n buf) < 256 ^ Z.of_nat n).
  { induction n as [|n IH]; intros Hn; [split; [done|vm_compute; intuition congruence]|].
    destruct IH as [IH Hr]; [lia|].
    destruct (lookup_lt_is_Some_2 buf n) as [b Hbn]; [lia|].
    pose proof (bytes_lookup _ _ _ Hb Hbn) as Hby.
    assert (Hpow : 256 ^ Z.of_nat n = 2 ^ (8 * Z.of_nat n))
      by (rewrite Z.pow_mul_r by lia; done).
    assert (Hmax : 256 ^ Z.of_nat n * 256 <= 18446744073709551616).
    { transitivity (256 ^ 7 * 256); [|done]. apply Z.mul_le_mono_nonneg_r; [lia|].
      apply Z.pow_le_mono_r; lia. }
    rewrite for_S_r, Nat.add_0_l, IH, (list_lookup_total_correct _ _ _ Hbn).
    assert (Hle : forall (l : list Z) x, le_val (l ++ [x]) = le_val l + 256 ^ Z.of_nat (length l) * x).
    { induction l as [|y l IHl]; intros x; [simpl; lia|].
      cbn [app le_val length]. rewrite IHl, Nat2Z.inj_succ, Z.pow_succ_r by lia. ring. }
    rewrite (take_S_r _ _ _ Hbn), Hle, length_take, Nat.min_l by lia.
    rewrite Z.shiftl_mul_pow2, <- Hpow by lia. rewrite u64_id by nia.
    rewrite Hpow, <- Z.shiftl_mul_pow2, lor_add_disjoint, <- Hpow by (rewrite <- ?Hpow; lia).
    rewrite Nat2Z.inj_succ, Z.pow_succ_r by lia. split; [ring|nia]. }
  apply (Hi 8%nat). lia.
Qed.

Lemma sign_value s : s32 (u64 (1 - 2 * Z.land s 1)) = (-1) ^ (s mod 2).
Proof.
  rewrite land_1. pose proof (Z.mod_pos_bound s 2 ltac:(lia)).
  assert (s mod 2 = 0 \/ s mod 2 = 1) as [-> | ->] by lia; reflexivity.
Qed.

Lemma ball_none h lo n : for_ lo n (ball_step h) None = None.
Proof. revert lo. induction n as [|n IH]; intros lo; [done|]. rewrite for_S. apply IH. Qed.

Lemma challenge_loop m n fuel h k : bytes m -> (n <= fuel)%nat ->
  forall lo p c signs xof r, (N <= lo + TAU)%nat -> 0 <= h ->
  at_pos m p xof -> (p <= n)%nat -> signs = h / 2 ^ Z.of_nat (lo + TAU - N) ->
  for_ lo k (ball_step h) (Some (c, drop p (SHAKE256 m n))) = Some r ->
  exists signs' xof', for_ lo k (challenge_step fuel) (Some (c, signs, xof)) =
    Some (fst r, signs', xof').
Proof.
  intros Hm Hf. induction k as [|k IH]; intros lo p c signs xof r Hlo Hh Hat Hp Hs Hb.
  - cbn in Hb. injection Hb as <-. by eexists _, _.
  - rewrite for_S in Hb. rewrite for_S. destruct xof as [[ctx buf] pos].
    unfold ball_step at 2 in Hb. cbn [mbind option_bind] in Hb.
    destruct (next_index (Z.of_nat lo) (drop p (SHAKE256 m n))) as [[j rest]|] eqn:E;
      cbn [mbind option_bind] in Hb; [|by rewrite ball_none in Hb].
    destruct (challenge_index_spec m Hm fuel (Z.of_nat lo) p ctx buf pos n j rest Hat Hp E ltac:(lia))
      as (q & xof & Hci & Hat' & Hq & ->).
    unfold challenge_step at 2. cbn [mbind option_bind]. rewrite Hci. cbn [mbind option_bind].
    rewrite sign_value. rewrite Hs.
    refine (IH (S lo) q _ _ _ r _ Hh Hat' _ _ Hb); [lia|lia|].
    rewrite Z.shiftr_div_pow2, Z.div_div by (try apply Z.pow_pos_nonneg; lia).
    f_equal. replace (S lo + TAU - N)%nat with (S (lo + TAU - N)) by lia.
    rewrite Nat2Z.inj_succ, Z.pow_succ_r by lia. change (2 ^ 1) with 2. lia.
Qed.

Lemma zeros_map : map (fun _ => 0) (seq 0 N) = zero_poly.
Proof. reflexivity. Qed.

(** The sampling part, from the squeezed block on. *)
Definition challenge_sample (fuel : nat) (blk : list Z * sponge_ctx) : option (Z * Poly) :=
  '(c, _, _) ← for_ (N - TAU) TAU (challenge_step fuel)
    (Some (zero_poly, challenge_signs (fst blk), (snd blk, fst blk, 8%nat)));
  Some (0, c).

Lemma poly_challenge_sample fuel c seed :
  wf_poly c -> poly_challenge fuel c seed CTILDE_BYTES =
    challenge_sample fuel (shake256_squeeze
      (shake256_finalize (shake256_absorb shake256_init seed CTILDE_BYTES)) SHAKE256_RATE).
Proof.
  intros Hc. unfold poly_challenge, challenge_sample. rewrite Nat.eqb_refl.
  change (negb true) with false. cbv iota.
  destruct (shake256_squeeze (shake256_finalize _) _) as [buf ctx]. cbv zeta. cbn [fst snd].
  by rewrite (for_build (fun _ => 0)), zeros_map by exact Hc.
Qed.

(** The code from a stream that suffices. *)
Lemma challenge_sample_spec n fuel m r :
  bytes m -> (8 <= n <= fuel)%nat -> SampleInBall (SHAKE256 m n) = Some r ->
  challenge_sample fuel (SHAKE256 m SHAKE256_RATE, ctx_after SHAKE256_RATE 0x1F m SHAKE256_RATE) =
    Some (0, r).
Proof.
  intros Hm Hn Hb. unfold SampleInBall in Hb. unfold challenge_sample. cbn [fst snd].
  set (blk := SHAKE256 m SHAKE256_RATE).
  assert (Hh : take 8 (SHAKE256 m n) = take 8 blk).
  { replace n with (8 + (n - 8))%nat by lia. rewrite SHAKE256_prefix by done.
    symmetry. apply (SHAKE256_prefix m 8 128). done. }
  assert (Hblk : bytes blk) by by apply SHAKE256_bytes.
  assert (Hlen : length blk = SHAKE256_RATE) by by apply SHAKE256_length.
  assert (Hat : at_pos m 8 (ctx_after SHAKE256_RATE 0x1F m SHAKE256_RATE, blk, 8%nat)).
  { exists 0%nat. cbn [fst snd]. rewrite Nat.mul_0_r, drop_0. unfold SHAKE256_RATE.
    split_and!; [done|lia|done|done]. }
  clearbody blk. rewrite Hh in Hb. clear Hh.
  rewrite challenge_signs_val by (try done; rewrite Hlen; unfold SHAKE256_RATE; lia).
  destruct (for_ (N - TAU) TAU (ball_step (le_val (take 8 blk))) _) as [[c' rest]|] eqn:E; [|done].
  injection Hb as <-.
  destruct (challenge_loop m n fuel (le_val (take 8 blk)) TAU Hm ltac:(lia)
    (N - TAU) 8 zero_poly (le_val (take 8 blk))
    (ctx_after SHAKE256_RATE 0x1F m SHAKE256_RATE, blk, 8%nat) (c', rest) ltac:(unfold N, TAU; lia))
    as (signs' & xof' & ->); [|exact Hat|lia| |exact E|done].
  - apply le_val_range, Forall_take, Hblk.
  - replace (N - TAU + TAU - N)%nat with 0%nat by reflexivity. by rewrite Z.div_1_r.
Qed.

Lemma poly_challenge_spec n fuel c seed r :
  bytes seed -> length seed = CTILDE_BYTES -> wf_poly c -> (8 <= n <= fuel)%nat ->
  SampleInBall (SHAKE256 seed n) = Some r -> poly_challenge fuel c seed CTILDE_BYTES = Some (0, r).
Proof.
  intros Hs Hl Hc Hn Hb. rewrite poly_challenge_sample by done.
  assert (Hseed : shake256_finalize (shake256_absorb shake256_init seed CTILDE_BYTES) =
    ctx_after SHAKE256_RATE 0x1F seed 0).
  { rewrite <- Hl. change (shake256_absorb shake256_init seed (length seed))
      with (absorbs shake256_absorb [seed] shake256_init).
    unfold shake256_finalize, shake256_absorb, shake256_init. rewrite absorbs_start.
    cbn [concat]. by rewrite app_nil_r. }
  rewrite Hseed. rewrite shake256_squeeze_after, Nat.add_0_l, drop_0 by done.
  by apply (challenge_sample_spec n).
Qed.

(** *** The weight of the challenge *)
Definition weight (c : Poly) : Z := foldr (fun x acc => Z.abs x + acc) 0 c.
Definition unit_coeff (x : Z) : Prop := -1 <= x <= 1.

Lemma weight_insert c i x :
  (i < length c)%nat -> weight (<[i := x]> c) = weight c - Z.abs (c !!! i) + Z.abs x.
Proof.
  revert i. induction c as [|y c IH]; intros i Hi; cbn [length] in Hi; [lia|].
  destruct i as [|i].
  - change (Z.abs x + weight c = Z.abs y + weight c - Z.abs y + Z.abs x). lia.
  - change (Z.abs y + weight (<[i := x]> c) = Z.abs y + weight c - Z.abs (c !!! i) + Z.abs x).
    rewrite IH by lia. lia.
Qed.

Lemma challenge_index_le fuel i ctx buf pos b xof :
  challenge_index fuel i ctx buf pos = Some (b, xof) -> b <= i.
Proof.
  revert ctx buf pos. induction fuel as [|fuel IH]; intros ctx buf pos H; [done|].
  cbn [challenge_index] in H. destruct (if (_ <=? _)%nat then _ else _) as [[ctx' buf'] pos'].
  destruct (Z.ltb_spec i (buf' !!! pos')); [by apply IH in H|]. by injection H as <- _.
Qed.

Lemma sign_unit s : Z.abs (s32 (u64 (1 - 2 * Z.land s 1))) = 1.
Proof.
  rewrite sign_value. pose proof (Z.mod_pos_bound s 2 ltac:(lia)).
  assert (s mod 2 = 0 \/ s mod 2 = 1) as [-> | ->] by lia; reflexivity.
Qed.

(** [n] steps from [lo] add [n] to the weight. *)
Definition ball (lo : nat) (w : Z) (c : Poly) : Prop :=
  wf_poly c /\ Forall unit_coeff c /\ weight c = w /\
  forall j, (lo <= j < N)%nat -> c !!! j = 0.

Lemma ball_insert lo w c b s :
  (lo < N)%nat -> (b <= lo)%nat -> Z.abs s = 1 -> ball lo w c ->
  ball (S lo) (w + 1) (<[b := s]> (<[lo := c !!! b]> c)).
Proof.
  intros Hlo Hb Hs (Hwf & Hu & Hw & Hz). unfold wf_poly in *.
  assert (Hcb : unit_coeff (c !!! b)) by (apply Forall_get; [done|lia]).
  assert (Hl0 : c !!! lo = 0) by (apply Hz; lia).
  split; [unfold wf_poly; by rewrite !length_insert|]. split.
  { apply Forall_insert; [by apply Forall_insert|]. unfold unit_coeff. lia. }
  split.
  - rewrite !weight_insert by (rewrite ?length_insert; lia). rewrite Hl0, Hs, Hw.
    destruct (Nat.eq_dec b lo) as [->|Hne].
    + rewrite list_lookup_total_insert_eq by lia. rewrite Hl0. lia.
    + rewrite list_lookup_total_insert_ne by done. lia.
  - intros j Hj. rewrite list_lookup_total_insert_ne by lia.
    rewrite list_lookup_total_insert_ne by lia. apply Hz. lia.
Qed.

Lemma challenge_steps_none fuel lo n : for_ lo n (challenge_step fuel) None = None.
Proof. revert lo. induction n as [|n IH]; intros lo; [done|]. rewrite for_S. apply IH. Qed.

Lemma challenge_steps_ball fuel n : forall lo c signs xof r w,
  (lo + n <= N)%nat -> ball lo w c ->
  for_ lo n (challenge_step fuel) (Some (c, signs, xof)) = Some r ->
  ball (lo + n) (w + Z.of_nat n) (fst (fst r)).
Proof.
  induction n as [|n IH]; intros lo c signs xof r w Hlo Hb H.
  - cbn in H. injection H as <-. by rewrite Nat.add_0_r, Z.add_0_r.
  - rewrite for_S in H. destruct xof as [[ctx buf] pos].
    unfold challenge_step at 2 in H. cbn [mbind option_bind] in H.
    destruct (challenge_index fuel (Z.of_nat lo) ctx buf pos) as [[b xof]|] eqn:E;
      cbn [mbind option_bind] in H; [|by rewrite challenge_steps_none in H].
    apply challenge_index_le in E.
    apply (IH _ _ _ _ _ (w + 1)) in H; [|lia|].
    + replace (lo + S n)%nat with (S lo + n)%nat by lia.
      replace (w + Z.of_nat (S n)) with (w + 1 + Z.of_nat n) by lia. done.
    + apply ball_insert; [lia|lia|apply sign_unit|done].
Qed.

Lemma zero_ball : ball (N - TAU) 0 zero_poly.
Proof.
  split; [done|]. split; [apply Forall_replicate; unfold unit_coeff; lia|]. split; [done|].
  intros j Hj. apply lookup_total_replicate_2. lia.
Qed.

Lemma challenge_loop_ball fuel signs xof r :
  for_ (N - TAU) TAU (challenge_step fuel) (Some (zero_poly, signs, xof)) = Some r ->
  ball N 60 (fst (fst r)).
Proof.
  intros H. apply (challenge_steps_ball _ _ _ _ _ _ _ 0) in H; [|unfold N, TAU; lia|apply zero_ball].
  replace (N - TAU + TAU)%nat with N in H by reflexivity. exact H.
Qed.

Lemma poly_challenge_ball fuel c seed seed_len r :
  wf_poly c -> seed_len = CTILDE_BYTES -> poly_challenge fuel c seed seed_len = Some r ->
  fst r = 0 /\ ball N 60 (snd r).
Proof.
  intros Hc ->. rewrite poly_challenge_sample by done. unfold challenge_sample.
  destruct (for_ _ _ _ _) as [[[c' s'] x']|] eqn:E; [|done].
  intros H. injection H as <-. split; [done|]. exact (challenge_loop_ball _ _ _ _ E).
Qed.

(** C14. The challenge: a seed of the wrong length is an error and leaves the
    polynomial; otherwise, whenever the first [n] bytes of SHAKE256(seed) suffice
    for SampleInBall of FIPS 204, [n] turns of the inner loop suffice for the code,
    which returns that polynomial, and every returned polynomial has 60
    coefficients in {-1, 1} and the rest zero. *)
Theorem poly_challenge_fips204 (n fuel : nat) (c : Poly) (seed : list Z)
  (Hs : bytes seed) (Hl : length seed = CTILDE_BYTES) (Hc : wf_poly c) (Hn : (8 <= n <= fuel)%nat) :
  (forall len, len <> CTILDE_BYTES -> poly_challenge fuel c seed len = Some (ERR_INVALID_SEED_LENGTH, c)) /\
  (forall r, SampleInBall (SHAKE256 seed n) = Some r ->
     poly_challenge fuel c seed CTILDE_BYTES = Some (0, r)) /\
  (forall r, poly_challenge fuel c seed CTILDE_BYTES = Some r ->
     Forall unit_coeff (snd r) /\ weight (snd r) = 60 /\ length (snd r) = N).
Proof.
  split_and!.
  - intros len Hne. unfold poly_challenge. by rewrite (proj2 (Nat.eqb_neq _ _)).
  - intros r. by apply poly_challenge_spec.
  - intros r Hr. apply poly_challenge_ball in Hr as [_ (H1 & H2 & H3 & _)]; done.
Qed.

Lemma poly_challenge_fips204_witness :
  let seed := replicate 64 1 in
  (forall len, len <> CTILDE_BYTES ->
     poly_challenge 136 zero_poly seed len = Some (ERR_INVALID_SEED_LENGTH, zero_poly)) /\
  (forall r, SampleInBall (SHAKE256 seed 136) = Some r ->
     poly_challenge 136 zero_poly seed CTILDE_BYTES = Some (0, r)) /\
  (forall r, poly_challenge 136 zero_poly seed CTILDE_BYTES = Some r ->
     Forall unit_coeff (snd r) /\ weight (snd r) = 60 /\ length (snd r) = N).
Proof.
  exact (poly_challenge_fips204 136 136 zero_poly (replicate 64 1)
    (bytesb_bytes (replicate 64 1) eq_refl) eq_refl eq_refl ltac:(lia)).
Defined.

(** The challenge of this seed exists. *)
Example poly_challenge_value :
  match poly_challenge 136 zero_poly (replicate 64 1) CTILDE_BYTES with
  | Some (err, c) => err = 0 /\ weight c = 60
  | None => False
  end.
Proof. vm_compute. split; reflexivity. Qed.

(** C33. The uniform samplers: [poly_uniform] is RejNTTPoly whenever its first five
    blocks contain 256 coefficients below [q], whatever the fuel, and
    [poly_uniform_gamma1] is the unpacking of SHAKE256(seed || nonce) into
    coefficients in (-GAMMA1, GAMMA1]. *)
Theorem uniform_samplers_fips204 (fuel : nat) (a : Poly) (rho seed : list Z) (nonce : Z)
  (Hr : bytes rho) (Hrl : length rho = SEED_BYTES) (Hs : bytes seed) (Hl : length seed = CRH_BYTES)
  (Ha : wf_poly a) :
  (let acc := accepted3 (SHAKE128 (rho ++ nonce_bytes nonce) 840) in
   (N <= length acc)%nat -> poly_uniform fuel a rho nonce = Some (0, take N acc) /\
     Forall (fun z => 0 <= z < Q_CONST) (take N acc)) /\
  poly_uniform_gamma1 a seed nonce =
    poly_z_unpack a (SHAKE256 (seed ++ nonce_bytes nonce) POLY_Z_PACKED_BYTES) /\
  Forall z_range (poly_uniform_gamma1 a seed nonce).
Proof.
  split; [|split].
  - cbv zeta. intros Hacc. split; [by apply poly_uniform_spec|].
    apply Forall_take, accepted3_range, SHAKE128_bytes, seeded_bytes, Hr.
  - by apply poly_uniform_gamma1_spec.
  - by apply poly_uniform_gamma1_range.
Qed.

Lemma uniform_samplers_fips204_witness :
  let rho := replicate 32 5 in let seed := replicate 64 7 in
  (let acc := accepted3 (SHAKE128 (rho ++ nonce_bytes 3) 840) in
   (N <= length acc)%nat -> poly_uniform 0 zero_poly rho 3 = Some (0, take N acc) /\
     Forall (fun z => 0 <= z < Q_CONST) (take N acc)) /\
  poly_uniform_gamma1 zero_poly seed 3 =
    poly_z_unpack zero_poly (SHAKE256 (seed ++ nonce_bytes 3) POLY_Z_PACKED_BYTES) /\
  Forall z_range (poly_uniform_gamma1 zero_poly seed 3).
Proof.
  exact (uniform_samplers_fips204 0 zero_poly (replicate 32 5) (replicate 64 7) 3
    (bytesb_bytes (replicate 32 5) eq_refl) eq_refl (bytesb_bytes (replicate 64 7) eq_refl)
    eq_refl eq_refl).
Defined.
