(* ===== verification/PolyVec.v ===== *)
(** * Vectors of polynomials ([src/src/mldsa87/polyvec.c])

    A vector is the list of its [L] or [K] polynomials, a matrix the list of its
    [K] rows.  Every function is a loop over the indices that reads and writes one
    polynomial at a time. *)
From S2P Require Import Prelude CInt Constants Reduce Rounding Poly Packing Ntt Sampling.

Abbreviation PolyVec := (list Poly).

(** A loop whose body returns an [ErrorCode] and leaves on the first non-zero one. *)
Definition for_err {S : Type} (lo n : nat) (body : nat -> S -> option (Z * S)) (s : S)
    : option (Z * S) :=
  for_ lo n (fun i r =>
    '(err, s) ← r; if err =? 0 then body i s else Some (err, s)) (Some (0, s)).

(** ** Vectors of length [L] *)
Definition poly_vec_l_uniform_gamma1 (v : PolyVec) (seed : list Z) (nonce : Z) : PolyVec :=
  for_ 0 L (fun i v =>
    <[i := poly_uniform_gamma1 (v !!! i) seed (u16 (Z.of_nat L * nonce + Z.of_nat i))]> v) v.
Definition poly_vec_l_reduce (v : PolyVec) : PolyVec :=
  for_ 0 L (fun i v => <[i := poly_reduce (v !!! i)]> v) v.
Definition poly_vec_l_add (w u v : PolyVec) : PolyVec :=
  for_ 0 L (fun i w => <[i := poly_add (w !!! i) (u !!! i) (v !!! i)]> w) w.
Definition poly_vec_l_ntt (v : PolyVec) : PolyVec :=
  for_ 0 L (fun i v => <[i := poly_ntt (v !!! i)]> v) v.
Definition poly_vec_l_inv_ntt_to_mont (v : PolyVec) : PolyVec :=
  for_ 0 L (fun i v => <[i := poly_inv_ntt_to_mont (v !!! i)]> v) v.
Definition poly_vec_l_pointwise_poly_montgomery (r : PolyVec) (a : Poly) (v : PolyVec) : PolyVec :=
  for_ 0 L (fun i r => <[i := poly_pointwise_montgomery (r !!! i) a (v !!! i)]> r) r.

(** [1] as soon as one polynomial violates the bound. *)
Definition poly_vec_l_chk_norm (v : PolyVec) (bound : Z) : Z :=
  for_ 0 L (fun i r => if r =? 0 then
    (if negb (poly_chk_norm (v !!! i) bound =? 0) then 1 else 0) else r) 0.

Definition poly_vec_l_uniform_eta (fuel : nat) (v : PolyVec) (seed : list Z) (nonce : Z)
    : option (Z * PolyVec) :=
  '(err, (v, _)) ← for_err 0 L (fun i '(v, nonce) =>
    '(err, p) ← poly_uniform_eta fuel (v !!! i) seed nonce;
    Some (err, (<[i := p]> v, u16 (nonce + 1)))) (v, nonce);
  Some (err, v).

(** ** Vectors of length [K] *)
Definition poly_vec_k_add (w u v : PolyVec) : PolyVec :=
  for_ 0 K (fun i w => <[i := poly_add (w !!! i) (u !!! i) (v !!! i)]> w) w.
Definition poly_vec_k_sub (w u v : PolyVec) : PolyVec :=
  for_ 0 K (fun i w => <[i := poly_sub (w !!! i) (u !!! i) (v !!! i)]> w) w.
Definition poly_vec_k_shift_l (v : PolyVec) : PolyVec :=
  for_ 0 K (fun i v => <[i := poly_shitf_l (v !!! i)]> v) v.
Definition poly_vec_k_ntt (v : PolyVec) : PolyVec :=
  for_ 0 K (fun i v => <[i := poly_ntt (v !!! i)]> v) v.
Definition poly_vec_k_inv_ntt_to_mont (v : PolyVec) : PolyVec :=
  for_ 0 K (fun i v => <[i := poly_inv_ntt_to_mont (v !!! i)]> v) v.
Definition poly_vec_k_pointwise_poly_montgomery (r : PolyVec) (a : Poly) (v : PolyVec) : PolyVec :=
  for_ 0 K (fun i r => <[i := poly_pointwise_montgomery (r !!! i) a (v !!! i)]> r) r.
Definition poly_vec_k_chk_norm (v : PolyVec) (bound : Z) : Z :=
  for_ 0 K (fun i r => if r =? 0 then
    (if negb (poly_chk_norm (v !!! i) bound =? 0) then 1 else 0) else r) 0.
Definition poly_vec_k_reduce (v : PolyVec) : PolyVec :=
  for_ 0 K (fun i v => <[i := poly_reduce (v !!! i)]> v) v.
Definition poly_vec_k_c_addq (v : PolyVec) : PolyVec :=
  for_ 0 K (fun i v => <[i := poly_c_addq (v !!! i)]> v) v.

Definition poly_vec_k_power2_round (v1 v0 v : PolyVec) : PolyVec * PolyVec :=
  for_ 0 K (fun i '(v1, v0) =>
    let '(p1, p0) := poly_power2_round (v1 !!! i) (v0 !!! i) (v !!! i) in
    (<[i := p1]> v1, <[i := p0]> v0)) (v1, v0).
Definition poly_vec_k_decompose (v1 v0 v : PolyVec) : PolyVec * PolyVec :=
  for_ 0 K (fun i '(v1, v0) =>
    let '(p1, p0) := poly_decompose (v1 !!! i) (v0 !!! i) (v !!! i) in
    (<[i := p1]> v1, <[i := p0]> v0)) (v1, v0).
Definition poly_vec_k_make_hint (h v0 v1 : PolyVec) : PolyVec * Z :=
  for_ 0 K (fun i '(h, s) =>
    let '(p, n) := poly_make_hint (h !!! i) (v0 !!! i) (v1 !!! i) in
    (<[i := p]> h, u32 (s + n))) (h, 0).
Definition poly_vec_k_use_hint (w u h : PolyVec) : PolyVec :=
  for_ 0 K (fun i w => <[i := poly_use_hint (w !!! i) (u !!! i) (h !!! i)]> w) w.

Definition poly_vec_k_uniform_eta (fuel : nat) (v : PolyVec) (seed : list Z) (nonce : Z)
    : option (Z * PolyVec) :=
  '(err, (v, _)) ← for_err 0 K (fun i '(v, nonce) =>
    '(err, p) ← poly_uniform_eta fuel (v !!! i) seed nonce;
    Some (err, (<[i := p]> v, u16 (nonce + 1)))) (v, nonce);
  Some (err, v).

(** The write position accumulates: row [i] goes to offset
    [(0 + 1 + ... + i) * 128], which leaves the [K * 128] bytes of [r] from row 4 on. *)
Definition poly_vec_k_pack_w1 (r : list Z) (r_len : nat) (w1 : PolyVec) : Z * list Z :=
  if negb (r_len =? K * POLY_W1_PACKED_BYTES)%nat then (ERR_INVALID_LENGTH, r) else
  let '(_, r) := for_ 0 K (fun i '(off, r) =>
    let off := (off + i * POLY_W1_PACKED_BYTES)%nat in
    (off, take off r ++ poly_w1_pack (drop off r) (w1 !!! i))) (0%nat, r) in
  (0, r).

(** ** Matrix and inner products *)
Definition poly_vec_matrix_expand (fuel : nat) (mat : list PolyVec) (rho : list Z)
    : option (Z * list PolyVec) :=
  for_err 0 K (fun i mat => for_err 0 L (fun j mat =>
    '(err, p) ← poly_uniform fuel ((mat !!! i) !!! j) rho
      (u16 (u16 (Z.shiftl (Z.of_nat i) 8) + Z.of_nat j));
    Some (err, <[i := <[j := p]> (mat !!! i)]> mat)) mat) mat.

Definition poly_vec_l_pointwise_acc_montgomery (w : Poly) (u v : PolyVec) : Poly :=
  let t := zero_poly in
  let w := poly_pointwise_montgomery w (u !!! 0%nat) (v !!! 0%nat) in
  snd (for_ 1 (L - 1) (fun i '(t, w) =>
    let t := poly_pointwise_montgomery t (u !!! i) (v !!! i) in
    (t, poly_add w w t)) (t, w)).

Definition poly_vec_matrix_pointwise_montgomery (t : PolyVec) (mat : list PolyVec) (v : PolyVec)
    : PolyVec :=
  for_ 0 K (fun i t => <[i := poly_vec_l_pointwise_acc_montgomery (t !!! i) (mat !!! i) v]> t) t.

(** ** Loops over a vector as maps *)
Definition wf_vec (n : nat) (v : PolyVec) : Prop := length v = n /\ Forall wf_poly v.

Lemma wf_vec_get n v i : wf_vec n v -> (i < n)%nat -> wf_poly (v !!! i).
Proof. intros [Hl Hv] Hi. apply (Forall_get wf_poly); [done|by rewrite Hl]. Qed.

Lemma vec_loop_length n (f : nat -> PolyVec -> Poly) (v : PolyVec) :
  length (for_ 0 n (fun i v => <[i := f i v]> v) v) = length v.
Proof.
  apply (for_ind (fun _ t => length t = length v) 0 n); [done|].
  intros i t _ Ht. by rewrite length_insert.
Qed.

(** Entry [i] after a loop that writes entry [i] from the old contents. *)
Lemma vec_loop_get n (f : nat -> Poly -> Poly) (v : PolyVec) i :
  length v = n -> (i < n)%nat ->
  for_ 0 n (fun i v => <[i := f i (v !!! i)]> v) v !!! i = f i (v !!! i).
Proof.
  intros Hl Hi. rewrite (for_imap f) by done.
  by rewrite lookup_total_map_seq.
Qed.
