(* ===== verification/Sign.v ===== *)
(** * ML-DSA-87 in the low-memory layout of the application ([src/src/mldsa87/sign.c])

    The working vectors live in the non-volatile record [N_storage]; a
    [_volatile] function copies one polynomial at a time to the scratch union
    [ubuf], works on the copy and writes it back with [nvm_write].  [ubuf] is dead
    at the entry and at the exit of each of them, so it is a local of the model: a
    call replaces polynomial [i] by a function of the old contents.  The functions
    of the source inline the arithmetic of [poly.c], [ntt.c] and [rounding.c];
    the definitions below name it. *)
From S2P Require Import Prelude CInt Constants Reduce Rounding Keccak Poly Packing Ntt Sampling PolyVec.

(** ** The non-volatile working storage ([internal_storage_t] of [globals.h])

    [pack1] is a union: the last member written. *)
Inductive pack1_t :=
  | PackT0 (t0 : PolyVec)
  | PackBuf (buf_verify : list Z).

Record nvm := Nvm {
  t1 : PolyVec; w1 : PolyVec; w0 : PolyVec; h : PolyVec; y : PolyVec; z : PolyVec; cp : Poly;
  pack1 : pack1_t; sig : list Z; pk : list Z }.

Definition set_t1 v s := Nvm v (w1 s) (w0 s) (h s) (y s) (z s) (cp s) (pack1 s) (sig s) (pk s).
Definition set_w1 v s := Nvm (t1 s) v (w0 s) (h s) (y s) (z s) (cp s) (pack1 s) (sig s) (pk s).
Definition set_w0 v s := Nvm (t1 s) (w1 s) v (h s) (y s) (z s) (cp s) (pack1 s) (sig s) (pk s).
Definition set_h v s := Nvm (t1 s) (w1 s) (w0 s) v (y s) (z s) (cp s) (pack1 s) (sig s) (pk s).
Definition set_y v s := Nvm (t1 s) (w1 s) (w0 s) (h s) v (z s) (cp s) (pack1 s) (sig s) (pk s).
Definition set_z v s := Nvm (t1 s) (w1 s) (w0 s) (h s) (y s) v (cp s) (pack1 s) (sig s) (pk s).
Definition set_cp v s := Nvm (t1 s) (w1 s) (w0 s) (h s) (y s) (z s) v (pack1 s) (sig s) (pk s).
Definition set_pack1 v s := Nvm (t1 s) (w1 s) (w0 s) (h s) (y s) (z s) (cp s) v (sig s) (pk s).
Definition set_sig v s := Nvm (t1 s) (w1 s) (w0 s) (h s) (y s) (z s) (cp s) (pack1 s) v (pk s).
Definition set_pk v s := Nvm (t1 s) (w1 s) (w0 s) (h s) (y s) (z s) (cp s) (pack1 s) (sig s) v.

(** The vector read as [pack1.t0], the bytes read as [pack1.buf_verify]. *)
Definition pack1_t0 (s : nvm) : PolyVec :=
  match pack1 s with PackT0 v => v | PackBuf _ => replicate K zero_poly end.
Definition pack1_buf (s : nvm) : list Z :=
  match pack1 s with PackBuf b => b | PackT0 _ => replicate (K * POLY_W1_PACKED_BYTES) 0 end.

(** ** Operations on stored vectors *)

(** Squeeze [outlen] bytes to RAM, then one write. *)
Definition shake256_squeeze_volatile (ctx : sponge_ctx) (out : list Z) (outlen : nat)
    : list Z * sponge_ctx :=
  let buf := replicate 850 0 in
  let '(o, ctx) := shake256_squeeze ctx outlen in
  (blit out 0 (take outlen (blit buf 0 o)), ctx).

(** Row [i], column [j] of the matrix, sampled in place: the first pass over the
    842 bytes squeezed, then refills. *)
Fixpoint expand_refill (fuel : nat) (ctx : sponge_ctx) (buf : list Z) (bufLen ctr : nat)
    (poly_buffer : Poly) : option Poly :=
  if (ctr <? N)%nat then
    match fuel with
    | O => None
    | S fuel =>
      let off := (bufLen mod 3)%nat in
      let buf := if negb (off =? 0)%nat then blit buf 0 (take off (drop (bufLen - off) buf)) else buf in
      let '(out, ctx) := shake128_squeeze ctx STREAM_128_BLOCK_BYTES in
      let buf := blit buf off out in
      let bufLen := (STREAM_128_BLOCK_BYTES + off)%nat in
      '(ctrNew, tail) ← rej_uniform (drop ctr poly_buffer) (N - ctr) buf bufLen;
      expand_refill fuel ctx buf bufLen (ctr + ctrNew) (take ctr poly_buffer ++ tail)
    end
  else Some poly_buffer.

Definition expand_entry (fuel : nat) (rho : list Z) (i j : nat) : option Poly :=
  let poly_buffer := replicate 256 0 in
  let ctx := shake128_init in
  let ctx := shake128_absorb ctx rho SEED_BYTES in
  let nonce := u16 (u16 (Z.shiftl (Z.of_nat i) 8) + Z.of_nat j) in
  let ctx := shake128_absorb ctx (nonce_bytes nonce) 2 in
  let ctx := shake128_finalize ctx in
  let bufLen := (POLY_UNIFORM_N_BLOCKS * STREAM_128_BLOCK_BYTES + 2)%nat in
  let '(out, ctx) := shake128_squeeze ctx bufLen in
  let buf := blit (replicate 850 0) 0 out in
  '(ctr, poly_buffer) ← rej_uniform poly_buffer N buf bufLen;
  expand_refill fuel ctx buf (POLY_UNIFORM_N_BLOCKS * STREAM_128_BLOCK_BYTES) ctr poly_buffer.

(** [combined_method]: the matrix-vector product, one matrix entry at a time. *)
Definition combined_method (fuel : nat) (t1 s1hat : PolyVec) (rho : list Z) : option PolyVec :=
  for_ 0 K (fun i t1 =>
    t1 ← t1;
    fst <$> for_ 0 L (fun j st =>
      '(t1, t_poly) ← st;
      poly_buffer ← expand_entry fuel rho i j;
      let temp := t1 !!! i in
      if (j =? 0)%nat then
        Some (<[i := poly_pointwise_montgomery temp poly_buffer (s1hat !!! j)]> t1, t_poly)
      else
        let t_poly := poly_pointwise_montgomery t_poly poly_buffer (s1hat !!! j) in
        Some (<[i := poly_add temp temp t_poly]> t1, t_poly)) (Some (t1, zero_poly)))
    (Some t1).

Definition poly_vec_k_reduce_volatile (v : PolyVec) : PolyVec :=
  for_ 0 K (fun i v => <[i := poly_reduce (v !!! i)]> v) v.
Definition poly_vec_k_inv_ntt_to_mont_volatile (v : PolyVec) : PolyVec :=
  for_ 0 K (fun i v => <[i := inv_ntt_to_mont (v !!! i)]> v) v.
Definition poly_vec_k_add_volatile (w v : PolyVec) : PolyVec :=
  for_ 0 K (fun i w => <[i := poly_add (w !!! i) (w !!! i) (v !!! i)]> w) w.
Definition poly_vec_k_ntt_volatile (v : PolyVec) : PolyVec :=
  for_ 0 K (fun i v => <[i := ntt (v !!! i)]> v) v.
Definition poly_vec_k_c_addq_volatile (v : PolyVec) : PolyVec :=
  for_ 0 K (fun i v => <[i := poly_c_addq (v !!! i)]> v) v.

(** First every low part, then every high part; [v] may be the array of [v1], and
    is only read at the index about to be written. *)
Definition poly_vec_k_power2_round_volatile (v1 v0 v : PolyVec) : PolyVec * PolyVec :=
  let v0 := for_ 0 K (fun i v0 =>
    <[i := for_ 0 N (fun j p => <[j := snd (power2_round ((v !!! i) !!! j))]> p) (v0 !!! i)]> v0) v0 in
  let v1 := for_ 0 K (fun i v1 =>
    <[i := for_ 0 N (fun j p => <[j := fst (power2_round ((v !!! i) !!! j))]> p) (v1 !!! i)]> v1) v1 in
  (v1, v0).
Definition poly_vec_k_power2_round_volatile_keypair (v1 v : PolyVec) : PolyVec :=
  for_ 0 K (fun i v1 =>
    <[i := for_ 0 N (fun j p => <[j := fst (power2_round ((v !!! i) !!! j))]> p) (v1 !!! i)]> v1) v1.

(** [N_storage.pk]. *)
Definition pack_pk_volatile (rho : list Z) (t1 : PolyVec) (pk : list Z) : list Z :=
  let temp1 := for_ 0 SEED_BYTES (fun i temp1 => <[i := rho !!! i]> temp1) (replicate SEED_BYTES 0) in
  let pk := blit pk 0 temp1 in
  for_ 0 K (fun b pk =>
    let temp2 := poly_t1_pack (replicate POLY_T1_PACKED_BYTES 0) (t1 !!! b) in
    blit pk (SEED_BYTES + b * POLY_T1_PACKED_BYTES) temp2) pk.

Definition poly_vec_l_uniform_gamma1_volatile (v : PolyVec) (seed : list Z) (nonce : Z) : PolyVec :=
  for_ 0 L (fun j v =>
    <[j := poly_uniform_gamma1 (v !!! j) seed (u16 (Z.of_nat L * nonce + Z.of_nat j))]> v) v.
Definition poly_vec_l_ntt_volatile (v : PolyVec) : PolyVec :=
  for_ 0 L (fun i v => <[i := ntt (v !!! i)]> v) v.

(** Low parts first, then high parts, as for [power2_round]. *)
Definition poly_vec_k_decompose_volatile (v1 v0 v : PolyVec) : PolyVec * PolyVec :=
  let v0 := for_ 0 K (fun i v0 =>
    <[i := for_ 0 N (fun j p => <[j := snd (decompose ((v !!! i) !!! j))]> p) (v0 !!! i)]> v0) v0 in
  let v1 := for_ 0 K (fun i v1 =>
    <[i := for_ 0 N (fun j p => <[j := fst (decompose ((v !!! i) !!! j))]> p) (v1 !!! i)]> v1) v1 in
  (v1, v0).

Definition poly_vec_k_pack_w1_volatile (r : list Z) (w1 : PolyVec) : list Z :=
  for_ 0 K (fun i r =>
    blit r (i * POLY_W1_PACKED_BYTES)
      (poly_w1_pack (replicate POLY_W1_PACKED_BYTES 0) (w1 !!! i))) r.
Definition poly_vec_k_pack_w1_volatile_verify (r : list Z) (w1 : PolyVec) : list Z :=
  for_ 0 K (fun i r =>
    blit r (i * POLY_W1_PACKED_BYTES)
      (poly_w1_pack (replicate POLY_W1_PACKED_BYTES 0) (w1 !!! i))) r.

Definition poly_vec_l_pointwise_poly_montgomery_volatile (r : PolyVec) (a : Poly) (v : PolyVec)
    : PolyVec :=
  for_ 0 L (fun i r => <[i := poly_pointwise_montgomery (r !!! i) a (v !!! i)]> r) r.
Definition poly_vec_l_inv_ntt_to_mont_volatile (v : PolyVec) : PolyVec :=
  for_ 0 L (fun i v => <[i := inv_ntt_to_mont (v !!! i)]> v) v.
Definition poly_vec_l_add_volatile (w v : PolyVec) : PolyVec :=
  for_ 0 L (fun i w => <[i := poly_add (w !!! i) (w !!! i) (v !!! i)]> w) w.
Definition poly_vec_l_reduce_volatile (v : PolyVec) : PolyVec :=
  for_ 0 L (fun i v => <[i := poly_reduce (v !!! i)]> v) v.
Definition poly_vec_k_sub_volatile (w u v : PolyVec) : PolyVec :=
  for_ 0 K (fun i w => <[i := poly_sub (w !!! i) (u !!! i) (v !!! i)]> w) w.
Definition poly_vec_k_pointwise_poly_montgomery_volatile (r : PolyVec) (a : Poly) (v : PolyVec)
    : PolyVec :=
  for_ 0 K (fun i r => <[i := poly_pointwise_montgomery (r !!! i) a (v !!! i)]> r) r.

(** Without the length check of [poly_challenge]. *)
Definition poly_challenge_volatile (fuel : nat) (c : Poly) (seed : list Z) (seed_len : nat)
    : option (Z * Poly) :=
  let ctx := shake256_init in
  let ctx := shake256_absorb ctx seed seed_len in
  let ctx := shake256_finalize ctx in
  let '(buf, ctx) := shake256_squeeze ctx SHAKE256_RATE in
  let signs := challenge_signs buf in
  let c := for_ 0 N (fun i c => <[i := 0]> c) c in
  '(c, _, _) ← for_ (N - TAU) TAU (challenge_step fuel) (Some (c, signs, (ctx, buf, 8%nat)));
  Some (0, c).
Definition poly_ntt_volatile (a : Poly) : Poly := ntt a.

Definition poly_vec_k_make_hint_volatile (h v0 v1 : PolyVec) : PolyVec * Z :=
  for_ 0 K (fun i '(h, s) =>
    let '(p, s2) := poly_make_hint (h !!! i) (v0 !!! i) (v1 !!! i) in
    (<[i := p]> h, u32 (s + s2))) (h, 0).

Definition poly_vec_k_shift_l_volatile (v : PolyVec) : PolyVec :=
  for_ 0 K (fun i v => <[i := poly_shitf_l (v !!! i)]> v) v.
Definition poly_vec_k_use_hint_volatile (w u h : PolyVec) : PolyVec :=
  for_ 0 K (fun i w => <[i := poly_use_hint (w !!! i) (u !!! i) (h !!! i)]> w) w.

(** ** The signature encoding *)

(** The hint bytes: the positions of the ones, row after row, and the running
    count of each row. *)
Definition encode_hint (h : PolyVec) : list Z :=
  fst (for_ 0 K (fun i st =>
    for_ 0 N (fun j '(temp3, k) =>
      let '(temp3, k) :=
        if negb ((h !!! i) !!! j =? 0) then (<[k := u8 (Z.of_nat j)]> temp3, (k + 1)%nat)
        else (temp3, k) in
      (<[(OMEGA + i)%nat := u8 (Z.of_nat k)]> temp3, k)) st)
    (replicate (OMEGA + K) 0, 0%nat)).

Definition pack_sig_volatile (sig : list Z) (sigb_len : nat) (c : list Z) (z h : PolyVec)
    : Z * list Z :=
  if negb (sigb_len =? CRYPTO_BYTES)%nat then (ERR_INVALID_SIGB_LENGTH, sig) else
  let temp1 := for_ 0 CTILDE_BYTES (fun i temp1 => <[i := c !!! i]> temp1) (replicate CTILDE_BYTES 0) in
  let sig := blit sig 0 temp1 in
  let sig := for_ 0 L (fun b sig =>
    let buf := poly_z_pack (replicate 850 0) (z !!! b) in
    blit sig (CTILDE_BYTES + b * POLY_Z_PACKED_BYTES) (take POLY_Z_PACKED_BYTES buf)) sig in
  let sig := blit sig (CTILDE_BYTES + L * POLY_Z_PACKED_BYTES) (replicate (OMEGA + K) 0) in
  let sig := blit sig (CTILDE_BYTES + L * POLY_Z_PACKED_BYTES) (encode_hint h) in
  (ERR_NONE, sig).

(** One row of the hint: positions [k .. n), which must increase.  The return value
    and the row. *)
Fixpoint decode_row (sig : list Z) (base k j count : nat) (row : Poly) : Z * Poly :=
  match count with
  | O => (0, row)
  | S count =>
    if (k <? j)%nat && (sig !!! (base + j)%nat <=? sig !!! (base + j - 1)%nat) then (1, row)
    else decode_row sig base k (j + 1) count (<[Z.to_nat (sig !!! (base + j)%nat) := 1]> row)
  end.

(** The return value and the decoded rows. *)
Definition decode_hint (sig : list Z) (h : PolyVec) : Z * PolyVec :=
  let base := (CTILDE_BYTES + L * POLY_Z_PACKED_BYTES)%nat in
  let '(ret, k, h) := for_ 0 K (fun i '(ret, k, h) =>
    if negb (ret =? 0) then (ret, k, h) else
    let h := <[i := for_ 0 N (fun j p => <[j := 0]> p) (h !!! i)]> h in
    let n := sig !!! (base + OMEGA + i)%nat in
    if (n <? Z.of_nat k) || (Z.of_nat OMEGA <? n) then (1, k, h) else
    let '(ret, row) := decode_row sig base k k (Z.to_nat n - k) (h !!! i) in
    (ret, Z.to_nat n, <[i := row]> h)) (0, 0%nat, h) in
  if negb (ret =? 0) then (ret, h) else
  (for_ k (OMEGA - k) (fun j ret =>
     if negb (ret =? 0) then ret else if negb (sig !!! (base + j)%nat =? 0) then 1 else 0) 0, h).

(** [copy_array] of [utils.c]: as many bytes as both arrays have. *)
Definition copy_array (dst : list Z) (dst_len : nat) (src : list Z) (src_len : nat) : list Z :=
  let len := if (dst_len <? src_len)%nat then dst_len else src_len in
  memcpy dst src len.

(** [c], the stored [z] and [h], and the return value. *)
Definition unpack_sig_volatile (z h : PolyVec) (sig : list Z) : Z * list Z * PolyVec * PolyVec :=
  let c := copy_array (replicate CTILDE_BYTES 0) CTILDE_BYTES sig CTILDE_BYTES in
  let z := for_ 0 L (fun b z =>
    <[b := poly_z_unpack (z !!! b) (drop (CTILDE_BYTES + b * POLY_Z_PACKED_BYTES) sig)]> z) z in
  let '(ret, h) := decode_hint sig h in
  (ret, c, z, h).

(** ** Key generation *)

(** SHAKE256 of the concatenated inputs. *)
Definition shake256_of (inputs : list (list Z)) : sponge_ctx :=
  shake256_finalize (fold_left (fun ctx m => shake256_absorb ctx m (length m)) inputs shake256_init).

(** The three strings expanded from the seed: [rho], [rhoPrime], [key]. *)
Definition expand_seed (seed : list Z) : list Z * list Z * list Z :=
  let ctx := shake256_of [take SEED_BYTES seed; [Z.of_nat K; Z.of_nat L]] in
  let '(rho, ctx) := shake256_squeeze ctx SEED_BYTES in
  let '(rhoPrime, ctx) := shake256_squeeze ctx CRH_BYTES in
  let '(key, ctx) := shake256_squeeze ctx SEED_BYTES in
  (rho, rhoPrime, key).

Definition zero_vec (n : nat) : PolyVec := replicate n zero_poly.
(** The erased record. *)
Definition zero_nvm : nvm :=
  Nvm (zero_vec K) (zero_vec K) (zero_vec K) (zero_vec K) (zero_vec L) (zero_vec L) zero_poly
    (PackT0 (zero_vec K)) (replicate CRYPTO_BYTES 0) (replicate CRYPTO_PUBLIC_KEY_BYTES 0).

(** The key pair, as the three entry points compute it: first the product with
    the matrix, then [t1], [t0] and the public key in NVM. *)
Definition keygen_product (fuel : nat) (rho : list Z) (s1hat : PolyVec) (st : nvm) : option nvm :=
  t ← combined_method fuel (t1 st) s1hat rho;
  let st := set_t1 t st in
  let st := set_t1 (poly_vec_k_reduce_volatile (t1 st)) st in
  Some (set_t1 (poly_vec_k_inv_ntt_to_mont_volatile (t1 st)) st).
Definition keygen_finish (rho : list Z) (s2 : PolyVec) (st : nvm) : nvm :=
  let st := set_t1 (poly_vec_k_add_volatile (t1 st) s2) st in
  let st := set_t1 (poly_vec_k_c_addq_volatile (t1 st)) st in
  let '(v1, v0) := poly_vec_k_power2_round_volatile (t1 st) (pack1_t0 st) (t1 st) in
  let st := set_t1 v1 (set_pack1 (PackT0 v0) st) in
  set_pk (pack_pk_volatile rho (t1 st) (pk st)) st.

(** [seed] is [None] for a null pointer; [rng] is what [cx_rng] then returns. *)
Definition crypto_sign_keypair (fuel : nat) (rng : list Z) (seed : option (list Z)) (st : nvm)
    : option (Z * nvm) :=
  let seed := match seed with None => rng | Some seed => seed end in
  let '(rho, rhoPrime, key) := expand_seed seed in
  '(err, s1) ← poly_vec_l_uniform_eta fuel (zero_vec L) rhoPrime 0;
  if negb (err =? 0) then Some (err, st) else
  '(err, s2) ← poly_vec_k_uniform_eta fuel (zero_vec K) rhoPrime (Z.of_nat L);
  if negb (err =? 0) then Some (err, st) else
  let s1 := poly_vec_l_ntt s1 in
  st ← keygen_product fuel rho s1 st;
  let st := set_t1 (poly_vec_k_add_volatile (t1 st) s2) st in
  let st := set_t1 (poly_vec_k_c_addq_volatile (t1 st)) st in
  let st := set_t1 (poly_vec_k_power2_round_volatile_keypair (t1 st) (t1 st)) st in
  let st := set_pk (pack_pk_volatile rho (t1 st) (pk st)) st in
  Some (0, st).

(** [mldsa87.c]. *)
Definition new_mldsa87_from_seed (fuel : nat) (rng : list Z) (seed : option (list Z)) (st : nvm)
    : option (Z * nvm) :=
  '(err, st) ← crypto_sign_keypair fuel rng seed st;
  if negb (err =? 0) then Some (err, st) else Some (ERR_NONE, st).

(** ** The operating system

    [os_derive_bip32 path] is the error code and the 64 bytes written to
    [raw_seed] by [os_derive_bip32_no_throw]. *)
Class OS := { os_derive_bip32 : list Z -> Z * list Z }.

(** [pre]: 0, the length of the context, the context. *)
Definition context_prefix : list Z :=
  let pre := replicate (CTX_LEN + 2) 0 in
  let pre := <[0%nat := 0]> pre in
  let pre := <[1%nat := u8 (Z.of_nat CTX_LEN)]> pre in
  for_ 0 CTX_LEN (fun i pre => <[(i + 2)%nat := CTX !!! i]> pre) pre.

(** ** Signing *)

(** One turn from the label [rej], cut where the code tests or calls a sampler.  The
    masking vector [y], and its transform in [z]. *)
Definition attempt_mask (rhoPrime : list Z) (nonce : Z) (st : nvm) : nvm :=
  let st := set_y (poly_vec_l_uniform_gamma1_volatile (y st) rhoPrime nonce) st in
  let st := set_z (for_ 0 L (fun i z =>
    <[i := for_ 0 N (fun j p => <[j := (y st !!! i) !!! j]> p) (z !!! i)]> z) (z st)) st in
  set_z (poly_vec_l_ntt_volatile (z st)) st.

(** From the product with the matrix to the challenge hash, in [sig]. *)
Definition attempt_commit (mu : list Z) (w : PolyVec) (st : nvm) : nvm :=
  let st := set_w1 w st in
  let st := set_w1 (poly_vec_k_reduce_volatile (w1 st)) st in
  let st := set_w1 (poly_vec_k_inv_ntt_to_mont_volatile (w1 st)) st in
  let st := set_w1 (poly_vec_k_c_addq_volatile (w1 st)) st in
  let '(v1, v0) := poly_vec_k_decompose_volatile (w1 st) (w0 st) (w1 st) in
  let st := set_w1 v1 (set_w0 v0 st) in
  let st := set_sig (poly_vec_k_pack_w1_volatile (sig st) (w1 st)) st in
  let ctx := shake256_of [mu; take (K * POLY_W1_PACKED_BYTES) (sig st)] in
  set_sig (fst (shake256_squeeze_volatile ctx (sig st) CTILDE_BYTES)) st.

(** [z = y + c s1]. *)
Definition attempt_z (s1 : PolyVec) (c : Poly) (st : nvm) : nvm :=
  let st := set_cp c st in
  let st := set_cp (poly_ntt_volatile (cp st)) st in
  let st := set_z (poly_vec_l_pointwise_poly_montgomery_volatile (z st) (cp st) s1) st in
  let st := set_z (poly_vec_l_inv_ntt_to_mont_volatile (z st)) st in
  let st := set_z (poly_vec_l_add_volatile (z st) (y st)) st in
  set_z (poly_vec_l_reduce_volatile (z st)) st.

(** [w0 - c s2], with [c s2] in [h]. *)
Definition attempt_w0 (s2 : PolyVec) (st : nvm) : nvm :=
  let st := set_h (poly_vec_k_pointwise_poly_montgomery_volatile (h st) (cp st) s2) st in
  let st := set_h (poly_vec_k_inv_ntt_to_mont_volatile (h st)) st in
  let st := set_w0 (poly_vec_k_sub_volatile (w0 st) (w0 st) (h st)) st in
  set_w0 (poly_vec_k_reduce_volatile (w0 st)) st.

(** [h = c t0]. *)
Definition attempt_h (st : nvm) : nvm :=
  let st := set_h (poly_vec_k_pointwise_poly_montgomery_volatile (h st) (cp st) (pack1_t0 st)) st in
  let st := set_h (poly_vec_k_inv_ntt_to_mont_volatile (h st)) st in
  set_h (poly_vec_k_reduce_volatile (h st)) st.

(** The hint, over [h], and the number of its ones. *)
Definition attempt_hint (st : nvm) : nvm * Z :=
  let st := set_w0 (poly_vec_k_add_volatile (w0 st) (h st)) st in
  let '(hv, n_ret) := poly_vec_k_make_hint_volatile (h st) (w0 st) (w1 st) in
  (set_h hv st, n_ret).

(** [true] when every check passes, [false] for [goto rej]. *)
Definition attempt_respond (s1 s2 : PolyVec) (c : Poly) (st : nvm) : bool * nvm :=
  let st := attempt_z s1 c st in
  if negb (poly_vec_l_chk_norm (z st) (GAMMA1 - BETA) =? 0) then (false, st) else
  let st := attempt_w0 s2 st in
  if negb (poly_vec_k_chk_norm (w0 st) (GAMMA2 - BETA) =? 0) then (false, st) else
  let st := attempt_h st in
  if negb (poly_vec_k_chk_norm (h st) GAMMA2 =? 0) then (false, st) else
  let '(st, n_ret) := attempt_hint st in
  if Z.of_nat OMEGA <? n_ret then (false, st) else (true, st).

Definition sign_attempt (fuel : nat) (rho rhoPrime mu : list Z) (s1 s2 : PolyVec) (nonce : Z)
    (st : nvm) : option (bool * nvm) :=
  let st := attempt_mask rhoPrime nonce st in
  w ← combined_method fuel (w1 st) (z st) rho;
  let st := attempt_commit mu w st in
  '(_, c) ← poly_challenge_volatile fuel (cp st) (sig st) CTILDE_BYTES;
  Some (attempt_respond s1 s2 c st).

(** At most [attempts] more attempts. *)
Fixpoint sign_loop (fuel attempts : nat) (rho rhoPrime mu : list Z) (s1 s2 : PolyVec) (nonce : Z)
    (st : nvm) : option (Z * nvm) :=
  match attempts with
  | O => Some (ERR_INVALID_SIGNATURE, st)
  | S attempts =>
    '(done, st) ← sign_attempt fuel rho rhoPrime mu s1 s2 nonce st;
    if done : bool then
      let c := for_ 0 CTILDE_BYTES (fun i c => <[i := sig st !!! i]> c) (replicate CTILDE_BYTES 0) in
      let '(err, sg) := pack_sig_volatile (sig st) CRYPTO_BYTES c (z st) (h st) in
      Some (err, set_sig sg st)
    else sign_loop fuel attempts rho rhoPrime mu s1 s2 (u16 (nonce + 1)) st
  end.
Definition MAX_ATTEMPTS : nat := 814.

(** [rnd] is what [cx_rng] returns; a message is [None] for a null pointer. *)
Definition crypto_sign_optimized `{OS} (fuel : nat) (rnd : list Z) (bip32_path : list Z)
    (message : option (list Z)) (st : nvm) : option (Z * nvm) :=
  match message with None | Some [] => Some (ERR_INVALID_MESSAGE, st) | Some message =>
  let '(err, raw_seed) := os_derive_bip32 bip32_path in
  if negb (err =? 0) then Some (-1, st) else
  let seed := for_ 0 32 (fun i seed => <[i := raw_seed !!! i]> seed) (replicate 32 0) in
  let '(rho, rhoPrime, key) := expand_seed seed in
  '(err, s1) ← poly_vec_l_uniform_eta fuel (zero_vec L) rhoPrime 0;
  if negb (err =? 0) then Some (err, st) else
  st ← keygen_product fuel rho (poly_vec_l_ntt s1) st;
  '(err, s2) ← poly_vec_k_uniform_eta fuel (zero_vec K) rhoPrime (Z.of_nat L);
  if negb (err =? 0) then Some (err, st) else
  let st := keygen_finish rho s2 st in
  let tr := fst (shake256_squeeze (shake256_of [pk st]) TR_BYTES) in
  let mu := fst (shake256_squeeze (shake256_of [tr; context_prefix; message]) CRH_BYTES) in
  let rhoPrime := fst (shake256_squeeze (shake256_of [key; rnd; mu]) CRH_BYTES) in
  let s1 := poly_vec_l_ntt s1 in
  let s2 := poly_vec_k_ntt s2 in
  let st := set_pack1 (PackT0 (poly_vec_k_ntt_volatile (pack1_t0 st))) st in
  sign_loop fuel MAX_ATTEMPTS rho rhoPrime mu s1 s2 0 st
  end.

(** ** Verification

    The return value, [*is_verified] ([None] where it is left unwritten) and the
    storage. *)
Definition crypto_verify_optimized `{OS} (fuel : nat) (bip32_path : list Z)
    (sg : option (list Z)) (message : option (list Z)) (st : nvm) : option (Z * option bool * nvm) :=
  match sg with None | Some [] => Some (ERR_INVALID_SIGNATURE, Some false, st) | Some sg =>
  match message with None | Some [] => Some (ERR_INVALID_MESSAGE, Some false, st) | Some message =>
  if negb (length sg =? CRYPTO_BYTES)%nat then Some (ERR_INVALID_SIGNATURE, Some false, st) else
  let '(err, raw_seed) := os_derive_bip32 bip32_path in
  if negb (err =? 0) then Some (-1, Some false, st) else
  let seed := for_ 0 32 (fun i seed => <[i := raw_seed !!! i]> seed) (replicate 32 0) in
  let '(rho, rhoPrime, key) := expand_seed seed in
  '(err, s1) ← poly_vec_l_uniform_eta fuel (zero_vec L) rhoPrime 0;
  if negb (err =? 0) then Some (err, None, st) else
  '(err, s2) ← poly_vec_k_uniform_eta fuel (zero_vec K) rhoPrime (Z.of_nat L);
  if negb (err =? 0) then Some (err, None, st) else
  st ← keygen_product fuel rho (poly_vec_l_ntt s1) st;
  let st := keygen_finish rho s2 st in
  let '(ret, c, zv, hv) := unpack_sig_volatile (z st) (h st) sg in
  let st := set_z zv (set_h hv st) in
  if negb (ret =? 0) then Some (0, Some false, st) else
  if negb (poly_vec_l_chk_norm (z st) (GAMMA1 - BETA) =? 0) then Some (0, Some false, st) else
  let mu := fst (shake256_squeeze (shake256_of [pk st]) TR_BYTES) in
  let mu := fst (shake256_squeeze (shake256_of [mu; context_prefix; message]) CRH_BYTES) in
  '(err, cv) ← poly_challenge_volatile fuel (cp st) c CTILDE_BYTES;
  if negb (err =? 0) then Some (err, Some false, st) else
  let st := set_cp cv st in
  let st := set_z (poly_vec_l_ntt_volatile (z st)) st in
  w ← combined_method fuel (w1 st) (z st) rho;
  let st := set_w1 w st in
  let st := set_cp (poly_ntt_volatile (cp st)) st in
  let st := set_t1 (poly_vec_k_shift_l_volatile (t1 st)) st in
  let st := set_t1 (poly_vec_k_ntt_volatile (t1 st)) st in
  let st := set_t1 (poly_vec_k_pointwise_poly_montgomery_volatile (t1 st) (cp st) (t1 st)) st in
  let st := set_w1 (poly_vec_k_sub_volatile (w1 st) (w1 st) (t1 st)) st in
  let st := set_w1 (poly_vec_k_reduce_volatile (w1 st)) st in
  let st := set_w1 (poly_vec_k_inv_ntt_to_mont_volatile (w1 st)) st in
  let st := set_w1 (poly_vec_k_c_addq_volatile (w1 st)) st in
  let st := set_w1 (poly_vec_k_use_hint_volatile (w1 st) (w1 st) (h st)) st in
  let st := set_pack1 (PackBuf (poly_vec_k_pack_w1_volatile_verify (pack1_buf st) (w1 st))) st in
  let c2 := fst (shake256_squeeze (shake256_of [mu; pack1_buf st]) CTILDE_BYTES) in
  Some (ERR_NONE, Some (for_ 0 CTILDE_BYTES (fun i ok => ok && (c !!! i =? c2 !!! i)) true), st)
  end end.

(** ** Erasing the secrets *)

(** [nvm_zero]: the region in chunks of at most 256 zero bytes. *)
Fixpoint nvm_zero_loop (fuel off len : nat) (dst : list Z) : list Z :=
  match fuel with
  | O => dst
  | S fuel =>
    if (off <? len)%nat then
      let chunk := if (256 <? len - off)%nat then 256%nat else (len - off)%nat in
      nvm_zero_loop fuel (off + chunk) len (blit dst off (replicate chunk 0))
    else dst
  end.
Definition nvm_zero (dst : list Z) (len : nat) : list Z := nvm_zero_loop len 0 len dst.

(** The bytes of an object made of [int32_t]s, and the object they make. *)
Definition int_bytes (v : PolyVec) : list Z := concat v ≫= (fun x => le_bytes 4 (u32 x)).
Fixpoint bytes_ints (n : nat) (l : list Z) : list Z :=
  match n with O => [] | S n => s32 (le_val (take 4 l)) :: bytes_ints n (drop 4 l) end.
Definition bytes_vec (n : nat) (l : list Z) : PolyVec :=
  map (fun i => bytes_ints N (drop (4 * N * i) l)) (seq 0 n).

Definition wipe_nvm_secrets (st : nvm) : nvm :=
  let st := set_y (bytes_vec L (nvm_zero (int_bytes (y st)) (4 * N * L))) st in
  let st := set_pack1 (PackT0 (bytes_vec K (nvm_zero (int_bytes (pack1_t0 st)) (4 * N * K)))) st in
  set_w0 (bytes_vec K (nvm_zero (int_bytes (w0 st)) (4 * N * K))) st.
