(* ===== verification/SignCore.v ===== *)
(** * The arithmetic of key generation, signing and verification

    What each stored-vector operation of [Sign] does to the coefficients, with the
    bounds that exclude overflow, and the values at the roots of [X^256 + 1] that
    the protocol equations are about. *)
From S2P Require Import Prelude CInt Constants Reduce Rounding KeccakSpec Keccak Sponge Poly Packing Ntt Sampling PolyVec Sign.

(** ** Matrix entries *)
Lemma accepted3_app l r : (length l mod 3 = 0)%nat -> accepted3 (l ++ r) = accepted3 l ++ accepted3 r.
Proof.
  revert l. fix IH 1. intros [|b0 [|b1 [|b2 l]]] Hl; try done.
  cbn [app accepted3]. rewrite IH; [by destruct (_ <? _)|].
  cbn [length] in Hl. replace (S (S (S (length l)))) with (length l + 1 * 3)%nat in Hl by lia.
  by rewrite Nat.Div0.mod_add in Hl.
Qed.

Definition entry_nonce (i j : nat) : Z := u16 (u16 (Z.shiftl (Z.of_nat i) 8) + Z.of_nat j).

Section entry.
Context (rho : list Z) (i j : nat) (Hs : bytes rho) (Hl : length rho = SEED_BYTES).
Let m := rho ++ nonce_bytes (entry_nonce i j).

(** The coefficients available after [k] refills: the first 840 bytes of the
    stream, then the bytes from offset 842 on. *)
Definition entry_accepted (k : nat) : list Z :=
  accepted3 (SHAKE128 (rho ++ nonce_bytes (entry_nonce i j)) 840) ++
  accepted3 (drop 842 (SHAKE128 (rho ++ nonce_bytes (entry_nonce i j)) (842 + 168 * k))).

Local Lemma entry_seed_bytes : bytes m.
Proof. by apply seeded_bytes. Qed.

Lemma entry_accepted_S k :
  entry_accepted (S k) =
    entry_accepted k ++ accepted3 (drop (842 + 168 * k) (SHAKE128 m (842 + 168 * k + 168))).
Proof.
  unfold entry_accepted. fold m. rewrite <- app_assoc. f_equal.
  replace (842 + 168 * S k)%nat with (842 + 168 * k + 168)%nat by lia.
  rewrite (SHAKE128_snoc m (842 + 168 * k) 168) by apply entry_seed_bytes.
  rewrite drop_app_le by (rewrite SHAKE128_length by apply entry_seed_bytes; lia).
  rewrite accepted3_app.
  - do 2 f_equal. rewrite <- SHAKE128_snoc by apply entry_seed_bytes. done.
  - rewrite length_drop, SHAKE128_length by apply entry_seed_bytes.
    replace (842 + 168 * k - 842)%nat with (56 * k * 3)%nat by lia. apply Nat.Div0.mod_mul.
Qed.

Lemma entry_accepted_mono k n :
  (N <= length (entry_accepted k))%nat ->
  first_coeffs (entry_accepted (k + n)) = first_coeffs (entry_accepted k).
Proof.
  intros Hk. induction n as [|n IH]; [by rewrite Nat.add_0_r|].
  rewrite Nat.add_succ_r, entry_accepted_S. rewrite <- IH. unfold first_coeffs in *.
  destruct (Nat.leb_spec N (length (entry_accepted k))); [|lia].
  destruct (Nat.leb_spec N (length (entry_accepted (k + n)))); [|done].
  rewrite length_app, (proj2 (Nat.leb_le _ _)) by lia. by rewrite take_app_le by lia.
Qed.

Lemma expand_refill_spec fuel k buf bufLen a ctr :
  wf_poly a -> length buf = 850%nat -> bytes buf -> (bufLen mod 3 = 0)%nat ->
  ctr = length (take N (entry_accepted k)) ->
  expand_refill fuel (ctx_after SHAKE128_RATE 0x1F m (842 + 168 * k)) buf bufLen ctr
    (blit a 0 (take N (entry_accepted k))) =
  snd <$> first_coeffs (entry_accepted (k + fuel)).
Proof.
  intros Ha. revert k buf bufLen ctr.
  induction fuel as [|fuel IH]; intros k buf bufLen ctr Hbuf Hbb Hmod ->;
    cbn [expand_refill]; rewrite length_take.
  - rewrite Nat.add_0_r. unfold first_coeffs.
    destruct (Nat.ltb_spec (N `min` length (entry_accepted k)) N);
      destruct (Nat.leb_spec N (length (entry_accepted k))); try lia; [done|].
    cbn [fmap option_fmap option_map snd]. f_equal. apply blit_all. rewrite length_take, Ha. lia.
  - destruct (Nat.ltb_spec (N `min` length (entry_accepted k)) N) as [Hlt|Hge].
    2: { rewrite entry_accepted_mono by lia. unfold first_coeffs.
         rewrite (proj2 (Nat.leb_le _ _)) by lia. cbn [fmap option_fmap option_map snd].
         f_equal. apply blit_all. rewrite length_take, Ha. lia. }
    rewrite Hmod, Nat.eqb_refl. cbn [negb]. rewrite shake128_squeeze_after by apply entry_seed_bytes.
    change STREAM_128_BLOCK_BYTES with 168%nat. rewrite Nat.add_0_r.
    set (out := drop _ (SHAKE128 m _)).
    assert (Hout : length out = 168%nat).
    { unfold out. rewrite length_drop, SHAKE128_length by apply entry_seed_bytes. lia. }
    assert (Hbout : bytes out) by (apply Forall_drop, SHAKE128_bytes, entry_seed_bytes).
    rewrite (take_ge (entry_accepted k)) by lia.
    replace (N `min` length (entry_accepted k))%nat with (length (entry_accepted k)) by lia.
    pose proof (fill_more a (entry_accepted k) (accepted3 out) Ha ltac:(lia)) as [Hf1 Hf2].
    assert (Hb' : bytes (blit buf 0 out))
      by (rewrite blit_0; apply Forall_app; split; [done|by apply Forall_drop]).
    rewrite rej_uniform_spec; [|done| |]; cycle 1.
    { rewrite length_drop, blit_0, length_app, length_drop, Ha. lia. }
    { rewrite blit_0, length_app, length_drop. lia. }
    assert (Ht : take 168 (blit buf 0 out) = out)
      by (rewrite blit_0, take_app_le, (take_ge out) by lia; reflexivity).
    rewrite Ht. cbn [mbind option_bind]. rewrite Hf1, Hf2.
    assert (Hstep : entry_accepted k ++ accepted3 out = entry_accepted (S k))
      by (symmetry; apply entry_accepted_S).
    rewrite Hstep. clearbody out.
    replace (842 + 168 * k + 168)%nat with (842 + 168 * S k)%nat by lia.
    rewrite IH; [by rewrite Nat.add_succ_comm| |exact Hb'|reflexivity|reflexivity].
    rewrite blit_0, length_app, length_drop. lia.
Qed.

Lemma expand_entry_spec fuel :
  expand_entry fuel rho i j = snd <$> first_coeffs (entry_accepted fuel).
Proof.
  unfold expand_entry. fold (entry_nonce i j). cbv zeta.
  rewrite shake128_seeded by done. fold m.
  replace (POLY_UNIFORM_N_BLOCKS * STREAM_128_BLOCK_BYTES + 2)%nat with 842%nat by reflexivity.
  replace (POLY_UNIFORM_N_BLOCKS * STREAM_128_BLOCK_BYTES)%nat with 840%nat by reflexivity.
  rewrite shake128_squeeze_after, Nat.add_0_l, drop_0 by apply entry_seed_bytes.
  set (out := SHAKE128 m 842).
  assert (Hout : length out = 842%nat) by (apply SHAKE128_length, entry_seed_bytes).
  assert (Hb : bytes out) by (apply SHAKE128_bytes, entry_seed_bytes).
  assert (Hbuf : bytes (blit (replicate 850 0) 0 out)).
  { rewrite blit_0. apply Forall_app. split; [done|]. apply Forall_drop, bytes_zeros. }
  assert (Hlen : length (blit (replicate 850 0) 0 out) = 850%nat).
  { rewrite blit_0, length_app, length_drop, length_replicate. lia. }
  rewrite rej_uniform_spec; [|done|done|lia].
  assert (Ht : take 842 (blit (replicate 850 0) 0 out) = out)
    by (rewrite blit_0, take_app_le, (take_ge out) by lia; reflexivity).
  assert (Hacc : accepted3 out = entry_accepted 0).
  { unfold entry_accepted. fold m. rewrite Nat.mul_0_r, Nat.add_0_r. fold out.
    rewrite (drop_ge out) by lia. rewrite app_nil_r.
    assert (Hsn : out = SHAKE128 m 840 ++ drop 840 out) by apply (SHAKE128_snoc m 840 2), entry_seed_bytes.
    rewrite Hsn.
    rewrite accepted3_app by (rewrite SHAKE128_length by apply entry_seed_bytes; done).
    rewrite (accepted3_short (drop _ _)), app_nil_r; [done|].
    rewrite length_drop, Hout. lia. }
  rewrite Ht, Hacc. cbn [mbind option_bind].
  pose proof (expand_refill_spec fuel 0 (blit (replicate 850 0) 0 out) 840 (replicate 256 0) _
    eq_refl Hlen Hbuf eq_refl eq_refl) as H.
  replace (842 + 168 * 0)%nat with 842%nat in H by reflexivity. exact H.
Qed.
End entry.

(** The operations are used through their specifications from here on. *)
#[local] Opaque expand_entry poly_pointwise_montgomery poly_add poly_sub poly_reduce poly_c_addq
  ntt inv_ntt_to_mont SHAKE128 SHAKE256.

(** Entry [(i, j)] of a matrix of sampled entries. *)
Definition entry (E : nat -> nat -> option Poly) (i j : nat) : Poly := default zero_poly (E i j).

Lemma entry_wf fuel rho i j p :
  bytes rho -> length rho = SEED_BYTES -> expand_entry fuel rho i j = Some p ->
  wf_poly p /\ Forall (fun z => 0 <= z < Q_CONST) p.
Proof.
  intros Hb Hl H. rewrite expand_entry_spec in H by done. unfold first_coeffs in H.
  destruct (Nat.leb_spec N (length (entry_accepted rho i j fuel))); [|done].
  cbn [fmap option_fmap option_map snd] in H. injection H as <-. split; [by apply wf_take_N|]. apply Forall_take.
  unfold entry_accepted. apply Forall_app. split; apply accepted3_range.
  - by apply SHAKE128_bytes, seeded_bytes.
  - by apply Forall_drop, SHAKE128_bytes, seeded_bytes.
Qed.

Lemma bounded_Forall M a : wf_poly a -> Forall (fun x => - M < x < M) a -> bounded M a.
Proof. intros Ha H i Hi. apply (Forall_get (fun x => - M < x < M)); [done|by rewrite Ha]. Qed.
Lemma Forall_bounded M a : wf_poly a -> bounded M a -> Forall (fun x => - M < x < M) a.
Proof.
  intros Ha H. apply Forall_lookup. intros i x Hx. rewrite <- (list_lookup_total_correct _ _ _ Hx).
  apply H. rewrite <- Ha. by eapply lookup_lt_Some.
Qed.

(** ** Coefficient-wise operations *)
Lemma poly_add_spec A B c a b :
  A + B <= 2147483648 -> wf_poly c -> wf_poly a -> wf_poly b -> bounded A a -> bounded B b ->
  wf_poly (poly_add c a b) /\ bounded (A + B) (poly_add c a b) /\
  forall i, (i < N)%nat -> poly_add c a b !!! i = a !!! i + b !!! i.
Proof.
  intros HAB Hc Ha Hb Ba Bb. rewrite poly_add_zip by done. unfold wf_poly in *.
  assert (Hg : forall i, (i < N)%nat ->
    zip_with (fun x y => s32 (x + y)) a b !!! i = a !!! i + b !!! i).
  { intros i Hi. rewrite lookup_total_zip by congruence. specialize (Ba i Hi). specialize (Bb i Hi).
    apply s32_id. lia. }
  split; [by rewrite length_zip_with, Ha, Hb|]. split; [|done].
  intros i Hi. rewrite Hg by done. specialize (Ba i Hi). specialize (Bb i Hi). lia.
Qed.
Lemma poly_sub_spec A B c a b :
  A + B <= 2147483648 -> wf_poly c -> wf_poly a -> wf_poly b -> bounded A a -> bounded B b ->
  wf_poly (poly_sub c a b) /\ bounded (A + B) (poly_sub c a b) /\
  forall i, (i < N)%nat -> poly_sub c a b !!! i = a !!! i - b !!! i.
Proof.
  intros HAB Hc Ha Hb Ba Bb. rewrite poly_sub_zip by done. unfold wf_poly in *.
  assert (Hg : forall i, (i < N)%nat ->
    zip_with (fun x y => s32 (x - y)) a b !!! i = a !!! i - b !!! i).
  { intros i Hi. rewrite lookup_total_zip by congruence. specialize (Ba i Hi). specialize (Bb i Hi).
    apply s32_id. lia. }
  split; [by rewrite length_zip_with, Ha, Hb|]. split; [|done].
  intros i Hi. rewrite Hg by done. specialize (Ba i Hi). specialize (Bb i Hi). lia.
Qed.
Lemma poly_reduce_spec A a :
  A <= 2143289344 -> wf_poly a -> bounded A a ->
  wf_poly (poly_reduce a) /\ bounded Q_CONST (poly_reduce a) /\
  forall i, (i < N)%nat -> poly_reduce a !!! i ≡q a !!! i.
Proof.
  intros HA Ha Ba. rewrite poly_reduce_map by done. unfold wf_poly in *.
  split; [by rewrite length_map|].
  assert (Hg : forall i, (i < N)%nat -> map reduce_32 a !!! i = reduce_32 (a !!! i)).
  { intros i Hi. apply lookup_total_map. by rewrite Ha. }
  split; intros i Hi; rewrite Hg by done; specialize (Ba i Hi);
    destruct (reduce_32_correct (a !!! i)) as [H1 H2]; try lia; [unfold Q_CONST; lia|done].
Qed.
(** On values in [(- q - A, q + A)] the conditional addition leaves [(- A, q + A)]. *)
Lemma poly_c_addq_spec A a :
  0 <= A < 1000000 -> wf_poly a -> bounded (Q_CONST + A) a ->
  wf_poly (poly_c_addq a) /\
  forall i, (i < N)%nat -> - A < poly_c_addq a !!! i + 1 /\ poly_c_addq a !!! i < Q_CONST + A /\
    poly_c_addq a !!! i ≡q a !!! i.
Proof.
  intros HA Ha Ba. rewrite poly_c_addq_map by done. unfold wf_poly in *.
  split; [by rewrite length_map|]. intros i Hi.
  rewrite lookup_total_map by (by rewrite Ha). specialize (Ba i Hi).
  pose proof (c_addq_cong (a !!! i)) as Hc.
  rewrite c_addq_eq in * by (unfold Q_CONST in Ba; lia).
  split_and!; [case_decide; lia|case_decide; unfold Q_CONST in *; lia|].
  apply Hc. unfold Q_CONST in Ba. lia.
Qed.

(** ** The matrix product *)
Fixpoint zsum (n : nat) (f : nat -> Z) : Z := match n with O => 0 | S n => zsum n f + f n end.

Lemma zsum_eqmq n f g : (forall j, (j < n)%nat -> f j ≡q g j) -> zsum n f ≡q zsum n g.
Proof.
  induction n as [|n IH]; intros H; [done|]. cbn [zsum]. rewrite (H n) by lia.
  rewrite IH; [done|]. intros j Hj. apply H. lia.
Qed.
Lemma zsum_combine n f g k :
  zsum n (fun j => f j + k * g j) = zsum n f + k * zsum n g.
Proof. induction n as [|n IH]; cbn [zsum]; [ring|]. rewrite IH. ring. Qed.
Lemma zsum_scale n f k : zsum n (fun j => k * f j) = k * zsum n f.
Proof. induction n as [|n IH]; cbn [zsum]; [ring|]. rewrite IH. ring. Qed.

Section product.
Context (E : nat -> nat -> option Poly)
  (HE : forall i j p, E i j = Some p -> wf_poly p /\ Forall (fun z => 0 <= z < Q_CONST) p).
Context (S : Z) (s : PolyVec) (HS : 0 < S <= 2147483648) (Hs : wf_vec L s)
  (Bs : forall j, (j < L)%nat -> bounded S (s !!! j)).

(** Row [i] after [n] columns. *)
Definition row_ok (i n : nat) (w : Poly) : Prop :=
  wf_poly w /\ (n <> 0%nat -> bounded (Z.of_nat n * Q_CONST) w /\
    forall k, (k < N)%nat ->
      w !!! k ≡q RINV * zsum n (fun j => entry E i j !!! k * (s !!! j) !!! k)).

Lemma column i j p t :
  (j < L)%nat -> E i j = Some p -> wf_poly t ->
  let r := poly_pointwise_montgomery t p (s !!! j) in
  wf_poly r /\ bounded Q_CONST r /\
  forall k, (k < N)%nat -> r !!! k ≡q RINV * (entry E i j !!! k * (s !!! j) !!! k).
Proof.
  intros Hj Hp Ht. destruct (HE i j p Hp) as [Hw Hr].
  assert (Hbp : bounded Q_CONST p).
  { apply bounded_Forall; [done|]. eapply Forall_impl; [|exact Hr]. cbv beta. intros x Hx. lia. }
  assert (Hm : entry E i j = p) by (unfold entry; by rewrite Hp). rewrite Hm.
  refine (pointwise_spec Q_CONST S t p (s !!! j) _ _ _ Ht Hw _ Hbp (Bs j Hj));
    [done|lia|unfold Q_CONST; lia|by apply (wf_vec_get L)].
Qed.

Lemma row_ok_step i n p w t :
  (n < L)%nat -> n <> 0%nat -> E i n = Some p -> wf_poly t -> row_ok i n w ->
  row_ok i (n + 1) (poly_add w w (poly_pointwise_montgomery t p (s !!! n))).
Proof.
  intros Hn H0 Hp Ht [Hw Hr]. destruct (Hr H0) as [Bw Cw].
  destruct (column i n p t Hn Hp Ht) as (Wr & Br & Cr). set (r := poly_pointwise_montgomery _ _ _) in *.
  assert (Hsum : Z.of_nat n * Q_CONST + Q_CONST <= 2147483648) by (unfold L in Hn; unfold Q_CONST; lia).
  destruct (poly_add_spec _ _ w w r Hsum Hw Hw Wr Bw Br) as (Wa & Ba & Ca).
  split; [done|]. intros _. rewrite Nat.add_1_r. split.
  - intros k Hk. specialize (Ba k Hk). rewrite Nat2Z.inj_succ. lia.
  - intros k Hk. rewrite Ca, (Cw k Hk), (Cr k Hk) by done. cbn [zsum].
    qring.
Qed.

Lemma row_ok_first i p w :
  E i 0%nat = Some p -> wf_poly w ->
  row_ok i 1 (poly_pointwise_montgomery w p (s !!! 0%nat)).
Proof.
  intros Hp Hw. destruct (column i 0 p w ltac:(unfold L; lia) Hp Hw) as (Wr & Br & Cr).
  split; [done|]. intros _. split; [by rewrite Z.mul_1_l|]. intros k Hk. rewrite (Cr k Hk).
  cbn [zsum]. by rewrite Z.add_0_l.
Qed.

(** Row [i]: a missing entry stops the loop, otherwise the row is the product. *)
Lemma product_row i t :
  (i < length t)%nat -> wf_poly (t !!! i) ->
  match for_ 0 L (fun j st =>
      '(t1, t_poly) ← st;
      poly_buffer ← E i j;
      let temp := t1 !!! i in
      if (j =? 0)%nat then
        Some (<[i := poly_pointwise_montgomery temp poly_buffer (s !!! j)]> t1, t_poly)
      else
        let t_poly := poly_pointwise_montgomery t_poly poly_buffer (s !!! j) in
        Some (<[i := poly_add temp temp t_poly]> t1, t_poly)) (Some (t, zero_poly))
  with
  | None => exists j, (j < L)%nat /\ E i j = None
  | Some (t', _) => (forall j, (j < L)%nat -> is_Some (E i j)) /\
      exists w, t' = <[i := w]> t /\ row_ok i L w
  end.
Proof.
  intros Hi Ht.
  pose (I := fun n (st : option (PolyVec * Poly)) => match st with
    | None => exists j, (j < L)%nat /\ E i j = None
    | Some (t', tp) => (forall j, (j < n)%nat -> is_Some (E i j)) /\ wf_poly tp /\
        exists w, t' = <[i := w]> t /\ row_ok i n w end).
  assert (HI : forall st, I L st -> match st with
    | None => exists j, (j < L)%nat /\ E i j = None
    | Some (t', _) => (forall j, (j < L)%nat -> is_Some (E i j)) /\
      exists w, t' = <[i := w]> t /\ row_ok i L w end).
  { intros [[t' tp]|] H; [|exact H]. destruct H as (H1 & _ & H2). split; [exact H1|exact H2]. }
  apply HI. apply (for_ind I 0 L).
  - split; [lia|]. split; [reflexivity|]. exists (t !!! i).
    split; [|split; [exact Ht|lia]].
    symmetry. by apply list_insert_id, list_lookup_lookup_total_lt.
  - intros n [[t' tp]|] Hn H; [|exact H]. destruct H as (H1 & Htp & w & -> & Hw).
    cbn [mbind option_bind].
    destruct (E i n) as [p|] eqn:Ep; cbn [mbind option_bind];
      [|exists n; split; [lia|exact Ep]].
    assert (Hsome : forall j, (j < Datatypes.S n)%nat -> is_Some (E i j)).
    { intros j Hj. destruct (Nat.eq_dec j n) as [->|]; [by rewrite Ep|apply H1; lia]. }
    rewrite list_lookup_total_insert_eq by exact Hi. cbv zeta.
    destruct (Nat.eqb_spec n 0) as [->|Hne].
    + split; [exact Hsome|]. split; [exact Htp|]. rewrite list_insert_insert_eq.
      eexists. split; [reflexivity|]. apply (row_ok_first i p w Ep), Hw.
    + split; [exact Hsome|]. destruct (column i n p tp ltac:(lia) Ep Htp) as (Wr & _ & _).
      split; [exact Wr|]. rewrite list_insert_insert_eq. eexists. split; [reflexivity|].
      rewrite <- Nat.add_1_r. apply (row_ok_step i n p w tp ltac:(lia) Hne Ep Htp Hw).
Qed.

(** The whole product. *)
Definition matrix_product (t1 s1hat : PolyVec) : option PolyVec :=
  for_ 0 K (fun i t1 =>
    t1 ← t1;
    fst <$> for_ 0 L (fun j st =>
      '(t1, t_poly) ← st;
      poly_buffer ← E i j;
      let temp := t1 !!! i in
      if (j =? 0)%nat then
        Some (<[i := poly_pointwise_montgomery temp poly_buffer (s1hat !!! j)]> t1, t_poly)
      else
        let t_poly := poly_pointwise_montgomery t_poly poly_buffer (s1hat !!! j) in
        Some (<[i := poly_add temp temp t_poly]> t1, t_poly)) (Some (t1, zero_poly)))
    (Some t1).

Definition all_entries (n : nat) : Prop :=
  forall i j, (i < n)%nat -> (j < L)%nat -> is_Some (E i j).

Lemma matrix_product_spec t :
  wf_vec K t ->
  match matrix_product t s with
  | None => exists i j, (i < K)%nat /\ (j < L)%nat /\ E i j = None
  | Some t' => all_entries K /\ wf_vec K t' /\ forall i, (i < K)%nat -> row_ok i L (t' !!! i)
  end.
Proof.
  intros Ht.
  pose (I := fun n (st : option PolyVec) => match st with
    | None => exists i j, (i < K)%nat /\ (j < L)%nat /\ E i j = None
    | Some t' => all_entries n /\ wf_vec K t' /\ forall i, (i < n)%nat -> row_ok i L (t' !!! i) end).
  apply (for_ind I 0 K).
  - split; [intros i j Hi; lia|]. split; [exact Ht|]. intros i Hi. lia.
  - intros n [t'|] Hn H; [|exact H]. destruct H as (H1 & Hw & H2). cbn [mbind option_bind].
    assert (Hlt : (n < length t')%nat) by (destruct Hw as [-> _]; lia).
    pose proof (product_row n t' Hlt (wf_vec_get K t' n Hw ltac:(lia))) as Hrow.
    destruct (for_ 0 L _ _) as [[t'' tp]|]; cbn [fmap option_fmap option_map fst].
    + destruct Hrow as (Hs' & w & -> & Hrow). split; [|split].
      * intros i j Hi Hj. destruct (Nat.eq_dec i n) as [->|]; [by apply Hs'|apply H1; lia].
      * destruct Hw as [Hwl Hwf]. split; [by rewrite length_insert|].
        apply Forall_insert; [exact Hwf|apply Hrow].
      * intros i Hi. destruct (Nat.eq_dec i n) as [->|Hne].
        -- by rewrite list_lookup_total_insert_eq.
        -- rewrite list_lookup_total_insert_ne by lia. apply H2. lia.
    + destruct Hrow as (j & Hj & Hnone). exists n, j. split; [lia|done].
Qed.

(** In terms of values at the roots, when the vector is a transform. *)
Lemma row_values i w k :
  row_ok i L w -> (k < N)%nat ->
  w !!! k ≡q RINV * zsum L (fun j => entry E i j !!! k * (s !!! j) !!! k).
Proof. intros [_ H] Hk. destruct (H ltac:(done)) as [_ Hc]. by apply Hc. Qed.
Lemma row_bounded i w : row_ok i L w -> wf_poly w /\ bounded (7 * Q_CONST) w.
Proof. intros [Hw H]. split; [exact Hw|]. by destruct (H ltac:(done)) as [Hb _]. Qed.
End product.

Lemma combined_method_product fuel t s rho :
  combined_method fuel t s rho = matrix_product (expand_entry fuel rho) t s.
Proof. reflexivity. Qed.
