(* ===== verification/SigCodec.v ===== *)
(** * The signature encoding

    The hint is stored as the positions of its ones, row after row, and a running
    count per row.  The encoder and the decoder are inverse to each other: a byte
    string that the decoder accepts is the only encoding of what it decodes to. *)
From stdpp Require Import sorting.
From S2P Require Import Prelude CInt Constants Rounding Poly Packing Sampling PolyVec Sign.

(** ** Rows and positions *)
Definition ones (row : Poly) : list nat := filter (fun j => row !!! j <> 0) (seq 0 N).
Definition row_of (ps : list nat) : Poly := map (fun j => if decide (j ∈ ps) then 1 else 0) (seq 0 N).
Definition bit_row (row : Poly) : Prop := length row = N /\ Forall (fun x => x = 0 \/ x = 1) row.
Definition positions (ps : list nat) : Prop := StronglySorted lt ps /\ Forall (fun p => (p < N)%nat) ps.

Lemma seq_sorted lo n : StronglySorted lt (seq lo n).
Proof.
  revert lo. induction n as [|n IH]; intros lo; cbn [seq]; [constructor|].
  constructor; [apply IH|]. apply list.Forall_forall. intros x [k Hk]%list_elem_of_In%in_seq. lia.
Qed.
Lemma filter_sorted (P : nat -> Prop) `{!forall x, Decision (P x)} l :
  StronglySorted lt l -> StronglySorted lt (filter P l).
Proof.
  induction 1 as [|x l Hl IH Hx]; [constructor|]. rewrite filter_cons. destruct (decide (P x)); [|done].
  constructor; [done|]. rewrite list.Forall_forall in Hx |- *. intros y [_ Hy]%list_elem_of_filter. by apply Hx.
Qed.

Lemma sorted_NoDup l : StronglySorted lt l -> NoDup l.
Proof.
  induction 1 as [|x l Hl IH Hx]; constructor; [|done]. intros Hin.
  rewrite list.Forall_forall in Hx. specialize (Hx x Hin). lia.
Qed.

Lemma elem_of_ones row j : j ∈ ones row <-> (j < N)%nat /\ row !!! j <> 0.
Proof.
  unfold ones. rewrite list_elem_of_filter, list_elem_of_In, in_seq. split; intros; split; intuition lia.
Qed.
Lemma ones_positions row : positions (ones row).
Proof.
  split; [apply filter_sorted, seq_sorted|]. apply list.Forall_forall. intros j Hj.
  by apply elem_of_ones in Hj as [? _].
Qed.

Lemma row_of_get ps j : (j < N)%nat -> row_of ps !!! j = if decide (j ∈ ps) then 1 else 0.
Proof.
  intros Hj. unfold row_of. by rewrite lookup_total_map_seq.
Qed.
Lemma row_of_bits ps : bit_row (row_of ps).
Proof.
  unfold bit_row, row_of. rewrite length_map, length_seq. split; [done|].
  apply list.Forall_forall. intros x [j [-> _]]%list_elem_of_fmap. case_decide; auto.
Qed.

Lemma row_of_ones row : bit_row row -> row_of (ones row) = row.
Proof.
  intros [Hl Hb]. apply (list_eq_total _ _ N); [apply row_of_bits|done|]. intros j Hj.
  rewrite row_of_get by done. pose proof (Forall_get _ _ j Hb ltac:(by rewrite Hl)) as Hbit. cbv beta in Hbit.
  case_decide as Hd; rewrite elem_of_ones in Hd.
  - destruct Hbit as [E|E]; [|done]. by destruct Hd.
  - destruct Hbit as [E|E]; [done|]. exfalso. apply Hd. rewrite E. done.
Qed.

Lemma ones_row_of ps : positions ps -> ones (row_of ps) = ps.
Proof.
  intros [Hs Hp]. apply (StronglySorted_unique_strong lt).
  - intros. lia.
  - apply ones_positions.
  - done.
  - apply NoDup_Permutation.
    + apply sorted_NoDup, ones_positions.
    + by apply sorted_NoDup.
    + intros j. rewrite elem_of_ones. split.
      * intros [Hj H]. rewrite row_of_get in H by done. by case_decide.
      * intros Hj. rewrite list.Forall_forall in Hp. specialize (Hp j Hj). split; [done|].
        rewrite row_of_get by done. by rewrite decide_True.
Qed.

(** Writing ones into a row of zeros. *)
Definition write_ones (ps : list nat) (row : Poly) : Poly := fold_left (fun r p => <[p := 1]> r) ps row.
Lemma write_ones_get ps row j : (j < length row)%nat ->
  length (write_ones ps row) = length row /\
  write_ones ps row !!! j = if decide (j ∈ ps) then 1 else row !!! j.
Proof.
  unfold write_ones. revert row. induction ps as [|p ps IH]; intros row Hj; [done|]. cbn [fold_left].
  destruct (IH (<[p:=1]> row) ltac:(by rewrite length_insert)) as [Hl Hg].
  rewrite Hl, Hg, length_insert. split; [done|].
  destruct (decide (j ∈ ps)) as [Hin|Hin].
  { rewrite decide_True; [done|]. by right. }
  destruct (decide (j = p)) as [->|Hne].
  - rewrite decide_True by left. by apply list_lookup_total_insert_eq.
  - rewrite decide_False by (intros [|]%elem_of_cons; done). by apply list_lookup_total_insert_ne.
Qed.
Lemma write_ones_zero ps : write_ones ps (replicate N 0) = row_of ps.
Proof.
  apply (list_eq_total _ _ N).
  - by rewrite (proj1 (write_ones_get ps (replicate N 0) 0 ltac:(rewrite length_replicate; unfold N; lia))), length_replicate.
  - apply row_of_bits.
  - intros j Hj. rewrite (proj2 (write_ones_get ps (replicate N 0) j ltac:(by rewrite length_replicate))).
    rewrite row_of_get by done. case_decide; [done|].
    by apply lookup_total_replicate_2.
Qed.

(** ** The hint bytes

    [all_ones h i] are the positions of the first [i] rows, one row after the
    other; the encoding is these, zeros up to [OMEGA], and the count after each row. *)
Definition all_ones (h : PolyVec) (i : nat) : list nat := concat (map ones (take i h)).
Definition hint_bytes (h : PolyVec) : list Z :=
  map Z.of_nat (all_ones h K) ++ replicate (OMEGA - length (all_ones h K)) 0 ++
  map (fun i => Z.of_nat (length (all_ones h (S i)))) (seq 0 K).
Definition hint_ok (h : PolyVec) : Prop :=
  length h = K /\ Forall bit_row h /\ (length (all_ones h K) <= OMEGA)%nat.

Lemma all_ones_S h i : (i < length h)%nat -> all_ones h (S i) = all_ones h i ++ ones (h !!! i).
Proof.
  intros Hi. unfold all_ones. destruct (lookup_lt_is_Some_2 h i Hi) as [x Hx].
  rewrite (take_S_r _ _ _ Hx), map_app, concat_app, (list_lookup_total_correct _ _ _ Hx).
  cbn [map concat]. by rewrite app_nil_r.
Qed.
Lemma all_ones_insert h i j row : (i <= j)%nat -> all_ones (<[j := row]> h) i = all_ones h i.
Proof. intros Hi. unfold all_ones. by rewrite take_insert_ge. Qed.
Lemma all_ones_le h i n : (i <= n)%nat -> exists l, all_ones h n = all_ones h i ++ l.
Proof.
  intros Hi. unfold all_ones. exists (concat (map ones (drop i (take n h)))).
  rewrite <- concat_app, <- map_app. do 2 f_equal. rewrite <- (take_drop i (take n h)) at 1.
  by rewrite take_take, Nat.min_l.
Qed.
Lemma all_ones_length_le h i n : (i <= n)%nat -> (length (all_ones h i) <= length (all_ones h n))%nat.
Proof. intros Hi. destruct (all_ones_le h i n Hi) as [l ->]. rewrite length_app. lia. Qed.
Lemma all_ones_lt h i : Forall (fun p => (p < N)%nat) (all_ones h i).
Proof.
  unfold all_ones. generalize (take i h) as rows. induction rows as [|row rows IH]; [constructor|].
  apply Forall_app_2; [apply ones_positions|exact IH].
Qed.

(** The three parts of the encoding, by index. *)
Lemma hint_bytes_iff H h :
  length H = (OMEGA + K)%nat -> (length (all_ones h K) <= OMEGA)%nat ->
  H = hint_bytes h <->
  (forall j, (j < length (all_ones h K))%nat -> H !!! j = Z.of_nat (all_ones h K !!! j)) /\
  (forall j, (length (all_ones h K) <= j < OMEGA)%nat -> H !!! j = 0) /\
  (forall i, (i < K)%nat -> H !!! (OMEGA + i)%nat = Z.of_nat (length (all_ones h (S i)))).
Proof.
  intros Hl Ho.
  assert (G1 : forall j, (j < length (all_ones h K))%nat -> hint_bytes h !!! j = Z.of_nat (all_ones h K !!! j)).
  { intros j Hj. unfold hint_bytes. rewrite lookup_total_app_l by (by rewrite length_map).
    destruct (lookup_lt_is_Some_2 _ _ Hj) as [x Hx]. rewrite (list_lookup_total_correct _ _ _ Hx).
    apply list_lookup_total_correct. change (map ?f ?l) with (f <$> l). by rewrite list_lookup_fmap, Hx. }
  assert (G2 : forall j, (length (all_ones h K) <= j < OMEGA)%nat -> hint_bytes h !!! j = 0).
  { intros j Hj. unfold hint_bytes. rewrite lookup_total_app_r by (rewrite length_map; lia).
    rewrite length_map, lookup_total_app_l by (rewrite length_replicate; lia).
    apply lookup_total_replicate_2. lia. }
  assert (G3 : forall i, (i < K)%nat -> hint_bytes h !!! (OMEGA + i)%nat = Z.of_nat (length (all_ones h (S i)))).
  { intros i Hi. unfold hint_bytes. rewrite lookup_total_app_r by (rewrite length_map; lia).
    rewrite length_map, lookup_total_app_r by (rewrite length_replicate; lia).
    rewrite length_replicate. replace (_ - _ - _)%nat with i by lia. by rewrite lookup_total_map_seq. }
  split; [intros ->; auto|]. intros (H1 & H2 & H3).
  apply (list_eq_total _ _ (OMEGA + K)); [done| |].
  { unfold hint_bytes. rewrite !length_app, !length_map, length_seq, length_replicate. lia. }
  intros i Hi. destruct (decide (i < length (all_ones h K))%nat); [by rewrite H1, G1 by lia|].
  destruct (decide (i < OMEGA)%nat); [by rewrite H2, G2 by lia|].
  replace i with (OMEGA + (i - OMEGA))%nat by lia. by rewrite H3, G3 by lia.
Qed.

(** ** The encoder *)

(** What the encoder has written after the positions [d], with the counts of [i]
    rows. *)
Definition encoded (h : PolyVec) (d : list nat) (i : nat) (t : list Z) : Prop :=
  length t = (OMEGA + K)%nat /\
  (forall j, (j < length d)%nat -> t !!! j = Z.of_nat (d !!! j)) /\
  (forall j, (length d <= j < OMEGA)%nat -> t !!! j = 0) /\
  (forall i', (i' < i)%nat -> t !!! (OMEGA + i')%nat = Z.of_nat (length (all_ones h (S i')))).

Lemma encoded_position h d i t j :
  encoded h d i t -> (length d < OMEGA)%nat -> (j < N)%nat ->
  encoded h (d ++ [j]) i (<[length d := u8 (Z.of_nat j)]> t).
Proof.
  intros (Hl & H1 & H2 & H3) Hd Hj. unfold encoded. rewrite length_insert, length_app.
  cbn [length]. assert (E : u8 (Z.of_nat j) = Z.of_nat j) by (apply Z.mod_small; unfold N in Hj; lia).
  split; [done|]. split; [|split].
  - intros p Hp. destruct (decide (p = length d)) as [->|Hne].
    + rewrite list_lookup_total_insert_eq by lia. by rewrite lookup_total_app_r, Nat.sub_diag, E.
    + rewrite list_lookup_total_insert_ne, lookup_total_app_l by lia. apply H1. lia.
  - intros p Hp. rewrite list_lookup_total_insert_ne by lia. apply H2. lia.
  - intros p Hp. rewrite list_lookup_total_insert_ne by lia. by apply H3.
Qed.
Lemma encoded_count h d i t v :
  encoded h d i t -> (length d <= OMEGA)%nat -> encoded h d i (<[(OMEGA + i)%nat := v]> t).
Proof.
  intros (Hl & H1 & H2 & H3) Hd. unfold encoded. rewrite length_insert.
  split; [done|]. split; [|split]; intros p Hp; rewrite list_lookup_total_insert_ne by lia; auto.
Qed.

Definition encode_bit (i : nat) (row : Poly) (j : nat) (st : list Z * nat) : list Z * nat :=
  let '(temp3, k) := st in
  let '(temp3, k) :=
    if negb (row !!! j =? 0) then (<[k := u8 (Z.of_nat j)]> temp3, (k + 1)%nat) else (temp3, k) in
  (<[(OMEGA + i)%nat := u8 (Z.of_nat k)]> temp3, k).

Definition ones_below (row : Poly) (j : nat) : list nat := filter (fun p => row !!! p <> 0) (seq 0 j).
Lemma ones_below_S row j :
  ones_below row (S j) = ones_below row j ++ if negb (row !!! j =? 0) then [j] else [].
Proof.
  unfold ones_below. rewrite seq_S, list.filter_app. f_equal. rewrite filter_cons, filter_nil. cbn [Nat.add].
  destruct (Z.eqb_spec (row !!! j) 0); case_decide; done.
Qed.

Lemma encode_row h d i t row :
  encoded h d i t -> (i < K)%nat -> (length (d ++ ones row) <= OMEGA)%nat ->
  exists t', for_ 0 N (encode_bit i row) (t, length d) = (t', length (d ++ ones row)) /\
             encoded h (d ++ ones row) i t' /\
             t' !!! (OMEGA + i)%nat = Z.of_nat (length (d ++ ones row)).
Proof.
  intros Ht Hi Hle.
  pose (inv := fun j (st : list Z * nat) => (j <= N)%nat /\
    let d' := d ++ ones_below row j in
    snd st = length d' /\ encoded h d' i (fst st) /\
    ((0 < j)%nat -> fst st !!! (OMEGA + i)%nat = Z.of_nat (length d'))).
  assert (H : inv (0 + N)%nat (for_ 0 N (encode_bit i row) (t, length d))).
  { apply for_ind.
    - unfold inv. cbn. rewrite app_nil_r. split; [lia|]. split; [done|]. split; [done|]. lia.
    - intros j [t' k] Hj (_ & Hk & He & _). unfold inv. cbn [fst snd] in Hk, He. split; [lia|].
      assert (Hd : (length (d ++ ones_below row (S j)) <= OMEGA)%nat).
      { etrans; [|exact Hle]. rewrite !length_app. unfold ones, ones_below.
        replace N with (S j + (N - S j))%nat by lia. rewrite seq_app, list.filter_app, length_app. lia. }
      rewrite ones_below_S, app_assoc in Hd |- *.
      assert (Hlen : forall v, u8 (Z.of_nat v) = Z.of_nat v \/ (OMEGA < v)%nat).
      { intros v. destruct (Nat.le_gt_cases v OMEGA); [left|by right].
        apply Z.mod_small. unfold OMEGA in *. lia. }
      unfold encode_bit. subst k.
      destruct (row !!! j =? 0); cbn [negb] in Hd |- *; cbn [fst snd].
      + rewrite app_nil_r in Hd |- *. split; [done|]. split; [by apply encoded_count|]. intros _.
        rewrite list_lookup_total_insert_eq by (rewrite (proj1 He); lia).
        destruct (Hlen (length (d ++ ones_below row j))); [done|lia].
      + rewrite (length_app (d ++ ones_below row j)) in Hd |- *. cbn [length] in Hd |- *. split; [done|]. split.
        * apply encoded_count; [|rewrite length_app; cbn; lia]. apply encoded_position; [done|lia|lia].
        * intros _. rewrite list_lookup_total_insert_eq by (rewrite length_insert, (proj1 He); lia).
          destruct (Hlen (length (d ++ ones_below row j) + 1)%nat); [done|lia]. }
  destruct (for_ 0 N _ _) as [t' k]. destruct H as (_ & Hk & He & Hc). cbn [fst snd] in Hk, He, Hc.
  change (ones_below row (0 + N)) with (ones row) in *. exists t'. subst k.
  split; [done|]. split; [done|]. apply Hc. unfold N. lia.
Qed.

Lemma encode_hint_bytes h : hint_ok h -> encode_hint h = hint_bytes h.
Proof.
  intros (Hl & _ & Ho). unfold encode_hint.
  pose (inv := fun i (st : list Z * nat) => (i <= K)%nat /\
    snd st = length (all_ones h i) /\ encoded h (all_ones h i) i (fst st)).
  assert (H : inv (0 + K)%nat (for_ 0 K (fun i st => for_ 0 N (encode_bit i (h !!! i)) st)
    (replicate (OMEGA + K) 0, 0%nat))).
  { apply for_ind.
    - split; [lia|]. split; [done|]. change (all_ones h 0) with (@nil nat). split; [exact (length_replicate _ _)|]. cbn [length].
      split; [intros; lia|]. split; [|intros; lia]. intros j Hj. apply lookup_total_replicate_2. lia.
    - intros i [t k] Hi (_ & Hk & He). cbn [fst snd] in Hk, He. subst k.
      pose proof (all_ones_length_le h (S i) K ltac:(lia)) as Hle.
      rewrite all_ones_S in Hle by lia.
      destruct (encode_row h (all_ones h i) i t (h !!! i) He ltac:(lia) ltac:(lia)) as (t' & -> & He' & Hc).
      split; [lia|]. rewrite all_ones_S by lia. split; [done|]. cbn [fst]. destruct He' as (? & ? & ? & H3).
      split; [done|]. split; [done|]. split; [done|]. intros p Hp.
      destruct (decide (p = i)) as [->|]; [by rewrite Hc, all_ones_S by lia|]. apply H3. lia. }
  destruct H as (_ & _ & Hlen & H1 & H2 & H3). apply hint_bytes_iff; [exact Hlen|done|done].
Qed.

(** ** The decoder *)
Section decoder.
Context (sig : list Z) (base : nat).
Hypothesis sig_bytes : Forall (fun b => 0 <= b < 256) sig.
#[local] Abbreviation b t := (sig !!! (base + t)%nat).

Lemma b_range t : 0 <= b t < 256.
Proof using sig_bytes.
  destruct (decide (base + t < length sig)%nat) as [H|H]; [exact (Forall_get _ _ _ sig_bytes H)|].
  rewrite list_lookup_total_alt, lookup_ge_None_2 by lia. done.
Qed.

(** The positions of one row, as bytes. *)
Definition row_positions (k n : nat) : list nat := map (fun t => Z.to_nat (b t)) (seq k n).

Lemma row_positions_sorted k n :
  StronglySorted lt (row_positions k n) <->
  (forall t, (k < t < k + n)%nat -> sig !!! (base + t - 1)%nat < b t).
Proof using sig_bytes.
  unfold row_positions. split.
  - revert k. induction n as [|n IH]; intros k Hs t Ht; [lia|]. cbn [seq map] in Hs.
    apply StronglySorted_inv in Hs as [Hs Hk].
    destruct (decide (t = S k)) as [->|]; [|apply (IH (S k)); [done|lia]].
    destruct n as [|n]; [lia|]. cbn [seq map] in Hk. apply list.Forall_cons in Hk as [Hk _].
    replace (base + S k - 1)%nat with (base + k)%nat by lia.
    pose proof (b_range k). pose proof (b_range (S k)). lia.
  - intros Hs. assert (Hc : forall t s, (k <= t < s)%nat -> (s < k + n)%nat -> b t < b s).
    { intros t s Hts Hn. induction s as [|s IH]; [lia|]. specialize (Hs (S s) ltac:(lia)).
      replace (base + S s - 1)%nat with (base + s)%nat in Hs by lia.
      destruct (decide (t = s)) as [->|]; [done|]. etrans; [apply IH; lia|exact Hs]. }
    clear Hs. revert k Hc. induction n as [|n IH]; intros k Hc; cbn [seq map]; [constructor|].
    constructor; [apply IH; intros; apply Hc; lia|]. apply list.Forall_forall. intros x [t [-> Ht]]%list_elem_of_fmap.
    apply list_elem_of_In, in_seq in Ht. pose proof (b_range k). pose proof (b_range t).
    specialize (Hc k t ltac:(lia) ltac:(lia)). lia.
Qed.

Lemma decode_row_ok k j n row :
  (k <= j)%nat -> (forall t, (k < t)%nat -> (j <= t < j + n)%nat -> sig !!! (base + t - 1)%nat < b t) ->
  decode_row sig base k j n row = (0, write_ones (row_positions j n) row).
Proof using.
  revert j row. induction n as [|n IH]; intros j row Hk Ht; [done|]. cbn [decode_row].
  assert (E : ((k <? j)%nat && (b j <=? sig !!! (base + j - 1)%nat)) = false).
  { apply andb_false_iff. destruct (Nat.ltb_spec k j); [right|by left]. specialize (Ht j ltac:(lia) ltac:(lia)). lia. }
  rewrite E. replace (j + 1)%nat with (S j) by lia. rewrite IH; [done|lia|]. intros; apply Ht; lia.
Qed.
Lemma decode_row_inv k j n row :
  (k <= j)%nat -> fst (decode_row sig base k j n row) = 0 ->
  forall t, (k < t)%nat -> (j <= t < j + n)%nat -> sig !!! (base + t - 1)%nat < b t.
Proof using.
  revert j row. induction n as [|n IH]; intros j row Hk H t Hkt Ht; [lia|]. cbn [decode_row] in H.
  destruct ((k <? j)%nat && (b j <=? sig !!! (base + j - 1)%nat)) eqn:E; [discriminate H|].
  destruct (decide (t = j)) as [->|]; [|apply (IH (j + 1)%nat _ ltac:(lia) H t); lia].
  apply andb_false_iff in E as [E|E]; [apply Nat.ltb_ge in E; lia|lia].
Qed.

Lemma decode_row_length k j n row : length (snd (decode_row sig base k j n row)) = length row.
Proof using.
  revert j row. induction n as [|n IH]; intros j row; [done|]. cbn [decode_row].
  destruct (_ && _); [done|]. by rewrite IH, length_insert.
Qed.

(** A row is accepted when its positions increase, and is then their row. *)
Lemma decode_row_spec k n r row' :
  decode_row sig base k k n (replicate N 0) = (r, row') ->
  if decide (StronglySorted lt (row_positions k n)) then r = 0 /\ row' = row_of (row_positions k n) else r <> 0.
Proof using sig_bytes.
  intros H. case_decide as Hs; rewrite row_positions_sorted in Hs.
  - rewrite decode_row_ok in H by (lia || (intros; apply Hs; lia)). injection H as <- <-.
    by rewrite write_ones_zero.
  - intros ->. apply Hs. intros t Ht. apply (decode_row_inv k k n (replicate N 0)); [lia|by rewrite H|lia|lia].
Qed.

Definition decode_hint_row (i : nat) (st : Z * nat * PolyVec) : Z * nat * PolyVec :=
  let '(ret, k, h) := st in
  if negb (ret =? 0) then (ret, k, h) else
  let h := <[i := for_ 0 N (fun j p => <[j := 0]> p) (h !!! i)]> h in
  let n := sig !!! (base + OMEGA + i)%nat in
  if (n <? Z.of_nat k) || (Z.of_nat OMEGA <? n) then (1, k, h) else
  let '(ret, row) := decode_row sig base k k (Z.to_nat n - k) (h !!! i) in
  (ret, Z.to_nat n, <[i := row]> h).

(** One row of a well-formed array: refused, or set to the row of its positions. *)
Lemma decode_hint_row_spec i k h :
  wf_vec K h -> (i < K)%nat ->
  let n := sig !!! (base + OMEGA + i)%nat in
  let ps := row_positions k (Z.to_nat n - k) in
  let '(ret, k', h') := decode_hint_row i (0, k, h) in
  wf_vec K h' /\
  if decide (Z.of_nat k <= n <= Z.of_nat OMEGA /\ StronglySorted lt ps)
  then ret = 0 /\ k' = Z.to_nat n /\ h' = <[i := row_of ps]> h
  else ret <> 0.
Proof using sig_bytes.
  intros Hw Hi n ps. unfold decode_hint_row. cbn [Z.eqb negb]. fold n.
  assert (Hz : for_ 0 N (fun j p => <[j := 0]> p) (h !!! i) = replicate N 0).
  { rewrite (for_build (fun _ => 0) N) by exact (wf_vec_get _ _ _ Hw Hi).
    rewrite map_const. by rewrite length_seq. }
  assert (Hins : forall row, wf_poly row -> wf_vec K (<[i := row]> h)).
  { intros row Hr. destruct Hw as [Hl Hf]. split; [by rewrite length_insert|]. by apply list.Forall_insert. }
  rewrite Hz, list_lookup_total_insert_eq by (by rewrite (proj1 Hw)).
  destruct ((n <? Z.of_nat k) || (Z.of_nat OMEGA <? n)) eqn:E.
  { split; [apply Hins, length_replicate|]. rewrite decide_False by (intros [? _]; lia). done. }
  destruct (decode_row sig base k k (Z.to_nat n - k) (replicate N 0)) as [ret row] eqn:Er.
  pose proof (decode_row_length k k (Z.to_nat n - k) (replicate N 0)) as Hrl. rewrite Er, length_replicate in Hrl.
  apply decode_row_spec in Er. fold ps in Er. rewrite list_insert_insert_eq.
  split; [by apply Hins|]. case_decide as Hs.
  - destruct Er as [-> ->]. rewrite decide_True by (split; [lia|done]). done.
  - by rewrite decide_False by tauto.
Qed.

(** The rows decoded so far are what the bytes read so far encode. *)
Definition decoded (i : nat) (st : Z * nat * PolyVec) : Prop :=
  let '(ret, k, h) := st in
  wf_vec K h /\
  (ret = 0 ->
   k = length (all_ones h i) /\ (k <= OMEGA)%nat /\ Forall bit_row (take i h) /\
   (forall j, (j < k)%nat -> sig !!! (base + j)%nat = Z.of_nat (all_ones h i !!! j)) /\
   (forall p, (p < i)%nat -> sig !!! (base + OMEGA + p)%nat = Z.of_nat (length (all_ones h (S p))))).

Lemma row_positions_get k n j : (k <= j < k + n)%nat -> row_positions k n !!! (j - k)%nat = Z.to_nat (b j).
Proof using.
  intros Hj. unfold row_positions. apply list_lookup_total_correct. change (map ?f ?l) with (f <$> l).
  rewrite list_lookup_fmap, lookup_seq_lt by lia. cbn. by replace (k + (j - k))%nat with j by lia.
Qed.
Lemma row_positions_lt k n : Forall (fun p => (p < N)%nat) (row_positions k n).
Proof using sig_bytes.
  apply list.Forall_forall. intros x [t [-> _]]%list_elem_of_fmap. pose proof (b_range t). unfold N. lia.
Qed.

Lemma decoded_step i st : (i < K)%nat -> decoded i st -> decoded (S i) (decode_hint_row i st).
Proof using sig_bytes.
  destruct st as [[ret k] h]. intros Hi [Hw Hd]. unfold decode_hint_row at 1.
  destruct (Z.eqb_spec ret 0) as [->|Hne]; cbn [negb]; [|split; [done|tauto]].
  pose proof (decode_hint_row_spec i k h Hw Hi) as Hspec.
  unfold decode_hint_row in Hspec. cbn [Z.eqb negb] in Hspec.
  destruct (if _ || _ then _ else _) as [[ret' k'] h']. destruct Hspec as [Hw' Hspec].
  split; [done|]. intros ->. set (n := sig !!! (base + OMEGA + i)%nat) in *.
  case_decide as Hc; [|done]. destruct Hc as [Hn Hs], Hspec as (_ & -> & ->).
  destruct (Hd eq_refl) as (Hk & Hk' & Hb & Hpos & Hcnt). set (ps := row_positions k (Z.to_nat n - k)) in *.
  assert (Hl : length h = K) by apply Hw.
  assert (Ha : all_ones (<[i := row_of ps]> h) (S i) = all_ones h i ++ ps).
  { rewrite all_ones_S by (rewrite length_insert; lia). rewrite all_ones_insert by done.
    rewrite list_lookup_total_insert_eq by lia. f_equal. apply ones_row_of. split; [done|apply row_positions_lt]. }
  assert (Hps : length ps = (Z.to_nat n - k)%nat) by (unfold ps, row_positions; by rewrite length_map, length_seq).
  rewrite Ha, length_app, Hps, <- Hk. split; [lia|]. split; [lia|]. split; [|split].
  - rewrite (take_S_r _ _ (row_of ps)) by (apply list_lookup_insert_eq; lia).
    rewrite take_insert_ge by done. apply Forall_app_2; [done|]. by constructor; [apply row_of_bits|].
  - intros j Hj. destruct (decide (j < k)%nat).
    + rewrite lookup_total_app_l by lia. by apply Hpos.
    + rewrite lookup_total_app_r by lia. rewrite <- Hk. unfold ps.
      rewrite row_positions_get by lia. pose proof (b_range j). lia.
  - intros p Hp. destruct (decide (p = i)) as [->|].
    + fold n. rewrite Ha, length_app, Hps. lia.
    + rewrite all_ones_insert by lia. apply Hcnt. lia.
Qed.

(** On the encoding of [g], the loop decodes [g]. *)
Lemma decode_step (g : PolyVec) i k h :
  length g = K -> Forall bit_row g -> (length (all_ones g K) <= OMEGA)%nat ->
  (forall j, (j < length (all_ones g K))%nat -> sig !!! (base + j)%nat = Z.of_nat (all_ones g K !!! j)) ->
  (forall p, (p < K)%nat -> sig !!! (base + OMEGA + p)%nat = Z.of_nat (length (all_ones g (S p)))) ->
  wf_vec K h -> (i < K)%nat -> take i h = take i g -> k = length (all_ones g i) ->
  let '(ret, k', h') := decode_hint_row i (0, k, h) in
  ret = 0 /\ k' = length (all_ones g (S i)) /\ wf_vec K h' /\ take (S i) h' = take (S i) g.
Proof using sig_bytes.
  intros Hg Hb Ho Hpos Hcnt Hw Hi Ht Hk. pose proof (decode_hint_row_spec i k h Hw Hi) as Hspec.
  cbv zeta in Hspec. rewrite Hcnt in Hspec by done. rewrite Nat2Z.id in Hspec.
  assert (Hps : row_positions k (length (all_ones g (S i)) - k) = ones (g !!! i)).
  { destruct (all_ones_le g (S i) K ltac:(lia)) as [l Hl]. rewrite all_ones_S in Hl |- * by lia.
    rewrite length_app, Hk. replace (_ + _ - _)%nat with (length (ones (g !!! i))) by lia.
    unfold row_positions. apply (list_eq_same_length _ _ (length (ones (g !!! i)))); [done|by rewrite length_map, length_seq|].
    intros j x y Hj Hx Hy. revert Hx. change (map ?f ?l) with (f <$> l).
    rewrite list_lookup_fmap, lookup_seq_lt by done. cbn. intros [= <-].
    rewrite Hpos by (rewrite Hl, !length_app; lia). rewrite Nat2Z.id, Hl. apply list_lookup_total_correct.
    rewrite lookup_app_l by (rewrite length_app; lia). rewrite lookup_app_r by lia.
    by replace (_ - _)%nat with j by lia. }
  rewrite Hps in Hspec. destruct (decode_hint_row i (0, k, h)) as [[ret k'] h']. destruct Hspec as [Hw' Hspec].
  pose proof (all_ones_length_le g (S i) K ltac:(lia)). pose proof (all_ones_length_le g i (S i) ltac:(lia)).
  rewrite decide_True in Hspec by (split; [lia|apply ones_positions]).
  destruct Hspec as (-> & -> & ->). split; [done|]. split; [done|]. split; [done|].
  destruct Hw as [Hl _]. rewrite row_of_ones by (apply Forall_get; [done|lia]).
  rewrite (take_S_r _ _ (g !!! i)) by (apply list_lookup_insert_eq; lia). rewrite take_insert_ge, Ht by done.
  symmetry. apply take_S_r. apply list_lookup_lookup_total_lt. lia.
Qed.

Lemma tail_zero k n :
  for_ k n (fun j ret => if negb (ret =? 0) then ret else if negb (sig !!! (base + j)%nat =? 0) then 1 else 0) 0 = 0
  <-> (forall j, (k <= j < k + n)%nat -> sig !!! (base + j)%nat = 0).
Proof using.
  set (body := fun _ => _).
  induction n as [|n IH]; [rewrite for_0; split; [intros; lia|done]|]. rewrite for_S_r. unfold body at 1.
  destruct (Z.eqb_spec (for_ k n body 0) 0) as [E|E]; cbn [negb].
  - rewrite E in IH. destruct (Z.eqb_spec (sig !!! (base + (k + n))%nat) 0) as [E'|E']; cbn [negb].
    + split; [|done]. intros _ j Hj. destruct (decide (j = k + n)%nat) as [->|]; [done|]. apply IH; [done|lia].
    + split; [done|]. intros H. by specialize (H (k + n)%nat ltac:(lia)).
  - split; [done|]. intros H. apply IH. intros; apply H; lia.
Qed.
End decoder.

(** ** The hint part of a signature *)
Definition hint_offset : nat := (CTILDE_BYTES + L * POLY_Z_PACKED_BYTES)%nat.
#[local] Opaque hint_offset.

Lemma decode_hint_unfold sg hv :
  decode_hint sg hv =
  let '(ret, k, h) := for_ 0 K (decode_hint_row sg hint_offset) (0, 0%nat, hv) in
  if negb (ret =? 0) then (ret, h) else
  (for_ k (OMEGA - k) (fun j ret =>
     if negb (ret =? 0) then ret else if negb (sg !!! (hint_offset + j)%nat =? 0) then 1 else 0) 0, h).
Proof. reflexivity. Qed.

Section hint_part.
Context (sg : list Z) (sg_bytes : Forall (fun b => 0 <= b < 256) sg) (hv : PolyVec) (hv_wf : wf_vec K hv).
Hypothesis sg_length : length sg = CRYPTO_BYTES.

Lemma drop_hint_length : length (drop hint_offset sg) = (OMEGA + K)%nat.
Proof using sg_length. by rewrite length_drop, sg_length. Qed.

Lemma decoded_rows : decoded sg hint_offset (0 + K) (for_ 0 K (decode_hint_row sg hint_offset) (0, 0%nat, hv)).
Proof using sg_bytes hv_wf sg_length.
  apply for_ind.
  - split; [done|]. intros _. split; [done|]. split; [lia|]. split; [constructor|]. split; intros; lia.
  - intros i st Hi Hd. apply decoded_step; [done|lia|done].
Qed.
(** The hints keep their shape, accepted or not. *)
Lemma decode_hint_wf : wf_vec K (snd (decode_hint sg hv)).
Proof using sg_bytes hv_wf sg_length.
  rewrite decode_hint_unfold. pose proof decoded_rows as H. destruct (for_ 0 K _ _) as [[ret k] h].
  destruct H as [Hw _]. by destruct (negb _).
Qed.

Lemma decode_hint_sound g :
  decode_hint sg hv = (0, g) -> hint_ok g /\ drop hint_offset sg = hint_bytes g.
Proof using sg_bytes hv_wf sg_length.
  rewrite decode_hint_unfold. pose proof decoded_rows as H.
  destruct (for_ 0 K _ _) as [[ret k] h]. destruct H as [[Hl Hw] H].
  destruct (Z.eqb_spec ret 0) as [->|]; cbn [negb]; [|intros [= ? ?]; done]. intros [= Ht <-].
  rewrite tail_zero in Ht. destruct (H eq_refl) as (-> & Hk & Hb & Hpos & Hcnt).
  rewrite Nat.add_0_l in *. rewrite take_ge in Hb by lia. split; [done|].
  apply hint_bytes_iff; [apply drop_hint_length|done|].
  split; [|split]; intros j Hj; rewrite lookup_total_drop; [by apply Hpos|apply Ht; lia|].
  rewrite Nat.add_assoc. by apply Hcnt.
Qed.

Lemma decode_hint_complete g :
  hint_ok g -> drop hint_offset sg = hint_bytes g -> decode_hint sg hv = (0, g).
Proof using sg_bytes hv_wf sg_length.
  intros (Hg & Hb & Ho) He.
  apply hint_bytes_iff in He as (Hpos & Hz & Hcnt); [|apply drop_hint_length|done].
  setoid_rewrite lookup_total_drop in Hpos. setoid_rewrite lookup_total_drop in Hz.
  setoid_rewrite lookup_total_drop in Hcnt. setoid_rewrite Nat.add_assoc in Hcnt.
  rewrite decode_hint_unfold.
  pose (inv := fun i (st : Z * nat * PolyVec) =>
    st.1.1 = 0 /\ st.1.2 = length (all_ones g i) /\ wf_vec K st.2 /\ take i st.2 = take i g).
  assert (H : inv (0 + K)%nat (for_ 0 K (decode_hint_row sg hint_offset) (0, 0%nat, hv))).
  { apply for_ind; [done|]. intros i [[ret k] h] Hi. unfold inv at 1. cbn [fst snd].
    intros (-> & Hk & Hw & Ht).
    pose proof (decode_step sg hint_offset sg_bytes g i k h Hg Hb Ho Hpos Hcnt Hw ltac:(lia) Ht Hk) as H.
    destruct (decode_hint_row sg hint_offset i (0, k, h)) as [[ret k'] h']. exact H. }
  destruct (for_ 0 K _ _) as [[ret k] h]. destruct H as (Hr & Hk & [Hl _] & Ht). cbn [fst snd] in *.
  subst ret k. cbn [Z.eqb negb]. rewrite Nat.add_0_l in Ht.
  rewrite !take_ge in Ht by lia. subst h. f_equal. apply tail_zero. intros j Hj.
  rewrite Nat.add_0_l in Hj. apply Hz. lia.
Qed.
End hint_part.

(** ** The whole signature *)
Definition z_encoding (p : Poly) : list Z := concat (map (z_block p) (seq 0 128)).
Definition z_vec_ok (zv : PolyVec) : Prop := length zv = L /\ Forall (fun p => wf_poly p /\ Forall z_range p) zv.
Definition z_bytes (zv : PolyVec) (n : nat) : list Z := concat (map (fun b => z_encoding (zv !!! b)) (seq 0 n)).
Definition signature_bytes (c : list Z) (zv hv : PolyVec) : list Z := c ++ z_bytes zv L ++ hint_bytes hv.

Lemma z_encoding_length p : length (z_encoding p) = POLY_Z_PACKED_BYTES.
Proof. by apply (concat_blocks_length 5 128). Qed.
Lemma z_bytes_length zv n : length (z_bytes zv n) = (POLY_Z_PACKED_BYTES * n)%nat.
Proof. apply concat_blocks_length. intros. apply z_encoding_length. Qed.
Lemma hint_bytes_length hv : (length (all_ones hv K) <= OMEGA)%nat -> length (hint_bytes hv) = (OMEGA + K)%nat.
Proof. intros. unfold hint_bytes. rewrite !length_app, !length_map, length_seq, length_replicate. lia. Qed.
Lemma z_bytes_S zv n : z_bytes zv (S n) = z_bytes zv n ++ z_encoding (zv !!! n).
Proof. unfold z_bytes. rewrite seq_S, map_app, concat_app. cbn [map concat Nat.add]. by rewrite app_nil_r. Qed.
Lemma z_vec_get zv b : z_vec_ok zv -> (b < L)%nat -> wf_poly (zv !!! b) /\ Forall z_range (zv !!! b).
Proof. intros [Hl Hz] Hb. apply (Forall_get _ _ b Hz). by rewrite Hl. Qed.

Lemma signature_bytes_length c zv hv :
  length c = CTILDE_BYTES -> (length (all_ones hv K) <= OMEGA)%nat ->
  length (signature_bytes c zv hv) = CRYPTO_BYTES.
Proof.
  intros Hc Hh. unfold signature_bytes. by rewrite !length_app, z_bytes_length, hint_bytes_length, Hc.
Qed.
Lemma hint_bytes_range hv : (length (all_ones hv K) <= OMEGA)%nat -> bytes (hint_bytes hv).
Proof.
  intros Ho. unfold hint_bytes. apply Forall_app_2; [|apply Forall_app_2; [apply bytes_zeros|]].
  - apply list.Forall_forall. intros x [p [-> Hp]]%list_elem_of_fmap.
    pose proof (all_ones_lt hv K) as H. rewrite list.Forall_forall in H. specialize (H p Hp).
    unfold is_u8. unfold N in H. lia.
  - apply list.Forall_forall. intros x [i [-> Hi]]%list_elem_of_fmap.
    apply list_elem_of_In, in_seq in Hi. pose proof (all_ones_length_le hv (S i) K ltac:(lia)).
    unfold is_u8. unfold OMEGA in Ho. lia.
Qed.
Lemma signature_bytes_range c zv hv :
  bytes c -> z_vec_ok zv -> (length (all_ones hv K) <= OMEGA)%nat -> bytes (signature_bytes c zv hv).
Proof.
  intros Hc Hz Hh. apply Forall_app_2; [done|]. apply Forall_app_2; [|by apply hint_bytes_range].
  apply Forall_blocks. intros b Hb. destruct (z_vec_get zv b Hz Hb). by apply z_block_bytes.
Qed.

(** The buffer of the volatile code is longer than the encoding of a polynomial. *)
Lemma z_pack_buffer p :
  wf_poly p -> Forall z_range p -> take POLY_Z_PACKED_BYTES (poly_z_pack (replicate 850 0) p) = z_encoding p.
Proof.
  intros Hp Hr. rewrite poly_z_pack_written by (done || (rewrite length_replicate; unfold POLY_Z_PACKED_BYTES; lia)).
  unfold written. apply take_app_length'. symmetry. apply z_encoding_length.
Qed.

Lemma blit_same_end (dst x : list Z) off :
  length dst = (off + length x)%nat -> blit dst off x = take off dst ++ x.
Proof. intros Hl. unfold blit. by rewrite drop_ge, app_nil_r by lia. Qed.

Lemma pack_sig_spec sg c zv hv :
  length sg = CRYPTO_BYTES -> length c = CTILDE_BYTES -> z_vec_ok zv -> hint_ok hv ->
  pack_sig_volatile sg CRYPTO_BYTES c zv hv = (ERR_NONE, signature_bytes c zv hv).
Proof.
  intros Hl Hc Hz Hh. unfold pack_sig_volatile. rewrite Nat.eqb_refl. cbn [negb].
  rewrite (for_build (fun i => c !!! i) CTILDE_BYTES) by reflexivity.
  pose proof (map_seq_slice c 0 CTILDE_BYTES ltac:(rewrite Hc; done)) as E.
  rewrite drop_0, take_ge in E by (rewrite Hc; done). cbn [Nat.add] in E. rewrite E.
  rewrite blit_0. change (c ++ drop (length c) sg) with (written c sg). cbv zeta. f_equal.
  match goal with |- context [for_ 0 L ?f ?s] =>
    assert (Hf : for_ 0 L f s = written (c ++ z_bytes zv (0 + L)) sg) end.
  { apply for_ind; [unfold z_bytes; cbn [seq map concat]; by rewrite app_nil_r|].
    intros b t Hb ->. destruct (z_vec_get zv b Hz ltac:(lia)). rewrite z_pack_buffer by done.
    rewrite z_bytes_S, app_assoc. apply blit_written; rewrite length_app, z_bytes_length, Hc; [lia|].
    rewrite z_encoding_length, Hl. change CRYPTO_BYTES with (CTILDE_BYTES + POLY_Z_PACKED_BYTES * L + 83)%nat.
    assert (POLY_Z_PACKED_BYTES * b + POLY_Z_PACKED_BYTES <= POLY_Z_PACKED_BYTES * L)%nat; [|lia].
    rewrite <- Nat.mul_succ_r. apply Nat.mul_le_mono_l. lia. }
  rewrite Hf. cbn [Nat.add]. clear Hf.
  assert (Hcz : length (c ++ z_bytes zv L) = (CTILDE_BYTES + L * POLY_Z_PACKED_BYTES)%nat).
  { rewrite length_app, z_bytes_length, Hc. lia. }
  assert (Hend : CRYPTO_BYTES = (CTILDE_BYTES + L * POLY_Z_PACKED_BYTES + (OMEGA + K))%nat) by reflexivity.
  rewrite blit_written by (first [by rewrite Hcz|rewrite Hcz, length_replicate, Hl, Hend; lia]).
  rewrite written_all by (rewrite length_app, Hcz, length_replicate, Hl, Hend; lia).
  rewrite encode_hint_bytes by done.
  rewrite blit_same_end by (rewrite length_app, Hcz, length_replicate, hint_bytes_length by apply Hh; lia).
  rewrite take_app_length' by done. unfold signature_bytes. by rewrite app_assoc.
Qed.

(** *** Decoding *)
Definition z_slice (sg : list Z) (b : nat) : list Z :=
  take POLY_Z_PACKED_BYTES (drop (CTILDE_BYTES + b * POLY_Z_PACKED_BYTES) sg).
Definition z_decoding (sg : list Z) (b : nat) : Poly := concat (map (z_ublock (z_slice sg b)) (seq 0 128)).

Lemma z_slice_length sg b : length sg = CRYPTO_BYTES -> (b < L)%nat -> length (z_slice sg b) = POLY_Z_PACKED_BYTES.
Proof.
  intros Hl Hb. unfold z_slice. rewrite length_take, length_drop, Hl.
  change CRYPTO_BYTES with 4627%nat. unfold L, CTILDE_BYTES, POLY_Z_PACKED_BYTES in *. lia.
Qed.
Lemma z_slice_bytes sg b : bytes sg -> bytes (z_slice sg b).
Proof. intros H. by apply Forall_take, Forall_drop. Qed.

Lemma unpack_sig_spec sg zv hv :
  length sg = CRYPTO_BYTES -> bytes sg -> wf_vec L zv ->
  unpack_sig_volatile zv hv sg =
  let '(ret, h) := decode_hint sg hv in
  (ret, take CTILDE_BYTES sg, map (z_decoding sg) (seq 0 L), h).
Proof.
  intros Hl Hb Hz. unfold unpack_sig_volatile.
  assert (Hc : copy_array (replicate CTILDE_BYTES 0) CTILDE_BYTES sg CTILDE_BYTES = take CTILDE_BYTES sg).
  { unfold copy_array, memcpy. rewrite Nat.ltb_irrefl, drop_ge by (rewrite length_replicate; lia). apply app_nil_r. }
  rewrite Hc, (for_imap (fun b p => poly_z_unpack p (drop (CTILDE_BYTES + b * POLY_Z_PACKED_BYTES) sg)) L) by apply Hz.
  assert (Hm : map (fun b => poly_z_unpack (zv !!! b) (drop (CTILDE_BYTES + b * POLY_Z_PACKED_BYTES) sg)) (seq 0 L)
    = map (z_decoding sg) (seq 0 L)).
  { apply map_ext_in. intros b [_ Hlt]%in_seq. rewrite poly_z_unpack_take.
    apply poly_z_unpack_blocks; [by apply (wf_vec_get L)|by apply z_slice_bytes|by apply z_slice_length]. }
  by rewrite Hm.
Qed.

Lemma z_slice_encoded c zv hv b :
  length c = CTILDE_BYTES -> (b < L)%nat -> z_slice (signature_bytes c zv hv) b = z_encoding (zv !!! b).
Proof.
  intros Hc Hb. unfold z_slice, signature_bytes.
  rewrite drop_app_ge by lia. rewrite Hc.
  replace (_ + _ - _)%nat with (b * POLY_Z_PACKED_BYTES)%nat by lia.
  replace L with (b + S (L - b - 1))%nat by lia. unfold z_bytes.
  rewrite seq_app, map_app, concat_app, <- app_assoc. fold (z_bytes zv b). rewrite drop_app_ge by (rewrite z_bytes_length; lia).
  rewrite z_bytes_length. replace (_ - _)%nat with 0%nat by lia. rewrite drop_0. cbn [seq map concat Nat.add].
  rewrite <- app_assoc. apply take_app_length'. symmetry. apply z_encoding_length.
Qed.
Lemma z_decoding_encoding sg p b :
  wf_poly p -> Forall z_range p -> z_slice sg b = z_encoding p -> z_decoding sg b = p.
Proof. intros Hp Hr Hs. unfold z_decoding. rewrite Hs. by apply z_unpack_pack. Qed.

Lemma z_decoding_ok sg : length sg = CRYPTO_BYTES -> bytes sg -> z_vec_ok (map (z_decoding sg) (seq 0 L)).
Proof.
  intros Hl Hb. split; [by rewrite length_map, length_seq|].
  apply list.Forall_forall. intros p [b [-> Hlt]]%list_elem_of_fmap. apply list_elem_of_In, in_seq in Hlt.
  split; [apply z_ublock_length|]. apply z_ublock_range; [by apply z_slice_bytes|apply z_slice_length; [done|lia]].
Qed.
Lemma z_bytes_slices sg n :
  length sg = CRYPTO_BYTES -> bytes sg -> (n <= L)%nat ->
  z_bytes (map (z_decoding sg) (seq 0 L)) n = take (n * POLY_Z_PACKED_BYTES) (drop CTILDE_BYTES sg).
Proof.
  intros Hl Hb. induction n as [|n IH]; intros Hn; [done|]. rewrite z_bytes_S, IH by lia.
  rewrite lookup_total_map_seq by lia. unfold z_encoding, z_decoding.
  rewrite z_pack_unpack by (by apply z_slice_bytes || (apply z_slice_length; [done|lia])).
  unfold z_slice. rewrite <- drop_drop. rewrite Nat.mul_succ_l. apply take_take_drop.
Qed.
Lemma signature_split sg hv :
  length sg = CRYPTO_BYTES -> bytes sg -> drop hint_offset sg = hint_bytes hv ->
  signature_bytes (take CTILDE_BYTES sg) (map (z_decoding sg) (seq 0 L)) hv = sg.
Proof.
  intros Hl Hb Hh. unfold signature_bytes. rewrite z_bytes_slices, <- Hh by done.
  change hint_offset with (CTILDE_BYTES + L * POLY_Z_PACKED_BYTES)%nat.
  by rewrite <- drop_drop, take_drop, take_drop.
Qed.
Lemma hint_part_of c zv hv :
  length c = CTILDE_BYTES -> drop hint_offset (signature_bytes c zv hv) = hint_bytes hv.
Proof.
  intros Hc. unfold signature_bytes. rewrite app_assoc. apply drop_app_length'.
  rewrite length_app, z_bytes_length, Hc. change hint_offset with (CTILDE_BYTES + L * POLY_Z_PACKED_BYTES)%nat. lia.
Qed.

Lemma unpack_signature_bytes c zv hv z0 h0 :
  length c = CTILDE_BYTES -> bytes c -> z_vec_ok zv -> hint_ok hv -> wf_vec L z0 -> wf_vec K h0 ->
  unpack_sig_volatile z0 h0 (signature_bytes c zv hv) = (0, c, zv, hv).
Proof.
  intros Hc Hb Hz Hh Hz0 Hh0.
  assert (Hl : length (signature_bytes c zv hv) = CRYPTO_BYTES) by (apply signature_bytes_length; [done|apply Hh]).
  assert (Hsb : bytes (signature_bytes c zv hv)) by (apply signature_bytes_range; [done|done|apply Hh]).
  rewrite unpack_sig_spec by done.
  rewrite (decode_hint_complete _ Hsb _ Hh0 Hl hv Hh) by (by apply hint_part_of).
  assert (Hzd : map (z_decoding (signature_bytes c zv hv)) (seq 0 L) = zv).
  { apply (list_eq_total _ _ L); [by rewrite length_map, length_seq|apply Hz|]. intros b Hlt.
    rewrite lookup_total_map_seq by done. destruct (z_vec_get zv b Hz Hlt).
    apply z_decoding_encoding; [done|done|]. by apply z_slice_encoded. }
  rewrite Hzd. unfold signature_bytes. by rewrite take_app_length' by done.
Qed.

(** C19. A signature that the signer packs unpacks to what went in, whatever the arrays
    held before. *)
Theorem signature_roundtrip (sg c : list Z) (zv hv z0 h0 : PolyVec)
  (Hsg : length sg = CRYPTO_BYTES) (Hc : length c = CTILDE_BYTES) (Hb : bytes c)
  (Hz : z_vec_ok zv) (Hh : hint_ok hv) (Hz0 : wf_vec L z0) (Hh0 : wf_vec K h0) :
  exists sg', pack_sig_volatile sg CRYPTO_BYTES c zv hv = (ERR_NONE, sg') /\
    length sg' = CRYPTO_BYTES /\ bytes sg' /\ unpack_sig_volatile z0 h0 sg' = (0, c, zv, hv).
Proof.
  exists (signature_bytes c zv hv). split; [by apply pack_sig_spec|].
  split; [apply signature_bytes_length; [done|apply Hh]|].
  split; [apply signature_bytes_range; [done|done|apply Hh]|]. by apply unpack_signature_bytes.
Qed.

(** One coefficient of every row is hinted. *)
Definition sample_hint : PolyVec := replicate K (<[3%nat := 1]> zero_poly).
Lemma sample_hint_ok : hint_ok sample_hint.
Proof.
  split; [reflexivity|]. split; [|vm_compute; lia].
  apply Forall_replicate. split; [reflexivity|]. apply list.Forall_insert; [|by right].
  apply Forall_replicate. by left.
Qed.
Lemma zero_vec_wf n : wf_vec n (zero_vec n).
Proof. split; [apply length_replicate|]. by apply Forall_replicate. Qed.
Lemma replicate_z_ok x : z_range x -> z_vec_ok (replicate L (replicate N x)).
Proof.
  intros Hx. split; [reflexivity|]. apply Forall_replicate. split; [reflexivity|]. by apply Forall_replicate.
Qed.

Lemma signature_roundtrip_witness :
  exists sg', pack_sig_volatile (replicate CRYPTO_BYTES 7) CRYPTO_BYTES (replicate CTILDE_BYTES 9)
      (replicate L (replicate N (-5))) sample_hint = (ERR_NONE, sg') /\
    length sg' = CRYPTO_BYTES /\ bytes sg' /\
    unpack_sig_volatile (zero_vec L) (zero_vec K) sg' =
      (0, replicate CTILDE_BYTES 9, replicate L (replicate N (-5)), sample_hint).
Proof.
  apply (signature_roundtrip (replicate CRYPTO_BYTES 7) (replicate CTILDE_BYTES 9)
    (replicate L (replicate N (-5))) sample_hint (zero_vec L) (zero_vec K));
    [reflexivity|reflexivity|by apply bytesb_bytes| |apply sample_hint_ok|apply zero_vec_wf|apply zero_vec_wf].
  by apply replicate_z_ok.
Defined.

(** C20. The verifier only unpacks the canonical encoding: if unpacking returns 0, packing
    the result gives the same bytes back, so that no two byte strings stand for the
    same signature. *)
Theorem signature_canonical (sg sg0 c : list Z) (zv hv z0 h0 : PolyVec)
  (Hsg : length sg = CRYPTO_BYTES) (Hb : bytes sg) (Hsg0 : length sg0 = CRYPTO_BYTES)
  (Hz0 : wf_vec L z0) (Hh0 : wf_vec K h0)
  (Hu : unpack_sig_volatile z0 h0 sg = (0, c, zv, hv)) :
  z_vec_ok zv /\ hint_ok hv /\ pack_sig_volatile sg0 CRYPTO_BYTES c zv hv = (ERR_NONE, sg).
Proof.
  rewrite unpack_sig_spec in Hu by done.
  destruct (decode_hint sg h0) as [ret h] eqn:Ed. injection Hu as -> <- <- <-.
  destruct (decode_hint_sound sg Hb h0 Hh0 Hsg h Ed) as [Hh Hd].
  pose proof (z_decoding_ok sg Hsg Hb) as Hz. split; [done|]. split; [done|].
  rewrite pack_sig_spec; [by rewrite signature_split|done| |done|done].
  by rewrite length_take, Hsg.
Qed.

Lemma signature_canonical_witness :
  let sg := replicate CRYPTO_BYTES 0 in let c := replicate CTILDE_BYTES 0 in
  let zv := replicate L (replicate N GAMMA1) in let hv := zero_vec K in
  z_vec_ok zv /\ hint_ok hv /\ pack_sig_volatile sg CRYPTO_BYTES c zv hv = (ERR_NONE, sg).
Proof.
  intros sg c zv hv. apply (signature_canonical sg sg c zv hv (zero_vec L) (zero_vec K));
    [reflexivity|by apply bytesb_bytes|reflexivity|apply zero_vec_wf|apply zero_vec_wf|].
  vm_compute. reflexivity.
Defined.
