(* ===== verification/VecOps.v ===== *)
(** * The stored vectors as vectors of values

    What the functions of [Sign] on stored vectors compute, coefficient by
    coefficient ([vval]) and at the roots of X^256 + 1 ([vhat]), with the bounds
    that exclude overflow. *)
From S2P Require Import Prelude CInt Constants Reduce Rounding Poly Packing Ntt Sampling PolyVec Sign SignCore.

#[local] Opaque expand_entry poly_pointwise_montgomery poly_add poly_sub poly_reduce poly_c_addq
  ntt inv_ntt_to_mont poly_shitf_l poly_use_hint poly_chk_norm.

(** ** Vectors *)
Definition vec (n : nat) (P : nat -> Poly -> Prop) (v : PolyVec) : Prop :=
  length v = n /\ forall i, (i < n)%nat -> wf_poly (v !!! i) /\ P i (v !!! i).

Lemma vec_wf n P v : vec n P v -> wf_vec n v.
Proof.
  intros [Hl Hv]. split; [done|]. apply Forall_lookup. intros i p Hp.
  rewrite <- (list_lookup_total_correct _ _ _ Hp). apply Hv. rewrite <- Hl. by eapply lookup_lt_Some.
Qed.
Lemma wf_vec_vec n v : wf_vec n v -> vec n (fun _ _ => True) v.
Proof. intros Hw. split; [apply Hw|]. intros i Hi. split; [by apply (wf_vec_get n)|done]. Qed.
Lemma vec_impl n (P Q : nat -> Poly -> Prop) v :
  (forall i p, (i < n)%nat -> wf_poly p -> P i p -> Q i p) -> vec n P v -> vec n Q v.
Proof. intros H [Hl Hv]. split; [done|]. intros i Hi. destruct (Hv i Hi). auto. Qed.

(** A loop that replaces each polynomial by a function of it. *)
Lemma vec_loop n (P : nat -> Poly -> Prop) (f : nat -> Poly -> Poly) v :
  length v = n -> (forall i, (i < n)%nat -> wf_poly (f i (v !!! i)) /\ P i (f i (v !!! i))) ->
  vec n P (for_ 0 n (fun i v => <[i := f i (v !!! i)]> v) v).
Proof.
  intros Hl Hf. split; [by rewrite (vec_loop_length n (fun i v => f i (v !!! i)))|].
  intros i Hi. rewrite vec_loop_get by done. by apply Hf.
Qed.

(** Bounded by [M], with coefficients, or values at the roots, congruent to [F]. *)
Definition vval (n : nat) (M : Z) (F : nat -> nat -> Z) : PolyVec -> Prop :=
  vec n (fun i p => bounded M p /\ forall k, (k < N)%nat -> p !!! k ≡q F i k).
Definition vhat (n : nat) (M : Z) (F : nat -> nat -> Z) : PolyVec -> Prop :=
  vec n (fun i p => bounded M p /\ forall k, (k < N)%nat -> hat p k ≡q F i k).

Lemma vval_ext n M F G v : (forall i k, (i < n)%nat -> (k < N)%nat -> F i k ≡q G i k) -> vval n M F v -> vval n M G v.
Proof. intros H. apply vec_impl. intros i p Hi _ [Hb Hv]. split; [done|]. intros k Hk. by rewrite Hv, H. Qed.
Lemma vhat_ext n M F G v : (forall i k, (i < n)%nat -> (k < N)%nat -> F i k ≡q G i k) -> vhat n M F v -> vhat n M G v.
Proof. intros H. apply vec_impl. intros i p Hi _ [Hb Hv]. split; [done|]. intros k Hk. by rewrite Hv, H. Qed.

(** ** Values at the roots *)
Lemma hat_combine z a b c i :
  wf_poly a -> wf_poly b -> wf_poly c -> (forall k, (k < N)%nat -> c !!! k ≡q a !!! k + z * b !!! k) ->
  hat c i ≡q hat a i + z * hat b i.
Proof.
  intros Ha Hb Hc H. unfold hat. rewrite <- !evalm_coeffs by done. by apply evalm_combine.
Qed.
Lemma hat_zero i : hat zero_poly i = 0.
Proof. apply peval_zeros. Qed.
Lemma hat_cong a b i :
  wf_poly a -> wf_poly b -> (forall k, (k < N)%nat -> b !!! k ≡q a !!! k) -> hat b i ≡q hat a i.
Proof.
  intros Ha Hb H. rewrite (hat_combine 0 a zero_poly b i Ha eq_refl Hb).
  - rewrite hat_zero. qring.
  - intros k Hk. rewrite (H k Hk). qring.
Qed.
Lemma hat_add a b c i :
  wf_poly a -> wf_poly b -> wf_poly c -> (forall k, (k < N)%nat -> c !!! k = a !!! k + b !!! k) ->
  hat c i ≡q hat a i + hat b i.
Proof.
  intros Ha Hb Hc H. rewrite (hat_combine 1 a b c i Ha Hb Hc).
  - qring.
  - intros k Hk. rewrite (H k Hk). qring.
Qed.
Lemma hat_sub a b c i :
  wf_poly a -> wf_poly b -> wf_poly c -> (forall k, (k < N)%nat -> c !!! k = a !!! k - b !!! k) ->
  hat c i ≡q hat a i - hat b i.
Proof.
  intros Ha Hb Hc H. rewrite (hat_combine (-1) a b c i Ha Hb Hc).
  - qring.
  - intros k Hk. rewrite (H k Hk). qring.
Qed.

(** ** The operations *)
Section ops.
Implicit Types (v w u : PolyVec) (F G : nat -> nat -> Z).

Section any_length.
Context (n : nat).

Lemma loop_ntt M F v :
  0 < M -> M + 8 * Q_CONST <= 2147483648 -> vhat n M F v ->
  vval n (M + 8 * Q_CONST) F (for_ 0 n (fun i v => <[i := ntt (v !!! i)]> v) v).
Proof.
  intros H0 HM [Hl Hv]. apply (vec_loop n _ (fun _ => ntt)); [done|]. intros i Hi.
  destruct (Hv i Hi) as (Hw & Hb & Hf).
  destruct (ntt_spec M (v !!! i) _ H0 HM Hw Hb (reflexivity _)) as (Hw' & Hb' & _).
  split; [done|]. split; [done|]. intros k Hk. rewrite (ntt_root M) by done. by apply Hf.
Qed.
Lemma loop_inv_ntt F v :
  vval n Q_CONST (fun i k => RINV * F i k) v ->
  vhat n INV_BOUND F (for_ 0 n (fun i v => <[i := inv_ntt_to_mont (v !!! i)]> v) v).
Proof.
  intros [Hl Hv]. apply (vec_loop n _ (fun _ => inv_ntt_to_mont)); [done|]. intros i Hi.
  destruct (Hv i Hi) as (Hw & Hb & Hf).
  destruct (inv_ntt_spec (v !!! i) _ Hw Hb (reflexivity _)) as (Hw' & Hb' & _).
  split; [done|]. split; [done|]. intros k Hk. rewrite hat_inv_ntt, (Hf k Hk) by done.
  rewrite Z.mul_assoc, (Z.mul_comm R32), RINV_R32. qring.
Qed.
Lemma loop_reduce_val M F v :
  M <= 2143289344 -> vval n M F v ->
  vval n Q_CONST F (for_ 0 n (fun i v => <[i := poly_reduce (v !!! i)]> v) v).
Proof.
  intros HM [Hl Hv]. apply (vec_loop n _ (fun _ => poly_reduce)); [done|]. intros i Hi.
  destruct (Hv i Hi) as (Hw & Hb & Hf). destruct (poly_reduce_spec M _ HM Hw Hb) as (Hw' & Hb' & Hr).
  split; [done|]. split; [done|]. intros k Hk. by rewrite Hr, Hf.
Qed.
Lemma loop_reduce_hat M F v :
  M <= 2143289344 -> vhat n M F v ->
  vhat n Q_CONST F (for_ 0 n (fun i v => <[i := poly_reduce (v !!! i)]> v) v).
Proof.
  intros HM [Hl Hv]. apply (vec_loop n _ (fun _ => poly_reduce)); [done|]. intros i Hi.
  destruct (Hv i Hi) as (Hw & Hb & Hf). destruct (poly_reduce_spec M _ HM Hw Hb) as (Hw' & Hb' & Hr).
  split; [done|]. split; [done|]. intros k Hk. by rewrite (hat_cong (v !!! i)), Hf.
Qed.
Lemma loop_add A B F G v w :
  A + B <= 2147483648 -> vhat n A F v -> vhat n B G w ->
  vhat n (A + B) (fun i k => F i k + G i k)
    (for_ 0 n (fun i v => <[i := poly_add (v !!! i) (v !!! i) (w !!! i)]> v) v).
Proof.
  intros HAB [Hl Hv] [_ Hw]. apply (vec_loop n _ (fun i p => poly_add p p (w !!! i))); [done|]. intros i Hi.
  destruct (Hv i Hi) as (Wv & Bv & Fv), (Hw i Hi) as (Ww & Bw & Gw).
  destruct (poly_add_spec A B (v !!! i) _ _ HAB Wv Wv Ww Bv Bw) as (Wr & Br & Er).
  split; [done|]. split; [done|]. intros k Hk. by rewrite (hat_add (v !!! i) (w !!! i)), Fv, Gw.
Qed.
Lemma loop_sub A B F G v u w :
  A + B <= 2147483648 -> wf_vec n v -> vhat n A F u -> vhat n B G w ->
  vhat n (A + B) (fun i k => F i k - G i k)
    (for_ 0 n (fun i v => <[i := poly_sub (v !!! i) (u !!! i) (w !!! i)]> v) v).
Proof.
  intros HAB Hv [Hl Hu] [_ Hw]. apply (vec_loop n _ (fun i p => poly_sub p (u !!! i) (w !!! i))); [apply Hv|].
  intros i Hi. destruct (Hu i Hi) as (Wu & Bu & Fu), (Hw i Hi) as (Ww & Bw & Gw).
  destruct (poly_sub_spec A B (v !!! i) _ _ HAB (wf_vec_get _ _ _ Hv Hi) Wu Ww Bu Bw) as (Wr & Br & Er).
  split; [done|]. split; [done|]. intros k Hk. by rewrite (hat_sub (u !!! i) (w !!! i)), Fu, Gw.
Qed.
Lemma loop_sub_val A B F G v u w :
  A + B <= 2147483648 -> wf_vec n v -> vval n A F u -> vval n B G w ->
  vval n (A + B) (fun i k => F i k - G i k)
    (for_ 0 n (fun i v => <[i := poly_sub (v !!! i) (u !!! i) (w !!! i)]> v) v).
Proof.
  intros HAB Hv [Hl Hu] [_ Hw]. apply (vec_loop n _ (fun i p => poly_sub p (u !!! i) (w !!! i))); [apply Hv|].
  intros i Hi. destruct (Hu i Hi) as (Wu & Bu & Fu), (Hw i Hi) as (Ww & Bw & Gw).
  destruct (poly_sub_spec A B (v !!! i) _ _ HAB (wf_vec_get _ _ _ Hv Hi) Wu Ww Bu Bw) as (Wr & Br & Er).
  split; [done|]. split; [done|]. intros k Hk. by rewrite Er, Fu, Gw.
Qed.
Lemma loop_pointwise A B (f : nat -> Z) F r a v :
  0 < A -> 0 < B -> A * B <= 2147483648 * Q_CONST ->
  wf_vec n r -> wf_poly a -> bounded A a -> (forall k, (k < N)%nat -> a !!! k ≡q f k) -> vval n B F v ->
  vval n Q_CONST (fun i k => RINV * (f k * F i k))
    (for_ 0 n (fun i r => <[i := poly_pointwise_montgomery (r !!! i) a (v !!! i)]> r) r).
Proof.
  intros HA HB HAB Hr Ha Ba Fa [Hl Hv].
  apply (vec_loop n _ (fun i p => poly_pointwise_montgomery p a (v !!! i))); [apply Hr|].
  intros i Hi. destruct (Hv i Hi) as (Wv & Bv & Fv).
  destruct (pointwise_spec A B (r !!! i) _ _ HA HB HAB (wf_vec_get _ _ _ Hr Hi) Ha Wv Ba Bv) as (Wr & Br & Er).
  split; [done|]. split; [done|]. intros k Hk. by rewrite Er, Fa, Fv.
Qed.
Lemma vhat_mono M M' F v : M <= M' -> vhat n M F v -> vhat n M' F v.
Proof. intros H. apply vec_impl. intros i p _ _ [Hb Hv]. split; [by apply (bounded_mono M)|done]. Qed.
End any_length.
End ops.

(** ** Canonical vectors

    Coefficients in [[0, q)], determined by their values at the roots. *)
Definition vcan (n : nat) (F : nat -> nat -> Z) : PolyVec -> Prop :=
  vec n (fun i p => forall k, (k < N)%nat -> 0 <= p !!! k < Q_CONST /\ hat p k ≡q F i k).

Lemma vcan_unique n F v w : vcan n F v -> vcan n F w -> v = w.
Proof.
  intros [Hl Hv] [Hl' Hw]. apply (list_eq_total _ _ n); [done|done|]. intros i Hi.
  destruct (Hv i Hi) as [Wv Cv], (Hw i Hi) as [Ww Cw].
  apply (list_eq_total _ _ N); [done|done|]. intros k Hk.
  apply eqmq_unique; [|destruct (Cv k Hk), (Cw k Hk); lia].
  apply (hat_inj (v !!! i) (w !!! i)); [done|done| |done].
  intros j Hj. destruct (Cv j Hj) as [_ ->], (Cw j Hj) as [_ ->]. done.
Qed.
Lemma vcan_ext n F G v : (forall i k, (i < n)%nat -> (k < N)%nat -> F i k ≡q G i k) -> vcan n F v -> vcan n G v.
Proof.
  intros H. apply vec_impl. intros i p Hi _ Hv k Hk. destruct (Hv k Hk) as [Hr Hh]. by rewrite Hh, H.
Qed.

Lemma loop_c_addq n M F v :
  M <= Q_CONST -> vhat n M F v ->
  vcan n F (for_ 0 n (fun i v => <[i := poly_c_addq (v !!! i)]> v) v).
Proof.
  intros HM [Hl Hv]. apply (vec_loop n _ (fun _ => poly_c_addq)); [done|]. intros i Hi.
  destruct (Hv i Hi) as (Hw & Hb & Hf).
  assert (Hb' : bounded Q_CONST (v !!! i)) by (by apply (bounded_mono M)).
  rewrite poly_c_addq_map by done.
  assert (Hg : forall k, (k < N)%nat -> map c_addq (v !!! i) !!! k = (v !!! i) !!! k mod Q_CONST).
  { intros k Hk. rewrite lookup_total_map by (by rewrite Hw). by apply c_addq_canonical, Hb'. }
  assert (Hwm : wf_poly (map c_addq (v !!! i))) by (unfold wf_poly; by rewrite length_map).
  split; [done|]. intros k Hk. split.
  - rewrite Hg by done. by apply Z.mod_pos_bound.
  - rewrite (hat_cong (v !!! i)) by (done || (intros j Hj; rewrite Hg by done; apply mod_eqmq)). by apply Hf.
Qed.

(** ** Tables *)

(** The two-level loops that store [g] of each coefficient. *)
Lemma loop_table n (g : Z -> Z) v w :
  wf_vec n v -> wf_vec n w ->
  for_ 0 n (fun i w => <[i := for_ 0 N (fun j p => <[j := g ((v !!! i) !!! j)]> p) (w !!! i)]> w) w =
  map (map g) v.
Proof.
  intros Hv Hw.
  assert (H : vec n (fun i p => p = map g (v !!! i))
    (for_ 0 n (fun i w => <[i := for_ 0 N (fun j p => <[j := g ((v !!! i) !!! j)]> p) (w !!! i)]> w) w)).
  { apply (vec_loop n _ (fun i p => for_ 0 N (fun j p => <[j := g ((v !!! i) !!! j)]> p) p)); [apply Hw|].
    intros i Hi. rewrite (for_build (fun j => g ((v !!! i) !!! j)) N) by (by apply (wf_vec_get n)).
    pose proof (wf_vec_get _ _ _ Hv Hi) as Hvi. unfold wf_poly in *. rewrite <- Hvi, map_seq_map.
    split; [by rewrite length_map|done]. }
  destruct H as [Hl H]. apply (list_eq_total _ _ n); [done|rewrite length_map; apply Hv|].
  intros i Hi. destruct (H i Hi) as [_ ->]. symmetry.
  destruct (lookup_lt_is_Some_2 v i) as [p Hp]; [rewrite (proj1 Hv); lia|].
  rewrite (list_lookup_total_correct _ _ _ Hp). apply list_lookup_total_correct.
  change (map ?f ?l) with (f <$> l). by rewrite list_lookup_fmap, Hp.
Qed.
Lemma map_map_get n (g : Z -> Z) v i k :
  wf_vec n v -> (i < n)%nat -> (k < N)%nat -> (map (map g) v !!! i) !!! k = g ((v !!! i) !!! k).
Proof.
  intros Hv Hi Hk. destruct (lookup_lt_is_Some_2 v i) as [p Hp]; [rewrite (proj1 Hv); lia|].
  pose proof (wf_vec_get _ _ _ Hv Hi) as Hw. rewrite (list_lookup_total_correct _ _ _ Hp) in Hw |- *.
  rewrite (list_lookup_total_correct (map (map g) v) i (map g p)).
  - apply lookup_total_map. by rewrite Hw.
  - change (map ?f ?l) with (f <$> l). by rewrite list_lookup_fmap, Hp.
Qed.
Lemma map_map_wf n (g : Z -> Z) v : wf_vec n v -> wf_vec n (map (map g) v).
Proof.
  intros [Hl Hv]. split; [by rewrite length_map|]. apply Forall_map. eapply Forall_impl; [|exact Hv].
  intros p Hp. unfold wf_poly. by rewrite length_map.
Qed.

Lemma power2_round_volatile_map v1 v0 v :
  wf_vec K v1 -> wf_vec K v0 -> wf_vec K v ->
  poly_vec_k_power2_round_volatile v1 v0 v =
    (map (map (fun x => fst (power2_round x))) v, map (map (fun x => snd (power2_round x))) v).
Proof.
  intros H1 H0 Hv. unfold poly_vec_k_power2_round_volatile.
  by rewrite (loop_table K (fun x => snd (power2_round x))), (loop_table K (fun x => fst (power2_round x))).
Qed.
Lemma decompose_volatile_map v1 v0 v :
  wf_vec K v1 -> wf_vec K v0 -> wf_vec K v ->
  poly_vec_k_decompose_volatile v1 v0 v =
    (map (map (fun x => fst (decompose x))) v, map (map (fun x => snd (decompose x))) v).
Proof.
  intros H1 H0 Hv. unfold poly_vec_k_decompose_volatile.
  by rewrite (loop_table K (fun x => snd (decompose x))), (loop_table K (fun x => fst (decompose x))).
Qed.

(** ** The product with the matrix *)
Section matrix.
Context (fuel : nat) (rho : list Z).
Definition mat (i j k : nat) : Z := entry (expand_entry fuel rho) i j !!! k.
Definition msum (G : nat -> nat -> Z) (i k : nat) : Z := zsum L (fun j => mat i j k * G j k).

Lemma msum_ext F G i k : (forall j, (j < L)%nat -> F j k ≡q G j k) -> msum F i k ≡q msum G i k.
Proof. intros H. apply zsum_eqmq. intros j Hj. by rewrite H. Qed.
Lemma msum_combine c F G i k :
  msum (fun j k => c k * F j k + G j k) i k = c k * msum F i k + msum G i k.
Proof.
  unfold msum. rewrite Z.add_comm, <- zsum_combine.
  assert (H : forall n f g, (forall j, f j = g j) -> zsum n f = zsum n g).
  { induction n as [|n IH]; intros f g H; [done|]. cbn [zsum]. by rewrite H, (IH f g). }
  apply H. intros j. ring.
Qed.

(** The matrix is complete: every entry was sampled within the fuel. *)
Definition matrix_ready : Prop := all_entries (expand_entry fuel rho) K.

Lemma product_val S G t s :
  bytes rho -> length rho = SEED_BYTES -> 0 < S <= 2147483648 -> wf_vec K t -> vval L S G s ->
  match combined_method fuel t s rho with
  | None => ~ matrix_ready
  | Some t' => matrix_ready /\ vval K (7 * Q_CONST) (fun i k => RINV * msum G i k) t'
  end.
Proof.
  intros Hb Hl HS Ht Hs. rewrite combined_method_product.
  pose proof (matrix_product_spec (expand_entry fuel rho)
    (fun i j p => entry_wf fuel rho i j p Hb Hl) S s HS (vec_wf _ _ _ Hs)
    (fun j Hj => proj1 (proj2 (proj2 Hs j Hj))) t Ht) as H.
  destruct (matrix_product _ t s) as [t'|].
  - destruct H as (Hall & Hw & Hrow). split; [exact Hall|]. split; [apply Hw|]. intros i Hi.
    destruct (row_bounded _ _ _ _ (Hrow i Hi)) as [Hwi Hbi]. split; [done|]. split; [done|].
    intros k Hk. rewrite (row_values _ _ _ _ k (Hrow i Hi) Hk).
    assert (He : zsum L (fun j => entry (expand_entry fuel rho) i j !!! k * (s !!! j) !!! k) ≡q msum G i k);
      [|by rewrite He].
    apply zsum_eqmq. intros j Hj. unfold mat. destruct (proj2 Hs j Hj) as (_ & _ & Hv). by rewrite (Hv k Hk).
  - destruct H as (i & j & Hi & Hj & Hn). intros Hall. destruct (Hall i j Hi Hj) as [p Hp]. congruence.
Qed.
End matrix.

(** ** Shift, norm, hint and packing *)
Lemma loop_shift v :
  vec K (fun _ p => Forall t1_range p) v ->
  vhat K Q_CONST (fun i k => 8192 * hat (v !!! i) k)
    (for_ 0 K (fun i v => <[i := poly_shitf_l (v !!! i)]> v) v).
Proof.
  intros [Hl Hv]. apply (vec_loop K _ (fun _ => poly_shitf_l)); [done|]. intros i Hi.
  destruct (Hv i Hi) as (Hw & Hr). rewrite poly_shitf_l_map by done.
  assert (Hg : forall k, (k < N)%nat -> map (fun x => s32 (Z.shiftl x D)) (v !!! i) !!! k = 8192 * (v !!! i) !!! k /\
    0 <= (v !!! i) !!! k < 1024).
  { intros k Hk. rewrite (lookup_total_map (fun x => s32 (Z.shiftl x D))) by (by rewrite Hw).
    pose proof (Forall_get _ _ k Hr ltac:(by rewrite Hw)) as H. unfold t1_range in H.
    rewrite Z.shiftl_mul_pow2 by done. change (2 ^ D) with 8192. rewrite s32_id by lia. lia. }
  assert (Hwm : wf_poly (map (fun x => s32 (Z.shiftl x D)) (v !!! i))) by (unfold wf_poly; by rewrite length_map).
  split; [done|]. split.
  - intros k Hk. destruct (Hg k Hk) as [-> ?]. unfold Q_CONST. lia.
  - intros k Hk. rewrite (hat_combine 8192 zero_poly (v !!! i) _ k eq_refl Hw Hwm).
    + rewrite hat_zero. qring.
    + intros j Hj. destruct (Hg j Hj) as [-> _]. unfold zero_poly. rewrite lookup_total_replicate_2 by done. qring.
Qed.

Lemma chk_norm_loop n B (v : PolyVec) :
  for_ 0 n (fun i r => if r =? 0 then
    (if negb (poly_chk_norm (v !!! i) B =? 0) then 1 else 0) else r) 0 = 0 <->
  (forall i, (i < n)%nat -> poly_chk_norm (v !!! i) B = 0).
Proof.
  set (body := fun _ => _). induction n as [|n IH]; [rewrite for_0; split; [intros; lia|done]|].
  rewrite for_S_r. unfold body at 1. rewrite Nat.add_0_l.
  destruct (Z.eqb_spec (for_ 0 n body 0) 0) as [E|E].
  - rewrite E in IH. destruct (Z.eqb_spec (poly_chk_norm (v !!! n) B) 0) as [E'|E']; cbn [negb].
    + split; [|done]. intros _ i Hi. destruct (decide (i = n)) as [->|]; [done|]. apply IH; [done|lia].
    + split; [done|]. intros H. by rewrite (H n) in E' by lia.
  - split; [done|]. intros H. apply IH. intros i Hi. apply H. lia.
Qed.

(** Every coefficient below [B] in absolute value. *)
Definition short (n : nat) (B : Z) (v : PolyVec) : Prop :=
  forall i, (i < n)%nat -> Forall (fun x => Z.abs x < B) (v !!! i).

Lemma chk_norm_short n B (v : PolyVec) :
  vec n (fun _ p => bounded 1073741824 p) v -> 0 <= B <= (Q_CONST - 1) / 8 ->
  (for_ 0 n (fun i r => if r =? 0 then
    (if negb (poly_chk_norm (v !!! i) B =? 0) then 1 else 0) else r) 0 = 0 <-> short n B v).
Proof.
  intros [_ Hv] HB. rewrite chk_norm_loop.
  assert (H : forall i, (i < n)%nat -> poly_chk_norm (v !!! i) B = 0 <-> Forall (fun x => Z.abs x < B) (v !!! i)).
  { intros i Hi. destruct (Hv i Hi) as [Hw Hb].
    rewrite poly_chk_norm_spec; [|done|exact (Forall_bounded 1073741824 _ Hw Hb)|].
    - change ((Q_CONST - 1) / 8) with 1047552 in *. case_decide as Hd.
      + split; [intros _; apply Hd|done].
      + split; [done|]. intros Hf. destruct Hd. split; [lia|done].
    - change ((Q_CONST - 1) / 8) with 1047552 in HB. lia. }
  split; intros Hs i Hi; by apply H, Hs.
Qed.

(** Packing the high bits. *)
Definition w1_range (x : Z) : Prop := 0 <= x < 16.
Definition w1_vec_ok (v : PolyVec) : Prop := vec K (fun _ p => Forall w1_range p) v.
Definition w1_encoding (p : Poly) : list Z := map (fun i => p !!! (2 * i)%nat + 16 * p !!! (2 * i + 1)%nat) (seq 0 128).
Definition w1_bytes (v : PolyVec) (n : nat) : list Z := concat (map (fun i => w1_encoding (v !!! i)) (seq 0 n)).

Lemma w1_bytes_length v n : length (w1_bytes v n) = (POLY_W1_PACKED_BYTES * n)%nat.
Proof. apply concat_blocks_length. intros i. unfold w1_encoding. by rewrite length_map, length_seq. Qed.
Lemma w1_bytes_S v n : w1_bytes v (S n) = w1_bytes v n ++ w1_encoding (v !!! n).
Proof. unfold w1_bytes. rewrite seq_S, map_app, concat_app. cbn [map concat Nat.add]. by rewrite app_nil_r. Qed.
Lemma w1_bytes_range v : w1_vec_ok v -> bytes (w1_bytes v K).
Proof.
  intros [Hl Hv]. apply Forall_blocks. intros i Hi. destruct (Hv i Hi) as [Hw Hr].
  apply Forall_map, Forall_seq. intros k Hk. unfold wf_poly in Hw.
  pose proof (Forall_get _ _ (2 * k) Hr ltac:(rewrite Hw; unfold N; lia)) as H0.
  pose proof (Forall_get _ _ (2 * k + 1) Hr ltac:(rewrite Hw; unfold N; lia)) as H1.
  unfold w1_range, is_u8 in *. lia.
Qed.

Lemma pack_w1_spec r v :
  (K * POLY_W1_PACKED_BYTES <= length r)%nat -> w1_vec_ok v ->
  poly_vec_k_pack_w1_volatile r v = written (w1_bytes v K) r.
Proof.
  intros Hr [Hl Hv]. unfold poly_vec_k_pack_w1_volatile.
  change (w1_bytes v K) with (w1_bytes v (0 + K)).
  apply (for_ind (fun i t => t = written (w1_bytes v i) r)); [done|].
  intros i t Hi ->. destruct (Hv i ltac:(lia)) as [Hw Hp].
  rewrite poly_w1_pack_map by (done || apply length_replicate). fold (w1_encoding (v !!! i)).
  rewrite w1_bytes_S. apply blit_written; rewrite w1_bytes_length; [lia|].
  unfold w1_encoding. rewrite length_map, length_seq. etrans; [|exact Hr].
  change 128%nat with POLY_W1_PACKED_BYTES. rewrite <- Nat.mul_succ_r, Nat.mul_comm. apply Nat.mul_le_mono_r. lia.
Qed.
Lemma pack_w1_verify r v : poly_vec_k_pack_w1_volatile_verify r v = poly_vec_k_pack_w1_volatile r v.
Proof. reflexivity. Qed.

(** Coefficient-wise functions of two vectors. *)
Definition zip2 (f : Z -> Z -> Z) (a b : PolyVec) : PolyVec := zip_with (zip_with f) a b.

Lemma zip2_row f a b i :
  length a = K -> length b = K -> (i < K)%nat -> zip2 f a b !!! i = zip_with f (a !!! i) (b !!! i).
Proof.
  intros Ha Hb Hi. apply list_lookup_total_correct. unfold zip2. rewrite lookup_zip_with.
  rewrite (list_lookup_lookup_total_lt a i) by lia. cbn.
  by rewrite (list_lookup_lookup_total_lt b i) by lia.
Qed.
Lemma zip2_get f a b i k :
  wf_vec K a -> wf_vec K b -> (i < K)%nat -> (k < N)%nat ->
  (zip2 f a b !!! i) !!! k = f ((a !!! i) !!! k) ((b !!! i) !!! k).
Proof.
  intros Ha Hb Hi Hk. rewrite zip2_row by (apply Ha || apply Hb || done).
  pose proof (wf_vec_get _ _ _ Ha Hi) as Wa. pose proof (wf_vec_get _ _ _ Hb Hi) as Wb.
  apply lookup_total_zip; [by rewrite Wa|by rewrite Wb].
Qed.
Lemma zip_wf f (p q : Poly) : wf_poly p -> wf_poly q -> wf_poly (zip_with f p q).
Proof. unfold wf_poly. intros Hp Hq. rewrite length_zip_with. lia. Qed.
Lemma zip2_wf f a b : wf_vec K a -> wf_vec K b -> wf_vec K (zip2 f a b).
Proof.
  intros Ha Hb. apply (vec_wf K (fun _ _ => True)).
  split; [unfold zip2; rewrite length_zip_with; destruct Ha, Hb; lia|]. intros i Hi. split; [|done].
  rewrite zip2_row by (apply Ha || apply Hb || done). apply zip_wf; by apply (wf_vec_get K).
Qed.
(** A vector given by its rows. *)
Lemma zip2_eq f a b v :
  wf_vec K a -> wf_vec K b -> length v = K ->
  (forall i, (i < K)%nat -> v !!! i = zip_with f (a !!! i) (b !!! i)) -> v = zip2 f a b.
Proof.
  intros Ha Hb Hl H. apply (list_eq_total _ _ K); [done|apply zip2_wf; done|]. intros i Hi.
  rewrite H by done. symmetry. by apply zip2_row; [apply Ha|apply Hb|].
Qed.
(** A property of every coefficient. *)
Lemma vec_coeffs n (P : Z -> Prop) v :
  wf_vec n v -> (forall i k, (i < n)%nat -> (k < N)%nat -> P ((v !!! i) !!! k)) -> vec n (fun _ p => Forall P p) v.
Proof.
  intros Hw H. split; [apply Hw|]. intros i Hi. pose proof (wf_vec_get _ _ _ Hw Hi) as Wi. split; [done|].
  apply Forall_lookup. intros k x Hx. rewrite <- (list_lookup_total_correct _ _ _ Hx). apply H; [done|].
  rewrite <- Wi. by eapply lookup_lt_Some.
Qed.
Lemma vec_coeff n (P : Z -> Prop) v i k :
  vec n (fun _ p => Forall P p) v -> (i < n)%nat -> (k < N)%nat -> P ((v !!! i) !!! k).
Proof. intros [_ Hv] Hi Hk. destruct (Hv i Hi) as [Hw Hp]. apply (Forall_get _ _ k Hp). by rewrite Hw. Qed.

(** The hints applied. *)
Definition hinted : PolyVec -> PolyVec -> PolyVec := zip2 use_hint.
Definition is_bit (x : Z) : Prop := x = 0 \/ x = 1.
Definition bit_vec (hv : PolyVec) : Prop := vec K (fun _ p => Forall is_bit p) hv.

Lemma use_hint_volatile_spec R hv :
  wf_vec K R -> bit_vec hv -> poly_vec_k_use_hint_volatile R R hv = hinted R hv.
Proof.
  intros HR Hh. pose proof (vec_wf _ _ _ Hh) as Wh.
  assert (H : vec K (fun i p => p = zip_with use_hint (R !!! i) (hv !!! i)) (poly_vec_k_use_hint_volatile R R hv)).
  { apply (vec_loop K _ (fun i p => poly_use_hint p (R !!! i) (hv !!! i))); [apply HR|].
    intros i Hi. pose proof (wf_vec_get _ _ _ HR Hi) as Wp. pose proof (wf_vec_get _ _ _ Wh Hi) as Wq.
    rewrite poly_use_hint_zip by done. destruct (proj2 Hh i Hi) as [_ Hb].
    assert (E : zip_with (fun x y => use_hint x (s32 y)) (R !!! i) (hv !!! i) = zip_with use_hint (R !!! i) (hv !!! i)).
    { clear Wq. generalize (R !!! i). induction Hb as [|y q Hy _ IH]; intros [|x p]; [done..|]. cbn [zip_with].
      rewrite IH. by destruct Hy as [-> | ->]. }
    rewrite E. split; [by apply zip_wf|done]. }
  destruct H as [Hl H]. apply zip2_eq; [done..|]. intros i Hi. by apply H.
Qed.

Lemma use_hint_range x y : 0 <= x < Q_CONST -> is_bit y -> w1_range (use_hint x y).
Proof.
  intros Hx Hy. rewrite use_hint_eq by done. destruct (decompose_range x Hx) as (a1 & a0 & -> & H1 & _).
  unfold w1_range. repeat case_decide; dlia.
Qed.
Lemma hinted_ok F R hv : vcan K F R -> bit_vec hv -> w1_vec_ok (hinted R hv).
Proof.
  intros HR Hh. pose proof (vec_wf _ _ _ HR) as WR. pose proof (vec_wf _ _ _ Hh) as Wh.
  apply vec_coeffs; [by apply zip2_wf|]. intros i k Hi Hk. unfold hinted. rewrite zip2_get by done.
  apply use_hint_range; [by apply (proj2 HR)|by apply (vec_coeff K)].
Qed.
