(* ===== verification/KeyGen.v ===== *)
(** * Key generation ([crypto_sign_keypair] and the key of the signer)

    The three entry points of [sign.c] derive the key the same way.  The public key
    is [rho] and the high parts of [t = A s1 + s2], where [A], [s1] and [s2] are the
    expansions of the seed. *)
From S2P Require Import Prelude CInt Constants Reduce Rounding Keccak Sponge Poly Packing Ntt Sampling PolyVec Sign SignCore VecOps.

#[local] Opaque poly_uniform_eta SHAKE256 shake256_squeeze expand_entry ntt inv_ntt_to_mont
  combined_method poly_add poly_reduce poly_c_addq power2_round.

(** ** Hashing *)
Lemma shake256_of_ctx ms :
  shake256_of ms = ctx_after SHAKE256_RATE 0x1F (concat ms) 0.
Proof. unfold shake256_of, shake256_finalize, shake256_absorb, shake256_init. apply absorbs_start. Qed.
Lemma shake256_of_squeeze ms n :
  bytes (concat ms) -> fst (shake256_squeeze (shake256_of ms) n) = SHAKE256 (concat ms) n.
Proof. intros Hb. rewrite shake256_of_ctx, shake256_squeeze_after by done. by rewrite Nat.add_0_l, drop_0. Qed.

(** The expansion of the seed: 32 bytes [rho], 64 bytes [rhoPrime], 32 bytes [key]. *)
Definition seed_stream (seed : list Z) : list Z := SHAKE256 (take SEED_BYTES seed ++ [8; 7]) 128.

Lemma expand_seed_spec seed :
  bytes seed ->
  expand_seed seed =
    (take 32 (seed_stream seed), take 64 (drop 32 (seed_stream seed)), drop 96 (seed_stream seed)).
Proof.
  intros Hs. unfold expand_seed, seed_stream. rewrite shake256_of_ctx.
  change (concat [take SEED_BYTES seed; [Z.of_nat K; Z.of_nat L]]) with (take SEED_BYTES seed ++ [8; 7]).
  set (m := take SEED_BYTES seed ++ [8; 7]).
  assert (Hm : bytes m) by (apply Forall_app; split; [by apply Forall_take|by apply bytesb_bytes]).
  rewrite !shake256_squeeze_after by done. rewrite drop_0.
  change (0 + SEED_BYTES)%nat with 32%nat. change (32 + CRH_BYTES)%nat with 96%nat.
  change (96 + SEED_BYTES)%nat with 128%nat.
  rewrite <- (SHAKE256_prefix m 32 96) by done. rewrite <- (SHAKE256_prefix m 96 32) by done.
  by rewrite (skipn_firstn_comm 32 96).
Qed.

Lemma seed_stream_length seed : bytes seed -> length (seed_stream seed) = 128%nat.
Proof. intros Hs. apply SHAKE256_length, Forall_app. split; [by apply Forall_take|by apply bytesb_bytes]. Qed.
Lemma seed_stream_bytes seed : bytes seed -> bytes (seed_stream seed).
Proof. intros Hs. apply SHAKE256_bytes, Forall_app. split; [by apply Forall_take|by apply bytesb_bytes]. Qed.

(** ** The secret vectors *)

(** Polynomial [j] is [RejBoundedPoly] of the seed and the nonce [first + j]. *)
Definition eta_vector (fuel n : nat) (seed : list Z) (first : Z) (v : PolyVec) : Prop :=
  vec n (fun j p => poly_uniform_eta fuel zero_poly seed (u16 (first + Z.of_nat j)) = Some (0, p) /\
    bounded 3 p) v.

Lemma u16_next x : u16 (u16 x + 1) = u16 (x + 1).
Proof. unfold u16. by rewrite Zplus_mod_idemp_l. Qed.

Lemma uniform_eta_step fuel seed nonce a r :
  bytes seed -> length seed = CRH_BYTES -> wf_poly a ->
  poly_uniform_eta fuel a seed nonce = Some r ->
  exists p, r = (0, p) /\ poly_uniform_eta fuel zero_poly seed nonce = Some (0, p) /\ wf_poly p /\ bounded 3 p.
Proof.
  intros Hb Hl Ha H. rewrite poly_uniform_eta_spec in H |- * by done.
  unfold first_coeffs in *. destruct (Nat.leb_spec N (length (eta_accepted seed nonce (S fuel)))); [|done].
  injection H as <-. eexists. split; [reflexivity|]. split; [done|]. split; [by apply wf_take_N|].
  apply bounded_Forall; [by apply wf_take_N|]. apply Forall_take.
  eapply Forall_impl; [|apply accepted_half_range]. unfold eta_range, ETA. intros x Hx. cbv beta in *. lia.
Qed.

(** The loop, for any sampler [U] of a polynomial from a nonce. *)
Section eta_loop.
Context (U : Poly -> Z -> option (Z * Poly)).
Hypothesis U_ok : forall a nonce r, wf_poly a -> U a nonce = Some r ->
  exists p, r = (0, p) /\ U zero_poly nonce = Some (0, p) /\ wf_poly p /\ bounded 3 p.

Definition eta_inv (n : nat) (first : Z) (i : nat) (r : option (Z * (PolyVec * Z))) : Prop :=
  match r with
  | None => True
  | Some (err, (v, nonce)) => err = 0 /\ nonce = u16 (first + Z.of_nat i) /\ wf_vec n v /\
      forall j, (j < i)%nat -> U zero_poly (u16 (first + Z.of_nat j)) = Some (0, v !!! j) /\ bounded 3 (v !!! j)
  end.

Lemma eta_loop n first :
  eta_inv n first (0 + n) (for_err 0 n (fun i '(v, nonce) =>
    '(err, p) ← U (v !!! i) nonce;
    Some (err, (<[i := p]> v, u16 (nonce + 1)))) (zero_vec n, u16 first)).
Proof using U_ok.
  unfold for_err. apply (for_ind (eta_inv n first) 0 n).
  - split; [done|]. split; [by rewrite Z.add_0_r|]. split; [|lia].
    split; [apply length_replicate|by apply Forall_replicate].
  - intros i [[err [v nonce]]|] Hi; [|done]. intros (-> & -> & Hw & Hv). cbn [mbind option_bind Z.eqb].
    destruct (U (v !!! i) _) as [[err p]|] eqn:E; [|done]. cbn [mbind option_bind].
    destruct (U_ok _ _ _ (wf_vec_get n v i Hw ltac:(lia)) E) as (p' & [= -> ->] & E' & Hp & Bp).
    unfold eta_inv. rewrite u16_next. replace (first + Z.of_nat i + 1) with (first + Z.of_nat (S i)) by lia.
    split; [done|]. split; [done|]. split.
    + split; [by rewrite length_insert; apply Hw|]. apply Forall_insert; [apply Hw|done].
    + intros j Hj. destruct (decide (j = i)) as [->|].
      * by rewrite list_lookup_total_insert_eq by (rewrite (proj1 Hw); lia).
      * rewrite list_lookup_total_insert_ne by lia. apply Hv. lia.
Qed.

(** The loop reaches its end when every polynomial is sampled. *)
Lemma eta_loop_complete n first w :
  (forall a nonce, wf_poly a -> U a nonce = U zero_poly nonce) ->
  vec n (fun j p => U zero_poly (u16 (first + Z.of_nat j)) = Some (0, p)) w ->
  exists nonce, for_err 0 n (fun i '(v, nonce) =>
    '(err, p) ← U (v !!! i) nonce;
    Some (err, (<[i := p]> v, u16 (nonce + 1)))) (zero_vec n, u16 first) = Some (0, (w, nonce)).
Proof using.
  intros HU [Hl Hw]. unfold for_err.
  pose (inv := fun i (r : option (Z * (PolyVec * Z))) => exists v, r = Some (0, (v, u16 (first + Z.of_nat i))) /\
    wf_vec n v /\ take i v = take i w).
  assert (H : forall r, inv (0 + n)%nat r -> exists nonce, r = Some (0, (w, nonce))).
  { intros r (v & -> & [Hv _] & Ht). rewrite !take_ge in Ht by lia. subst v. by eexists. }
  apply H. apply for_ind.
  - exists (zero_vec n). rewrite Z.add_0_r. split; [done|]. split; [|done].
    split; [apply length_replicate|by apply Forall_replicate].
  - intros i r Hi (v & -> & Hv & Ht). cbn [mbind option_bind Z.eqb].
    destruct (Hw i ltac:(lia)) as [Hp E]. rewrite (HU (v !!! i)) by (apply (wf_vec_get n); [done|lia]). rewrite E.
    cbn [mbind option_bind]. exists (<[i := w !!! i]> v). rewrite u16_next.
    replace (first + Z.of_nat i + 1) with (first + Z.of_nat (S i)) by lia. split; [done|]. split.
    + split; [by rewrite length_insert; apply Hv|]. apply Forall_insert; [apply Hv|done].
    + rewrite (take_S_r _ _ (w !!! i)) by (apply list_lookup_insert_eq; rewrite (proj1 Hv); lia).
      rewrite take_insert_ge, Ht by done. symmetry. apply take_S_r. apply list_lookup_lookup_total_lt. lia.
Qed.
End eta_loop.

Lemma uniform_eta_loop fuel n seed first err v nonce :
  bytes seed -> length seed = CRH_BYTES ->
  for_err 0 n (fun i '(v, nonce) =>
    '(err, p) ← poly_uniform_eta fuel (v !!! i) seed nonce;
    Some (err, (<[i := p]> v, u16 (nonce + 1)))) (zero_vec n, u16 first) = Some (err, (v, nonce)) ->
  err = 0 /\ eta_vector fuel n seed first v.
Proof.
  intros Hb Hl E.
  pose proof (eta_loop (fun a nonce => poly_uniform_eta fuel a seed nonce)
    (fun a nonce r => uniform_eta_step fuel seed nonce a r Hb Hl) n first) as H.
  cbv beta in H. rewrite E in H. destruct H as (-> & _ & Hw & Hv). split; [done|]. split; [apply Hw|].
  intros i Hi. split; [by apply (wf_vec_get n)|exact (Hv i Hi)].
Qed.

Lemma uniform_eta_loop_complete fuel n seed first w :
  bytes seed -> length seed = CRH_BYTES -> eta_vector fuel n seed first w ->
  exists nonce, for_err 0 n (fun i '(v, nonce) =>
    '(err, p) ← poly_uniform_eta fuel (v !!! i) seed nonce;
    Some (err, (<[i := p]> v, u16 (nonce + 1)))) (zero_vec n, u16 first) = Some (0, (w, nonce)).
Proof.
  intros Hb Hl Hw. apply (eta_loop_complete (fun a nonce => poly_uniform_eta fuel a seed nonce)).
  - intros a nonce Ha. by rewrite !poly_uniform_eta_spec.
  - eapply vec_impl; [|exact Hw]. intros i p _ _ [E _]. exact E.
Qed.

(** Both functions return exactly the vector of the expansion, when there is one. *)
Lemma uniform_eta_l fuel seed first :
  bytes seed -> length seed = CRH_BYTES -> 0 <= first < 65536 ->
  match poly_vec_l_uniform_eta fuel (zero_vec L) seed first with
  | None => forall v, ~ eta_vector fuel L seed first v
  | Some (err, v) => err = 0 /\ eta_vector fuel L seed first v
  end.
Proof.
  intros Hb Hl Hf. unfold poly_vec_l_uniform_eta.
  destruct (for_err _ _ _ _) as [[e [v' nonce]]|] eqn:E; cbn [mbind option_bind];
    rewrite <- (u16_id first Hf) in E.
  - by eapply uniform_eta_loop.
  - intros v Hv. destruct (uniform_eta_loop_complete fuel L seed first v Hb Hl Hv) as [nonce E'].
    rewrite E' in E. discriminate E.
Qed.
Lemma uniform_eta_k fuel seed first :
  bytes seed -> length seed = CRH_BYTES -> 0 <= first < 65536 ->
  match poly_vec_k_uniform_eta fuel (zero_vec K) seed first with
  | None => forall v, ~ eta_vector fuel K seed first v
  | Some (err, v) => err = 0 /\ eta_vector fuel K seed first v
  end.
Proof.
  intros Hb Hl Hf. unfold poly_vec_k_uniform_eta.
  destruct (for_err _ _ _ _) as [[e [v' nonce]]|] eqn:E; cbn [mbind option_bind];
    rewrite <- (u16_id first Hf) in E.
  - by eapply uniform_eta_loop.
  - intros v Hv. destruct (uniform_eta_loop_complete fuel K seed first v Hb Hl Hv) as [nonce E'].
    rewrite E' in E. discriminate E.
Qed.

(** ** The public key *)
Definition t1_encoding (p : Poly) : list Z := concat (map (t1_block p) (seq 0 64)).
Definition t1_bytes (v : PolyVec) (n : nat) : list Z := concat (map (fun b => t1_encoding (v !!! b)) (seq 0 n)).
Definition pk_bytes (rho : list Z) (v : PolyVec) : list Z := rho ++ t1_bytes v K.

Lemma t1_encoding_length p : length (t1_encoding p) = POLY_T1_PACKED_BYTES.
Proof. by apply (concat_blocks_length 5 64). Qed.
Lemma t1_bytes_length v n : length (t1_bytes v n) = (POLY_T1_PACKED_BYTES * n)%nat.
Proof. apply concat_blocks_length. intros. apply t1_encoding_length. Qed.
Lemma t1_bytes_S v n : t1_bytes v (S n) = t1_bytes v n ++ t1_encoding (v !!! n).
Proof. unfold t1_bytes. rewrite seq_S, map_app, concat_app. cbn [map concat Nat.add]. by rewrite app_nil_r. Qed.
Lemma pk_bytes_length rho v : length rho = SEED_BYTES -> length (pk_bytes rho v) = CRYPTO_PUBLIC_KEY_BYTES.
Proof. intros Hr. unfold pk_bytes. rewrite length_app, t1_bytes_length, Hr. reflexivity. Qed.

Definition t1_vec_ok (v : PolyVec) : Prop := vec K (fun _ p => Forall t1_range p) v.

Lemma pk_bytes_range rho v : bytes rho -> t1_vec_ok v -> bytes (pk_bytes rho v).
Proof.
  intros Hr [Hl Hv]. apply Forall_app. split; [done|]. apply Forall_blocks. intros b Hb.
  destruct (Hv b Hb). by apply t1_block_bytes.
Qed.

(** Copying an array element by element. *)
Lemma copy_all n (l : list Z) : length l = n -> map (fun i => l !!! i) (seq 0 n) = l.
Proof. intros <-. rewrite (map_seq_map (fun x => x)). apply map_id. Qed.

Lemma pack_pk_spec rho v pk :
  length rho = SEED_BYTES -> t1_vec_ok v -> length pk = CRYPTO_PUBLIC_KEY_BYTES ->
  pack_pk_volatile rho v pk = pk_bytes rho v.
Proof.
  intros Hr [Hl Hv] Hpk. unfold pack_pk_volatile.
  rewrite (for_build (fun i => rho !!! i) SEED_BYTES) by reflexivity.
  rewrite (copy_all SEED_BYTES rho Hr), blit_0. change (rho ++ drop (length rho) pk) with (written rho pk). cbv zeta.
  match goal with |- for_ 0 K ?f ?s = _ =>
    assert (Hf : for_ 0 K f s = written (rho ++ t1_bytes v (0 + K)) pk) end.
  { apply for_ind; [unfold t1_bytes; cbn [seq map concat]; by rewrite app_nil_r|].
    intros b t Hb ->. destruct (Hv b ltac:(lia)) as [Hw Hp].
    rewrite poly_t1_pack_blocks by (done || apply length_replicate). fold (t1_encoding (v !!! b)).
    rewrite t1_bytes_S, app_assoc. apply blit_written; rewrite length_app, t1_bytes_length, Hr; [lia|].
    rewrite t1_encoding_length, Hpk. change CRYPTO_PUBLIC_KEY_BYTES with (SEED_BYTES + POLY_T1_PACKED_BYTES * K)%nat.
    assert (POLY_T1_PACKED_BYTES * b + POLY_T1_PACKED_BYTES <= POLY_T1_PACKED_BYTES * K)%nat; [|lia].
    rewrite <- Nat.mul_succ_r. apply Nat.mul_le_mono_l. lia. }
  rewrite Hf. apply written_all. rewrite Hpk. by apply pk_bytes_length.
Qed.

(** ** The vector [t = A s1 + s2] *)

(** Values of a vector at the roots. *)
Definition hats (v : PolyVec) (i k : nat) : Z := hat (v !!! i) k.
Definition small (n : nat) (v : PolyVec) : Prop := vec n (fun _ p => bounded 3 p) v.
Lemma small_vhat n v : small n v -> vhat n 3 (hats v) v.
Proof. intros [Hl Hv]. split; [done|]. intros i Hi. destruct (Hv i Hi). done. Qed.

(** [t] in [[0, q)], given by its values at the roots. *)
Definition key_vector (fuel : nat) (rho : list Z) (s1 s2 : PolyVec) : PolyVec -> Prop :=
  vcan K (fun i k => msum fuel rho (hats s1) i k + hats s2 i k).
Definition high (T : PolyVec) : PolyVec := map (map (fun x => fst (power2_round x))) T.
Definition low (T : PolyVec) : PolyVec := map (map (fun x => snd (power2_round x))) T.

Lemma vcan_wf n F v : vcan n F v -> wf_vec n v.
Proof. apply vec_wf. Qed.
Lemma vcan_range n F v i k : vcan n F v -> (i < n)%nat -> (k < N)%nat -> 0 <= (v !!! i) !!! k < Q_CONST.
Proof. intros [_ Hv] Hi Hk. by apply Hv. Qed.

Lemma power2_round_parts x : 0 <= x < Q_CONST ->
  0 <= fst (power2_round x) < 1024 /\ -4096 < snd (power2_round x) <= 4096 /\
  x = fst (power2_round x) * 8192 + snd (power2_round x).
Proof. intros Hx. rewrite power2_round_eq by done. cbn [fst snd]. unfold Q_CONST in Hx. dlia. Qed.

Lemma high_ok F T : vcan K F T -> t1_vec_ok (high T).
Proof.
  intros HT. pose proof (map_map_wf K (fun x => fst (power2_round x)) T (vcan_wf _ _ _ HT)) as Hw.
  split; [apply Hw|]. intros i Hi. split; [by apply (wf_vec_get K)|].
  apply Forall_lookup. intros k x Hx. pose proof (wf_vec_get _ _ _ Hw Hi) as Hwi.
  assert (Hk : (k < N)%nat) by (rewrite <- Hwi; by eapply lookup_lt_Some).
  rewrite <- (list_lookup_total_correct _ _ _ Hx). unfold high.
  rewrite (map_map_get K) by (done || by apply (vcan_wf _ F)).
  apply power2_round_parts. by apply (vcan_range K F).
Qed.

(** ** The stored record *)

(** Reads through writes of the record, and nothing else. *)
Ltac nvm_simpl := cbn [set_t1 set_w1 set_w0 set_h set_y set_z set_cp set_pack1 set_sig set_pk
  t1 w1 w0 h y z cp pack1 sig pk].

Record nvm_ok (st : nvm) : Prop := {
  t1_ok : wf_vec K (t1 st); w1_ok : wf_vec K (w1 st); w0_ok : wf_vec K (w0 st); h_ok : wf_vec K (h st);
  y_ok : wf_vec L (y st); z_ok : wf_vec L (z st); cp_ok : wf_poly (cp st);
  pack1_ok : match pack1 st with PackT0 v => wf_vec K v | PackBuf b => length b = (K * POLY_W1_PACKED_BYTES)%nat end;
  sig_ok : length (sig st) = CRYPTO_BYTES; pk_ok : length (pk st) = CRYPTO_PUBLIC_KEY_BYTES }.

(** Writes keep the record well formed. *)
Section writes.
Context (v : PolyVec) (st : nvm) (Hst : nvm_ok st).
Lemma ok_set_z : wf_vec L v -> nvm_ok (set_z v st).
Proof using Hst. intros Hv. destruct Hst. split; nvm_simpl; assumption. Qed.
Lemma ok_set_y : wf_vec L v -> nvm_ok (set_y v st).
Proof using Hst. intros Hv. destruct Hst. split; nvm_simpl; assumption. Qed.
Lemma ok_set_h : wf_vec K v -> nvm_ok (set_h v st).
Proof using Hst. intros Hv. destruct Hst. split; nvm_simpl; assumption. Qed.
Lemma ok_set_w0 : wf_vec K v -> nvm_ok (set_w0 v st).
Proof using Hst. intros Hv. destruct Hst. split; nvm_simpl; assumption. Qed.
Lemma ok_set_w1 : wf_vec K v -> nvm_ok (set_w1 v st).
Proof using Hst. intros Hv. destruct Hst. split; nvm_simpl; assumption. Qed.
Lemma ok_set_t0 : wf_vec K v -> nvm_ok (set_pack1 (PackT0 v) st).
Proof using Hst. intros Hv. destruct Hst. split; nvm_simpl; assumption. Qed.
End writes.
Lemma ok_set_cp c st : nvm_ok st -> wf_poly c -> nvm_ok (set_cp c st).
Proof. intros Hst Hv. destruct Hst. split; nvm_simpl; assumption. Qed.
Lemma ok_set_sig sg st : nvm_ok st -> length sg = CRYPTO_BYTES -> nvm_ok (set_sig sg st).
Proof. intros Hst Hv. destruct Hst. split; nvm_simpl; assumption. Qed.
Lemma ok_set_t1 v st : nvm_ok st -> wf_vec K v -> nvm_ok (set_t1 v st).
Proof. intros Hst Hv. destruct Hst. split; nvm_simpl; assumption. Qed.
Lemma ok_set_buf b st : nvm_ok st -> length b = (K * POLY_W1_PACKED_BYTES)%nat -> nvm_ok (set_pack1 (PackBuf b) st).
Proof. intros Hst Hv. destruct Hst. split; nvm_simpl; assumption. Qed.
Lemma ok_set_pk k st : nvm_ok st -> length k = CRYPTO_PUBLIC_KEY_BYTES -> nvm_ok (set_pk k st).
Proof. intros Hst Hv. destruct Hst. split; nvm_simpl; assumption. Qed.

Lemma pack1_t0_ok st : nvm_ok st -> wf_vec K (pack1_t0 st).
Proof.
  intros H. pose proof (pack1_ok _ H) as Hp. unfold pack1_t0. destruct (pack1 st); [done|].
  split; [apply length_replicate|by apply Forall_replicate].
Qed.

Section key.
Context (fuel : nat) (rho : list Z) (s1 s2 : PolyVec).
Context (rho_bytes : bytes rho) (rho_length : length rho = SEED_BYTES)
  (s1_small : small L s1) (s2_small : small K s2).

(** Results of [combined_method] do not depend on the old contents. *)
Lemma keygen_product_spec st :
  nvm_ok st ->
  match keygen_product fuel rho (poly_vec_l_ntt s1) st with
  | None => ~ matrix_ready fuel rho
  | Some st' => matrix_ready fuel rho /\
      exists t, st' = set_t1 t st /\ vhat K INV_BOUND (msum fuel rho (hats s1)) t
  end.
Proof using rho_bytes rho_length s1_small.
  intros Hst. unfold keygen_product.
  pose proof (loop_ntt L 3 (hats s1) s1 ltac:(lia) ltac:(unfold Q_CONST; lia) (small_vhat _ _ s1_small)) as Hs.
  change (for_ 0 L _ s1) with (poly_vec_l_ntt s1) in Hs.
  assert (HS : 0 < 3 + 8 * Q_CONST <= 2147483648) by (unfold Q_CONST; lia).
  pose proof (product_val fuel rho _ (hats s1) (t1 st) _ rho_bytes rho_length HS (t1_ok _ Hst) Hs) as Hp.
  destruct (combined_method fuel (t1 st) (poly_vec_l_ntt s1) rho) as [t|]; [|exact Hp].
  cbn [mbind option_bind]. destruct Hp as [Hm Hp]. split; [exact Hm|].
  eexists. split; [reflexivity|]. cbn [t1 set_t1].
  apply (loop_inv_ntt K), (loop_reduce_val K (7 * Q_CONST)); [unfold Q_CONST; lia|exact Hp].
Qed.

(** [t1] after the addition and the reduction to [[0, q)]. *)
Lemma keygen_canonical t :
  vhat K INV_BOUND (msum fuel rho (hats s1)) t ->
  key_vector fuel rho s1 s2 (poly_vec_k_c_addq_volatile (poly_vec_k_add_volatile t s2)).
Proof using rho_length s2_small.
  intros Ht. apply (loop_c_addq K (INV_BOUND + 3)); [unfold INV_BOUND, Q_CONST; lia|].
  apply (loop_add K INV_BOUND 3); [unfold INV_BOUND; lia|done|by apply small_vhat].
Qed.

Lemma keygen_finish_spec st t T :
  nvm_ok st -> vhat K INV_BOUND (msum fuel rho (hats s1)) t -> key_vector fuel rho s1 s2 T ->
  keygen_finish rho s2 (set_t1 t st) =
    set_pk (pk_bytes rho (high T)) (set_pack1 (PackT0 (low T)) (set_t1 (high T) st)).
Proof using rho_length s2_small.
  intros Hst Ht HT. pose proof (keygen_canonical t Ht) as Hc.
  assert (E : poly_vec_k_c_addq_volatile (poly_vec_k_add_volatile t s2) = T) by exact (vcan_unique _ _ _ _ Hc HT).
  unfold keygen_finish. cbn [t1 set_t1].
  assert (Hp0 : pack1_t0 (set_t1 t st) = pack1_t0 st) by done.
  change (pack1_t0 (set_t1 (poly_vec_k_c_addq_volatile _) _)) with (pack1_t0 st). rewrite E.
  assert (Hw : wf_vec K T) by exact (vcan_wf _ _ _ HT).
  rewrite power2_round_volatile_map by (done || by apply pack1_t0_ok).
  fold (high T) (low T). cbn [t1 pk set_t1 set_pack1].
  rewrite pack_pk_spec; [reflexivity|done|by eapply high_ok|apply Hst].
Qed.
End key.

(** ** The key of a seed *)
Definition rho_of (seed : list Z) : list Z := take 32 (seed_stream seed).
Definition rho_prime (seed : list Z) : list Z := take 64 (drop 32 (seed_stream seed)).
Definition key_of (seed : list Z) : list Z := drop 96 (seed_stream seed).

(** [s1], [s2] and [t] of the seed; every rejection loop ends within the fuel. *)
Definition expanded_key (fuel : nat) (seed : list Z) (s1 s2 T : PolyVec) : Prop :=
  eta_vector fuel L (rho_prime seed) 0 s1 /\ eta_vector fuel K (rho_prime seed) (Z.of_nat L) s2 /\
  matrix_ready fuel (rho_of seed) /\ key_vector fuel (rho_of seed) s1 s2 T.
Definition key_ready (fuel : nat) (seed : list Z) : Prop := exists s1 s2 T, expanded_key fuel seed s1 s2 T.
Definition public_key (seed : list Z) (T : PolyVec) : list Z := pk_bytes (rho_of seed) (high T).

Section seeds.
Context (seed : list Z) (seed_bytes : bytes seed).
Lemma rho_of_bytes : bytes (rho_of seed).
Proof using seed_bytes. by apply Forall_take, seed_stream_bytes. Qed.
Lemma rho_of_length : length (rho_of seed) = SEED_BYTES.
Proof using seed_bytes. unfold rho_of. by rewrite length_take, seed_stream_length. Qed.
Lemma rho_prime_bytes : bytes (rho_prime seed).
Proof using seed_bytes. by apply Forall_take, Forall_drop, seed_stream_bytes. Qed.
Lemma rho_prime_length : length (rho_prime seed) = CRH_BYTES.
Proof using seed_bytes. unfold rho_prime. by rewrite length_take, length_drop, seed_stream_length. Qed.
Lemma key_of_bytes : bytes (key_of seed).
Proof using seed_bytes. by apply Forall_drop, seed_stream_bytes. Qed.
End seeds.

Lemma eta_small fuel n seed first v : eta_vector fuel n seed first v -> small n v.
Proof. apply vec_impl. intros i p _ _ [_ Hb]. exact Hb. Qed.
Lemma eta_unique fuel n seed first v w : eta_vector fuel n seed first v -> eta_vector fuel n seed first w -> v = w.
Proof.
  intros [Hl Hv] [Hl' Hw]. apply (list_eq_total _ _ n); [done|done|]. intros i Hi.
  destruct (Hv i Hi) as [_ [E _]], (Hw i Hi) as [_ [E' _]]. rewrite E in E'. by injection E'.
Qed.
Lemma expanded_key_unique fuel seed s1 s2 T s1' s2' T' :
  expanded_key fuel seed s1 s2 T -> expanded_key fuel seed s1' s2' T' -> s1 = s1' /\ s2 = s2' /\ T = T'.
Proof.
  intros (H1 & H2 & _ & HT) (H1' & H2' & _ & HT').
  rewrite (eta_unique _ _ _ _ _ _ H1' H1), (eta_unique _ _ _ _ _ _ H2' H2) in *.
  split; [done|]. split; [done|]. exact (vcan_unique _ _ _ _ HT HT').
Qed.

(** *** More fuel changes nothing *)
Lemma eta_more fuel n seed nonce r :
  bytes seed -> length seed = CRH_BYTES -> poly_uniform_eta fuel zero_poly seed nonce = Some r ->
  poly_uniform_eta (fuel + n) zero_poly seed nonce = Some r.
Proof.
  intros Hb Hl. rewrite !poly_uniform_eta_spec by done. intros E.
  change (S (fuel + n)) with (S fuel + n)%nat. rewrite eta_accepted_mono; [exact E|done|done|].
  unfold first_coeffs in E. by destruct (Nat.leb_spec N (length (eta_accepted seed nonce (S fuel)))).
Qed.
Lemma entry_more fuel n rho i j p :
  bytes rho -> length rho = SEED_BYTES -> expand_entry fuel rho i j = Some p -> expand_entry (fuel + n) rho i j = Some p.
Proof.
  intros Hb Hl. rewrite !expand_entry_spec by done. intros E. rewrite entry_accepted_mono; [exact E|done|done|].
  unfold first_coeffs in E. by destruct (Nat.leb_spec N (length (entry_accepted rho i j fuel))).
Qed.
Lemma key_more fuel n seed s1 s2 T :
  bytes seed -> expanded_key fuel seed s1 s2 T -> expanded_key (fuel + n) seed s1 s2 T.
Proof.
  intros Hs (H1 & H2 & Hm & HT).
  pose proof (rho_prime_bytes _ Hs) as Hpb. pose proof (rho_prime_length _ Hs) as Hpl.
  pose proof (rho_of_bytes _ Hs) as Hrb. pose proof (rho_of_length _ Hs) as Hrl.
  assert (He : forall m first v, eta_vector fuel m (rho_prime seed) first v -> eta_vector (fuel + n) m (rho_prime seed) first v).
  { intros m first v. apply vec_impl. intros i p _ _ [E B]. split; [|exact B]. exact (eta_more _ _ _ _ _ Hpb Hpl E). }
  assert (Hn : forall i j p, expand_entry fuel (rho_of seed) i j = Some p -> expand_entry (fuel + n) (rho_of seed) i j = Some p).
  { intros i j p E. exact (entry_more _ _ _ _ _ _ Hrb Hrl E). }
  split; [by apply He|]. split; [by apply He|]. split.
  - intros i j Hi Hj. destruct (Hm i j Hi Hj) as [p E]. exists p. by apply Hn.
  - eapply vcan_ext; [|exact HT]. intros i k Hi _. cbv beta.
    assert (Ee : msum fuel (rho_of seed) (hats s1) i k ≡q msum (fuel + n) (rho_of seed) (hats s1) i k);
      [|by rewrite Ee].
    apply zsum_eqmq. intros j Hj. unfold mat, entry. destruct (Hm i j Hi Hj) as [p E]. by rewrite E, (Hn i j p E).
Qed.
(** The key does not depend on the fuel. *)
Lemma key_fuel fuel fuel' seed s1 s2 T s1' s2' T' :
  bytes seed -> expanded_key fuel seed s1 s2 T -> expanded_key fuel' seed s1' s2' T' -> T = T'.
Proof.
  intros Hs H H'. apply (key_more _ fuel') in H; [|done]. apply (key_more _ fuel) in H'; [|done].
  rewrite Nat.add_comm in H'. by destruct (expanded_key_unique _ _ _ _ _ _ _ _ H H') as (_ & _ & E).
Qed.

Lemma bind_done {A B} (a : A) (g : Z -> A -> option B) (f : A -> option B) :
  ('(err, x) ← Some (0, a); if negb (err =? 0) then g err x else f x) = f a.
Proof. reflexivity. Qed.

(** After the samplers: the public key and [t1] are stored, the rest is kept. *)
Definition keypair_tail (fuel : nat) (rho : list Z) (s1 s2 : PolyVec) (st : nvm) : option (Z * nvm) :=
  st ← keygen_product fuel rho (poly_vec_l_ntt s1) st;
  let st := set_t1 (poly_vec_k_add_volatile (t1 st) s2) st in
  let st := set_t1 (poly_vec_k_c_addq_volatile (t1 st)) st in
  let st := set_t1 (poly_vec_k_power2_round_volatile_keypair (t1 st) (t1 st)) st in
  let st := set_pk (pack_pk_volatile rho (t1 st) (pk st)) st in
  Some (0, st).

Lemma keypair_tail_spec fuel rho s1 s2 st :
  bytes rho -> length rho = SEED_BYTES -> small L s1 -> small K s2 -> nvm_ok st ->
  match keypair_tail fuel rho s1 s2 st with
  | None => ~ matrix_ready fuel rho
  | Some (err, st') => err = 0 /\ matrix_ready fuel rho /\ exists T, key_vector fuel rho s1 s2 T /\
      st' = set_pk (pk_bytes rho (high T)) (set_t1 (high T) st)
  end.
Proof.
  intros Hb Hl H1 H2 Hst. unfold keypair_tail.
  pose proof (keygen_product_spec fuel rho s1 Hb Hl H1 st Hst) as Hp.
  destruct (keygen_product fuel rho (poly_vec_l_ntt s1) st) as [st'|]; [|exact Hp].
  destruct Hp as (Hm & t & -> & Ht). cbn [mbind option_bind].
  pose proof (keygen_canonical fuel rho s1 s2 Hl H2 t Ht) as HT.
  split; [done|]. split; [exact Hm|]. eexists. split; [exact HT|].
  cbn [t1 set_t1 pk]. set (T := poly_vec_k_c_addq_volatile _) in *. clearbody T.
  pose proof (vcan_wf _ _ _ HT) as Hw.
  assert (E : poly_vec_k_power2_round_volatile_keypair T T = high T)
    by exact (loop_table K (fun x => fst (power2_round x)) T T Hw Hw).
  rewrite E, pack_pk_spec; [reflexivity|done|by eapply high_ok|apply Hst].
Qed.

Lemma keypair_spec fuel rng sd st :
  bytes sd -> nvm_ok st ->
  match crypto_sign_keypair fuel rng (Some sd) st with
  | None => ~ key_ready fuel sd
  | Some (err, st') => err = 0 /\ exists s1 s2 T, expanded_key fuel sd s1 s2 T /\
      st' = set_pk (public_key sd T) (set_t1 (high T) st)
  end.
Proof.
  intros Hs Hst. unfold crypto_sign_keypair.
  rewrite expand_seed_spec by done. fold (rho_of sd) (rho_prime sd) (key_of sd).
  pose proof (uniform_eta_l fuel (rho_prime sd) 0 (rho_prime_bytes _ Hs) (rho_prime_length _ Hs) ltac:(lia)) as H1.
  destruct (poly_vec_l_uniform_eta fuel (zero_vec L) (rho_prime sd) 0) as [[err s1]|];
    [destruct H1 as [-> H1]|intros (s1 & s2 & T & E1 & _); exact (H1 s1 E1)].
  rewrite bind_done.
  pose proof (uniform_eta_k fuel (rho_prime sd) (Z.of_nat L) (rho_prime_bytes _ Hs) (rho_prime_length _ Hs)
    ltac:(unfold L; lia)) as H2.
  destruct (poly_vec_k_uniform_eta fuel (zero_vec K) (rho_prime sd) (Z.of_nat L)) as [[err s2]|];
    [destruct H2 as [-> H2]|intros (s1' & s2 & T & _ & E2 & _); exact (H2 s2 E2)].
  rewrite bind_done.
  pose proof (keypair_tail_spec fuel (rho_of sd) s1 s2 st (rho_of_bytes _ Hs) (rho_of_length _ Hs)
    (eta_small _ _ _ _ _ H1) (eta_small _ _ _ _ _ H2) Hst) as Ht.
  fold (keypair_tail fuel (rho_of sd) s1 s2 st).
  destruct (keypair_tail fuel (rho_of sd) s1 s2 st) as [[err st']|].
  - destruct Ht as (-> & Hm & T & HT & ->). split; [done|]. exists s1, s2, T. done.
  - intros (s1' & s2' & T & _ & _ & Hm & _). exact (Ht Hm).
Qed.


Lemma zeros_wf n : wf_vec n (zero_vec n).
Proof. split; [apply length_replicate|]. by apply Forall_replicate. Qed.
Lemma zero_nvm_ok : nvm_ok zero_nvm.
Proof. split; apply zeros_wf || exact (length_replicate _ _). Qed.

