(* ===== verification/Verify.v ===== *)
(** * Verification ([crypto_verify_optimized])

    What the verifier accepts, stated without its storage and its order of
    operations: the relation [valid_signature] of FIPS 204 on the public key. *)
From S2P Require Import Prelude CInt Constants Reduce Rounding Keccak Sponge Poly Packing Ntt Sampling PolyVec Sign SignCore SigCodec VecOps KeyGen.

#[local] Opaque SHAKE256 shake256_squeeze shake256_absorb expand_entry ntt inv_ntt_to_mont combined_method
  poly_add poly_sub poly_reduce poly_c_addq poly_shitf_l poly_use_hint poly_pointwise_montgomery poly_chk_norm
  challenge_sample z_encoding poly_z_unpack poly_w1_pack.

(** ** The challenge *)
Definition challenge (fuel : nat) (ct : list Z) (c : Poly) : Prop :=
  poly_challenge_volatile fuel zero_poly ct CTILDE_BYTES = Some (0, c).

Lemma challenge_volatile_eq fuel c seed :
  poly_challenge_volatile fuel c seed CTILDE_BYTES = poly_challenge fuel c seed CTILDE_BYTES.
Proof. unfold poly_challenge. rewrite Nat.eqb_refl. reflexivity. Qed.
Lemma absorb_take c seed n : shake256_absorb c (take n seed) n = shake256_absorb c seed n.
Proof. Transparent shake256_absorb. unfold shake256_absorb, absorb. by rewrite take_take, Nat.min_id. Qed.
#[local] Opaque shake256_absorb.

(** The old contents of the array and the bytes behind the seed do not matter. *)
Lemma challenge_spec fuel c seed r :
  wf_poly c -> poly_challenge_volatile fuel c seed CTILDE_BYTES = Some r ->
  fst r = 0 /\ challenge fuel (take CTILDE_BYTES seed) (snd r) /\ wf_poly (snd r) /\ bounded 2 (snd r).
Proof.
  intros Hc. rewrite challenge_volatile_eq. intros H.
  destruct (poly_challenge_ball fuel c seed CTILDE_BYTES r Hc eq_refl H) as (H0 & Hw & Hu & _).
  split; [done|]. split.
  - unfold challenge. rewrite challenge_volatile_eq. rewrite poly_challenge_sample in H |- * by done.
    rewrite absorb_take. rewrite H. destruct r as [e r]. cbn [fst snd] in *. by subst e.
  - split; [done|]. apply bounded_Forall; [done|]. eapply Forall_impl; [|exact Hu].
    unfold unit_coeff. cbv beta. intros x Hx. lia.
Qed.
Lemma challenge_complete fuel c seed p :
  wf_poly c -> challenge fuel (take CTILDE_BYTES seed) p ->
  poly_challenge_volatile fuel c seed CTILDE_BYTES = Some (0, p).
Proof.
  intros Hc. unfold challenge. rewrite !challenge_volatile_eq, !poly_challenge_sample by done.
  by rewrite absorb_take.
Qed.
Lemma challenge_unique fuel ct c c' : challenge fuel ct c -> challenge fuel ct c' -> c = c'.
Proof. unfold challenge. congruence. Qed.
Lemma challenge_bounded fuel ct c : length ct = CTILDE_BYTES -> challenge fuel ct c -> wf_poly c /\ bounded 2 c.
Proof. intros Hl H. destruct (challenge_spec fuel zero_poly ct _ eq_refl H) as (_ & _ & Hw & Hb). exact (conj Hw Hb). Qed.

(** ** The reconstructed commitment *)

(** [A z - c t1 2^d], at the roots. *)
Definition verify_values (fuel : nat) (rho : list Z) (t1v zv : PolyVec) (c : Poly) (i k : nat) : Z :=
  msum fuel rho (hats zv) i k - hat c k * (8192 * hats t1v i k).

Lemma commitment fuel rho t1v zv c w :
  t1_vec_ok t1v -> wf_poly c -> bounded 2 c ->
  vval K (7 * Q_CONST) (fun i k => RINV * msum fuel rho (hats zv) i k) w ->
  let t := poly_vec_k_ntt_volatile (poly_vec_k_shift_l_volatile t1v) in
  let t := poly_vec_k_pointwise_poly_montgomery_volatile t (ntt c) t in
  wf_vec K t /\ vcan K (verify_values fuel rho t1v zv c)
    (poly_vec_k_c_addq_volatile (poly_vec_k_inv_ntt_to_mont_volatile
      (poly_vec_k_reduce_volatile (poly_vec_k_sub_volatile w w t)))).
Proof.
  intros Ht Hc Bc Hw t0 t.
  assert (Hc' : wf_poly (ntt c) /\ bounded (2 + 8 * Q_CONST) (ntt c) /\ forall k, (k < N)%nat -> ntt c !!! k ≡q hat c k).
  { destruct (ntt_spec 2 c _ ltac:(lia) ltac:(unfold Q_CONST; lia) Hc Bc (reflexivity _)) as (H1 & H2 & _).
    split; [done|]. split; [done|]. intros k Hk. apply (ntt_root 2); [lia|unfold Q_CONST; lia|done..]. }
  destruct Hc' as (Wc & Bn & Fc).
  assert (H0 : vval K (Q_CONST + 8 * Q_CONST) (fun i k => 8192 * hats t1v i k) t0).
  { apply loop_ntt; [unfold Q_CONST; lia|unfold Q_CONST; lia|]. by apply loop_shift. }
  assert (H1 : vval K Q_CONST (fun i k => RINV * (hat c k * (8192 * hats t1v i k))) t).
  { apply (loop_pointwise K (2 + 8 * Q_CONST) (Q_CONST + 8 * Q_CONST) (hat c) (fun i k => 8192 * hats t1v i k) t0);
      [unfold Q_CONST; lia|unfold Q_CONST; lia|unfold Q_CONST; lia|by eapply vec_wf|done|done|done|done]. }
  split; [exact (vec_wf _ _ _ H1)|].
  apply (loop_c_addq K INV_BOUND); [unfold INV_BOUND, Q_CONST; lia|]. apply loop_inv_ntt.
  apply (loop_reduce_val K (7 * Q_CONST + Q_CONST)); [unfold Q_CONST; lia|].
  assert (HB : 7 * Q_CONST + Q_CONST <= 2147483648) by (unfold Q_CONST; lia).
  eapply vval_ext; [|exact (loop_sub_val K _ _ _ _ w w t HB (vec_wf _ _ _ Hw) Hw H1)].
  intros i k _ _. unfold verify_values. cbv beta. qring.
Qed.

(** ** Acceptance *)
Definition message_hash (pk message : list Z) : list Z :=
  SHAKE256 (SHAKE256 pk TR_BYTES ++ context_prefix ++ message) CRH_BYTES.
Definition commitment_hash (mu : list Z) (w : PolyVec) : list Z := SHAKE256 (mu ++ w1_bytes w K) CTILDE_BYTES.

(** The public key is [rho] and [t1v]; [mu] is the hash of the message. *)
Definition valid_signature (fuel : nat) (rho : list Z) (t1v : PolyVec) (mu sg : list Z) : Prop :=
  exists ct zv hv c R,
    sg = signature_bytes ct zv hv /\ length ct = CTILDE_BYTES /\ z_vec_ok zv /\ hint_ok hv /\
    short L (GAMMA1 - BETA) zv /\ challenge fuel ct c /\ vcan K (verify_values fuel rho t1v zv c) R /\
    ct = commitment_hash mu (hinted R hv).

Lemma hint_ok_bits hv : hint_ok hv -> bit_vec hv.
Proof.
  intros (Hl & Hb & _). split; [done|]. intros i Hi. apply (Forall_get _ _ i Hb). by rewrite Hl.
Qed.

(** The comparison of the challenges. *)
Lemma compare_loop n (c c2 : list Z) :
  length c = n -> length c2 = n ->
  for_ 0 n (fun i ok => ok && (c !!! i =? c2 !!! i)) true = bool_decide (c = c2).
Proof.
  intros Hc H2.
  assert (H : forall m, for_ 0 m (fun i ok => ok && (c !!! i =? c2 !!! i)) true = true <->
    forall i, (i < m)%nat -> c !!! i = c2 !!! i).
  { induction m as [|m IH]; [rewrite for_0; split; [intros; lia|done]|].
    rewrite for_S_r, andb_true_iff, IH, Nat.add_0_l, Z.eqb_eq. split.
    - intros [H1 H3] i Hi. destruct (decide (i = m)) as [->|]; [done|]. apply H1. lia.
    - intros H. split; [intros; apply H; lia|apply H; lia]. }
  apply eq_true_iff_eq. rewrite H, bool_decide_eq_true. split; [|by intros ->].
  by apply (list_eq_total _ _ n).
Qed.

#[local] Opaque poly_challenge_volatile.
(** Conversion looks through the record before the vectors. *)
#[local] Strategy expand [set_t1 set_w1 set_w0 set_h set_y set_z set_cp set_pack1 set_sig set_pk
  t1 w1 w0 h y z cp pack1 sig pk pack1_buf].

(** ** The body of the verifier *)

(** From the product [w] to the comparison with the challenge [c], on the unpacked
    signature. *)
Definition verify_commitment (mu c : list Z) (w : PolyVec) (st : nvm) : Z * option bool * nvm :=
  let st := set_w1 w st in
  let st := set_cp (poly_ntt_volatile (cp st)) st in
  let st := set_t1 (poly_vec_k_shift_l_volatile (t1 st)) st in
  let st := set_t1 (poly_vec_k_ntt_volatile (t1 st)) st in
  let st := set_t1 (poly_vec_k_pointwise_poly_montgomery_volatile (t1 st) (cp st) (t1 st)) st in
  let st := set_w1 (poly_vec_k_sub_volatile (w1 st) (w1 st) (t1 st)) st in
  let st := set_w1 (poly_vec_k_reduce_volatile (w1 st)) st in
  let st := set_w1 (poly_vec_k_inv_ntt_to_mont_volatile (w1 st)) st in
  let st := set_w1 (poly_vec_k_c_addq_volatile (w1 st)) st in
  let st := set_w1 (poly_vec_k_use_hint_volatile (w1 st) (w1 st) (h st)) st in
  let st := set_pack1 (PackBuf (poly_vec_k_pack_w1_volatile_verify (pack1_buf st) (w1 st))) st in
  let c2 := fst (shake256_squeeze (shake256_of [mu; pack1_buf st]) CTILDE_BYTES) in
  (ERR_NONE, Some (for_ 0 CTILDE_BYTES (fun i ok => ok && (c !!! i =? c2 !!! i)) true), st).

(** From the challenge on. *)
Definition verify_tail (fuel : nat) (rho mu c : list Z) (st : nvm) : option (Z * option bool * nvm) :=
  '(err, cv) ← poly_challenge_volatile fuel (cp st) c CTILDE_BYTES;
  if negb (err =? 0) then Some (err, Some false, st) else
  let st := set_cp cv st in
  let st := set_z (poly_vec_l_ntt_volatile (z st)) st in
  w ← combined_method fuel (w1 st) (z st) rho;
  Some (verify_commitment mu c w st).

Lemma verify_commitment_eq mu c w st :
  verify_commitment mu c w st =
  let t := poly_vec_k_ntt_volatile (poly_vec_k_shift_l_volatile (t1 st)) in
  let t := poly_vec_k_pointwise_poly_montgomery_volatile t (ntt (cp st)) t in
  let R := poly_vec_k_c_addq_volatile (poly_vec_k_inv_ntt_to_mont_volatile
    (poly_vec_k_reduce_volatile (poly_vec_k_sub_volatile w w t))) in
  let W := poly_vec_k_use_hint_volatile R R (h st) in
  let b := poly_vec_k_pack_w1_volatile_verify (pack1_buf st) W in
  (ERR_NONE, Some (for_ 0 CTILDE_BYTES (fun i ok => ok &&
      (c !!! i =? fst (shake256_squeeze (shake256_of [mu; b]) CTILDE_BYTES) !!! i)) true),
    set_pack1 (PackBuf b) (set_w1 W (set_t1 t (set_cp (ntt (cp st)) st)))).
Proof. unfold verify_commitment. cbv zeta. nvm_simpl. reflexivity. Qed.

Lemma pack1_buf_length st : nvm_ok st -> length (pack1_buf st) = (K * POLY_W1_PACKED_BYTES)%nat.
Proof. intros H. pose proof (pack1_ok _ H) as Hp. unfold pack1_buf. destruct (pack1 st); [reflexivity|done]. Qed.

(** The hash of the packed commitment and the comparison. *)
Lemma compare_commitments mu ct R F hv buf :
  bytes mu -> length ct = CTILDE_BYTES -> vcan K F R -> hint_ok hv -> length buf = (K * POLY_W1_PACKED_BYTES)%nat ->
  let b := poly_vec_k_pack_w1_volatile_verify buf (poly_vec_k_use_hint_volatile R R hv) in
  for_ 0 CTILDE_BYTES (fun i ok => ok &&
    (ct !!! i =? fst (shake256_squeeze (shake256_of [mu; b]) CTILDE_BYTES) !!! i)) true =
  bool_decide (ct = commitment_hash mu (hinted R hv)).
Proof.
  intros Hm Hc HR Hh Hb b. pose proof (hint_ok_bits _ Hh) as Hbits. pose proof (vcan_wf _ _ _ HR) as Wr.
  pose proof (hinted_ok _ _ _ HR Hbits) as Hok.
  assert (Eb : b = w1_bytes (hinted R hv) K).
  { unfold b. rewrite use_hint_volatile_spec by done. rewrite pack_w1_verify, pack_w1_spec by (done || lia).
    apply written_all. rewrite w1_bytes_length, Hb. apply Nat.mul_comm. }
  assert (Hmb : bytes (concat [mu; b])).
  { cbn [concat]. rewrite app_nil_r, Eb. apply Forall_app. split; [done|]. by apply w1_bytes_range. }
  rewrite shake256_of_squeeze by done. cbn [concat] in *. rewrite app_nil_r, Eb in *.
  apply compare_loop; [done|]. by apply SHAKE256_length.
Qed.

Lemma z_vec_small zv : z_vec_ok zv -> vhat L 524289 (hats zv) zv.
Proof.
  intros Hz. split; [apply Hz|]. intros i Hi. destruct (z_vec_get zv i Hz Hi) as [Hw Hr]. split; [done|].
  split; [|done]. apply bounded_Forall; [done|]. eapply Forall_impl; [|exact Hr].
  unfold z_range. change GAMMA1 with 524288. cbv beta. intros x Hx. lia.
Qed.

Section body.
Context (fuel : nat) (rho mu : list Z) (t1v : PolyVec).
Context (rho_bytes : bytes rho) (rho_length : length rho = SEED_BYTES) (mu_bytes : bytes mu) (t1v_ok : t1_vec_ok t1v).

Lemma verify_commitment_spec ct zv hv c w st :
  nvm_ok st -> t1 st = t1v -> h st = hv -> length ct = CTILDE_BYTES -> hint_ok hv ->
  wf_poly c -> bounded 2 c -> vval K (7 * Q_CONST) (fun i k => RINV * msum fuel rho (hats zv) i k) w -> cp st = c ->
  exists R st', vcan K (verify_values fuel rho t1v zv c) R /\ nvm_ok st' /\ sig st' = sig st /\
    verify_commitment mu ct w st = (ERR_NONE, Some (bool_decide (ct = commitment_hash mu (hinted R hv))), st').
Proof using mu_bytes t1v_ok rho_length.
  intros Hst Et Eh Hc Hh Wc Bc Hw Ec.
  pose proof (commitment fuel rho t1v zv c w t1v_ok Wc Bc Hw) as [Wt HR]. cbv zeta in Wt, HR.
  pose proof (compare_commitments mu ct _ _ hv (pack1_buf st) mu_bytes Hc HR Hh (pack1_buf_length st Hst)) as Hcmp.
  cbv zeta in Hcmp. pose proof (verify_commitment_eq mu ct w st) as E. cbv zeta in E. rewrite Et, Eh, Ec in E.
  rewrite Hcmp in E. eexists _, _. split; [exact HR|]. split; [|split; [|exact E]].
  - pose proof (hint_ok_bits _ Hh) as Hb. pose proof (vcan_wf _ _ _ HR) as Wr.
    destruct (ntt_spec 2 c _ ltac:(lia) ltac:(unfold Q_CONST; lia) Wc Bc (reflexivity _)) as (Wn & _ & _).
    rewrite use_hint_volatile_spec by done. apply ok_set_buf; [apply ok_set_w1; [apply ok_set_t1; [apply ok_set_cp; done|exact Wt]|]|].
    + apply zip2_wf; [exact Wr|exact (vec_wf _ _ _ Hb)].
    + rewrite pack_w1_verify. pose proof (pack1_buf_length st Hst) as Hl.
      rewrite pack_w1_spec by (lia || by eapply hinted_ok). rewrite written_length; [exact Hl|].
      rewrite w1_bytes_length, Hl. lia.
  - reflexivity.
Qed.

(** On an unpacked signature within the norm: accepted exactly when it is valid. *)
Lemma verify_tail_spec ct zv hv st :
  nvm_ok st -> t1 st = t1v -> z st = zv -> h st = hv ->
  length ct = CTILDE_BYTES -> z_vec_ok zv -> hint_ok hv ->
  match verify_tail fuel rho mu ct st with
  | None => (forall c, ~ challenge fuel ct c) \/ ~ matrix_ready fuel rho
  | Some (err, v, st') => nvm_ok st' /\ sig st' = sig st /\ err = ERR_NONE /\ matrix_ready fuel rho /\ exists c R,
      challenge fuel ct c /\ vcan K (verify_values fuel rho t1v zv c) R /\
      v = Some (bool_decide (ct = commitment_hash mu (hinted R hv)))
  end.
Proof using rho_bytes rho_length mu_bytes t1v_ok.
  intros Hst Et Ez Eh Hc Hz Hh. unfold verify_tail.
  destruct (poly_challenge_volatile fuel (cp st) ct CTILDE_BYTES) as [[err c]|] eqn:Ec.
  2: { left. intros c H. pose proof (challenge_complete fuel (cp st) ct c (cp_ok _ Hst)) as Hcc.
       rewrite take_ge in Hcc by (rewrite Hc; apply le_n). rewrite (Hcc H) in Ec. discriminate Ec. }
  destruct (challenge_spec fuel (cp st) ct _ (cp_ok _ Hst) Ec) as (He & Hch & Wc & Bc).
  cbn [fst snd] in He, Hch, Wc, Bc. subst err. rewrite take_ge in Hch by (rewrite Hc; apply le_n).
  rewrite bind_done. cbn [z w1 set_cp set_z]. rewrite Ez.
  pose proof (loop_ntt L 524289 (hats zv) zv ltac:(lia) ltac:(unfold Q_CONST; lia) (z_vec_small zv Hz)) as Hn.
  assert (HS : 0 < 524289 + 8 * Q_CONST <= 2147483648) by (unfold Q_CONST; lia).
  pose proof (product_val fuel rho _ (hats zv) (w1 st) _ rho_bytes rho_length HS (w1_ok _ Hst) Hn) as Hp.
  change (for_ 0 L _ zv) with (poly_vec_l_ntt_volatile zv) in Hp, Hn.
  destruct (combined_method fuel (w1 st) (poly_vec_l_ntt_volatile zv) rho) as [w|]; [|by right].
  destruct Hp as [Hm Hw]. cbn [mbind option_bind].
  pose proof (ok_set_z _ _ (ok_set_cp c st Hst Wc) (vec_wf _ _ _ Hn)) as Hok.
  destruct (verify_commitment_spec ct zv hv c w _ Hok Et Eh Hc Hh Wc Bc Hw eq_refl) as (R & st' & HR & Ok & Es & E).
  rewrite E. split; [exact Ok|]. split; [exact Es|]. split; [done|]. split; [exact Hm|]. exists c, R.
  split; [exact Hch|]. split; [exact HR|]. reflexivity.
Qed.
End body.

(** ** The whole verifier *)

(** From the decoding on. *)
Definition verify_unpacked (fuel : nat) (rho sg message : list Z) (st : nvm) : option (Z * option bool * nvm) :=
  let '(ret, c, zv, hv) := unpack_sig_volatile (z st) (h st) sg in
  let st := set_z zv (set_h hv st) in
  if negb (ret =? 0) then Some (0, Some false, st) else
  if negb (poly_vec_l_chk_norm (z st) (GAMMA1 - BETA) =? 0) then Some (0, Some false, st) else
  let mu := fst (shake256_squeeze (shake256_of [pk st]) TR_BYTES) in
  let mu := fst (shake256_squeeze (shake256_of [mu; context_prefix; message]) CRH_BYTES) in
  verify_tail fuel rho mu c st.

Lemma context_prefix_bytes : bytes context_prefix.
Proof. by apply bytesb_bytes. Qed.
Lemma message_hash_bytes pk message : bytes pk -> bytes message -> bytes (message_hash pk message).
Proof.
  intros Hp Hm. apply SHAKE256_bytes. apply Forall_app. split; [by apply SHAKE256_bytes|].
  apply Forall_app. split; [apply context_prefix_bytes|done].
Qed.
Lemma message_hash_spec pk message :
  bytes pk -> bytes message ->
  fst (shake256_squeeze (shake256_of [fst (shake256_squeeze (shake256_of [pk]) TR_BYTES); context_prefix; message]) CRH_BYTES) =
  message_hash pk message.
Proof.
  intros Hp Hm. rewrite (shake256_of_squeeze [pk]) by (cbn [concat]; by rewrite app_nil_r).
  cbn [concat]. rewrite app_nil_r. unfold message_hash.
  rewrite shake256_of_squeeze; cbn [concat]; rewrite app_nil_r; [done|].
  apply Forall_app. split; [by apply SHAKE256_bytes|]. apply Forall_app. split; [apply context_prefix_bytes|done].
Qed.

(** What a signature that unpacks must satisfy. *)
Lemma valid_unpacked fuel rho t1v mu sg z0 h0 ct zv hv :
  wf_vec L z0 -> wf_vec K h0 -> bytes sg -> unpack_sig_volatile z0 h0 sg = (0, ct, zv, hv) -> length sg = CRYPTO_BYTES ->
  valid_signature fuel rho t1v mu sg <->
  short L (GAMMA1 - BETA) zv /\ exists c R, challenge fuel ct c /\ vcan K (verify_values fuel rho t1v zv c) R /\
    ct = commitment_hash mu (hinted R hv).
Proof.
  intros Hz0 Hh0 Hb Hu Hl. split.
  - intros (ct' & zv' & hv' & c & R & -> & Hc & Hz & Hh & Hs & Hch & HR & E).
    assert (Hcb : bytes ct') by (apply Forall_app in Hb as [? _]; done).
    rewrite unpack_signature_bytes in Hu by done. injection Hu as -> -> ->.
    split; [exact Hs|]. exists c, R. split; [exact Hch|]. split; [exact HR|exact E].
  - intros (Hs & c & R & Hch & HR & E). rewrite unpack_sig_spec in Hu by done.
    destruct (decode_hint sg h0) as [ret h] eqn:Ed. injection Hu as -> <- <- <-.
    destruct (decode_hint_sound sg Hb h0 Hh0 Hl h Ed) as [Hh Hd].
    exists (take CTILDE_BYTES sg), (map (z_decoding sg) (seq 0 L)), h, c, R.
    split; [symmetry; by apply signature_split|]. split; [rewrite length_take, Hl; reflexivity|].
    split; [by apply z_decoding_ok|]. split; [exact Hh|]. split; [exact Hs|]. split; [exact Hch|]. split; [exact HR|exact E].
Qed.
(** What does not unpack is not valid. *)
Lemma not_unpacked fuel rho t1v mu sg z0 h0 ret ct zv hv :
  wf_vec L z0 -> wf_vec K h0 -> bytes sg -> unpack_sig_volatile z0 h0 sg = (ret, ct, zv, hv) ->
  valid_signature fuel rho t1v mu sg -> ret = 0.
Proof.
  intros Hz0 Hh0 Hb Hu (ct' & zv' & hv' & c & R & -> & Hc & Hz & Hh & _).
  assert (Hcb : bytes ct') by (apply Forall_app in Hb as [? _]; done).
  rewrite unpack_signature_bytes in Hu by done. by injection Hu.
Qed.

(** The vectors that unpacking stores are well formed even when it fails. *)
Lemma unpack_sig_wf sg z0 h0 ret ct zv hv :
  length sg = CRYPTO_BYTES -> bytes sg -> wf_vec L z0 -> wf_vec K h0 ->
  unpack_sig_volatile z0 h0 sg = (ret, ct, zv, hv) ->
  ct = take CTILDE_BYTES sg /\ z_vec_ok zv /\ wf_vec K hv /\ (ret = 0 -> hint_ok hv).
Proof.
  intros Hl Hb Hz0 Hh0 Hu. rewrite unpack_sig_spec in Hu by done.
  destruct (decode_hint sg h0) as [r h] eqn:Ed. injection Hu as <- <- <- <-.
  split; [done|]. split; [by apply z_decoding_ok|].
  split; [pose proof (decode_hint_wf sg Hb h0 Hh0 Hl) as Hw; by rewrite Ed in Hw|].
  intros ->. by destruct (decode_hint_sound sg Hb h0 Hh0 Hl h Ed).
Qed.

Lemma z_vec_bounded zv : z_vec_ok zv -> vec L (fun _ p => bounded 1073741824 p) zv.
Proof.
  intros Hz. destruct (z_vec_small zv Hz) as [Hl Hv]. split; [done|]. intros i Hi.
  destruct (Hv i Hi) as (Hw & Hb & _). split; [done|]. by apply (bounded_mono 524289).
Qed.
Lemma norm_check_z zv : z_vec_ok zv -> poly_vec_l_chk_norm zv (GAMMA1 - BETA) = 0 <-> short L (GAMMA1 - BETA) zv.
Proof. intros Hz. apply chk_norm_short; [by apply z_vec_bounded|]. vm_compute. split; congruence. Qed.

Lemma z_vec_wf zv : z_vec_ok zv -> wf_vec L zv.
Proof. intros [Hl Hz]. split; [done|]. eapply Forall_impl; [|exact Hz]. by intros p [? _]. Qed.
Lemma hint_ok_wf hv : hint_ok hv -> wf_vec K hv.
Proof. intros Hh. exact (vec_wf _ _ _ (hint_ok_bits _ Hh)). Qed.

Lemma verify_unpacked_spec fuel rho t1v sg message st :
  nvm_ok st -> t1 st = t1v -> t1_vec_ok t1v -> bytes rho -> length rho = SEED_BYTES -> bytes (pk st) ->
  length sg = CRYPTO_BYTES -> bytes sg -> bytes message ->
  match verify_unpacked fuel rho sg message st with
  | None => (forall c, ~ challenge fuel (take CTILDE_BYTES sg) c) \/ ~ matrix_ready fuel rho
  | Some (err, v, st') => nvm_ok st' /\ sig st' = sig st /\ err = ERR_NONE /\ exists b, v = Some b /\
      (b = true <-> valid_signature fuel rho t1v (message_hash (pk st) message) sg)
  end.
Proof.
  intros Hst Et Ht Hr Hrl Hpk Hl Hb Hm. unfold verify_unpacked.
  destruct (unpack_sig_volatile (z st) (h st) sg) as [[[ret ct] zv] hv] eqn:Eu.
  destruct (unpack_sig_wf sg _ _ ret ct zv hv Hl Hb (z_ok _ Hst) (h_ok _ Hst) Eu) as (Ect & Hz & Whv & Hh).
  assert (Hst' : nvm_ok (set_z zv (set_h hv st))) by (apply ok_set_z; [by apply ok_set_h|by apply z_vec_wf]).
  destruct (Z.eqb_spec ret 0) as [->|Hret]; cbn [negb].
  2: { split; [exact Hst'|]. split; [done|]. split; [done|]. exists false. split; [done|]. split; [done|].
       intros Hv. destruct Hret. exact (not_unpacked _ _ _ _ _ _ _ _ _ _ _ (z_ok _ Hst) (h_ok _ Hst) Hb Eu Hv). }
  specialize (Hh eq_refl).
  pose proof (valid_unpacked fuel rho t1v (message_hash (pk st) message) sg _ _ _ _ _
    (z_ok _ Hst) (h_ok _ Hst) Hb Eu Hl) as Hv.
  cbn [z set_z]. destruct (Z.eqb_spec (poly_vec_l_chk_norm zv (GAMMA1 - BETA)) 0) as [En|En]; cbn [negb];
    rewrite norm_check_z in En by done.
  2: { split; [exact Hst'|]. split; [done|]. split; [done|]. exists false. split; [done|]. rewrite Hv. split; [done|].
       by intros [? _]. }
  cbn [pk set_z set_h]. rewrite message_hash_spec by done. set (mu := message_hash (pk st) message) in *.
  assert (Hcl : length ct = CTILDE_BYTES) by (rewrite Ect, length_take, Hl; reflexivity).
  pose proof (verify_tail_spec fuel rho mu t1v Hr Hrl (message_hash_bytes _ _ Hpk Hm) Ht ct zv hv _
    Hst' Et eq_refl eq_refl Hcl Hz Hh) as Hs. rewrite <- Ect.
  destruct (verify_tail fuel rho mu ct _) as [[[err v] st']|]; [|exact Hs].
  destruct Hs as (Ok & Es & -> & Hm' & c & R & Hch & HR & ->). split; [exact Ok|]. split; [exact Es|].
  split; [done|]. eexists. split; [done|].
  rewrite bool_decide_eq_true, Hv. split.
  - intros E. split; [done|]. exists c, R. split; [exact Hch|]. split; [exact HR|exact E].
  - intros (_ & c' & R' & Hch' & HR' & E). rewrite (challenge_unique _ _ _ _ Hch' Hch) in HR'.
    by rewrite (vcan_unique _ _ _ _ HR HR').
Qed.

(** From the secret vectors on. *)
Definition verify_keyed (fuel : nat) (rho : list Z) (s1 s2 : PolyVec) (sg message : list Z) (st : nvm)
    : option (Z * option bool * nvm) :=
  st ← keygen_product fuel rho (poly_vec_l_ntt s1) st;
  verify_unpacked fuel rho sg message (keygen_finish rho s2 st).

Lemma seed_copy (raw : list Z) : length raw = 64%nat ->
  for_ 0 32 (fun i seed => <[i := raw !!! i]> seed) (replicate 32 0) = take 32 raw.
Proof.
  intros Hl. rewrite (for_build (fun i => raw !!! i) 32) by reflexivity.
  pose proof (map_seq_slice raw 0 32 ltac:(lia)) as E. by rewrite drop_0 in E.
Qed.

(** The storage once the key is derived. *)
Definition with_key (seed : list Z) (T : PolyVec) (st : nvm) : nvm :=
  set_pk (public_key seed T) (set_pack1 (PackT0 (low T)) (set_t1 (high T) st)).
Lemma with_key_ok fuel seed s1 s2 T st :
  bytes seed -> nvm_ok st -> key_vector fuel (rho_of seed) s1 s2 T -> nvm_ok (with_key seed T st).
Proof.
  intros Hb Hst HT. pose proof (vcan_wf _ _ _ HT) as Hw. destruct Hst. split; cbn; try done.
  - by apply (map_map_wf K).
  - by apply (map_map_wf K).
  - apply pk_bytes_length. by apply rho_of_length.
Qed.

Lemma verify_keyed_spec fuel seed s1 s2 sg message st :
  bytes seed -> eta_vector fuel L (rho_prime seed) 0 s1 -> eta_vector fuel K (rho_prime seed) (Z.of_nat L) s2 ->
  nvm_ok st -> length sg = CRYPTO_BYTES -> bytes sg -> bytes message ->
  match verify_keyed fuel (rho_of seed) s1 s2 sg message st with
  | None => ~ matrix_ready fuel (rho_of seed) \/ forall c, ~ challenge fuel (take CTILDE_BYTES sg) c
  | Some (err, v, st') => nvm_ok st' /\ sig st' = sig st /\ err = ERR_NONE /\ exists T b, expanded_key fuel seed s1 s2 T /\ v = Some b /\
      (b = true <-> valid_signature fuel (rho_of seed) (high T) (message_hash (public_key seed T) message) sg)
  end.
Proof.
  intros Hs H1 H2 Hst Hl Hb Hm. unfold verify_keyed.
  pose proof (rho_of_bytes seed Hs) as Hrb. pose proof (rho_of_length seed Hs) as Hrl.
  pose proof (keygen_product_spec fuel _ s1 Hrb Hrl (eta_small _ _ _ _ _ H1) st Hst) as Hp.
  destruct (keygen_product fuel (rho_of seed) (poly_vec_l_ntt s1) st) as [st'|]; [|by left].
  destruct Hp as (Hmr & t & -> & Ht). cbn [mbind option_bind].
  pose proof (keygen_canonical fuel _ s1 s2 Hrl (eta_small _ _ _ _ _ H2) t Ht) as HT.
  set (T := poly_vec_k_c_addq_volatile _) in *. clearbody T.
  rewrite (keygen_finish_spec fuel _ s1 s2 Hrl (eta_small _ _ _ _ _ H2) st t T Hst Ht HT).
  fold (public_key seed T). fold (with_key seed T st).
  pose proof (high_ok _ _ HT) as Hhigh.
  assert (Hpk : bytes (public_key seed T)) by (by apply pk_bytes_range).
  pose proof (with_key_ok fuel seed s1 s2 T st Hs Hst HT) as Hok.
  assert (E : t1 (with_key seed T st) = high T /\ pk (with_key seed T st) = public_key seed T /\
    sig (with_key seed T st) = sig st) by (repeat split).
  generalize dependent (with_key seed T st). intros st1 Hok (Et & Ep & Es). rewrite <- Ep in Hpk.
  pose proof (verify_unpacked_spec fuel (rho_of seed) (high T) sg message st1 Hok Et Hhigh Hrb Hrl Hpk Hl Hb Hm) as Hv.
  rewrite Ep in Hv.
  destruct (verify_unpacked _ _ _ _ _) as [[[err v] st']|].
  - destruct Hv as (Ok & Es' & -> & b & -> & Hv). split; [exact Ok|]. split; [congruence|]. split; [done|].
    exists T, b. split; [|split; [done|exact Hv]].
    split; [exact H1|]. split; [exact H2|]. split; [exact Hmr|exact HT].
  - destruct Hv; [by right|by left].
Qed.

(** From the seed on. *)
Definition verify_seeded (fuel : nat) (seed sg message : list Z) (st : nvm) : option (Z * option bool * nvm) :=
  let '(rho, rhoPrime, key) := expand_seed seed in
  '(err, s1) ← poly_vec_l_uniform_eta fuel (zero_vec L) rhoPrime 0;
  if negb (err =? 0) then Some (err, None, st) else
  '(err, s2) ← poly_vec_k_uniform_eta fuel (zero_vec K) rhoPrime (Z.of_nat L);
  if negb (err =? 0) then Some (err, None, st) else
  verify_keyed fuel rho s1 s2 sg message st.

(** The whole function: the checks of the arguments, the seed, the rest. *)
Lemma verify_unfold `{OS} fuel path sg message st :
  crypto_verify_optimized fuel path (Some sg) (Some message) st =
  match sg with [] => Some (ERR_INVALID_SIGNATURE, Some false, st) | _ =>
  match message with [] => Some (ERR_INVALID_MESSAGE, Some false, st) | _ =>
  if negb (length sg =? CRYPTO_BYTES)%nat then Some (ERR_INVALID_SIGNATURE, Some false, st) else
  let '(err, raw_seed) := os_derive_bip32 path in
  if negb (err =? 0) then Some (-1, Some false, st) else
  verify_seeded fuel (for_ 0 32 (fun i seed => <[i := raw_seed !!! i]> seed) (replicate 32 0)) sg message st
  end end.
Proof. destruct sg; [reflexivity|]. destruct message; reflexivity. Qed.

(** What the verifier answers for a key, and leaves of the storage. *)
Definition verdict (fuel : nat) (seed sg message : list Z) (st : nvm) (r : option (Z * option bool * nvm)) : Prop :=
  match r with
  | None => ~ key_ready fuel seed \/ forall c, ~ challenge fuel (take CTILDE_BYTES sg) c
  | Some (err, v, st') => nvm_ok st' /\ sig st' = sig st /\ err = ERR_NONE /\ exists s1 s2 T b, expanded_key fuel seed s1 s2 T /\ v = Some b /\
      (b = true <-> valid_signature fuel (rho_of seed) (high T) (message_hash (public_key seed T) message) sg)
  end.

Lemma verify_seeded_spec fuel seed sg message st :
  bytes seed -> nvm_ok st -> length sg = CRYPTO_BYTES -> bytes sg -> bytes message ->
  verdict fuel seed sg message st (verify_seeded fuel seed sg message st).
Proof.
  intros Hs Hst Hl Hb Hm.
  unfold verify_seeded. rewrite expand_seed_spec by done. fold (rho_of seed) (rho_prime seed) (key_of seed).
  pose proof (uniform_eta_l fuel (rho_prime seed) 0 (rho_prime_bytes _ Hs) (rho_prime_length _ Hs) ltac:(lia)) as H1.
  destruct (poly_vec_l_uniform_eta fuel (zero_vec L) (rho_prime seed) 0) as [[err s1]|];
    [destruct H1 as [-> H1]|left; intros (s1 & s2 & T & E1 & _); exact (H1 s1 E1)].
  rewrite bind_done.
  pose proof (uniform_eta_k fuel (rho_prime seed) (Z.of_nat L) (rho_prime_bytes _ Hs) (rho_prime_length _ Hs)
    ltac:(unfold L; lia)) as H2.
  destruct (poly_vec_k_uniform_eta fuel (zero_vec K) (rho_prime seed) (Z.of_nat L)) as [[err s2]|];
    [destruct H2 as [-> H2]|left; intros (s1' & s2 & T & _ & E2 & _); exact (H2 s2 E2)].
  rewrite bind_done.
  pose proof (verify_keyed_spec fuel seed s1 s2 sg message st Hs H1 H2 Hst Hl Hb Hm) as Hv.
  destruct (verify_keyed _ _ _ _ _ _ _) as [[[err v] st']|].
  - destruct Hv as (Ok & Es & -> & T & b & HT & -> & Hv). split; [exact Ok|]. split; [exact Es|]. split; [reflexivity|].
    exists s1, s2, T, b. split; [exact HT|]. split; [reflexivity|exact Hv].
  - destruct Hv as [Hv|Hv]; [left|right; exact Hv]. intros (s1' & s2' & T & _ & _ & Hmr & _). exact (Hv Hmr).
Qed.

(** Past the checks of the arguments, the seed is the first half of what the operating
    system derives. *)
Lemma verify_derived `{OS} fuel path raw sg message st :
  os_derive_bip32 path = (0, raw) -> length raw = 64%nat -> length sg = CRYPTO_BYTES -> message <> [] ->
  crypto_verify_optimized fuel path (Some sg) (Some message) st = verify_seeded fuel (take 32 raw) sg message st.
Proof.
  intros Hos Hrl Hl Hne. rewrite verify_unfold.
  destruct sg as [|s0 sg]; [discriminate Hl|]. destruct message as [|m0 message]; [done|].
  rewrite (proj2 (Nat.eqb_eq _ _) Hl), Hos, seed_copy by done. reflexivity.
Qed.


(** A device whose seed is 64 times the byte 1. *)
Definition fixed_os : OS := {| os_derive_bip32 := fun _ => (0, replicate 64 1) |}.

Lemma zero_bytes n : bytes (replicate n 0).
Proof. by apply Forall_replicate. Qed.

