(* ===== verification/Signing.v ===== *)
(** * Signing ([crypto_sign_optimized])

    An attempt that passes every check produces a signature that the verifier
    accepts: the commitment it hashes is the one the verifier reconstructs. *)
From S2P Require Import Prelude CInt Constants Reduce Rounding Keccak Sponge Poly Packing Ntt Sampling PolyVec Sign SignCore SigCodec VecOps KeyGen Verify.

#[local] Opaque SHAKE256 shake256_squeeze shake256_absorb expand_entry ntt inv_ntt_to_mont combined_method
  poly_add poly_sub poly_reduce poly_c_addq poly_shitf_l poly_use_hint poly_pointwise_montgomery poly_chk_norm
  challenge_sample z_encoding poly_z_unpack poly_w1_pack poly_challenge_volatile poly_uniform_gamma1 make_hint decompose.

(** ** Hints *)
Definition hint_bits (a0 a1 : PolyVec) : PolyVec := zip2 make_hint a0 a1.

Lemma make_hint_bit a0 a1 : - (2 * GAMMA2) < a0 < 2 * GAMMA2 -> w1_range a1 -> is_bit (make_hint a0 a1).
Proof.
  intros H0 H1. unfold w1_range in H1. rewrite make_hint_eq by (change GAMMA2 with 261888 in *; lia).
  destruct (make_hint_ref a0 a1); [by right|by left].
Qed.

(** The hint row and the number of its ones. *)
Lemma poly_make_hint_spec p a0 a1 :
  wf_poly p -> wf_poly a0 -> wf_poly a1 -> bounded (2 * GAMMA2) a0 -> Forall w1_range a1 ->
  poly_make_hint p a0 a1 =
    (zip_with make_hint a0 a1, Z.of_nat (length (ones (zip_with make_hint a0 a1)))).
Proof.
  intros Hp H0 H1 B0 R1. set (q := zip_with make_hint a0 a1).
  assert (Hq : wf_poly q) by by apply zip_wf.
  assert (Eq : forall k, (k < N)%nat -> q !!! k = make_hint (a0 !!! k) (a1 !!! k)).
  { intros k Hk. apply lookup_total_zip; [by rewrite H0|by rewrite H1]. }
  assert (Bq : forall k, (k < N)%nat -> is_bit (q !!! k)).
  { intros k Hk. rewrite Eq by done. apply make_hint_bit; [apply B0; lia|].
    apply (Forall_get _ _ k R1). by rewrite H1. }
  pose (inv := fun i (st : Poly * Z) => (i <= N)%nat /\ length (fst st) = N /\
    (forall k, (k < i)%nat -> fst st !!! k = q !!! k) /\ snd st = Z.of_nat (length (ones_below q i))).
  assert (H : inv (0 + N)%nat (poly_make_hint p a0 a1)).
  { unfold poly_make_hint. apply for_ind; [split; [lia|]; split; [done|]; split; [lia|done]|].
    intros i [t s] Hi (_ & Hl & Ht & Hs). cbn [fst snd] in *. subst s. rewrite <- Eq by lia.
    pose proof (Bq i ltac:(lia)) as Hb.
    assert (Es : s32 (q !!! i) = q !!! i) by by destruct Hb as [-> | ->]. rewrite Es.
    split; [lia|]. cbn [fst snd]. rewrite length_insert. split; [done|]. split.
    - intros k Hk. destruct (decide (k = i)) as [->|]; [by rewrite list_lookup_total_insert_eq by lia|].
      rewrite list_lookup_total_insert_ne by lia. apply Ht. lia.
    - rewrite ones_below_S, length_app, Nat2Z.inj_add. unfold u32.
      assert (Hlt : (length (ones_below q i) <= 256)%nat).
      { unfold ones_below. etrans; [apply length_filter|]. rewrite length_seq. unfold N in Hi. lia. }
      destruct Hb as [-> | ->]; cbn [Z.eqb negb length]; rewrite Z.mod_small; change (0 mod 4294967296) with 0;
        change (1 mod 4294967296) with 1; lia. }
  destruct (poly_make_hint p a0 a1) as [t s]. destruct H as (_ & Hl & Ht & Hs). cbn [fst snd] in *.
  f_equal; [|exact Hs]. apply (list_eq_total _ _ N); [done|done|exact Ht].
Qed.

Lemma ones_length row : (length (ones row) <= 256)%nat.
Proof. unfold ones. etrans; [apply length_filter|]. rewrite length_seq. unfold N. lia. Qed.
Lemma all_ones_max v i : (i <= length v)%nat -> (length (all_ones v i) <= 256 * i)%nat.
Proof.
  induction i as [|i IH]; intros Hi; [done|]. rewrite all_ones_S, length_app by lia.
  pose proof (ones_length (v !!! i)). lia.
Qed.

Lemma make_hint_volatile_spec v a0 a1 :
  wf_vec K v -> vec K (fun _ p => bounded (2 * GAMMA2) p) a0 -> w1_vec_ok a1 ->
  poly_vec_k_make_hint_volatile v a0 a1 =
    (hint_bits a0 a1, Z.of_nat (length (all_ones (hint_bits a0 a1) K))) /\ bit_vec (hint_bits a0 a1).
Proof.
  intros Hv H0 H1. pose proof (vec_wf _ _ _ H0) as W0. pose proof (vec_wf _ _ _ H1) as W1.
  set (hv := hint_bits a0 a1). assert (Hw : wf_vec K hv) by by apply zip2_wf.
  assert (Hrow : forall i, (i < K)%nat -> hv !!! i = zip_with make_hint (a0 !!! i) (a1 !!! i))
    by (intros i Hi; apply zip2_row; [apply W0|apply W1|done]).
  split.
  2: { apply vec_coeffs; [done|]. intros i k Hi Hk. unfold hv, hint_bits. rewrite zip2_get by done.
       apply make_hint_bit; [|by apply (vec_coeff K)]. destruct (proj2 H0 i Hi) as [_ Hb]. specialize (Hb k Hk). lia. }
  pose (inv := fun i (st : PolyVec * Z) => wf_vec K (fst st) /\ (forall j, (j < i)%nat -> fst st !!! j = hv !!! j) /\
    snd st = Z.of_nat (length (all_ones hv i))).
  assert (H : inv (0 + K)%nat (poly_vec_k_make_hint_volatile v a0 a1)).
  { unfold poly_vec_k_make_hint_volatile. apply for_ind; [split; [done|]; split; [lia|done]|].
    intros i [t s] Hi (Wt & Ht & Hs). cbn [fst snd] in *. subst s.
    destruct (proj2 H0 i ltac:(lia)) as [Wi Bi], (proj2 H1 i ltac:(lia)) as [Wi' Ri].
    rewrite poly_make_hint_spec by (done || (apply (wf_vec_get K); [done|lia])). rewrite <- Hrow by lia.
    split; [|split]; cbn [fst snd].
    - split; [rewrite length_insert; apply Wt|]. apply Forall_insert; [apply Wt|]. apply (wf_vec_get K); [done|lia].
    - intros j Hj. destruct (decide (j = i)) as [->|].
      + by rewrite list_lookup_total_insert_eq by (rewrite (proj1 Wt); lia).
      + rewrite list_lookup_total_insert_ne by lia. apply Ht. lia.
    - rewrite all_ones_S, length_app, Nat2Z.inj_add by (rewrite (proj1 Hw); lia).
      pose proof (ones_length (hv !!! i)). pose proof (all_ones_max hv i ltac:(rewrite (proj1 Hw); lia)).
      unfold K in Hi. apply u32_id. lia. }
  destruct (poly_vec_k_make_hint_volatile v a0 a1) as [t s]. destruct H as (Wt & Ht & Hs). cbn [fst snd] in *.
  f_equal; [|exact Hs]. apply (list_eq_total _ _ K); [apply Wt|apply Hw|exact Ht].
Qed.

(** ** The commitment *)
Definition w1_of (W : PolyVec) : PolyVec := map (map (fun x => fst (decompose x))) W.
Definition w0_of (W : PolyVec) : PolyVec := map (map (fun x => snd (decompose x))) W.

Lemma decompose_split a : 0 <= a < Q_CONST ->
  w1_range (fst (decompose a)) /\ - GAMMA2 <= snd (decompose a) <= GAMMA2 /\
  a ≡q snd (decompose a) + 2 * GAMMA2 * fst (decompose a).
Proof.
  intros Ha. destruct (decompose_range a Ha) as (a1 & a0 & E & H1 & H0). rewrite E. cbn [fst snd].
  split; [done|]. split; [done|]. destruct (slot_exists a Ha) as (k & Hk & Hs).
  rewrite (decompose_slot a k Ha Hk Hs) in E. case_decide; injection E as <- <-; [exists 1|exists 0]; lia.
Qed.

Lemma w1_of_ok F W : vcan K F W -> w1_vec_ok (w1_of W).
Proof.
  intros HW. pose proof (vcan_wf _ _ _ HW) as Hw. apply vec_coeffs; [by apply map_map_wf|].
  intros i k Hi Hk. unfold w1_of. rewrite (map_map_get K) by done. apply decompose_split. by apply (vcan_range K F).
Qed.
Lemma w0_of_vhat F W : vcan K F W -> vhat K 261889 (hats (w0_of W)) (w0_of W).
Proof.
  intros HW. pose proof (vcan_wf _ _ _ HW) as Hw.
  assert (Wl : wf_vec K (w0_of W)) by by apply map_map_wf. split; [apply Wl|]. intros i Hi.
  split; [by apply (wf_vec_get K)|]. split; [|done]. intros k Hk. unfold w0_of. rewrite (map_map_get K) by done.
  destruct (decompose_split _ (vcan_range K F W i k HW Hi Hk)) as (_ & H & _). change GAMMA2 with 261888 in H. lia.
Qed.
(** [w = 2 gamma2 w1 + w0], at the roots. *)
Lemma decompose_hats F W i k : vcan K F W -> (i < K)%nat -> (k < N)%nat ->
  hats W i k ≡q hats (w0_of W) i k + 2 * GAMMA2 * hats (w1_of W) i k.
Proof.
  intros HW Hi Hk. pose proof (vcan_wf _ _ _ HW) as Hw. unfold hats.
  apply hat_combine; [apply (wf_vec_get K); [by apply map_map_wf|done]..|by apply (wf_vec_get K)|].
  intros j Hj. unfold w0_of, w1_of. rewrite !(map_map_get K) by done. apply decompose_split. by apply (vcan_range K F).
Qed.
(** [t = 2^13 t1 + t0], at the roots. *)
Lemma power2_round_hats F T i k : vcan K F T -> (i < K)%nat -> (k < N)%nat ->
  hats T i k ≡q hats (low T) i k + 8192 * hats (high T) i k.
Proof.
  intros HT Hi Hk. pose proof (vcan_wf _ _ _ HT) as Hw. unfold hats.
  apply hat_combine; [apply (wf_vec_get K); [by apply map_map_wf|done]..|by apply (wf_vec_get K)|].
  intros j Hj. unfold low, high. rewrite !(map_map_get K) by done.
  pose proof (power2_round_parts _ (vcan_range K F T i j HT Hi Hj)) as (_ & _ & E). rewrite E at 1.
  apply eq_subrelation; [typeclasses eauto|ring].
Qed.

(** ** Why the verifier reconstructs the commitment

    [A z - c t1 2^d = w - c s2 + c t0], and the hint removes the difference to the
    high bits of [w]. *)
Section reconstruct.
Context (fuel : nat) (rho : list Z) (s1 s2 T y W zv w0f R : PolyVec) (c : Poly).
Context (HT : key_vector fuel rho s1 s2 T) (HW : vcan K (msum fuel rho (hats y)) W).
Context (Hz : forall j k, (j < L)%nat -> (k < N)%nat -> hats zv j k ≡q hat c k * hats s1 j k + hats y j k).
Context (H0 : vhat K (2 * GAMMA2)
  (fun i k => hats (w0_of W) i k - hat c k * hats s2 i k + hat c k * hats (low T) i k) w0f).
Context (HR : vcan K (verify_values fuel rho (high T) zv c) R).

Lemma verify_values_eq i k : (i < K)%nat -> (k < N)%nat ->
  verify_values fuel rho (high T) zv c i k ≡q
  hats W i k - hat c k * hats s2 i k + hat c k * hats (low T) i k.
Proof using HT HW Hz.
  intros Hi Hk. unfold verify_values.
  assert (Em : msum fuel rho (hats zv) i k ≡q hat c k * msum fuel rho (hats s1) i k + msum fuel rho (hats y) i k).
  { rewrite <- (msum_combine fuel rho (hat c)). apply msum_ext. intros j Hj. by apply Hz. }
  rewrite Em. destruct (proj2 HW i Hi) as [_ Hw]. destruct (Hw k Hk) as [_ <-].
  destruct (proj2 HT i Hi) as [_ Ht]. destruct (Ht k Hk) as [_ Et]. fold (hats T i k) in Et.
  rewrite (power2_round_hats _ T i k HT Hi Hk) in Et. fold (hats W i k).
  transitivity (hat c k * (msum fuel rho (hats s1) i k + hats s2 i k) - hat c k * hats s2 i k
    + hats W i k - hat c k * (8192 * hats (high T) i k)); [qring|].
  rewrite <- Et. qring.
Qed.

Lemma reconstructed i k : (i < K)%nat -> (k < N)%nat ->
  (R !!! i) !!! k ≡q (w1_of W !!! i) !!! k * (2 * GAMMA2) + (w0f !!! i) !!! k.
Proof using HT HW Hz H0 HR.
  intros Hi Hk. pose proof (vec_wf _ _ _ H0) as W0. pose proof (vcan_wf _ _ _ HR) as Wr.
  pose proof (vec_wf _ _ _ (w1_of_ok _ _ HW)) as W1. pose proof (vcan_wf _ _ _ HW) as Ww.
  set (P := zip2 (fun a b => a * (2 * GAMMA2) + b) (w1_of W) w0f).
  assert (WP : wf_vec K P) by by apply zip2_wf.
  assert (EP : forall k, (k < N)%nat -> (P !!! i) !!! k = (w1_of W !!! i) !!! k * (2 * GAMMA2) + (w0f !!! i) !!! k)
    by (intros j Hj; by apply (zip2_get (fun a b => a * (2 * GAMMA2) + b))).
  rewrite <- EP by done.
  apply (hat_inj (R !!! i) (P !!! i)); [by apply (wf_vec_get K)|by apply (wf_vec_get K)| |done].
  intros j Hj. destruct (proj2 HR i Hi) as [_ Hr]. destruct (Hr j Hj) as [_ ->].
  rewrite verify_values_eq by done. rewrite (decompose_hats _ W i j HW Hi Hj).
  rewrite (hat_combine (2 * GAMMA2) (w0f !!! i) (w1_of W !!! i) (P !!! i) j);
    [|by apply (wf_vec_get K)..|intros l Hl; rewrite EP by done; qring].
  destruct (proj2 H0 i Hi) as (_ & _ & Hf). rewrite (Hf j Hj). unfold hats. qring.
Qed.

Lemma hints_recover : hinted R (hint_bits w0f (w1_of W)) = w1_of W.
Proof using HT HW Hz H0 HR.
  pose proof (vec_wf _ _ _ H0) as W0. pose proof (vcan_wf _ _ _ HR) as Wr.
  pose proof (w1_of_ok _ _ HW) as Ok1. pose proof (vec_wf _ _ _ Ok1) as W1.
  assert (Wh : wf_vec K (hint_bits w0f (w1_of W))) by by apply zip2_wf.
  apply (list_eq_total _ _ K); [by apply zip2_wf|apply W1|]. intros i Hi.
  apply (list_eq_total _ _ N); [apply (wf_vec_get K); [by apply zip2_wf|done]|by apply (wf_vec_get K)|].
  intros k Hk. unfold hinted. rewrite zip2_get by done. unfold hint_bits. rewrite zip2_get by done.
  apply hint_recovers.
  - by apply (vec_coeff K w1_range).
  - destruct (proj2 H0 i Hi) as (_ & Hb & _). specialize (Hb k Hk). lia.
  - by apply (vcan_range K _ R i k HR).
  - by apply reconstructed.
Qed.
End reconstruct.


(** ** The stages *)
#[local] Strategy expand [set_t1 set_w1 set_w0 set_h set_y set_z set_cp set_pack1 set_sig set_pk
  t1 w1 w0 h y z cp pack1 sig pk pack1_t0].

(** What no stage changes: the key. *)
Definition same_key (st st' : nvm) : Prop := t1 st' = t1 st /\ pk st' = pk st /\ pack1 st' = pack1 st.

Lemma gamma1_vec v seed nonce :
  bytes seed -> length seed = CRH_BYTES -> wf_vec L v -> z_vec_ok (poly_vec_l_uniform_gamma1_volatile v seed nonce).
Proof.
  intros Hb Hl Hv.
  assert (H : vec L (fun _ p => Forall z_range p) (poly_vec_l_uniform_gamma1_volatile v seed nonce)).
  { apply (vec_loop L _ (fun j p => poly_uniform_gamma1 p seed (u16 (Z.of_nat L * nonce + Z.of_nat j)))); [apply Hv|].
    intros i Hi. apply poly_uniform_gamma1_range; [done|done|by apply (wf_vec_get L)]. }
  split; [apply H|]. apply Forall_lookup. intros i p Hp. rewrite <- (list_lookup_total_correct _ _ _ Hp).
  apply H. rewrite <- (proj1 H). by eapply lookup_lt_Some.
Qed.

Lemma attempt_mask_spec rhoPrime nonce st :
  bytes rhoPrime -> length rhoPrime = CRH_BYTES -> nvm_ok st ->
  let st' := attempt_mask rhoPrime nonce st in
  nvm_ok st' /\ same_key st st' /\ z_vec_ok (y st') /\
  vval L (524289 + 8 * Q_CONST) (hats (y st')) (z st') /\ sig st' = sig st.
Proof.
  intros Hb Hl Hst. pose proof (gamma1_vec (y st) rhoPrime nonce Hb Hl (y_ok _ Hst)) as Hy.
  unfold attempt_mask. cbv zeta. nvm_simpl.
  set (yv := poly_vec_l_uniform_gamma1_volatile _ _ _) in *. clearbody yv.
  pose proof (loop_table L (fun x => x) yv (z st) (z_vec_wf _ Hy) (z_ok _ Hst)) as E. cbv beta in E. rewrite E.
  assert (Em : map (map (fun x : Z => x)) yv = yv).
  { rewrite (map_ext _ (fun p => p)) by (intros; apply map_id). apply map_id. }
  rewrite Em.
  pose proof (loop_ntt L 524289 (hats yv) yv ltac:(lia) ltac:(unfold Q_CONST; lia) (z_vec_small _ Hy)) as Hn.
  split; [|split; [done|split; [exact Hy|split; [exact Hn|done]]]].
  destruct Hst. split; nvm_simpl; try assumption; [by apply z_vec_wf|exact (vec_wf _ _ _ Hn)].
Qed.

(** A squeeze of [n] bytes into a longer array. *)
Lemma squeeze_volatile_spec ms out n :
  bytes (concat ms) -> (n <= 850)%nat -> (n <= length out)%nat ->
  fst (shake256_squeeze_volatile (shake256_of ms) out n) = written (SHAKE256 (concat ms) n) out.
Proof.
  intros Hb Hn Ho. unfold shake256_squeeze_volatile.
  pose proof (shake256_of_squeeze ms n Hb) as E. destruct (shake256_squeeze (shake256_of ms) n) as [o ctx].
  cbn [fst] in *. subst o. pose proof (SHAKE256_length (concat ms) n Hb) as Hl.
  rewrite (blit_0 (replicate 850 0)), take_app_length' by done. apply blit_0.
Qed.

(** The writes of the commitment, for any functions in the place of the vector
    operations, so that no conversion looks into them. *)
Lemma commit_shape (red inv add : PolyVec -> PolyVec) (dec : PolyVec -> PolyVec -> PolyVec -> PolyVec * PolyVec)
    (pack : list Z -> PolyVec -> list Z) (hash : list Z -> list Z) w st :
  (let st := set_w1 w st in
   let st := set_w1 (red (w1 st)) st in
   let st := set_w1 (inv (w1 st)) st in
   let st := set_w1 (add (w1 st)) st in
   let '(v1, v0) := dec (w1 st) (w0 st) (w1 st) in
   let st := set_w1 v1 (set_w0 v0 st) in
   let st := set_sig (pack (sig st) (w1 st)) st in
   set_sig (hash (sig st)) st) =
  let W := add (inv (red w)) in
  set_sig (hash (pack (sig st) (fst (dec W (w0 st) W))))
    (set_w1 (fst (dec W (w0 st) W)) (set_w0 (snd (dec W (w0 st) W)) st)).
Proof. cbv zeta. cbn [set_w1 w1 w0]. by destruct (dec _ _ _). Qed.

Lemma attempt_commit_eq mu w st :
  attempt_commit mu w st =
  let W := poly_vec_k_c_addq_volatile (poly_vec_k_inv_ntt_to_mont_volatile (poly_vec_k_reduce_volatile w)) in
  let d := poly_vec_k_decompose_volatile W (w0 st) W in
  let b := poly_vec_k_pack_w1_volatile (sig st) (fst d) in
  set_sig (fst (shake256_squeeze_volatile (shake256_of [mu; take (K * POLY_W1_PACKED_BYTES) b]) b CTILDE_BYTES))
    (set_w1 (fst d) (set_w0 (snd d) st)).
Proof.
  exact (commit_shape poly_vec_k_reduce_volatile poly_vec_k_inv_ntt_to_mont_volatile poly_vec_k_c_addq_volatile
    poly_vec_k_decompose_volatile poly_vec_k_pack_w1_volatile
    (fun b => fst (shake256_squeeze_volatile (shake256_of [mu; take (K * POLY_W1_PACKED_BYTES) b]) b CTILDE_BYTES)) w st).
Qed.

(** The challenge hash, over the bytes of the commitment. *)
Lemma commit_hash mu w1v sg :
  bytes mu -> w1_vec_ok w1v -> length sg = CRYPTO_BYTES ->
  let b := poly_vec_k_pack_w1_volatile sg w1v in
  let sg' := fst (shake256_squeeze_volatile (shake256_of [mu; take (K * POLY_W1_PACKED_BYTES) b]) b CTILDE_BYTES) in
  length sg' = CRYPTO_BYTES /\ take CTILDE_BYTES sg' = commitment_hash mu w1v.
Proof.
  intros Hm Ok1 Hsg. cbv zeta.
  assert (Hlen : (K * POLY_W1_PACKED_BYTES <= length sg)%nat)
    by (rewrite Hsg; apply Nat.leb_le; vm_compute; reflexivity).
  rewrite pack_w1_spec by done.
  assert (Et : take (K * POLY_W1_PACKED_BYTES) (written (w1_bytes w1v K) sg) = w1_bytes w1v K).
  { unfold written. apply take_app_length'. rewrite w1_bytes_length. apply Nat.mul_comm. }
  rewrite Et.
  assert (Hmb : bytes (mu ++ w1_bytes w1v K)) by (apply Forall_app; split; [done|by apply w1_bytes_range]).
  assert (Hlw : length (written (w1_bytes w1v K) sg) = CRYPTO_BYTES).
  { rewrite written_length; [done|]. by rewrite w1_bytes_length, Nat.mul_comm. }
  assert (Hc : (CTILDE_BYTES <= CRYPTO_BYTES)%nat) by (apply Nat.leb_le; vm_compute; reflexivity).
  rewrite squeeze_volatile_spec;
    [|cbn [concat]; by rewrite app_nil_r|unfold CTILDE_BYTES; lia|by rewrite Hlw].
  cbn [concat]. rewrite app_nil_r. fold (commitment_hash mu w1v).
  assert (Hch : length (commitment_hash mu w1v) = CTILDE_BYTES) by by apply SHAKE256_length.
  split; [|unfold written; by apply take_app_length'].
  rewrite written_length; [exact Hlw|]. etrans; [|rewrite Hlw; exact Hc]. rewrite Hch. apply le_n.
Qed.

Lemma attempt_commit_spec fuel rho mu yv w st :
  bytes mu -> nvm_ok st -> vval K (7 * Q_CONST) (fun i k => RINV * msum fuel rho (hats yv) i k) w ->
  exists W sg, vcan K (msum fuel rho (hats yv)) W /\
    attempt_commit mu w st = set_sig sg (set_w1 (w1_of W) (set_w0 (w0_of W) st)) /\
    length sg = CRYPTO_BYTES /\ take CTILDE_BYTES sg = commitment_hash mu (w1_of W).
Proof.
  intros Hm Hst Hw.
  assert (HW : vcan K (msum fuel rho (hats yv)) (poly_vec_k_c_addq_volatile (poly_vec_k_inv_ntt_to_mont_volatile
    (poly_vec_k_reduce_volatile w)))).
  { apply (loop_c_addq K INV_BOUND); [unfold INV_BOUND, Q_CONST; lia|]. apply loop_inv_ntt.
    apply (loop_reduce_val K (7 * Q_CONST)); [unfold Q_CONST; lia|exact Hw]. }
  pose proof (attempt_commit_eq mu w st) as E. cbv zeta in E.
  generalize dependent (poly_vec_k_c_addq_volatile
    (poly_vec_k_inv_ntt_to_mont_volatile (poly_vec_k_reduce_volatile w))). intros W HW E.
  pose proof (vcan_wf _ _ _ HW) as Ww. rewrite (decompose_volatile_map W (w0 st) W Ww (w0_ok _ Hst) Ww) in E.
  cbn [fst snd] in E. fold (w1_of W) (w0_of W) in E.
  destruct (commit_hash mu (w1_of W) (sig st) Hm (w1_of_ok _ _ HW) (sig_ok _ Hst)) as [Hl Hc].
  exists W. eexists. split; [exact HW|]. split; [exact E|]. split; [exact Hl|exact Hc].
Qed.

(** *** The response *)

(** The product of the challenge and a stored transform. *)
Lemma challenge_product n B F r c v :
  0 < B <= 9 * Q_CONST -> wf_vec n r -> wf_poly c -> bounded 2 c -> vval n B F v ->
  vhat n INV_BOUND (fun i k => hat c k * F i k)
    (for_ 0 n (fun i v => <[i := inv_ntt_to_mont (v !!! i)]> v)
      (for_ 0 n (fun i r => <[i := poly_pointwise_montgomery (r !!! i) (ntt c) (v !!! i)]> r) r)).
Proof.
  intros HB Hr Hc Bc Hv. apply loop_inv_ntt.
  assert (H2 : 2 + 8 * Q_CONST <= 2147483648) by (unfold Q_CONST; lia).
  destruct (ntt_spec 2 c _ ltac:(lia) H2 Hc Bc (reflexivity _)) as (Wn & Bn & _).
  apply (loop_pointwise n (2 + 8 * Q_CONST) B (hat c));
    [unfold Q_CONST; lia|lia|unfold Q_CONST in *; lia|exact Hr|exact Wn|exact Bn| |exact Hv].
  intros k Hk. apply (ntt_root 2); [lia|exact H2|exact Hc|exact Bc|exact Hk].
Qed.

(** The norm checks. *)
Lemma norm_check n B M F (v : PolyVec) :
  M <= 1073741824 -> 0 <= B <= (Q_CONST - 1) / 8 -> vhat n M F v ->
  for_ 0 n (fun i r => if r =? 0 then
    (if negb (poly_chk_norm (v !!! i) B =? 0) then 1 else 0) else r) 0 = 0 ->
  short n B v /\ vhat n B F v.
Proof.
  intros HM HB Hv H.
  assert (Hb : vec n (fun _ p => bounded 1073741824 p) v).
  { eapply vec_impl; [|exact Hv]. intros i p _ _ [Hb _]. by apply (bounded_mono M). }
  apply (chk_norm_short n B v Hb HB) in H. split; [exact H|]. split; [apply Hv|]. intros i Hi.
  destruct (proj2 Hv i Hi) as (Hw & _ & Hf). split; [done|]. split; [|done]. apply bounded_Forall; [done|].
  eapply Forall_impl; [|exact (H i Hi)]. cbv beta. intros x Hx. lia.
Qed.

Lemma attempt_z_eq s1 c st :
  attempt_z s1 c st =
  set_z (poly_vec_l_reduce_volatile (poly_vec_l_add_volatile
    (poly_vec_l_inv_ntt_to_mont_volatile (poly_vec_l_pointwise_poly_montgomery_volatile (z st) (ntt c) s1)) (y st)))
    (set_cp (ntt c) st).
Proof. unfold attempt_z. cbv zeta. nvm_simpl. reflexivity. Qed.

Lemma attempt_z_spec s1 s1hat c st :
  nvm_ok st -> z_vec_ok (y st) -> wf_poly c -> bounded 2 c -> vval L (3 + 8 * Q_CONST) (hats s1) s1hat ->
  exists zv, attempt_z s1hat c st = set_z zv (set_cp (ntt c) st) /\
    vhat L Q_CONST (fun j k => hat c k * hats s1 j k + hats (y st) j k) zv.
Proof.
  intros Hst Hy Hc Bc Hs. eexists. split; [apply attempt_z_eq|].
  apply (loop_reduce_hat L (INV_BOUND + 524289)); [unfold INV_BOUND; lia|].
  apply (loop_add L INV_BOUND 524289 (fun i k => hat c k * hats s1 i k)); [unfold INV_BOUND; lia| |by apply z_vec_small].
  apply (challenge_product L (3 + 8 * Q_CONST) (hats s1)); [unfold Q_CONST; lia|apply Hst|done|done|exact Hs].
Qed.

Lemma attempt_w0_eq s2 st :
  exists hv, hv = poly_vec_k_inv_ntt_to_mont_volatile (poly_vec_k_pointwise_poly_montgomery_volatile (h st) (cp st) s2) /\
  attempt_w0 s2 st = set_w0 (poly_vec_k_reduce_volatile (poly_vec_k_sub_volatile (w0 st) (w0 st) hv)) (set_h hv st).
Proof. eexists. split; [reflexivity|]. unfold attempt_w0. cbv zeta. nvm_simpl. reflexivity. Qed.

Lemma attempt_w0_spec s2 s2hat c F st :
  nvm_ok st -> cp st = ntt c -> wf_poly c -> bounded 2 c -> vval K (3 + 8 * Q_CONST) (hats s2) s2hat ->
  vhat K 261889 F (w0 st) ->
  exists hv wv, attempt_w0 s2hat st = set_w0 wv (set_h hv st) /\ wf_vec K hv /\
    vhat K Q_CONST (fun i k => F i k - hat c k * hats s2 i k) wv.
Proof.
  intros Hst Ec Hc Bc Hs Hw. destruct (attempt_w0_eq s2hat st) as (hv & Eh & E). rewrite Ec in Eh.
  assert (Hh : vhat K INV_BOUND (fun i k => hat c k * hats s2 i k) hv).
  { rewrite Eh. apply (challenge_product K (3 + 8 * Q_CONST) (hats s2)); [unfold Q_CONST; lia|apply Hst|done|done|exact Hs]. }
  exists hv. eexists. split; [exact E|]. split; [exact (vec_wf _ _ _ Hh)|].
  apply (loop_reduce_hat K (261889 + INV_BOUND)); [unfold INV_BOUND; lia|].
  apply (loop_sub K 261889 INV_BOUND F); [unfold INV_BOUND; lia|apply Hst|exact Hw|exact Hh].
Qed.

Lemma attempt_h_eq st :
  attempt_h st = set_h (poly_vec_k_reduce_volatile (poly_vec_k_inv_ntt_to_mont_volatile
    (poly_vec_k_pointwise_poly_montgomery_volatile (h st) (cp st) (pack1_t0 st)))) st.
Proof. unfold attempt_h. cbv zeta. nvm_simpl. reflexivity. Qed.

Lemma attempt_h_spec t0 c st :
  nvm_ok st -> cp st = ntt c -> wf_poly c -> bounded 2 c -> vval K (4097 + 8 * Q_CONST) (hats t0) (pack1_t0 st) ->
  exists hv, attempt_h st = set_h hv st /\ vhat K Q_CONST (fun i k => hat c k * hats t0 i k) hv.
Proof.
  intros Hst Ec Hc Bc Ht. eexists. split; [apply attempt_h_eq|]. rewrite Ec.
  apply (loop_reduce_hat K INV_BOUND); [unfold INV_BOUND; lia|].
  apply (challenge_product K (4097 + 8 * Q_CONST) (hats t0)); [unfold Q_CONST; lia|apply Hst|done|done|exact Ht].
Qed.

Lemma hint_ok_of_bits hv : bit_vec hv -> (length (all_ones hv K) <= OMEGA)%nat -> hint_ok hv.
Proof.
  intros [Hl Hb] Ho. split; [done|]. split; [|done]. apply list.Forall_lookup. intros i row Hrow.
  rewrite <- (list_lookup_total_correct _ _ _ Hrow). apply Hb. rewrite <- Hl. by eapply lookup_lt_Some.
Qed.

Lemma attempt_hint_spec F G st :
  nvm_ok st -> vhat K (GAMMA2 - BETA) F (w0 st) -> vhat K GAMMA2 G (h st) -> w1_vec_ok (w1 st) ->
  exists wv, vhat K (2 * GAMMA2) (fun i k => F i k + G i k) wv /\
    attempt_hint st = (set_h (hint_bits wv (w1 st)) (set_w0 wv st),
      Z.of_nat (length (all_ones (hint_bits wv (w1 st)) K))) /\
    bit_vec (hint_bits wv (w1 st)).
Proof.
  intros Hst Hw Hh H1. exists (poly_vec_k_add_volatile (w0 st) (h st)).
  assert (Hs : vhat K (2 * GAMMA2) (fun i k => F i k + G i k) (poly_vec_k_add_volatile (w0 st) (h st))).
  { apply (vhat_mono K (GAMMA2 - BETA + GAMMA2)); [vm_compute; discriminate|].
    apply (loop_add K (GAMMA2 - BETA) GAMMA2 F G); [vm_compute; discriminate|exact Hw|exact Hh]. }
  split; [exact Hs|]. unfold attempt_hint. cbv zeta. nvm_simpl.
  destruct (make_hint_volatile_spec (h st) _ (w1 st) (vec_wf _ _ _ Hh)
    (vec_impl _ _ _ _ (fun i p _ _ H => proj1 H) Hs) H1) as [E Hb].
  rewrite E. split; [done|exact Hb].
Qed.

(** What an accepted attempt stores: a short [z = y + c s1], and the hints of
    [w0 - c s2 + c t0]. *)
Definition response (s1 s2 T yv W : PolyVec) (c : Poly) (zv hv : PolyVec) : Prop :=
  z_vec_ok zv /\ short L (GAMMA1 - BETA) zv /\
  (forall j k, (j < L)%nat -> (k < N)%nat -> hats zv j k ≡q hat c k * hats s1 j k + hats yv j k) /\
  exists w0f, vhat K (2 * GAMMA2)
      (fun i k => hats (w0_of W) i k - hat c k * hats s2 i k + hat c k * hats (low T) i k) w0f /\
    hv = hint_bits w0f (w1_of W) /\ hint_ok hv.

Lemma short_z_ok F zv : vhat L Q_CONST F zv -> short L (GAMMA1 - BETA) zv -> z_vec_ok zv.
Proof.
  intros Hz Hs. pose proof (vec_wf _ _ _ Hz) as [Hl Hw]. split; [done|]. apply list.Forall_lookup. intros i p Hp.
  pose proof (lookup_lt_Some _ _ _ Hp) as Hi. rewrite Hl in Hi. rewrite list.Forall_lookup in Hw.
  split; [by eapply Hw|]. specialize (Hs i Hi). rewrite (list_lookup_total_correct _ _ _ Hp) in Hs.
  eapply Forall_impl; [|exact Hs]. cbv beta. intros x Hx. unfold z_range.
  change GAMMA1 with 524288 in *. change BETA with 120 in *. lia.
Qed.

Section respond.
Context (s1 s2 T W s1hat s2hat : PolyVec) (c : Poly) (F : nat -> nat -> Z).
Context (Hs1 : vval L (3 + 8 * Q_CONST) (hats s1) s1hat) (Hs2 : vval K (3 + 8 * Q_CONST) (hats s2) s2hat)
  (HW : vcan K F W) (Hc : wf_poly c) (Bc : bounded 2 c).
#[local] Opaque attempt_z attempt_w0 attempt_h attempt_hint poly_vec_l_chk_norm poly_vec_k_chk_norm w1_of w0_of hint_bits all_ones.

(** The invariant of the stages: the record, the key and the signature buffer. *)
Definition stage (st st' : nvm) : Prop := nvm_ok st' /\ same_key st st' /\ sig st' = sig st.

Lemma norm_check_k B M G v :
  M <= 1073741824 -> 0 <= B <= (Q_CONST - 1) / 8 -> vhat K M G v -> poly_vec_k_chk_norm v B = 0 -> vhat K B G v.
Proof using. intros HM HB Hv H. by destruct (norm_check K B M G v HM HB Hv H). Qed.
Lemma norm_check_l B M G v :
  M <= 1073741824 -> 0 <= B <= (Q_CONST - 1) / 8 -> vhat L M G v -> poly_vec_l_chk_norm v B = 0 -> short L B v.
Proof using. intros HM HB Hv H. by destruct (norm_check L B M G v HM HB Hv H). Qed.
Lemma norm_bounds :
  Q_CONST <= 1073741824 /\ 0 <= GAMMA1 - BETA <= (Q_CONST - 1) / 8 /\ 0 <= GAMMA2 - BETA <= (Q_CONST - 1) / 8 /\
  0 <= GAMMA2 <= (Q_CONST - 1) / 8.
Proof using. vm_compute. split_and!; discriminate. Qed.

(** The rejected attempt, at any stage. *)
Lemma rejected st st' Z' :
  nvm_ok st' -> same_key st st' -> sig st' = sig st -> stage st st' /\ (false = true -> Z').
Proof using. intros H1 H2 H3. split; [split; [exact H1|split; [exact H2|exact H3]]|discriminate]. Qed.

Lemma attempt_respond_spec st :
  nvm_ok st -> z_vec_ok (y st) -> w0 st = w0_of W -> w1 st = w1_of W ->
  vval K (4097 + 8 * Q_CONST) (hats (low T)) (pack1_t0 st) ->
  let '(b, st') := attempt_respond s1hat s2hat c st in
  stage st st' /\ (b = true -> response s1 s2 T (y st) W c (z st') (h st')).
Proof using Hs1 Hs2 HW Hc Bc.
  intros Hst Hy E0 E1 Ht. unfold attempt_respond. cbv zeta. destruct norm_bounds as (NM & N1 & N2 & N3).
  destruct (attempt_z_spec s1 s1hat c st Hst Hy Hc Bc Hs1) as (zv & -> & Hz).
  destruct (ntt_spec 2 c _ ltac:(lia) ltac:(unfold Q_CONST; lia) Hc Bc (reflexivity _)) as (Wn & _ & _).
  pose proof (ok_set_z zv _ (ok_set_cp _ st Hst Wn) (vec_wf _ _ _ Hz)) as Ok1.
  change (z (set_z zv _)) with zv.
  destruct (Z.eqb_spec (poly_vec_l_chk_norm zv (GAMMA1 - BETA)) 0) as [Nz|_]; cbn [negb];
    [|apply rejected; [exact Ok1|repeat split|exact eq_refl]].
  pose proof (norm_check_l _ _ _ _ NM N1 Hz Nz) as Sz.
  assert (Hw0 : vhat K 261889 (hats (w0_of W)) (w0 st)) by (rewrite E0; exact (w0_of_vhat _ _ HW)).
  destruct (attempt_w0_spec s2 s2hat c _ _ Ok1 eq_refl Hc Bc Hs2 Hw0) as (h1 & wv & -> & Wh1 & Hwv).
  pose proof (ok_set_w0 wv _ (ok_set_h h1 _ Ok1 Wh1) (vec_wf _ _ _ Hwv)) as Ok2.
  change (w0 (set_w0 wv _)) with wv.
  destruct (Z.eqb_spec (poly_vec_k_chk_norm wv (GAMMA2 - BETA)) 0) as [Nw|_]; cbn [negb];
    [|apply rejected; [exact Ok2|repeat split|exact eq_refl]].
  pose proof (norm_check_k _ _ _ _ NM N2 Hwv Nw) as Sw.
  destruct (attempt_h_spec (low T) c _ Ok2 eq_refl Hc Bc Ht) as (h2 & -> & Hh2).
  pose proof (ok_set_h h2 _ Ok2 (vec_wf _ _ _ Hh2)) as Ok3.
  change (h (set_h h2 _)) with h2.
  destruct (Z.eqb_spec (poly_vec_k_chk_norm h2 GAMMA2) 0) as [Nh|_]; cbn [negb];
    [|apply rejected; [exact Ok3|repeat split|exact eq_refl]].
  pose proof (norm_check_k _ _ _ _ NM N3 Hh2 Nh) as Sh.
  assert (Hw1 : w1_vec_ok (w1 st)) by (rewrite E1; exact (w1_of_ok _ _ HW)).
  destruct (attempt_hint_spec _ _ _ Ok3 Sw Sh Hw1) as (w0f & Hf & -> & Hbits).
  change (w1 (set_h h2 _)) with (w1 st) in *. rewrite E1 in *.
  pose proof (ok_set_h _ _ (ok_set_w0 w0f _ Ok3 (vec_wf _ _ _ Hf)) (vec_wf _ _ _ Hbits)) as Ok4.
  destruct (Z.ltb_spec (Z.of_nat OMEGA) (Z.of_nat (length (all_ones (hint_bits w0f (w1_of W)) K)))) as [Ho|Ho];
    [apply rejected; [exact Ok4|repeat split|exact eq_refl]|].
  split; [split; [exact Ok4|split; [repeat split|exact eq_refl]]|]. intros _.
  change (response s1 s2 T (y st) W c zv (hint_bits w0f (w1_of W))).
  split; [exact (short_z_ok _ _ Hz Sz)|]. split; [exact Sz|]. split.
  - intros j k Hj Hk. destruct (proj2 Hz j Hj) as (_ & _ & Hf'). by apply Hf'.
  - exists w0f. split; [exact Hf|]. split; [reflexivity|]. apply hint_ok_of_bits; [exact Hbits|lia].
Qed.
End respond.

(** *** An attempt *)

(** The masking vector of an attempt; the old contents of [y] do not matter. *)
Definition mask (seed : list Z) (nonce : Z) : PolyVec := poly_vec_l_uniform_gamma1_volatile (zero_vec L) seed nonce.

Lemma gamma1_any a b seed nonce :
  bytes seed -> length seed = CRH_BYTES -> wf_poly a -> wf_poly b ->
  poly_uniform_gamma1 a seed nonce = poly_uniform_gamma1 b seed nonce.
Proof.
  intros Hb Hl Wa Wb. rewrite !poly_uniform_gamma1_spec by done.
  assert (Hs : bytes (seed ++ nonce_bytes nonce)) by by apply seeded_bytes.
  by rewrite !poly_z_unpack_blocks by (done || by apply SHAKE256_bytes || by apply SHAKE256_length).
Qed.
Lemma mask_any v seed nonce :
  bytes seed -> length seed = CRH_BYTES -> wf_vec L v ->
  poly_vec_l_uniform_gamma1_volatile v seed nonce = mask seed nonce.
Proof.
  intros Hb Hl Hv.
  pose (P := fun (i : nat) p => p = poly_uniform_gamma1 zero_poly seed (u16 (Z.of_nat L * nonce + Z.of_nat i))).
  assert (H : forall u, wf_vec L u -> vec L P (poly_vec_l_uniform_gamma1_volatile u seed nonce)).
  { intros u Hu. apply (vec_loop L P (fun j p => poly_uniform_gamma1 p seed (u16 (Z.of_nat L * nonce + Z.of_nat j)))); [apply Hu|].
    intros i Hi. pose proof (wf_vec_get _ _ _ Hu Hi) as Wi. split; [by apply poly_uniform_gamma1_range|].
    unfold P. by apply gamma1_any. }
  destruct (H v Hv) as [L1 H1], (H (zero_vec L) (zeros_wf L)) as [L2 H2].
  apply (list_eq_total _ _ L); [exact L1|exact L2|]. intros i Hi.
  destruct (H1 i Hi) as [_ E1], (H2 i Hi) as [_ E2]. unfold mask. rewrite E2. exact E1.
Qed.

(** The verifier can reconstruct a commitment from any response. *)
Lemma verify_values_exist fuel rho t1v zv c :
  bytes rho -> length rho = SEED_BYTES -> matrix_ready fuel rho -> t1_vec_ok t1v -> z_vec_ok zv -> wf_poly c -> bounded 2 c ->
  exists R, vcan K (verify_values fuel rho t1v zv c) R.
Proof.
  intros Hb Hl Hm Ht Hz Hc Bc.
  pose proof (loop_ntt L 524289 (hats zv) zv ltac:(lia) ltac:(unfold Q_CONST; lia) (z_vec_small zv Hz)) as Hn.
  assert (HS : 0 < 524289 + 8 * Q_CONST <= 2147483648) by (unfold Q_CONST; lia).
  pose proof (product_val fuel rho _ (hats zv) (zero_vec K) _ Hb Hl HS (zeros_wf K) Hn) as Hp.
  destruct (combined_method _ _ _ _) as [w|]; [|by destruct (Hp Hm)].
  eexists. exact (proj2 (commitment fuel rho t1v zv c w Ht Hc Bc (proj2 Hp))).
Qed.

Lemma attempt_mask_y seed nonce st :
  bytes seed -> length seed = CRH_BYTES -> nvm_ok st -> y (attempt_mask seed nonce st) = mask seed nonce.
Proof.
  intros Hb Hl Hst. change (y (attempt_mask seed nonce st)) with (poly_vec_l_uniform_gamma1_volatile (y st) seed nonce).
  apply mask_any; [done|done|apply Hst].
Qed.

Definition sign_answer (fuel : nat) (s1 s2 : PolyVec) (st : nvm) : option (bool * nvm) :=
  '(_, c) ← poly_challenge_volatile fuel (cp st) (sig st) CTILDE_BYTES;
  Some (attempt_respond s1 s2 c st).
Lemma sign_attempt_unfold fuel rho seed mu s1 s2 nonce st :
  sign_attempt fuel rho seed mu s1 s2 nonce st =
  let st := attempt_mask seed nonce st in
  match combined_method fuel (w1 st) (z st) rho with
  | None => None
  | Some w => sign_answer fuel s1 s2 (attempt_commit mu w st)
  end.
Proof. reflexivity. Qed.

#[local] Opaque attempt_mask attempt_commit attempt_respond mask sign_attempt.

(** The commitment of an attempt. *)
Definition commits (fuel : nat) (rho seed : list Z) (nonce : Z) (W : PolyVec) : Prop :=
  vcan K (msum fuel rho (hats (mask seed nonce))) W.

(** The storage while signing: the key, with the transform of [t0]. *)
Definition signing (T : PolyVec) (st : nvm) : Prop :=
  nvm_ok st /\ vval K (4097 + 8 * Q_CONST) (hats (low T)) (pack1_t0 st).

Lemma same_key_t0 st st' : same_key st st' -> pack1_t0 st' = pack1_t0 st.
Proof. intros (_ & _ & E). unfold pack1_t0. by rewrite E. Qed.
Lemma same_key_trans st1 st2 st3 : same_key st1 st2 -> same_key st2 st3 -> same_key st1 st3.
Proof. intros (H1 & H2 & H3) (H4 & H5 & H6). split; [congruence|split; congruence]. Qed.
Lemma signing_kept T st st' : signing T st -> nvm_ok st' -> same_key st st' -> signing T st'.
Proof. intros [_ H] Hst Hk. split; [done|]. by rewrite (same_key_t0 st). Qed.

Section attempts.
Context (fuel : nat) (rho seed mu : list Z) (s1 s2 T s1hat s2hat : PolyVec).
Context (rho_bytes : bytes rho) (rho_length : length rho = SEED_BYTES) (seed_bytes : bytes seed)
  (seed_length : length seed = CRH_BYTES) (mu_bytes : bytes mu) (HT : key_vector fuel rho s1 s2 T)
  (Hs1 : vval L (3 + 8 * Q_CONST) (hats s1) s1hat) (Hs2 : vval K (3 + 8 * Q_CONST) (hats s2) s2hat).

(** What an attempt that passes every check leaves to be packed. *)
Definition signed (st : nvm) : Prop :=
  z_vec_ok (z st) /\ hint_ok (h st) /\
  valid_signature fuel rho (high T) mu (signature_bytes (take CTILDE_BYTES (sig st)) (z st) (h st)).

Lemma response_valid yv W c zv hv :
  matrix_ready fuel rho -> vcan K (msum fuel rho (hats yv)) W -> response s1 s2 T yv W c zv hv ->
  challenge fuel (commitment_hash mu (w1_of W)) c ->
  valid_signature fuel rho (high T) mu (signature_bytes (commitment_hash mu (w1_of W)) zv hv).
Proof using rho_bytes rho_length mu_bytes HT.
  intros Hm HW (Hz & Hsh & Hzy & w0f & Hf & -> & Hh) Hc.
  assert (Hl : length (commitment_hash mu (w1_of W)) = CTILDE_BYTES).
  { apply SHAKE256_length, Forall_app. split; [done|]. by eapply w1_bytes_range, w1_of_ok. }
  destruct (challenge_bounded fuel _ c Hl Hc) as [Wc Bc].
  destruct (verify_values_exist fuel rho (high T) zv c rho_bytes rho_length Hm (high_ok _ _ HT) Hz Wc Bc) as [R HR].
  exists (commitment_hash mu (w1_of W)), zv, (hint_bits w0f (w1_of W)), c, R.
  rewrite (hints_recover fuel rho s1 s2 T yv W zv w0f R c HT HW Hzy Hf HR).
  split; [reflexivity|]. split; [exact Hl|]. split; [exact Hz|]. split; [exact Hh|]. split; [exact Hsh|].
  split; [exact Hc|]. split; [exact HR|reflexivity].
Qed.

(** From the commitment on. *)
Lemma sign_answer_spec W sg yv st :
  signing T st -> matrix_ready fuel rho -> vcan K (msum fuel rho (hats yv)) W -> z_vec_ok yv -> y st = yv ->
  w0 st = w0_of W -> w1 st = w1_of W -> sig st = sg -> take CTILDE_BYTES sg = commitment_hash mu (w1_of W) ->
  match sign_answer fuel s1hat s2hat st with
  | None => forall c, ~ challenge fuel (commitment_hash mu (w1_of W)) c
  | Some (b, st') => signing T st' /\ same_key st st' /\ (b = true -> signed st')
  end.
Proof using rho_bytes rho_length mu_bytes HT Hs1 Hs2.
  intros [Hst Ht0] Hm HW Hy Ey E0 E1 Es Hsg. unfold sign_answer. rewrite Es.
  destruct (poly_challenge_volatile fuel (cp st) sg CTILDE_BYTES) as [[err c]|] eqn:Ec; cbn [mbind option_bind].
  2: { intros c Hc. rewrite <- Hsg in Hc.
       rewrite (challenge_complete fuel (cp st) sg c (cp_ok _ Hst) Hc) in Ec. discriminate Ec. }
  destruct (challenge_spec fuel (cp st) sg _ (cp_ok _ Hst) Ec) as (_ & Hch & Wc & Bc). cbn [snd] in Hch, Wc, Bc.
  rewrite <- Ey in Hy.
  pose proof (attempt_respond_spec s1 s2 T W s1hat s2hat c _ Hs1 Hs2 HW Wc Bc st Hst Hy E0 E1 Ht0) as Hr.
  destruct (attempt_respond s1hat s2hat c st) as [b st3]. destruct Hr as [(Ok3 & K3 & Es3) Hr].
  split; [exact (signing_kept T st st3 (conj Hst Ht0) Ok3 K3)|]. split; [exact K3|]. intros Hb. specialize (Hr Hb).
  split; [apply Hr|]. split; [destruct Hr as (_ & _ & _ & w0f & _ & _ & Hh); exact Hh|].
  rewrite Ey in Hr. rewrite Es3, Es, Hsg in *. exact (response_valid yv W c _ _ Hm HW Hr Hch).
Qed.

Lemma attempt_commit_stage w st :
  signing T st -> vval K (7 * Q_CONST) (fun i k => RINV * msum fuel rho (hats (y st)) i k) w ->
  exists W, vcan K (msum fuel rho (hats (y st))) W /\ let st' := attempt_commit mu w st in
    signing T st' /\ same_key st st' /\ y st' = y st /\ w0 st' = w0_of W /\ w1 st' = w1_of W /\
    take CTILDE_BYTES (sig st') = commitment_hash mu (w1_of W).
Proof using mu_bytes.
  intros [Hst Ht] Hw.
  destruct (attempt_commit_spec fuel rho mu (y st) w st mu_bytes Hst Hw) as (W & sg & HW & -> & Hsl & Hsg).
  exists W. split; [exact HW|]. cbv zeta.
  pose proof (w1_of_ok _ _ HW) as W1. pose proof (w0_of_vhat _ _ HW) as W0.
  pose proof (ok_set_sig sg _ (ok_set_w1 _ _ (ok_set_w0 _ _ Hst (vec_wf _ _ _ W0)) (vec_wf _ _ _ W1)) Hsl) as Ok2.
  assert (K2 : same_key st (set_sig sg (set_w1 (w1_of W) (set_w0 (w0_of W) st)))) by (repeat split).
  split; [exact (signing_kept T st _ (conj Hst Ht) Ok2 K2)|]. split; [exact K2|].
  split; [reflexivity|]. split; [reflexivity|]. split; [reflexivity|exact Hsg].
Qed.

Lemma sign_attempt_spec nonce st :
  signing T st ->
  match sign_attempt fuel rho seed mu s1hat s2hat nonce st with
  | None => ~ matrix_ready fuel rho \/
      exists W, commits fuel rho seed nonce W /\ forall c, ~ challenge fuel (commitment_hash mu (w1_of W)) c
  | Some (b, st') => signing T st' /\ same_key st st' /\ (b = true -> signed st')
  end.
Proof using rho_bytes rho_length seed_bytes seed_length mu_bytes HT Hs1 Hs2.
  intros [Hst Ht0]. rewrite sign_attempt_unfold.
  destruct (attempt_mask_spec seed nonce st seed_bytes seed_length Hst) as (Ok1 & K1 & Hy & Hz & _).
  pose proof (attempt_mask_y seed nonce st seed_bytes seed_length Hst) as Ey.
  generalize dependent (attempt_mask seed nonce st). intros st1 Ok1 K1 Hy Hz Ey. cbv zeta.
  assert (HS : 0 < 524289 + 8 * Q_CONST <= 2147483648) by (unfold Q_CONST; lia).
  pose proof (product_val fuel rho _ (hats (y st1)) (w1 st1) _ rho_bytes rho_length HS (w1_ok _ Ok1) Hz) as Hp.
  destruct (combined_method fuel (w1 st1) (z st1) rho) as [w|]; [|left; exact Hp].
  destruct Hp as [Hm Hw].
  destruct (attempt_commit_stage w st1 (signing_kept T st st1 (conj Hst Ht0) Ok1 K1) Hw)
    as (W & HW & Hs2' & K2 & Ey2 & E0 & E1 & Hsg).
  generalize dependent (attempt_commit mu w st1). intros st2 Hs2' K2 Ey2 E0 E1 Hsg.
  pose proof (sign_answer_spec W (sig st2) (y st1) st2 Hs2' Hm HW Hy Ey2 E0 E1 eq_refl Hsg) as Ha.
  destruct (sign_answer fuel s1hat s2hat st2) as [[b st3]|].
  - destruct Ha as (H3 & K3 & Hd). split; [exact H3|]. split; [|exact Hd].
    exact (same_key_trans _ _ _ K1 (same_key_trans _ _ _ K2 K3)).
  - right. exists W. split; [unfold commits; rewrite <- Ey; exact HW|exact Ha].
Qed.
(** *** The loop *)
Definition pack_signed (st : nvm) : Z * nvm :=
  let c := for_ 0 CTILDE_BYTES (fun i c => <[i := sig st !!! i]> c) (replicate CTILDE_BYTES 0) in
  let '(err, sg) := pack_sig_volatile (sig st) CRYPTO_BYTES c (z st) (h st) in
  (err, set_sig sg st).
Lemma sign_loop_S n nonce st :
  sign_loop fuel (S n) rho seed mu s1hat s2hat nonce st =
  match sign_attempt fuel rho seed mu s1hat s2hat nonce st with
  | None => None
  | Some (b, st) =>
    if b : bool then Some (pack_signed st) else sign_loop fuel n rho seed mu s1hat s2hat (u16 (nonce + 1)) st
  end.
Proof using.
  cbn [sign_loop]. destruct (sign_attempt _ _ _ _ _ _ _ _) as [[b st']|]; [|reflexivity].
  cbn [mbind option_bind]. unfold pack_signed. by destruct b; [destruct (pack_sig_volatile _ _ _ _ _)|].
Qed.

Lemma pack_signed_spec st :
  nvm_ok st -> signed st ->
  let '(err, st') := pack_signed st in
  err = ERR_NONE /\ nvm_ok st' /\ same_key st st' /\ valid_signature fuel rho (high T) mu (sig st').
Proof using.
  intros Hst (Hz & Hh & Hv). unfold pack_signed. cbv zeta.
  assert (Hle : (CTILDE_BYTES <= length (sig st))%nat)
    by (rewrite (sig_ok _ Hst); apply Nat.leb_le; vm_compute; reflexivity).
  rewrite (for_build (fun i => sig st !!! i) CTILDE_BYTES) by reflexivity.
  pose proof (map_seq_slice (sig st) 0 CTILDE_BYTES Hle) as Et. rewrite drop_0 in Et. cbn [Nat.add] in Et. rewrite Et.
  assert (Hl : length (take CTILDE_BYTES (sig st)) = CTILDE_BYTES) by (rewrite length_take; apply Nat.min_l; exact Hle).
  rewrite pack_sig_spec by (done || apply Hst).
  split; [done|]. split; [|split; [repeat split|exact Hv]].
  apply ok_set_sig; [exact Hst|]. apply signature_bytes_length; [exact Hl|apply Hh].
Qed.

(** The signer answers within [n] attempts, with a valid signature or the error of
    the exhausted loop. *)
Lemma sign_loop_spec n nonce st :
  signing T st ->
  match sign_loop fuel n rho seed mu s1hat s2hat nonce st with
  | None => ~ matrix_ready fuel rho \/ exists nonce W,
      commits fuel rho seed nonce W /\ forall c, ~ challenge fuel (commitment_hash mu (w1_of W)) c
  | Some (err, st') => nvm_ok st' /\ same_key st st' /\
      (err = ERR_NONE /\ valid_signature fuel rho (high T) mu (sig st') \/ err = ERR_INVALID_SIGNATURE)
  end.
Proof using rho_bytes rho_length seed_bytes seed_length mu_bytes HT Hs1 Hs2.
  revert nonce st. induction n as [|n IH]; intros nonce st Hst.
  { split; [apply Hst|]. split; [repeat split|by right]. }
  rewrite sign_loop_S. pose proof (sign_attempt_spec nonce st Hst) as Ha.
  destruct (sign_attempt fuel rho seed mu s1hat s2hat nonce st) as [[b st']|].
  2: { destruct Ha as [Hm|(W & HW)]; [by left|right; by exists nonce, W]. }
  destruct Ha as (Hst' & K1 & Hd). destruct b.
  - pose proof (pack_signed_spec st' (proj1 Hst') (Hd eq_refl)) as Hp.
    destruct (pack_signed st') as [err st'']. destruct Hp as (-> & Ok & K2 & Hv).
    split; [exact Ok|]. split; [exact (same_key_trans _ _ _ K1 K2)|left; split; [done|exact Hv]].
  - specialize (IH (u16 (nonce + 1)) st' Hst').
    destruct (sign_loop fuel n rho seed mu s1hat s2hat _ st') as [[err st'']|]; [|exact IH].
    destruct IH as (Ok & K2 & Hv). split; [exact Ok|]. split; [exact (same_key_trans _ _ _ K1 K2)|exact Hv].
Qed.
End attempts.

(** ** The whole signer *)
#[local] Opaque sign_loop keygen_finish keygen_product MAX_ATTEMPTS.

(** The seed of the masks. *)
Definition mask_seed (key rnd mu : list Z) : list Z := SHAKE256 (key ++ rnd ++ mu) CRH_BYTES.

(** From the key on. *)
Definition sign_keyed (fuel : nat) (rho key rnd : list Z) (s1 s2 : PolyVec) (message : list Z) (st : nvm)
    : option (Z * nvm) :=
  let tr := fst (shake256_squeeze (shake256_of [pk st]) TR_BYTES) in
  let mu := fst (shake256_squeeze (shake256_of [tr; context_prefix; message]) CRH_BYTES) in
  let rhoPrime := fst (shake256_squeeze (shake256_of [key; rnd; mu]) CRH_BYTES) in
  let s1 := poly_vec_l_ntt s1 in
  let s2 := poly_vec_k_ntt s2 in
  let st := set_pack1 (PackT0 (poly_vec_k_ntt_volatile (pack1_t0 st))) st in
  sign_loop fuel MAX_ATTEMPTS rho rhoPrime mu s1 s2 0 st.

Lemma low_small F T : vcan K F T -> vhat K 4097 (hats (low T)) (low T).
Proof.
  intros HT. pose proof (vcan_wf _ _ _ HT) as Hw.
  pose proof (map_map_wf K (fun x => snd (power2_round x)) T Hw) as Wl. split; [apply Wl|]. intros i Hi.
  split; [by apply (wf_vec_get K)|]. split; [|done]. intros k Hk. unfold low. rewrite (map_map_get K) by done.
  pose proof (power2_round_parts _ (vcan_range K F T i k HT Hi Hk)). lia.
Qed.

Lemma mask_seed_spec key rnd mu :
  bytes key -> bytes rnd -> bytes mu ->
  fst (shake256_squeeze (shake256_of [key; rnd; mu]) CRH_BYTES) = mask_seed key rnd mu /\
  bytes (mask_seed key rnd mu) /\ length (mask_seed key rnd mu) = CRH_BYTES.
Proof.
  intros Hk Hr Hm.
  assert (Hb : bytes (key ++ rnd ++ mu)) by (apply Forall_app; split; [done|by apply Forall_app]).
  unfold mask_seed. rewrite shake256_of_squeeze; cbn [concat]; rewrite app_nil_r; [|done].
  split; [done|]. split; [by apply SHAKE256_bytes|by apply SHAKE256_length].
Qed.

(** No challenge is sampled within the fuel, for the commitment of some attempt. *)
Definition challenge_missing (fuel : nat) (rho seed mu : list Z) : Prop :=
  exists nonce W, commits fuel rho seed nonce W /\ forall c, ~ challenge fuel (commitment_hash mu (w1_of W)) c.

Lemma sign_keyed_spec fuel seed rnd s1 s2 T message st :
  bytes seed -> bytes rnd -> bytes message -> nvm_ok st -> small L s1 -> small K s2 ->
  key_vector fuel (rho_of seed) s1 s2 T ->
  let mu := message_hash (public_key seed T) message in
  match sign_keyed fuel (rho_of seed) (key_of seed) rnd s1 s2 message (with_key seed T st) with
  | None => ~ matrix_ready fuel (rho_of seed) \/
      challenge_missing fuel (rho_of seed) (mask_seed (key_of seed) rnd mu) mu
  | Some (err, st') => nvm_ok st' /\ t1 st' = high T /\ pk st' = public_key seed T /\
      (err = ERR_NONE /\ valid_signature fuel (rho_of seed) (high T) mu (sig st') \/ err = ERR_INVALID_SIGNATURE)
  end.
Proof.
  intros Hs Hr Hm Hst S1 S2 HT mu. unfold sign_keyed.
  pose proof (rho_of_bytes seed Hs) as Hrb. pose proof (rho_of_length seed Hs) as Hrl.
  assert (Hpk : bytes (public_key seed T)) by (apply pk_bytes_range; [exact Hrb|exact (high_ok _ _ HT)]).
  pose proof (message_hash_bytes _ _ Hpk Hm) as Hmu. fold mu in Hmu.
  pose proof (message_hash_spec (public_key seed T) message Hpk Hm) as Emu. fold mu in Emu.
  change (pk (with_key seed T st)) with (public_key seed T). cbv zeta. rewrite Emu.
  destruct (mask_seed_spec (key_of seed) rnd mu (key_of_bytes seed Hs) Hr Hmu) as (Es & Hsb & Hsl). rewrite Es.
  pose proof (loop_ntt L 3 (hats s1) s1 ltac:(lia) ltac:(unfold Q_CONST; lia) (small_vhat _ _ S1)) as H1.
  pose proof (loop_ntt K 3 (hats s2) s2 ltac:(lia) ltac:(unfold Q_CONST; lia) (small_vhat _ _ S2)) as H2.
  pose proof (loop_ntt K 4097 (hats (low T)) (low T) ltac:(lia) ltac:(unfold Q_CONST; lia) (low_small _ _ HT)) as H0.
  set (st1 := set_pack1 _ (with_key seed T st)).
  assert (Hst1 : signing T st1).
  { split; [|exact H0]. apply ok_set_t0; [exact (with_key_ok _ _ _ _ _ _ Hs Hst HT)|exact (vec_wf _ _ _ H0)]. }
  assert (E1 : t1 st1 = high T /\ pk st1 = public_key seed T) by (split; reflexivity).
  clearbody st1. destruct E1 as [Et Ep].
  pose proof (sign_loop_spec fuel (rho_of seed) (mask_seed (key_of seed) rnd mu) mu s1 s2 T _ _ Hrb Hrl Hsb Hsl Hmu HT
    H1 H2 MAX_ATTEMPTS 0 st1 Hst1) as Hl.
  change (for_ 0 L _ s1) with (poly_vec_l_ntt s1) in Hl. change (for_ 0 K _ s2) with (poly_vec_k_ntt s2) in Hl.
  destruct (sign_loop _ _ _ _ _ _ _ _ st1) as [[err st']|]; [|exact Hl].
  destruct Hl as (Ok & (K1 & K2 & _) & Hv). split; [exact Ok|]. split; [congruence|]. split; [congruence|exact Hv].
Qed.

(** From the second secret vector on, and from the seed on. *)
Definition sign_second (fuel : nat) (rho rhoPrime key rnd : list Z) (s1 : PolyVec) (message : list Z) (st : nvm)
    : option (Z * nvm) :=
  '(err, s2) ← poly_vec_k_uniform_eta fuel (zero_vec K) rhoPrime (Z.of_nat L);
  if negb (err =? 0) then Some (err, st) else
  sign_keyed fuel rho key rnd s1 s2 message (keygen_finish rho s2 st).
Definition sign_seeded (fuel : nat) (seed rnd message : list Z) (st : nvm) : option (Z * nvm) :=
  let '(rho, rhoPrime, key) := expand_seed seed in
  '(err, s1) ← poly_vec_l_uniform_eta fuel (zero_vec L) rhoPrime 0;
  if negb (err =? 0) then Some (err, st) else
  st ← keygen_product fuel rho (poly_vec_l_ntt s1) st;
  sign_second fuel rho rhoPrime key rnd s1 message st.

Lemma sign_unfold `{OS} fuel rnd path message st :
  crypto_sign_optimized fuel rnd path (Some message) st =
  match message with [] => Some (ERR_INVALID_MESSAGE, st) | _ =>
  let '(err, raw_seed) := os_derive_bip32 path in
  if negb (err =? 0) then Some (-1, st) else
  sign_seeded fuel (for_ 0 32 (fun i seed => <[i := raw_seed !!! i]> seed) (replicate 32 0)) rnd message st
  end.
Proof. destruct message; reflexivity. Qed.

#[local] Opaque sign_keyed.
(** The answer for a key: the signature of the message under it, or a reason. *)
Definition answer (fuel : nat) (seed rnd message : list Z) (r : option (Z * nvm)) : Prop :=
  match r with
  | None => ~ key_ready fuel seed \/ exists s1 s2 T, expanded_key fuel seed s1 s2 T /\
      let mu := message_hash (public_key seed T) message in
      challenge_missing fuel (rho_of seed) (mask_seed (key_of seed) rnd mu) mu
  | Some (err, st') => nvm_ok st' /\ exists s1 s2 T, expanded_key fuel seed s1 s2 T /\
      t1 st' = high T /\ pk st' = public_key seed T /\
      (err = ERR_NONE /\ valid_signature fuel (rho_of seed) (high T) (message_hash (public_key seed T) message) (sig st')
       \/ err = ERR_INVALID_SIGNATURE)
  end.

Lemma sign_second_spec fuel seed rnd message s1 t st :
  bytes seed -> bytes rnd -> bytes message -> nvm_ok st -> eta_vector fuel L (rho_prime seed) 0 s1 ->
  matrix_ready fuel (rho_of seed) -> vhat K INV_BOUND (msum fuel (rho_of seed) (hats s1)) t ->
  answer fuel seed rnd message (sign_second fuel (rho_of seed) (rho_prime seed) (key_of seed) rnd s1 message (set_t1 t st)).
Proof.
  intros Hs Hr Hm Hst H1 Hmr Ht. unfold sign_second.
  pose proof (uniform_eta_k fuel (rho_prime seed) (Z.of_nat L) (rho_prime_bytes _ Hs) (rho_prime_length _ Hs)
    ltac:(unfold L; lia)) as H2.
  destruct (poly_vec_k_uniform_eta fuel (zero_vec K) (rho_prime seed) (Z.of_nat L)) as [[err s2]|];
    [destruct H2 as [-> H2]|left; intros (s1' & s2 & T & _ & E2 & _); exact (H2 s2 E2)].
  rewrite bind_done.
  pose proof (keygen_canonical fuel _ s1 s2 (rho_of_length _ Hs) (eta_small _ _ _ _ _ H2) t Ht) as HT.
  set (T := poly_vec_k_c_addq_volatile _) in *. clearbody T.
  rewrite (keygen_finish_spec fuel _ s1 s2 (rho_of_length _ Hs) (eta_small _ _ _ _ _ H2) st t T Hst Ht HT).
  fold (public_key seed T). fold (with_key seed T st).
  pose proof (sign_keyed_spec fuel seed rnd s1 s2 T message st Hs Hr Hm Hst (eta_small _ _ _ _ _ H1)
    (eta_small _ _ _ _ _ H2) HT) as Hk. cbv zeta in Hk.
  assert (He : expanded_key fuel seed s1 s2 T) by (split; [exact H1|split; [exact H2|split; [exact Hmr|exact HT]]]).
  destruct (sign_keyed _ _ _ _ _ _ _ _) as [[err st']|].
  - destruct Hk as (Ok & Et & Ep & Hv). split; [exact Ok|]. exists s1, s2, T.
    split; [exact He|]. split; [exact Et|]. split; [exact Ep|exact Hv].
  - destruct Hk as [Hk|Hk].
    + left. intros (s1' & s2' & T' & _ & _ & Hm' & _). exact (Hk Hm').
    + right. exists s1, s2, T. split; [exact He|exact Hk].
Qed.

#[local] Opaque sign_second.
Lemma sign_seeded_spec fuel seed rnd message st :
  bytes seed -> bytes rnd -> bytes message -> nvm_ok st ->
  answer fuel seed rnd message (sign_seeded fuel seed rnd message st).
Proof.
  intros Hs Hr Hm Hst. unfold sign_seeded.
  rewrite expand_seed_spec by done. fold (rho_of seed) (rho_prime seed) (key_of seed).
  pose proof (uniform_eta_l fuel (rho_prime seed) 0 (rho_prime_bytes _ Hs) (rho_prime_length _ Hs) ltac:(lia)) as H1.
  destruct (poly_vec_l_uniform_eta fuel (zero_vec L) (rho_prime seed) 0) as [[err s1]|];
    [destruct H1 as [-> H1]|left; intros (s1 & s2 & T & E1 & _); exact (H1 s1 E1)].
  rewrite bind_done.
  pose proof (keygen_product_spec fuel _ s1 (rho_of_bytes _ Hs) (rho_of_length _ Hs) (eta_small _ _ _ _ _ H1) st Hst) as Hp.
  destruct (keygen_product fuel (rho_of seed) (poly_vec_l_ntt s1) st) as [st'|];
    [|left; intros (s1' & s2' & T & _ & _ & Hmr & _); exact (Hp Hmr)].
  destruct Hp as (Hmr & t & -> & Ht). cbn [mbind option_bind].
  exact (sign_second_spec fuel seed rnd message s1 t st Hs Hr Hm Hst H1 Hmr Ht).
Qed.

(** A signature made is one that verifies, when the verifier's theorem applies. *)
Lemma valid_signature_bytes fuel rho t1v mu sg :
  bytes mu -> valid_signature fuel rho t1v mu sg ->
  bytes sg /\ length sg = CRYPTO_BYTES /\ exists c, challenge fuel (take CTILDE_BYTES sg) c.
Proof.
  intros Hm (ct & zv & hv & c & R & -> & Hl & Hz & Hh & _ & Hc & HR & E).
  assert (Hb : bytes ct).
  { rewrite E. apply SHAKE256_bytes, Forall_app. split; [done|]. eapply w1_bytes_range, hinted_ok; [exact HR|by apply hint_ok_bits]. }
  split; [apply signature_bytes_range; [done|done|apply Hh]|]. split; [apply signature_bytes_length; [done|apply Hh]|].
  exists c. unfold signature_bytes. by rewrite take_app_length'.
Qed.

Lemma sign_derived `{OS} fuel rnd path raw message st :
  os_derive_bip32 path = (0, raw) -> length raw = 64%nat -> message <> [] ->
  crypto_sign_optimized fuel rnd path (Some message) st = sign_seeded fuel (take 32 raw) rnd message st.
Proof.
  intros Hos Hrl Hne. rewrite sign_unfold. destruct message as [|m0 message]; [done|].
  rewrite Hos, seed_copy by done. reflexivity.
Qed.



(** A successful signer's signature is accepted from any storage. *)
Lemma signed_verifies fuel seed rnd message st st' st2 :
  bytes seed -> bytes rnd -> bytes message -> nvm_ok st -> nvm_ok st2 ->
  sign_seeded fuel seed rnd message st = Some (ERR_NONE, st') ->
  length (sig st') = CRYPTO_BYTES /\ exists st3,
    verify_seeded fuel seed (sig st') message st2 = Some (ERR_NONE, Some true, st3) /\
    nvm_ok st3 /\ sig st3 = sig st2.
Proof.
  intros Hs Hr Hm Hst Hst2 E. pose proof (sign_seeded_spec fuel seed rnd message st Hs Hr Hm Hst) as Ha.
  rewrite E in Ha. destruct Ha as (_ & s1 & s2 & T & HT & _ & _ & [[_ Hv]|H]); [|discriminate H].
  assert (Hmu : bytes (message_hash (public_key seed T) message)).
  { apply message_hash_bytes; [|exact Hm]. apply pk_bytes_range; [by apply rho_of_bytes|].
    exact (high_ok _ _ (proj2 (proj2 (proj2 HT)))). }
  destruct (valid_signature_bytes _ _ _ _ _ Hmu Hv) as (Hb & Hl & c & Hc). split; [exact Hl|].
  pose proof (verify_seeded_spec fuel seed (sig st') message st2 Hs Hst2 Hl Hb Hm) as Hd.
  destruct (verify_seeded fuel seed (sig st') message st2) as [[[err v] st3]|].
  - destruct Hd as (Ok & Es & -> & s1' & s2' & T' & b & HT' & -> & Hd). exists st3.
    destruct (expanded_key_unique _ _ _ _ _ _ _ _ HT HT') as (_ & _ & <-). rewrite (proj2 Hd Hv).
    split; [reflexivity|]. split; [exact Ok|exact Es].
  - destruct Hd as [Hd|Hd]; [destruct Hd; by exists s1, s2, T|by destruct (Hd c)].
Qed.

(** C2. What the signer makes, the verifier of the same device accepts: a successful
    [crypto_sign_optimized] leaves a signature that [crypto_verify_optimized] answers
    with [ERR_NONE] and "verified", from any storage; the only other result of a
    signer that returns is the error of the exhausted loop. *)
Theorem sign_then_verify `{OS} (fuel : nat) (rnd path raw message : list Z) (st : nvm)
  (Hos : os_derive_bip32 path = (0, raw)) (Hrl : length raw = 64%nat) (Hrb : bytes raw) (Hr : bytes rnd)
  (Hst : nvm_ok st) (Hm : bytes message) (Hne : message <> []) :
  match crypto_sign_optimized fuel rnd path (Some message) st with
  | None => ~ key_ready fuel (take 32 raw) \/
      exists seed mu, challenge_missing fuel (rho_of (take 32 raw)) seed mu
  | Some (err, st') => err = ERR_INVALID_SIGNATURE \/ err = ERR_NONE /\ forall st2, nvm_ok st2 -> exists st3,
      crypto_verify_optimized fuel path (Some (sig st')) (Some message) st2 = Some (ERR_NONE, Some true, st3)
  end.
Proof.
  rewrite (sign_derived fuel rnd path raw message st Hos Hrl Hne).
  pose proof (Forall_take _ 32 raw Hrb) as Hs. set (seed := take 32 raw) in *.
  pose proof (sign_seeded_spec fuel seed rnd message st Hs Hr Hm Hst) as Ha.
  destruct (sign_seeded fuel seed rnd message st) as [[err st']|] eqn:E.
  2: { destruct Ha as [Ha|(s1 & s2 & T & _ & Ha)]; [by left|right; eauto]. }
  destruct Ha as (_ & s1 & s2 & T & _ & _ & _ & [[-> _]| ->]); [right|by left].
  split; [reflexivity|]. intros st2 Hst2.
  destruct (signed_verifies fuel seed rnd message st st' st2 Hs Hr Hm Hst Hst2 E) as (Hl & st3 & Ev & _).
  exists st3. by rewrite (verify_derived fuel path raw (sig st') message st2 Hos Hrl Hl Hne).
Qed.

Lemma sign_then_verify_witness :
  let os := fixed_os in
  match crypto_sign_optimized 9 (replicate 32 0) [0] (Some [1]) zero_nvm with
  | None => ~ key_ready 9 (take 32 (replicate 64 1)) \/
      exists seed mu, challenge_missing 9 (rho_of (take 32 (replicate 64 1))) seed mu
  | Some (err, st') => err = ERR_INVALID_SIGNATURE \/ err = ERR_NONE /\ forall st2, nvm_ok st2 -> exists st3,
      crypto_verify_optimized 9 [0] (Some (sig st')) (Some [1]) st2 = Some (ERR_NONE, Some true, st3)
  end.
Proof.
  exact (@sign_then_verify fixed_os 9 (replicate 32 0) [0] (replicate 64 1) [1] zero_nvm eq_refl eq_refl
    (bytesb_bytes (replicate 64 1) eq_refl) (zero_bytes 32) zero_nvm_ok (bytesb_bytes [1] eq_refl) ltac:(discriminate)).
Defined.
