(* ===== verification/Sdk.v ===== *)
(** * What the application uses of the device SDK

    The SDK is not part of the repository.  Its functions are fields of a class,
    arguments of every definition that calls them, and the documented behaviour
    the application relies on is the class [SDK_laws].  An instance that satisfies
    the laws closes the file; the witnesses of [AppThms] run on it. *)
From S2P Require Import Prelude CInt Constants Sign.

(** [buffer_t] of [buffer.h]. *)
Record buffer_t := Buffer { buf_ptr : option (list Z); buf_size : nat; buf_offset : nat }.

(** [command_t] of [parser.h]; [data] is [None] for the null pointer. *)
Record command_t := Command {
  cla : Z; ins : Z; p1 : Z; p2 : Z; lc : nat; data : option (list Z) }.

Class SDK := {
  sdk_os :: OS;
  (** Length of the path array of the context ([bip32.h]). *)
  MAX_BIP32_PATH : nat;
  CX_INTERNAL_ERROR : Z;
  (** The first token an application may use for its controls. *)
  FIRST_USER_TOKEN : Z;
  (** [None]: the bytes received are not a command. *)
  apdu_parser : list Z -> option command_t;
  (** The return value, the byte written, the buffer afterwards. *)
  buffer_read_u8 : buffer_t -> bool * Z * buffer_t;
  (** The array [out] before and after, for [out_len] components. *)
  buffer_read_bip32_path : buffer_t -> list Z -> nat -> bool * list Z * buffer_t;
  (** The memory at [out] before and after. *)
  buffer_move : buffer_t -> list Z -> nat -> bool * list Z * buffer_t;
}.

(** A command whose fields are bytes and whose data are [lc] bytes. *)
Definition command_ok (c : command_t) : Prop :=
  is_u8 (cla c) /\ is_u8 (ins c) /\ is_u8 (p1 c) /\ is_u8 (p2 c) /\
  match data c with
  | None => lc c = 0%nat
  | Some d => lc c = length d /\ bytes d /\ (lc c <= 255)%nat
  end.

(** The bytes a fresh buffer holds. *)
Definition buffer_bytes (b : buffer_t) : list Z := default [] (buf_ptr b).

Class SDK_laws (S : SDK) : Prop := {
  path_room : (5 <= MAX_BIP32_PATH)%nat;
  internal_error : CX_INTERNAL_ERROR <> 0;
  apdu_parser_ok l c : apdu_parser l = Some c -> command_ok c;
  (** The 64 bytes of the private node. *)
  derive_seed path : let '(err, raw_seed) := os_derive_bip32 path in
    err = 0 -> length raw_seed = 64%nat /\ bytes raw_seed;
  (** A byte is read from a buffer that has one; nothing else is. *)
  read_u8 d n :
    buffer_read_u8 (Buffer d n 0) =
      match n, d with
      | Datatypes.S _, Some (b :: _) => (true, b, Buffer d n 1)
      | _, _ => (false, 0, Buffer d n 0)
      end;
  (** The path array keeps its length; a path longer than the array is refused. *)
  read_path_length b out n : length (snd (fst (buffer_read_bip32_path b out n))) = length out;
  read_path_max b out n : (MAX_BIP32_PATH < n)%nat -> fst (fst (buffer_read_bip32_path b out n)) = false;
  (** A whole fresh buffer is copied. *)
  move_all d n out : n = length (default [] d) -> (n <= length out)%nat ->
    buffer_move (Buffer d n 0) out n = (true, blit out 0 (default [] d), Buffer d n n);
}.

(** ** An instance

    Big-endian path components, as the SDK documents, and a seed that is the
    first component repeated. *)
Definition be32 (l : list Z) : Z := be_val (take 4 l).
Definition read_components (n : nat) (l : list Z) : list Z :=
  map (fun i => be32 (drop (4 * i) l)) (seq 0 n).

#[local] Instance sample_os : OS := {
  os_derive_bip32 path := (0, replicate 64 (u8 (path !!! 2%nat))) }.

Definition sample_sdk : SDK := {|
  sdk_os := sample_os;
  MAX_BIP32_PATH := 10;
  CX_INTERNAL_ERROR := 0xFFFFFF85;
  FIRST_USER_TOKEN := 20;
  apdu_parser l :=
    match l with
    | c :: i :: a :: b :: n :: d =>
      if bytesb (c :: i :: a :: b :: n :: d) && (n =? Z.of_nat (length d))
      then Some (Command c i a b (length d) (if (length d =? 0)%nat then None else Some d))
      else None
    | _ => None
    end;
  buffer_read_u8 b :=
    if (buf_offset b <? buf_size b)%nat then
      match buffer_bytes b !! buf_offset b with
      | Some x => (true, x, Buffer (buf_ptr b) (buf_size b) (buf_offset b + 1))
      | None => (false, 0, b)
      end
    else (false, 0, b);
  buffer_read_bip32_path b out n :=
    if (n =? 0)%nat || (10 <? n)%nat || (buf_size b <? buf_offset b + 4 * n)%nat ||
       (length out <? n)%nat then (false, out, b)
    else (true, blit out 0 (read_components n (drop (buf_offset b) (buffer_bytes b))),
          Buffer (buf_ptr b) (buf_size b) (buf_offset b + 4 * n));
  buffer_move b out n :=
    if (n <? buf_size b - buf_offset b)%nat then (false, out, b)
    else (true, blit out 0 (drop (buf_offset b) (buffer_bytes b)),
          Buffer (buf_ptr b) (buf_size b) (buf_offset b + n));
|}.

#[export] Instance sample_sdk_laws : SDK_laws sample_sdk.
Proof.
  split; cbn -[replicate u8 Nat.ltb].
  - lia.
  - done.
  - intros [|a [|b [|c [|d [|n l]]]]] cmd; try done.
    destruct (_ && _) eqn:E; [|done]. apply andb_true_iff in E as [Hb Hn].
    intros [= <-].
    assert (Hd := bytesb_bytes (a :: b :: c :: d :: n :: l) Hb).
    do 4 apply Forall_cons_1 in Hd as [? Hd]. apply Forall_cons_1 in Hd as [Hn8 Hd].
    unfold command_ok; cbn.
    do 4 (split; [done|]). apply Z.eqb_eq in Hn.
    destruct l; cbn in *; [done|]. split; [done|]. split; [done|]. unfold is_u8 in Hn8. lia.
  - intros path _. split; [by rewrite length_replicate|]. apply Forall_replicate.
    apply u8_range.
  - by intros [[|x d]|] [|n].
  - intros b out n. destruct (_ || _) eqn:E; [done|].
    apply orb_false_iff in E as [_ E%Nat.ltb_ge]. cbn. unfold blit, read_components.
    rewrite !length_app, length_take, length_drop, length_map, length_seq. lia.
  - intros b out n Hn. by rewrite (proj2 (Nat.ltb_lt 10 n) Hn), orb_true_r.
  - intros d n out -> Hl. rewrite Nat.sub_0_r, Nat.ltb_irrefl. unfold buffer_bytes; cbn.
    by rewrite drop_0.
Qed.
