(* ===== verification/App.v ===== *)
(** * The application: commands, screens and settings

    [app_main.c], [apdu/dispatcher.c], [handler/], [helper/send_response.c],
    [address.c], [ui/] and [globals.h].  Handlers and callbacks run in a monad over
    the whole mutable state of the program: the context [G_context], the stored
    record [N_storage], the static text buffers of the review and what is on the
    screen.  Replies and screens are also appended to a log. *)
From Stdlib Require Import String.
From S2P Require Import Prelude CInt Constants Rlp TxFormat Keccak Address Poly Sign Sdk.

(** ** State *)

Inductive state_e := STATE_NONE | STATE_PARSED | STATE_APPROVED.
Inductive request_type_e := CONFIRM_ADDRESS | CONFIRM_TRANSACTION.
#[export] Instance state_eq_dec : EqDecision state_e.
Proof. solve_decision. Defined.
#[export] Instance request_type_eq_dec : EqDecision request_type_e.
Proof. solve_decision. Defined.

(** The member [tx_info] of the union; [pk_info] is never used. *)
Record transaction_ctx_t := TxCtx { raw_tx : list Z; raw_tx_len : nat; m_hash : list Z }.
Record global_ctx_t := Ctx {
  state : state_e; tx_info : transaction_ctx_t; req_type : request_type_e;
  bip32_path : list Z; bip32_path_len : Z; address : list Z }.

Definition set_state v c := Ctx v (tx_info c) (req_type c) (bip32_path c) (bip32_path_len c) (address c).
Definition set_tx_info v c := Ctx (state c) v (req_type c) (bip32_path c) (bip32_path_len c) (address c).
Definition set_req_type v c := Ctx (state c) (tx_info c) v (bip32_path c) (bip32_path_len c) (address c).
Definition set_bip32_path v c := Ctx (state c) (tx_info c) (req_type c) v (bip32_path_len c) (address c).
Definition set_bip32_path_len v c := Ctx (state c) (tx_info c) (req_type c) (bip32_path c) v (address c).
Definition set_address v c := Ctx (state c) (tx_info c) (req_type c) (bip32_path c) (bip32_path_len c) v.

(** [N_storage]: the working vectors and keys, and the settings page. *)
Record internal_storage_t := Storage {
  work : nvm; enable_blind_signing : Z; display_nonce : Z; display_tx_hash : Z;
  initialized : Z; is_sending_signature : Z }.

Definition set_work v s := Storage v (enable_blind_signing s) (display_nonce s) (display_tx_hash s) (initialized s) (is_sending_signature s).
Definition set_enable_blind_signing v s := Storage (work s) v (display_nonce s) (display_tx_hash s) (initialized s) (is_sending_signature s).
Definition set_display_nonce v s := Storage (work s) (enable_blind_signing s) v (display_tx_hash s) (initialized s) (is_sending_signature s).
Definition set_display_tx_hash v s := Storage (work s) (enable_blind_signing s) (display_nonce s) v (initialized s) (is_sending_signature s).
Definition set_is_sending_signature v s := Storage (work s) (enable_blind_signing s) (display_nonce s) (display_tx_hash s) (initialized s) v.

(** The static text buffers of the two review screens, named by their addresses:
    a pair of the list shown holds a pointer. *)
Inductive text := FromAddress | Amount | ToAddress | MaxFees | ChainId | Nonce | GasLimit
  | GasTipCap | TxHash | ReviewedAddress.
#[export] Instance text_eq_dec : EqDecision text.
Proof. solve_decision. Defined.
Definition text_size (p : text) : nat :=
  match p with
  | FromAddress | ToAddress | ReviewedAddress => 1 + ADDRESS_SIZE * 2 + 1
  | Amount | MaxFees | GasTipCap => MAX_AMOUNT_LEN + 5
  | ChainId => MAX_DECIMAL_DIGITS + 1
  | Nonce | GasLimit => 21
  | TxHash => 65
  end.

(** The status pages ([nbgl_reviewStatusType_t]). *)
Inductive status_t :=
  | STATUS_TYPE_TRANSACTION_SIGNED | STATUS_TYPE_TRANSACTION_REJECTED
  | STATUS_TYPE_ADDRESS_VERIFIED | STATUS_TYPE_ADDRESS_REJECTED.
Inductive screen_t :=
  | NoScreen | HomeScreen | SpinnerScreen (message : string) | StatusScreen (status : status_t)
  | AddressReview | TransactionReview (blind : bool).

(** A switch of the settings page. *)
Record nbgl_contentSwitch_t := Switch {
  initState : Z; switch_text : string; subText : string; switch_token : Z }.
Definition set_initState v s := Switch v (switch_text s) (subText s) (switch_token s).

Record ui_t := Ui {
  texts : text -> list Z; pairs : list (string * text); nbPairs : nat;
  switches : list nbgl_contentSwitch_t; initSettingPage : Z; screen : screen_t }.
Definition set_text p v u := Ui (fun q => if decide (q = p) then v else texts u q) (pairs u) (nbPairs u) (switches u) (initSettingPage u) (screen u).
Definition set_pairs v u := Ui (texts u) v (nbPairs u) (switches u) (initSettingPage u) (screen u).
Definition set_nbPairs v u := Ui (texts u) (pairs u) v (switches u) (initSettingPage u) (screen u).
Definition set_switches v u := Ui (texts u) (pairs u) (nbPairs u) v (initSettingPage u) (screen u).
Definition set_initSettingPage v u := Ui (texts u) (pairs u) (nbPairs u) (switches u) v (screen u).
Definition set_screen v u := Ui (texts u) (pairs u) (nbPairs u) (switches u) (initSettingPage u) v.

(** A reply, or a screen. *)
Inductive event := Response (data : list Z) (sw : Z) | Screen (s : screen_t).

Record world := World {
  G_context : global_ctx_t; N_storage : internal_storage_t; ui : ui_t; log : list event }.

(** ** Handlers

    [Undefined] is a read outside a buffer, [OutOfFuel] a rejection loop that has
    used its fuel. *)
Inductive outcome (A : Type) : Type :=
| Done (a : A) (w : world)
| OutOfFuel
| Undefined.
Arguments Done {A} a w.
Arguments OutOfFuel {A}.
Arguments Undefined {A}.

Definition app (A : Type) : Type := world -> outcome A.
#[export] Instance app_ret : MRet app := fun A a w => Done a w.
#[export] Instance app_bind : MBind app := fun A B f m w =>
  match m w with Done a w => f a w | OutOfFuel => OutOfFuel | Undefined => Undefined end.

Definition ctx : app global_ctx_t := fun w => Done (G_context w) w.
Definition storage : app internal_storage_t := fun w => Done (N_storage w) w.
Definition text_of (p : text) : app (list Z) := fun w => Done (texts (ui w) p) w.
Definition upd_ctx (f : global_ctx_t -> global_ctx_t) : app () := fun w =>
  Done tt (World (f (G_context w)) (N_storage w) (ui w) (log w)).
Definition upd_storage (f : internal_storage_t -> internal_storage_t) : app () := fun w =>
  Done tt (World (G_context w) (f (N_storage w)) (ui w) (log w)).
Definition upd_ui (f : ui_t -> ui_t) : app () := fun w =>
  Done tt (World (G_context w) (N_storage w) (f (ui w)) (log w)).
Definition emit (ev : event) : app () := fun w =>
  Done tt (World (G_context w) (N_storage w) (ui w) (log w ++ [ev])).
(** A call into [sign.c]. *)
Definition crypto {A} (f : nvm -> option (A * nvm)) : app A := fun w =>
  match f (work (N_storage w)) with
  | Some (a, st) => Done a (World (G_context w) (set_work st (N_storage w)) (ui w) (log w))
  | None => OutOfFuel
  end.
(** An NBGL call that replaces the screen. *)
Definition show (s : screen_t) : app () := _ ← upd_ui (set_screen s); emit (Screen s).

(** The memory before the first command. *)
Definition zero_ctx (path_len : nat) : global_ctx_t :=
  Ctx STATE_NONE (TxCtx (replicate MAX_TRANSACTION_LEN 0) 0 (replicate 32 0)) CONFIRM_ADDRESS
    (replicate path_len 0) 0 (replicate ADDRESS_SIZE 0).
Definition zero_ui : ui_t :=
  Ui (fun p => replicate (text_size p) 0) (replicate 9 (""%string, FromAddress)) 0
    (replicate 3 (Switch 0 "" "" 0)) 0 NoScreen.
Definition zero_storage : internal_storage_t := Storage zero_nvm 0 0 0 0 0.

(** What the environment supplies during one step: the fuel of the rejection
    loops, the bytes [cx_rng] returns and the result of sending a reply. *)
Record env := Env { fuel : nat; cx_rng : list Z; io_ret : Z }.

Section app.
Context `{SDK} (e : env).

(** ** Replies ([helper/send_response.c]) *)
Definition io_send_response_pointer (data : list Z) (sw : Z) : app Z :=
  _ ← emit (Response data (u16 sw)); mret (io_ret e).
Definition io_send_sw (sw : Z) : app Z := io_send_response_pointer [] sw.

Definition helper_send_response_address : app Z :=
  G ← ctx;
  let resp := replicate (1 + ADDRESS_SIZE) 0 in
  let offset := 0%nat in
  let resp := <[offset := ZOND_ADDRESS_PREFIX]> resp in
  let offset := (offset + 1)%nat in
  let resp := blit resp offset (take ADDRESS_SIZE (address G)) in
  let offset := (offset + ADDRESS_SIZE)%nat in
  io_send_response_pointer (take offset resp) SW_OK.

(** The loop that copies [n] bytes of [src] from [index * size]. *)
Definition copy_chunk (src : list Z) (index size n : nat) (resp : list Z) : list Z :=
  for_ 0 n (fun i resp => <[i := src !!! (i + index * size)%nat]> resp) resp.

Definition helper_send_response_sig (index : nat) : app Z :=
  N ← storage;
  _ ← (if (index <? 17)%nat then
         let resp := replicate SIGNATURE_CHUNK_SIZE 0 in
         let resp := copy_chunk (sig (work N)) index SIGNATURE_CHUNK_SIZE SIGNATURE_CHUNK_SIZE resp in
         io_send_response_pointer resp SW_OK
       else
         let resp := replicate SIGNATURE_LAST_CHUNK_SIZE 0 in
         let resp := copy_chunk (sig (work N)) index SIGNATURE_CHUNK_SIZE SIGNATURE_LAST_CHUNK_SIZE resp in
         io_send_response_pointer resp SW_OK);
  _ ← (if (index =? 0)%nat then upd_storage (set_is_sending_signature 1)
       else if (index =? 17)%nat then upd_storage (set_is_sending_signature 0)
       else mret tt);
  mret 0.

Definition helper_send_response_pk_chunk (index : nat) : app Z :=
  if (PK_CHUNKS <=? index)%nat then io_send_sw SW_WRONG_DATA_LENGTH else
  N ← storage;
  let chunk_size := if (index <? PK_CHUNKS - 1)%nat then PK_CHUNK_SIZE else PK_LAST_CHUNK_SIZE in
  let resp := replicate PK_CHUNK_SIZE 0 in
  let resp := copy_chunk (pk (work N)) index PK_CHUNK_SIZE chunk_size resp in
  _ ← io_send_response_pointer (take chunk_size resp) SW_OK;
  mret 0.

(** ** Addresses ([address.c]): the return value and [address] afterwards *)
Definition pk_address (pk : list Z) : list Z :=
  let desc := [1; 0; 0] in
  let ctx := shake256_init in
  let ctx := shake256_absorb ctx desc DESCRIPTOR_BYTES in
  let ctx := shake256_absorb ctx pk CRYPTO_PUBLIC_KEY_BYTES in
  let ctx := shake256_finalize ctx in
  fst (shake256_squeeze ctx ADDRESS_SIZE).

Definition address_from_bip32_path (path : list Z) (path_len : nat) (addr : list Z)
    : app (Z * list Z) :=
  let '(err, raw_seed) := os_derive_bip32 (take path_len path) in
  if negb (err =? 0) then mret (err, addr) else
  let mldsa87_seed := for_ 0 32 (fun i seed => <[i := raw_seed !!! i]> seed) (replicate 32 0) in
  _ ← show (SpinnerScreen "Getting address");
  mldsa_err ← crypto (new_mldsa87_from_seed (fuel e) [] (Some mldsa87_seed));
  if negb (mldsa_err =? ERR_NONE) then mret (CX_INTERNAL_ERROR, addr) else
  N ← storage;
  mret (0, blit addr 0 (pk_address (pk (work N)))).

(** ** Main screen and settings ([ui/menu_nbgl.c]) *)
Definition BLIND_SIGNING_SWITCH_TOKEN : Z := FIRST_USER_TOKEN.
Definition NONCE_SWITCH_TOKEN : Z := FIRST_USER_TOKEN + 1.
Definition TX_HASH_SWITCH_TOKEN : Z := FIRST_USER_TOKEN + 2.
Definition BLIND_SIGNING_SWITCH_ID : nat := 0.
Definition NONCE_SWITCH_ID : nat := 1.
Definition TX_HASH_SWITCH_ID : nat := 2.

(** [!x] of a byte. *)
Definition lnot (x : Z) : Z := if x =? 0 then 1 else 0.
Definition set_switch (id : nat) (v : Z) : app () :=
  upd_ui (fun u => set_switches (alter (set_initState v) id (switches u)) u).
Definition put_switch (id : nat) (s : nbgl_contentSwitch_t) : app () :=
  upd_ui (fun u => set_switches (<[id := s]> (switches u)) u).

Definition controls_callback (token : Z) (page : Z) : app () :=
  _ ← upd_ui (set_initSettingPage (u8 page));
  N ← storage;
  if token =? BLIND_SIGNING_SWITCH_TOKEN then
    let switch_value := lnot (enable_blind_signing N) in
    _ ← set_switch BLIND_SIGNING_SWITCH_ID switch_value;
    upd_storage (set_enable_blind_signing switch_value)
  else if token =? NONCE_SWITCH_TOKEN then
    let switch_value := lnot (display_nonce N) in
    _ ← set_switch NONCE_SWITCH_ID switch_value;
    upd_storage (set_display_nonce switch_value)
  else if token =? TX_HASH_SWITCH_TOKEN then
    let switch_value := lnot (display_tx_hash N) in
    _ ← set_switch TX_HASH_SWITCH_ID switch_value;
    upd_storage (set_display_tx_hash switch_value)
  else mret tt.

Definition ui_menu_main : app () :=
  N ← storage;
  _ ← put_switch BLIND_SIGNING_SWITCH_ID (Switch (enable_blind_signing N)
        "Blind signing" "Enable transaction blind signing" BLIND_SIGNING_SWITCH_TOKEN);
  _ ← put_switch NONCE_SWITCH_ID (Switch (display_nonce N)
        "Nonce" "Display nonce in transactions" NONCE_SWITCH_TOKEN);
  _ ← put_switch TX_HASH_SWITCH_ID (Switch (display_tx_hash N)
        "Transaction hash" "Always display the transaction hash" TX_HASH_SWITCH_TOKEN);
  show HomeScreen.

(** [os_sched_exit] ends the application: nothing runs after it. *)
Definition app_quit : app bool := mret false.

(** ** Transaction review ([ui/nbgl_display_transaction.c]) *)
Definition bytes_to_lower_hex (bytes : list Z) (len : nat) (out : list Z) : list Z :=
  <[(2 * len)%nat := 0]> (write_hex bytes len out).

(** [snprintf(out, size, "QRL %s", s)] *)
Definition snprintf_qrl (size : nat) (s out : list Z) : list Z :=
  blit out 0 (take (size - 1) ([81; 82; 76; 32] ++ cstr s) ++ [0]).

(** [format_checksummed_address(address, p, sizeof(p))] after [memset(p, 0, ...)]. *)
Definition put_address (addr : list Z) (p : text) : app bool :=
  let '(ok, out) := format_checksummed_address (Some addr) (Some (replicate (text_size p) 0)) (text_size p) in
  _ ← upd_ui (set_text p out); mret ok.

Definition put_decimal (f : field) (p : text) : app bool :=
  old ← text_of p;
  let '(ok, out) := uint8_array_to_decimal (Some (fbytes f)) (Z.to_nat (flen f)) (Some old) (text_size p) in
  _ ← upd_ui (set_text p out); mret ok.

(** [snprintf(p, sizeof(p), "QRL %s", amount)] *)
Definition put_amount (amount : list Z) (p : text) : app () :=
  old ← text_of p; upd_ui (set_text p (snprintf_qrl (text_size p) amount old)).
Definition zero_text (p : text) : app () := upd_ui (set_text p (replicate (text_size p) 0)).

Definition add_pair (count : nat) (label : string) (p : text) : app nat :=
  _ ← upd_ui (fun u => set_pairs (<[count := (label, p)]> (pairs u)) u); mret (count + 1)%nat.

(** The end of [ui_display_transaction_bs_choice], in three parts, the last first:
    the pair of the hash and the review; before it the other pairs; before them
    the texts of the fields. *)
Definition review_end (is_blind_signed : bool) (count : nat) : app Z :=
  N ← storage;
  count ← (if negb (display_tx_hash N =? 0) then
             G ← ctx; old ← text_of TxHash;
             _ ← upd_ui (set_text TxHash (bytes_to_lower_hex (m_hash (tx_info G)) 32 old));
             add_pair count "Transaction hash" TxHash
           else mret count);
  _ ← upd_ui (set_nbPairs count);
  _ ← show (TransactionReview is_blind_signed);
  mret 0.

Definition review_pairs (is_blind_signed : bool) (tx : zond_tx_t) : app Z :=
  count ← add_pair 0 "From" FromAddress;
  count ← add_pair count "Amount" Amount;
  count ← add_pair count "To" ToAddress;
  count ← add_pair count "Chain ID" ChainId;
  count ← add_pair count "Gas limit" GasLimit;
  count ← add_pair count "Priority fee / gas" GasTipCap;
  count ← add_pair count "Max fees" MaxFees;
  N ← storage;
  if negb (display_nonce N =? 0) then
    ok ← put_decimal (nonce tx) Nonce;
    if negb ok then io_send_sw SW_DISPLAY_AMOUNT_FAIL else
    count ← add_pair count "Nonce" Nonce;
    review_end is_blind_signed count
  else review_end is_blind_signed count.

Definition review_texts (is_blind_signed : bool) (tx : zond_tx_t) : app Z :=
  let '(ok, amount) := format_qrl_amount (Some (fbytes (value tx))) (Z.to_nat (flen (value tx)))
    (Some (replicate MAX_AMOUNT_LEN 0)) MAX_AMOUNT_LEN in
  if negb ok then io_send_sw SW_DISPLAY_AMOUNT_FAIL else
  _ ← zero_text Amount;
  _ ← put_amount amount Amount;
  ok ← put_address (to_ tx) ToAddress;
  if negb ok then io_send_sw SW_DISPLAY_ADDRESS_FAIL else
  let '(ok, fee_product, fee_product_len) := multiply_uint8_arrays
    (Some (fbytes (gas_fee_cap tx))) (Z.to_nat (flen (gas_fee_cap tx)))
    (Some (fbytes (gas tx))) (Z.to_nat (flen (gas tx)))
    (Some (replicate MAX_INTEGER_BYTES 0)) (Some MAX_INTEGER_BYTES) in
  let '(ok, max_fees) :=
    if negb ok then (false, replicate MAX_AMOUNT_LEN 0) else
    format_qrl_amount (Some fee_product) (default 0%nat fee_product_len)
      (Some (replicate MAX_AMOUNT_LEN 0)) MAX_AMOUNT_LEN in
  if negb ok then io_send_sw SW_DISPLAY_AMOUNT_FAIL else
  _ ← zero_text MaxFees;
  _ ← put_amount max_fees MaxFees;
  ok ← put_decimal (chain_id tx) ChainId;
  if negb ok then io_send_sw SW_DISPLAY_AMOUNT_FAIL else
  ok ← put_decimal (gas tx) GasLimit;
  if negb ok then io_send_sw SW_DISPLAY_AMOUNT_FAIL else
  let '(ok, amount) := format_qrl_amount (Some (fbytes (gas_tip_cap tx)))
    (Z.to_nat (flen (gas_tip_cap tx))) (Some amount) MAX_AMOUNT_LEN in
  if negb ok then io_send_sw SW_DISPLAY_AMOUNT_FAIL else
  _ ← put_amount amount GasTipCap;
  review_pairs is_blind_signed tx.

Definition ui_display_transaction_bs_choice (is_blind_signed : bool) (tx : zond_tx_t) : app Z :=
  G ← ctx;
  if negb (bool_decide (req_type G = CONFIRM_TRANSACTION /\ state G = STATE_PARSED)) then
    _ ← upd_ctx (set_state STATE_NONE); io_send_sw SW_BAD_STATE
  else
  _ ← show (SpinnerScreen "Getting address");
  '(error, addr) ← address_from_bip32_path (bip32_path G) (Z.to_nat (bip32_path_len G)) (address G);
  _ ← upd_ctx (set_address addr);
  if negb (error =? 0) then io_send_sw SW_DISPLAY_ADDRESS_FAIL else
  ok ← put_address addr FromAddress;
  if negb ok then io_send_sw SW_DISPLAY_ADDRESS_FAIL else
  review_texts is_blind_signed tx.

Definition ui_display_transaction (tx : zond_tx_t) : app Z :=
  ui_display_transaction_bs_choice false tx.

(** ** Address review ([ui/nbgl_display_address.c]) *)
Definition ui_display_address : app Z :=
  G ← ctx;
  if negb (bool_decide (req_type G = CONFIRM_ADDRESS /\ state G = STATE_NONE)) then
    _ ← upd_ctx (set_state STATE_NONE); io_send_sw SW_BAD_STATE
  else
  ok ← put_address (address G) ReviewedAddress;
  if negb ok then io_send_sw SW_DISPLAY_ADDRESS_FAIL else
  _ ← show AddressReview;
  mret 0.

(** ** The user's decision ([ui/action/validate.c]) *)
Definition validate_pubkey (choice : bool) : app () :=
  if choice then _ ← helper_send_response_address; mret tt
  else _ ← io_send_sw SW_DENY; mret tt.

Definition wipe_secrets : app () := crypto (fun st => Some (tt, wipe_nvm_secrets st)).

Definition crypto_sign_message : app Z :=
  G ← ctx;
  let path := take (Z.to_nat (bip32_path_len G)) (bip32_path G) in
  let message := Some (take 32 (m_hash (tx_info G))) in
  error ← crypto (crypto_sign_optimized (fuel e) (cx_rng e) path message);
  if negb (error =? 0) then _ ← wipe_secrets; mret (-1) else
  N ← storage;
  '(error, verified) ← crypto (crypto_verify_optimized (fuel e) path (Some (sig (work N))) message);
  let is_verified := default false verified in
  _ ← wipe_secrets;
  if negb (error =? 0) || negb is_verified then mret (-1) else mret 0.

Definition validate_transaction (choice : bool) : app () :=
  if choice then
    _ ← upd_ctx (set_state STATE_APPROVED);
    ret ← crypto_sign_message;
    if negb (ret =? 0) then
      _ ← upd_ctx (set_state STATE_NONE); _ ← io_send_sw SW_SIGNATURE_FAIL; mret tt
    else _ ← helper_send_response_sig 0; mret tt
  else _ ← upd_ctx (set_state STATE_NONE); _ ← io_send_sw SW_DENY; mret tt.

(** [review_choice] of the two review screens. *)
Definition review_choice_transaction (confirm : bool) : app () :=
  if confirm then
    _ ← show (SpinnerScreen "Signing");
    _ ← validate_transaction confirm;
    show (StatusScreen STATUS_TYPE_TRANSACTION_SIGNED)
  else
    _ ← validate_transaction confirm;
    show (StatusScreen STATUS_TYPE_TRANSACTION_REJECTED).
Definition review_choice_address (confirm : bool) : app () :=
  _ ← validate_pubkey confirm;
  if confirm then show (StatusScreen STATUS_TYPE_ADDRESS_VERIFIED)
  else show (StatusScreen STATUS_TYPE_ADDRESS_REJECTED).

(** ** Handlers ([handler/]) *)
Definition handler_get_version : app Z :=
  io_send_response_pointer [2; 2; 2] SW_OK.
(** [APPNAME], "QRL v2.0" *)
Definition APPNAME : list Z := [81; 82; 76; 32; 118; 50; 46; 48].
Definition handler_get_app_name : app Z := io_send_response_pointer APPNAME SW_OK.

(** Reads the length, then the path, into the context. *)
Definition read_path (cdata : buffer_t) : app bool :=
  let '(ok, len, cdata) := buffer_read_u8 cdata in
  _ ← upd_ctx (set_bip32_path_len len);
  if negb ok then mret false else
  G ← ctx;
  let '(ok, path, cdata) := buffer_read_bip32_path cdata (bip32_path G) (Z.to_nat len) in
  _ ← upd_ctx (set_bip32_path path);
  mret ok.

Definition handler_get_public_key (cdata : buffer_t) (display : bool) : app Z :=
  _ ← upd_ctx (fun _ => zero_ctx MAX_BIP32_PATH);
  _ ← upd_ctx (set_req_type CONFIRM_ADDRESS);
  _ ← upd_ctx (set_state STATE_NONE);
  ok ← read_path cdata;
  if negb ok then io_send_sw SW_WRONG_DATA_LENGTH else
  G ← ctx;
  if negb (is_valid_zond_bip32_path (bip32_path G) (Z.to_nat (bip32_path_len G))) then
    io_send_sw SW_WRONG_DATA_LENGTH
  else
  '(error, addr) ← address_from_bip32_path (bip32_path G) (Z.to_nat (bip32_path_len G)) (address G);
  _ ← upd_ctx (set_address addr);
  if negb (error =? 0) then io_send_sw error else
  if display then ui_display_address else helper_send_response_address.

Definition handler_get_public_key_chunk (chunk_index : nat) : app Z :=
  helper_send_response_pk_chunk chunk_index.

(** The part common to the commands that carry transaction bytes; [Some sw] is an
    error. *)
Definition append_chunk (cdata : buffer_t) : app (option Z) :=
  G ← ctx;
  if negb (bool_decide (req_type G = CONFIRM_TRANSACTION)) then mret (Some SW_BAD_STATE) else
  let t := tx_info G in
  if (MAX_TRANSACTION_LEN <? raw_tx_len t + buf_size cdata)%nat then
    mret (Some SW_WRONG_TX_LENGTH)
  else
  let '(ok, rest, cdata) := buffer_move cdata (drop (raw_tx_len t) (raw_tx t)) (buf_size cdata) in
  let raw := take (raw_tx_len t) (raw_tx t) ++ rest in
  if negb ok then
    _ ← upd_ctx (set_tx_info (TxCtx raw (raw_tx_len t) (m_hash t))); mret (Some SW_TX_PARSING_FAIL)
  else
  _ ← upd_ctx (set_tx_info (TxCtx raw (raw_tx_len t + buf_size cdata) (m_hash t)));
  mret None.

(** The last command of a transaction, once its bytes are in the context. *)
Definition last_chunk : app Z :=
  _ ← upd_ctx (set_state STATE_PARSED);
  G ← ctx;
  let t := tx_info G in
  let c := keccak256_init in
  let c := keccak256_absorb c (raw_tx t) (raw_tx_len t) in
  let c := keccak256_finalize c in
  let hash := fst (keccak256_squeeze c) in
  _ ← upd_ctx (set_tx_info (TxCtx (raw_tx t) (raw_tx_len t) hash));
  match decode_ledger_tx 32 (Some (raw_tx t)) (Z.of_nat (raw_tx_len t)) (Some zero_tx) with
  | DecodeOob => fun _ => Undefined
  | Decoded err tx =>
    if negb (err =? 0) then io_send_sw SW_TX_PARSING_FAIL else
    N ← storage;
    let blind := has_data tx || has_access_list tx in
    if blind && (enable_blind_signing N =? 0) then io_send_sw SW_DENY else
    ui_display_transaction_bs_choice blind tx
  end.

Definition handler_sign_tx (cdata : buffer_t) (p1 p2 : Z) : app Z :=
  if p1 =? 0 then
    _ ← upd_ctx (fun _ => zero_ctx MAX_BIP32_PATH);
    _ ← upd_ctx (set_req_type CONFIRM_TRANSACTION);
    _ ← upd_ctx (set_state STATE_NONE);
    ok ← read_path cdata;
    if negb ok then io_send_sw SW_WRONG_DATA_LENGTH else
    G ← ctx;
    if negb (is_valid_zond_bip32_path (bip32_path G) (Z.to_nat (bip32_path_len G))) then
      io_send_sw SW_WRONG_DATA_LENGTH
    else io_send_sw SW_OK
  else if p1 =? 1 then
    r ← append_chunk cdata;
    match r with Some sw => io_send_sw sw | None => io_send_sw SW_OK end
  else if (p1 =? 2) && (p2 =? 0) then
    r ← append_chunk cdata;
    match r with Some sw => io_send_sw sw | None => last_chunk
    end
  else if (p1 =? 2) && (0 <? p2) && (p2 <? 18) then
    G ← ctx;
    if negb (bool_decide (req_type G = CONFIRM_TRANSACTION)) then io_send_sw SW_BAD_STATE else
    N ← storage;
    if negb (is_sending_signature N =? 0) then helper_send_response_sig (Z.to_nat p2)
    else io_send_sw SW_BAD_STATE
  else io_send_sw SW_WRONG_P1P2.

(** ** Dispatcher ([apdu/dispatcher.c]) *)
Definition GET_VERSION : Z := 0x03.
Definition GET_APP_NAME : Z := 0x04.
Definition GET_PUBLIC_KEY : Z := 0x05.
Definition SIGN_TX : Z := 0x06.
Definition VERIFY_MSG : Z := 0x07.

Definition apdu_dispatcher (cmd : command_t) : app Z :=
  if negb (cla cmd =? CLA) then io_send_sw SW_CLA_NOT_SUPPORTED else
  let buf := Buffer (data cmd) (lc cmd) 0 in
  if ins cmd =? GET_VERSION then
    if negb (p1 cmd =? 0) || negb (p2 cmd =? 0) then io_send_sw SW_WRONG_P1P2
    else handler_get_version
  else if ins cmd =? GET_APP_NAME then
    if negb (p1 cmd =? 0) || negb (p2 cmd =? 0) then io_send_sw SW_WRONG_P1P2
    else handler_get_app_name
  else if ins cmd =? GET_PUBLIC_KEY then
    if (1 <? p1 cmd) || (11 <? p2 cmd) then io_send_sw SW_WRONG_P1P2 else
    if 0 <? p2 cmd then handler_get_public_key_chunk (Z.to_nat (p2 cmd - 1)) else
    match data cmd with
    | None => io_send_sw SW_WRONG_DATA_LENGTH
    | Some _ => handler_get_public_key buf (negb (p1 cmd =? 0))
    end
  else if ins cmd =? SIGN_TX then
    if (negb (p1 cmd =? DATA_FIRST) && negb (p1 cmd =? DATA_MORE) && negb (p1 cmd =? DATA_LAST)) ||
       (17 <? p2 cmd) then io_send_sw SW_WRONG_P1P2 else
    if bool_decide (data cmd = None) && (p2 cmd =? 0) then io_send_sw SW_WRONG_DATA_LENGTH else
    handler_sign_tx buf (p1 cmd) (p2 cmd)
  else io_send_sw SW_INS_NOT_SUPPORTED.

(** ** Main loop ([app_main.c]) *)
Definition app_start : app () :=
  _ ← wipe_secrets;
  _ ← ui_menu_main;
  upd_ctx (fun _ => zero_ctx MAX_BIP32_PATH).

(** One turn: [false] when [app_main] returns.  [None] is a failed reception. *)
Definition app_turn (received : option (list Z)) : app bool :=
  match received with
  | None => mret false
  | Some apdu =>
    match apdu_parser apdu with
    | None => _ ← io_send_sw SW_WRONG_DATA_LENGTH; mret true
    | Some cmd => ret ← apdu_dispatcher cmd; mret (negb (ret <? 0))
    end
  end.
End app.
