(* ===== verification/Memory.v ===== *)
(** * The stored vectors through the life of the application

    Every call into [sign.c] and every handler keeps the shape of the stored record,
    so the theorems on key generation, signing and verification apply in every
    state the application reaches; the erasure of the secrets. *)
From S2P Require Import Prelude CInt Constants Poly Packing Ntt PolyVec Sign SigCodec VecOps KeyGen Verify Signing Sdk App.

(** ** Erasing the secrets *)

Lemma nvm_zero_loop_all fuel off len dst :
  length dst = len -> (off <= len)%nat -> (len - off <= fuel)%nat -> take off dst = replicate off 0 ->
  nvm_zero_loop fuel off len dst = replicate len 0.
Proof.
  revert off dst. induction fuel as [|fuel IH]; intros off dst Hl Ho Hf Hz; cbn [nvm_zero_loop].
  { rewrite take_ge in Hz by lia. rewrite Hz. f_equal. lia. }
  destruct (Nat.ltb_spec off len) as [Hlt|Hge]; [|rewrite take_ge in Hz by lia; rewrite Hz; f_equal; lia].
  set (n := if (256 <? len - off)%nat then 256%nat else (len - off)%nat).
  assert (Hn : (0 < n <= len - off)%nat) by (subst n; destruct (Nat.ltb_spec 256 (len - off)); lia). clearbody n.
  apply IH; [|lia|lia|].
  - unfold blit. rewrite !length_app, length_take, length_replicate, length_drop. lia.
  - unfold blit. rewrite length_replicate, app_assoc, take_app_length' by (rewrite length_app, length_take, length_replicate; lia).
    rewrite Hz. symmetry. apply replicate_add.
Qed.
Lemma nvm_zero_all dst len : length dst = len -> nvm_zero dst len = replicate len 0.
Proof. intros Hl. apply nvm_zero_loop_all; [done|lia|lia|done]. Qed.

Lemma int_bytes_length n v : wf_vec n v -> length (int_bytes v) = (4 * N * n)%nat.
Proof.
  intros [<- Hv]. unfold int_bytes.
  assert (H4 : forall l : list Z, length (l ≫= (fun x => le_bytes 4 (u32 x))) = (4 * length l)%nat).
  { induction l as [|x l IH]; [done|]. cbn [mbind list_bind]. rewrite length_app, le_bytes_length, IH. cbn [length]. lia. }
  rewrite H4, <- Nat.mul_assoc. f_equal. induction Hv as [|p v Hp _ IH]; [done|].
  cbn [concat length]. rewrite length_app, IH, Hp. lia.
Qed.
Lemma bytes_ints_length n l : length (bytes_ints n l) = n.
Proof. revert l. induction n as [|n IH]; intros l; [done|]. cbn [bytes_ints length]. by rewrite IH. Qed.
Lemma bytes_vec_wf n l : wf_vec n (bytes_vec n l).
Proof.
  split; [unfold bytes_vec; by rewrite length_map, length_seq|]. apply Forall_map, list.Forall_forall.
  intros i _. apply bytes_ints_length.
Qed.
Lemma le_val_zeros n : le_val (replicate n 0) = 0.
Proof. induction n as [|n IH]; [done|]. cbn [replicate le_val]. rewrite IH. done. Qed.
Lemma bytes_ints_zeros n m : bytes_ints n (replicate m 0) = replicate n 0.
Proof.
  revert m. induction n as [|n IH]; intros m; [done|]. cbn [bytes_ints replicate].
  by rewrite take_replicate, drop_replicate, IH, le_val_zeros.
Qed.
Lemma bytes_vec_zeros n m : bytes_vec n (replicate m 0) = zero_vec n.
Proof.
  apply (list_eq_total _ _ n); [unfold bytes_vec; by rewrite length_map, length_seq|apply length_replicate|].
  intros i Hi. unfold bytes_vec, zero_vec. rewrite lookup_total_map_seq, lookup_total_replicate_2 by done.
  by rewrite drop_replicate, bytes_ints_zeros.
Qed.

Definition zeros (n : nat) : PolyVec := replicate n (replicate N 0).

(** C9. [wipe_nvm_secrets] overwrites the three secret regions, the mask [y], the
    transform of [t0] and [w0 - c s2], with zeros, byte by byte in chunks of at most
    256, and changes no other member of the stored record: the signature and the
    public key that the replies send are kept. *)
Theorem wipe_erases (st : nvm) (Hst : nvm_ok st) :
  let st' := wipe_nvm_secrets st in
  y st' = zeros L /\ pack1_t0 st' = zeros K /\ w0 st' = zeros K /\
  st' = set_w0 (w0 st') (set_pack1 (pack1 st') (set_y (y st') st)).
Proof.
  cbv zeta. unfold wipe_nvm_secrets. cbv zeta. nvm_simpl.
  rewrite (nvm_zero_all (int_bytes (y st))) by exact (int_bytes_length L _ (y_ok _ Hst)).
  assert (Et : pack1_t0 (set_y (bytes_vec L (replicate (4 * N * L) 0)) st) = pack1_t0 st) by done. rewrite Et.
  rewrite (nvm_zero_all (int_bytes (pack1_t0 st))) by exact (int_bytes_length K _ (pack1_t0_ok _ Hst)).
  rewrite (nvm_zero_all (int_bytes (w0 st))) by exact (int_bytes_length K _ (w0_ok _ Hst)).
  rewrite !bytes_vec_zeros. repeat split.
Qed.

Lemma constant_wf n x : wf_vec n (replicate n (replicate N x)).
Proof. split; [apply length_replicate|]. apply Forall_replicate, length_replicate. Qed.
Lemma wipe_erases_witness :
  let st := set_y (replicate L (replicate N 7)) zero_nvm in let st' := wipe_nvm_secrets st in
  y st' = zeros L /\ pack1_t0 st' = zeros K /\ w0 st' = zeros K /\
  st' = set_w0 (w0 st') (set_pack1 (pack1 st') (set_y (y st') st)).
Proof.
  exact (wipe_erases (set_y (replicate L (replicate N 7)) zero_nvm)
    (ok_set_y (replicate L (replicate N 7)) zero_nvm zero_nvm_ok (constant_wf L 7))).
Defined.

Lemma wipe_ok st : nvm_ok st -> nvm_ok (wipe_nvm_secrets st).
Proof.
  intros Hst. unfold wipe_nvm_secrets. cbv zeta.
  apply ok_set_w0; [apply ok_set_t0; [apply ok_set_y; [exact Hst|]|]|]; apply bytes_vec_wf.
Qed.
Lemma wipe_sig st : sig (wipe_nvm_secrets st) = sig st.
Proof. reflexivity. Qed.

(** ** The calls of the application *)
Section calls.
Context {device : SDK} {laws : SDK_laws device}.

Lemma keypair_ok fuel seed err st st' :
  bytes seed -> nvm_ok st -> new_mldsa87_from_seed fuel [] (Some seed) st = Some (err, st') ->
  nvm_ok st' /\ exists s1 s2 T, expanded_key fuel seed s1 s2 T /\ pk st' = public_key seed T.
Proof using.
  intros Hs Hst. unfold new_mldsa87_from_seed. pose proof (keypair_spec fuel [] seed st Hs Hst) as Hk.
  destruct (crypto_sign_keypair fuel [] (Some seed) st) as [[e st1]|]; cbn [mbind option_bind]; [|discriminate].
  destruct Hk as (-> & s1 & s2 & T & HT & ->). intros [= <- <-]. split; [|by exists s1, s2, T].
  pose proof (vcan_wf _ _ _ (proj2 (proj2 (proj2 HT)))) as Hw.
  apply ok_set_pk; [apply ok_set_t1; [exact Hst|by apply (map_map_wf K)]|].
  apply pk_bytes_length. by apply rho_of_length.
Qed.

(** The signer, with the error of the derivation. *)
Lemma sign_call_spec fuel rnd path message st err st' :
  bytes rnd -> bytes message -> message <> [] -> nvm_ok st ->
  crypto_sign_optimized fuel rnd path (Some message) st = Some (err, st') ->
  let '(derr, raw) := os_derive_bip32 path in
  if decide (derr = 0) then
    bytes (take 32 raw) /\ length raw = 64%nat /\ sign_seeded fuel (take 32 raw) rnd message st = Some (err, st')
  else err = -1 /\ st' = st.
Proof using laws.
  intros Hr Hm Hne Hst E. pose proof (derive_seed path) as Hd.
  destruct (os_derive_bip32 path) as [derr raw] eqn:Eo. case_decide as Hz.
  - subst derr. destruct (Hd eq_refl) as [Hl Hb]. split; [by apply Forall_take|]. split; [done|].
    by rewrite <- (sign_derived fuel rnd path raw message st Eo Hl Hne).
  - rewrite sign_unfold in E. destruct message as [|m0 message]; [done|]. rewrite Eo in E.
    rewrite (proj2 (Z.eqb_neq _ _) Hz) in E. cbn [negb] in E. by injection E.
Qed.

(** [k] is the FIPS 204 public key of the seed of [path]. *)
Definition device_key (fuel : nat) (path k : list Z) : Prop :=
  exists raw s1 s2 T, os_derive_bip32 path = (0, raw) /\ expanded_key fuel (take 32 raw) s1 s2 T /\
    k = public_key (take 32 raw) T.

(** [sg] is a signature of [message] by the FIPS 204 key of the seed of [path]. *)
Definition device_signature (fuel : nat) (path message sg : list Z) : Prop :=
  exists raw s1 s2 T, os_derive_bip32 path = (0, raw) /\ expanded_key fuel (take 32 raw) s1 s2 T /\
    valid_signature fuel (rho_of (take 32 raw)) (high T) (message_hash (public_key (take 32 raw) T) message) sg.

Section sign_and_verify.
Context (fuel : nat) (rnd path message : list Z) (st : nvm).
Context (rnd_bytes : bytes rnd) (message_bytes : bytes message) (message_nonempty : message <> []) (st_ok : nvm_ok st).

(** The signer's results. *)
Lemma sign_ok err st1 :
  crypto_sign_optimized fuel rnd path (Some message) st = Some (err, st1) ->
  nvm_ok st1 /\
  (err = 0 /\ device_signature fuel path message (sig st1) \/
   err = ERR_INVALID_SIGNATURE /\ fst (os_derive_bip32 path) = 0 \/
   err = -1 /\ fst (os_derive_bip32 path) <> 0).
Proof using laws rnd_bytes message_bytes message_nonempty st_ok.
  intros E. pose proof (sign_call_spec _ _ _ _ _ _ _ rnd_bytes message_bytes message_nonempty st_ok E) as Hc.
  destruct (os_derive_bip32 path) as [derr raw] eqn:Eo. case_decide as Hz.
  - destruct Hc as (Hs & Hl & Es).
    pose proof (sign_seeded_spec fuel (take 32 raw) rnd message st Hs rnd_bytes message_bytes st_ok) as Ha.
    rewrite Es in Ha. destruct Ha as (Ok & s1 & s2 & T & HT & _ & _ & Hv). split; [exact Ok|].
    destruct Hv as [[-> Hv]|Hv]; [left|right; left; split; [exact Hv|exact Hz]].
    split; [reflexivity|]. exists raw, s1, s2, T. subst derr. split; [exact Eo|]. split; [exact HT|exact Hv].
  - destruct Hc as [-> ->]. split; [exact st_ok|]. right. right. split; [done|exact Hz].
Qed.

(** The verification that follows a successful signature succeeds. *)
Lemma verify_signed st1 :
  crypto_sign_optimized fuel rnd path (Some message) st = Some (0, st1) ->
  exists st2, crypto_verify_optimized fuel path (Some (sig st1)) (Some message) st1 = Some (0, Some true, st2) /\
    nvm_ok st2 /\ sig st2 = sig st1.
Proof using laws rnd_bytes message_bytes message_nonempty st_ok.
  intros E. destruct (sign_ok 0 st1 E) as [Ok1 _].
  pose proof (sign_call_spec _ _ _ _ _ _ _ rnd_bytes message_bytes message_nonempty st_ok E) as Hc.
  destruct (os_derive_bip32 path) as [derr raw] eqn:Eo. case_decide as Hz; [|destruct Hc; discriminate].
  destruct Hc as (Hs & Hl & Es). subst derr.
  destruct (signed_verifies fuel (take 32 raw) rnd message st st1 st1 Hs rnd_bytes message_bytes st_ok Ok1 Es)
    as (Hsl & st2 & Ev & Ok2 & Esig).
  exists st2. rewrite (verify_derived fuel path raw (sig st1) message st1 Eo Hl Hsl message_nonempty).
  split; [exact Ev|]. split; [exact Ok2|exact Esig].
Qed.
End sign_and_verify.
End calls.

(** ** The handlers *)

(** A handler that ends keeps the stored record well formed. *)
Definition keeps {A} (m : app A) : Prop :=
  forall w a w', nvm_ok (work (N_storage w)) -> m w = Done a w' -> nvm_ok (work (N_storage w')).

Lemma keeps_bind {A B} (m : app A) (f : A -> app B) :
  keeps m -> (forall a, keeps (f a)) -> keeps (m ≫= f).
Proof.
  intros Hm Hf w b w' Hw. unfold mbind, app_bind. destruct (m w) as [a w1| |] eqn:E; [|discriminate..].
  apply Hf. by apply (Hm w a).
Qed.
Lemma keeps_done {A} (m : app A) (f : world -> A) (g : world -> world) :
  (forall w, m w = Done (f w) (g w)) -> (forall w, work (N_storage (g w)) = work (N_storage w)) -> keeps m.
Proof. intros Hm Hg w a w' Hw E. rewrite Hm in E. injection E as _ <-. by rewrite Hg. Qed.
Lemma keeps_ret {A} (a : A) : keeps (mret a).
Proof. by apply (keeps_done _ (fun _ => a) (fun w => w)). Qed.
Lemma keeps_ctx : keeps ctx.
Proof. by apply (keeps_done _ G_context (fun w => w)). Qed.
Lemma keeps_storage : keeps storage.
Proof. by apply (keeps_done _ N_storage (fun w => w)). Qed.
Lemma keeps_text_of p : keeps (text_of p).
Proof. by apply (keeps_done _ (fun w => texts (ui w) p) (fun w => w)). Qed.
Lemma keeps_upd_ctx f : keeps (upd_ctx f).
Proof. by eapply keeps_done. Qed.
Lemma keeps_upd_ui f : keeps (upd_ui f).
Proof. by eapply keeps_done. Qed.
Lemma keeps_emit ev : keeps (emit ev).
Proof. by eapply keeps_done. Qed.
Lemma keeps_upd_storage f : (forall N, work (f N) = work N) -> keeps (upd_storage f).
Proof. intros Hf. eapply keeps_done; [done|]. intros w. apply Hf. Qed.
Lemma keeps_crypto {A} (f : nvm -> option (A * nvm)) :
  (forall st a st', nvm_ok st -> f st = Some (a, st') -> nvm_ok st') -> keeps (crypto f).
Proof.
  intros Hf w a w' Hw. unfold crypto. destruct (f (work (N_storage w))) as [[a' st']|] eqn:E; [|discriminate].
  intros [= _ <-]. by apply (Hf _ _ _ Hw E).
Qed.
Lemma keeps_undefined {A} : keeps (fun _ => @Undefined A).
Proof. by intros w a w' _ [=]. Qed.

Create HintDb keeps.
#[export] Hint Resolve keeps_ret keeps_ctx keeps_storage keeps_text_of keeps_upd_ctx keeps_upd_ui keeps_emit
  keeps_undefined : keeps.
(** Case by case through a handler; calls are closed by the lemmas of the base. *)
Ltac keeps :=
  repeat first
    [ solve [eauto with keeps nocore]
    | apply keeps_bind; [|intros ?]
    | apply keeps_upd_storage; reflexivity
    | progress cbv zeta
    | case_match ].

Section handlers.
Context {device : SDK} {laws : SDK_laws device} (e : env).
Lemma keeps_show s : keeps (show s).
Proof using. unfold show. keeps. Qed.
Lemma keeps_send d sw : keeps (io_send_response_pointer e d sw).
Proof using. unfold io_send_response_pointer. keeps. Qed.
Lemma keeps_sw sw : keeps (io_send_sw e sw).
Proof using. unfold io_send_sw. apply keeps_send. Qed.
Hint Resolve keeps_show keeps_send keeps_sw : keeps.
Lemma keeps_address : keeps (helper_send_response_address e).
Proof using. unfold helper_send_response_address. keeps. Qed.
Lemma keeps_sig i : keeps (helper_send_response_sig e i).
Proof using. unfold helper_send_response_sig. keeps. Qed.
Lemma keeps_pk i : keeps (helper_send_response_pk_chunk e i).
Proof using. unfold helper_send_response_pk_chunk. keeps. Qed.
Hint Resolve keeps_address keeps_sig keeps_pk : keeps.

Lemma keeps_derive path n addr : keeps (address_from_bip32_path e path n addr).
Proof using laws.
  unfold address_from_bip32_path. pose proof (derive_seed (take n path)) as Hd.
  destruct (os_derive_bip32 (take n path)) as [err raw].
  destruct (Z.eqb_spec err 0) as [->|]; cbn [negb]; [|keeps].
  destruct (Hd eq_refl) as [Hl Hb]. cbv zeta. rewrite seed_copy by done.
  apply keeps_bind; [keeps|intros _]. apply keeps_bind; [|intros err; keeps]. apply keeps_crypto.
  intros st err st' Hst E. by destruct (keypair_ok _ _ _ _ _ (Forall_take _ 32 raw Hb) Hst E).
Qed.
Lemma keeps_wipe : keeps wipe_secrets.
Proof using. apply keeps_crypto. intros st [] st' Hst [= <-]. by apply wipe_ok. Qed.
Lemma keeps_switch i v : keeps (set_switch i v).
Proof using. unfold set_switch. keeps. Qed.
Lemma keeps_put_switch i s : keeps (put_switch i s).
Proof using. unfold put_switch. keeps. Qed.
Hint Resolve keeps_derive keeps_wipe keeps_switch keeps_put_switch : keeps.
Lemma keeps_controls token page : keeps (controls_callback token page).
Proof using. unfold controls_callback. keeps. Qed.
Lemma keeps_menu : keeps ui_menu_main.
Proof using. unfold ui_menu_main. keeps. Qed.
Hint Resolve keeps_menu : keeps.
Lemma keeps_start : keeps app_start.
Proof using. unfold app_start. keeps. Qed.

Lemma keeps_put_address a p : keeps (put_address a p).
Proof using. unfold put_address. keeps. Qed.
Lemma keeps_put_decimal f p : keeps (put_decimal f p).
Proof using. unfold put_decimal. keeps. Qed.
Lemma keeps_put_amount a p : keeps (put_amount a p).
Proof using. unfold put_amount. keeps. Qed.
Lemma keeps_zero_text p : keeps (zero_text p).
Proof using. unfold zero_text. keeps. Qed.
Lemma keeps_pair n label p : keeps (add_pair n label p).
Proof using. unfold add_pair. keeps. Qed.
Hint Resolve keeps_put_address keeps_put_decimal keeps_put_amount keeps_zero_text keeps_pair : keeps.
Lemma keeps_review_end blind n : keeps (review_end blind n).
Proof using. unfold review_end. keeps. Qed.
Hint Resolve keeps_review_end : keeps.
Lemma keeps_review_pairs blind tx : keeps (review_pairs e blind tx).
Proof using. unfold review_pairs. keeps. Qed.
Hint Resolve keeps_review_pairs : keeps.
Lemma keeps_review_texts blind tx : keeps (review_texts e blind tx).
Proof using. unfold review_texts. keeps. Qed.
Hint Resolve keeps_review_texts : keeps.
Lemma keeps_display blind tx : keeps (ui_display_transaction_bs_choice e blind tx).
Proof using laws. unfold ui_display_transaction_bs_choice. keeps. Qed.
Lemma keeps_display_address : keeps (ui_display_address e).
Proof using. unfold ui_display_address. keeps. Qed.
Lemma keeps_read_path b : keeps (read_path b).
Proof using. unfold read_path. keeps. Qed.
Hint Resolve keeps_display keeps_display_address keeps_read_path : keeps.
Lemma keeps_get_public_key b d : keeps (handler_get_public_key e b d).
Proof using laws. unfold handler_get_public_key. keeps. Qed.
Lemma keeps_append b : keeps (append_chunk b).
Proof using. unfold append_chunk. keeps. Qed.
Lemma keeps_last : keeps (last_chunk e).
Proof using laws. unfold last_chunk. keeps. Qed.
Hint Resolve keeps_get_public_key keeps_append keeps_last : keeps.
Lemma keeps_sign_tx b p1 p2 : keeps (handler_sign_tx e b p1 p2).
Proof using laws. unfold handler_sign_tx. keeps. Qed.
Hint Resolve keeps_sign_tx : keeps.
Lemma keeps_dispatcher cmd : keeps (apdu_dispatcher e cmd).
Proof using laws.
  unfold apdu_dispatcher, handler_get_version, handler_get_app_name, handler_get_public_key_chunk. keeps.
Qed.
Hint Resolve keeps_dispatcher : keeps.
Lemma keeps_turn received : keeps (app_turn e received).
Proof using laws. unfold app_turn. keeps. Qed.
Lemma keeps_choice_address confirm : keeps (review_choice_address e confirm).
Proof using. unfold review_choice_address, validate_pubkey. keeps. Qed.
End handlers.
