(* ===== verification/AppLogic.v ===== *)
(** * Reasoning about handlers

    A weakest precondition for the handlers' monad, with a rule per primitive and
    the tactic [wp] that applies them; the well-formedness of the program's memory;
    and what the text-building primitives of the review write. *)
From Stdlib Require Import String.
From S2P Require Import Prelude CInt Constants Rlp RlpSpec RlpBuffer TxFormat Keccak KeccakSpec Sponge Address Poly Sign Sdk App.

(** ** Weakest preconditions

    No undefined behaviour, and [Q] for the result where the fuel suffices. *)
Definition wp {A} (m : app A) (Q : A -> world -> Prop) (w : world) : Prop :=
  match m w with Done a w' => Q a w' | OutOfFuel => True | Undefined => False end.

Lemma wp_bind {A B} (m : app A) (f : A -> app B) Q w :
  wp m (fun a w' => wp (f a) Q w') w -> wp (m ≫= f) Q w.
Proof. unfold wp, mbind, app_bind. by destruct (m w). Qed.
Lemma wp_ret {A} (a : A) (Q : A -> world -> Prop) w : Q a w -> wp (mret a) Q w.
Proof. done. Qed.
Lemma wp_mono {A} (m : app A) (P Q : A -> world -> Prop) w :
  wp m P w -> (forall a w', P a w' -> Q a w') -> wp m Q w.
Proof. unfold wp. destruct (m w); auto. Qed.
Lemma wp_done {A} (m : app A) (Q : A -> world -> Prop) w a w' :
  wp m Q w -> m w = Done a w' -> Q a w'.
Proof. unfold wp. intros H E. by rewrite E in H. Qed.
Lemma wp_and {A} (m : app A) (P Q : A -> world -> Prop) w :
  wp m P w -> wp m Q w -> wp m (fun a w' => P a w' /\ Q a w') w.
Proof. unfold wp. destruct (m w); auto. Qed.

Lemma wp_ctx (Q : global_ctx_t -> world -> Prop) w : Q (G_context w) w -> wp ctx Q w.
Proof. done. Qed.
Lemma wp_storage (Q : internal_storage_t -> world -> Prop) w : Q (N_storage w) w -> wp storage Q w.
Proof. done. Qed.
Lemma wp_text_of p (Q : list Z -> world -> Prop) w : Q (texts (ui w) p) w -> wp (text_of p) Q w.
Proof. done. Qed.
Lemma wp_upd_ctx f (Q : () -> world -> Prop) w :
  Q tt (World (f (G_context w)) (N_storage w) (ui w) (log w)) -> wp (upd_ctx f) Q w.
Proof. done. Qed.
Lemma wp_upd_storage f (Q : () -> world -> Prop) w :
  Q tt (World (G_context w) (f (N_storage w)) (ui w) (log w)) -> wp (upd_storage f) Q w.
Proof. done. Qed.
Lemma wp_upd_ui f (Q : () -> world -> Prop) w :
  Q tt (World (G_context w) (N_storage w) (f (ui w)) (log w)) -> wp (upd_ui f) Q w.
Proof. done. Qed.
Lemma wp_emit ev (Q : () -> world -> Prop) w :
  Q tt (World (G_context w) (N_storage w) (ui w) (log w ++ [ev])) -> wp (emit ev) Q w.
Proof. done. Qed.
Lemma wp_crypto {A} (f : nvm -> option (A * nvm)) Q w :
  (forall a st, f (work (N_storage w)) = Some (a, st) ->
    Q a (World (G_context w) (set_work st (N_storage w)) (ui w) (log w))) ->
  wp (crypto f) Q w.
Proof. unfold wp, crypto. destruct (f _) as [[a st]|]; auto. Qed.

Create HintDb wp_rules.
(** One primitive at a time; stops at calls, tests and matches. *)
Ltac wp1 :=
  lazymatch goal with
  | |- wp ?m _ _ =>
    lazymatch m with
    | mbind _ _ => apply wp_bind
    | mret _ => apply wp_ret
    | ctx => apply wp_ctx
    | storage => apply wp_storage
    | text_of _ => apply wp_text_of
    | upd_ctx _ => apply wp_upd_ctx
    | upd_storage _ => apply wp_upd_storage
    | upd_ui _ => apply wp_upd_ui
    | emit _ => apply wp_emit
    | show _ => unfold show
    | io_send_sw _ _ => unfold io_send_sw
    | io_send_response_pointer _ _ _ => unfold io_send_response_pointer
    end
  end.
Ltac wp := repeat (wp1; cbn [G_context N_storage ui log]).

(** ** Well-formed memory: every array has its length, byte arrays hold bytes *)
Record wf_ctx (path_len : nat) (G : global_ctx_t) : Prop := {
  wf_raw : length (raw_tx (tx_info G)) = MAX_TRANSACTION_LEN /\ bytes (raw_tx (tx_info G));
  wf_raw_len : (raw_tx_len (tx_info G) <= MAX_TRANSACTION_LEN)%nat;
  wf_hash : length (m_hash (tx_info G)) = 32%nat /\ bytes (m_hash (tx_info G));
  wf_path : length (bip32_path G) = path_len;
  wf_address : length (address G) = ADDRESS_SIZE /\ bytes (address G) }.

Record wf_ui (u : ui_t) : Prop := {
  wf_texts p : length (texts u p) = text_size p;
  wf_pairs : length (pairs u) = 9%nat;
  wf_nbPairs : (nbPairs u <= 9)%nat;
  wf_switches : length (switches u) = 3%nat }.

Lemma wf_zero_ctx n : wf_ctx n (zero_ctx n).
Proof.
  unfold zero_ctx. split; cbn [tx_info raw_tx raw_tx_len m_hash bip32_path address];
    rewrite ?length_replicate; (split; [done|by apply bytes_zeros]) || done || lia.
Qed.
Lemma wf_zero_ui : wf_ui zero_ui.
Proof.
  split; cbn [zero_ui texts pairs nbPairs switches]; try lia; try done.
  intros p. apply length_replicate.
Qed.
Lemma wf_set_text p v u : wf_ui u -> length v = text_size p -> wf_ui (set_text p v u).
Proof.
  intros [] Hv. split; cbn [set_text texts pairs nbPairs switches]; try done.
  intros q. by destruct (decide (q = p)) as [->|].
Qed.
Lemma wf_set_screen s u : wf_ui u -> wf_ui (set_screen s u).
Proof. by intros []. Qed.
Lemma wf_set_switch f id u : wf_ui u -> wf_ui (set_switches (alter f id (switches u)) u).
Proof. intros []. split; cbn [set_switches texts pairs nbPairs switches]; rewrite ?length_alter; done. Qed.
Lemma wf_put_switch id s u : wf_ui u -> wf_ui (set_switches (<[id := s]> (switches u)) u).
Proof. intros []. split; cbn [set_switches texts pairs nbPairs switches]; rewrite ?length_insert; done. Qed.
Lemma wf_set_pairs i x u : wf_ui u -> wf_ui (set_pairs (<[i := x]> (pairs u)) u).
Proof. intros []. split; cbn [set_pairs texts pairs nbPairs switches]; rewrite ?length_insert; done. Qed.
#[export] Hint Resolve wf_zero_ctx wf_zero_ui wf_set_text wf_set_screen wf_set_switch wf_put_switch wf_set_pairs : wp_rules.

(** ** C strings in buffers *)
Lemma cstr_written s out : Forall (fun c => c <> 0) s -> cstr (written (s ++ [0]) out) = s.
Proof. intros Hs. unfold written. rewrite <- app_assoc, cstr_app by done. apply app_nil_r. Qed.

Lemma hex_text_range a : bytes a -> Forall (fun c => 48 <= c) (hex_body a).
Proof.
  intros Ha. unfold hex_body. induction Ha as [|b a Hb _ IH]; [constructor|].
  cbn [mbind list_bind]. unfold is_u8 in Hb. apply Forall_app. split; [|exact IH].
  destruct (hexc_cases (b / 16)) as (c1 & -> & Hc1 & _); [split; [apply Z.div_pos|apply Z.div_lt_upper_bound]; lia|].
  destruct (hexc_cases (b mod 16)) as (c2 & -> & Hc2 & _); [by apply Z.mod_pos_bound|].
  repeat constructor; lia.
Qed.

Lemma checksummed_nonzero a : bytes a -> Forall (fun c => c <> 0) (checksummed a).
Proof.
  intros Ha. unfold checksummed. constructor; [done|]. apply Forall_lookup. intros i c.
  rewrite list_lookup_imap. destruct (hex_body a !! i) as [x|] eqn:E; [|done]. cbn. intros [= <-].
  pose proof (Forall_lookup_1 _ _ _ _ (hex_text_range a Ha) E) as Hx. cbv beta in Hx.
  unfold upcase. destruct (97 <=? x) eqn:?, (x <=? 102) eqn:?, (8 <=? _); cbn [andb]; lia.
Qed.

Lemma checksummed_length a : length (checksummed a) = (1 + 2 * length a)%nat.
Proof. unfold checksummed. cbn [length]. by rewrite length_imap, hex_body_length. Qed.

Lemma amount_nonzero d n s : is_amount d n s -> Forall (fun c => c <> 0) s.
Proof.
  intros (ip & f & i & (_ & Hi & _) & Hf & _ & _ & -> & _). apply Forall_app.
  split; [by apply digit_nonzero|]. destruct f; [constructor|]. constructor; [done|].
  by apply digit_nonzero.
Qed.

(** [s] is "QRL " and the amount [n] in units of [10^-18]. *)
Definition qrl_text (n : Z) (s : list Z) : Prop :=
  exists a, is_amount 18 n a /\ s = [81; 82; 76; 32] ++ a.

Lemma snprintf_qrl_spec n amount old :
  length amount = MAX_AMOUNT_LEN -> length old = (MAX_AMOUNT_LEN + 5)%nat ->
  is_amount 18 n (cstr amount) ->
  let s := snprintf_qrl (MAX_AMOUNT_LEN + 5) amount old in
  length s = (MAX_AMOUNT_LEN + 5)%nat /\ qrl_text n (cstr s).
Proof.
  intros Ha Ho Hn. unfold snprintf_qrl.
  assert (Hl : (length (cstr amount) <= MAX_AMOUNT_LEN)%nat).
  { rewrite <- Ha. clear. induction amount as [|c l IH]; [done|]. cbn [cstr].
    destruct (c =? 0); cbn [length]; lia. }
  unfold MAX_AMOUNT_LEN in *. rewrite take_ge by (rewrite length_app; cbn [length]; lia).
  change (blit old 0) with (fun x => written x old). cbv beta.
  rewrite cstr_written.
  - split; [|by eexists]. rewrite written_length; [done|]. rewrite !length_app. cbn [length]. lia.
  - apply Forall_app. split; [repeat constructor; lia|by eapply amount_nonzero].
Qed.

(** A chunk of a reply is a slice of its source. *)
Lemma copy_chunk_slice (src : list Z) i size n :
  (i * size + n <= length src)%nat ->
  copy_chunk src i size n (replicate n 0) = take n (drop (i * size) src).
Proof.
  intros Hl. unfold copy_chunk. rewrite for_write_table by (by rewrite length_replicate).
  unfold written. rewrite length_map, length_seq, drop_ge by (by rewrite length_replicate).
  rewrite app_nil_r, <- map_seq_slice by done. apply map_ext. intros k. f_equal. lia.
Qed.
