(* ===== verification/Review.v ===== *)
(** * What the review screens show

    The text of every field of a decoded transaction, the address of a path, and
    the list of pairs [ui_display_transaction_bs_choice] hands to the screen. *)
From Stdlib Require Import String.
From S2P Require Import Prelude CInt Constants Rlp RlpSpec RlpBuffer TxFormat Keccak KeccakSpec Sponge Address Poly Sign Sdk App AppLogic.

(** ** Specification of the list shown *)
Definition to_bytes (q : payloads) : list Z :=
  if decide (pl_to q = []) then replicate ADDRESS_SIZE 0 else pl_to q.

(** The pairs on the screen, the pointers followed. *)
Definition shown (u : ui_t) : list (string * list Z) :=
  (fun '(label, p) => (label, cstr (texts u p))) <$> take (nbPairs u) (pairs u).

(** [l] is the review of the transaction with payloads [q] and hash [hash], sent
    from [from]; [dn] and [dh] are the display settings. *)
Definition describes (q : payloads) (from hash : list Z) (dn dh : bool)
    (l : list (string * list Z)) : Prop :=
  exists amount chain gas tip fees nonce,
    l = [("From"%string, checksummed from); ("Amount"%string, amount);
         ("To"%string, checksummed (to_bytes q)); ("Chain ID"%string, chain);
         ("Gas limit"%string, gas); ("Priority fee / gas"%string, tip);
         ("Max fees"%string, fees)] ++
        (if dn then [("Nonce"%string, nonce)] else []) ++
        (if dh then [("Transaction hash"%string, hex_body hash)] else []) /\
    qrl_text (be_val (pl_value q)) amount /\
    is_decimal (be_val (pl_chain_id q)) chain /\
    is_decimal (be_val (pl_gas q)) gas /\
    qrl_text (be_val (pl_tip q)) tip /\
    qrl_text (be_val (pl_cap q) * be_val (pl_gas q)) fees /\
    (dn = true -> is_decimal (be_val (pl_nonce q)) nonce).

(** ** Fields as text *)
Lemma be_val_bound p k : bytes p -> (length p <= k)%nat -> 0 <= be_val p < 256 ^ Z.of_nat k.
Proof.
  intros Hp Hk. pose proof (be_val_range p Hp). split; [lia|].
  eapply Z.lt_le_trans; [apply H|]. apply Z.pow_le_mono_r; lia.
Qed.

(** [u'] is [u] with the text [p] rewritten; [P] holds of the new text. *)
Record rewritten (p : text) (P : list Z -> Prop) (u u' : ui_t) : Prop := {
  rw_wf : wf_ui u';
  rw_text : P (cstr (texts u' p));
  rw_other q : q <> p -> texts u' q = texts u q;
  rw_pairs : pairs u' = pairs u;
  rw_switches : switches u' = switches u;
  rw_screen : screen u' = screen u }.

Lemma set_text_rewritten p v (P : list Z -> Prop) u :
  wf_ui u -> length v = text_size p -> P (cstr v) -> rewritten p P u (set_text p v u).
Proof.
  intros Hu Hv HP. split; try done; cbn; [by apply wf_set_text|by rewrite decide_True|].
  intros q Hq. by rewrite decide_False.
Qed.

Section field.
Context (n : nat) (v : list Z) (Hv : (length v <= n)%nat) (Hn : (n <= 32)%nat) (Hb : bytes v).
Let f := fill (zero_field n) v.

Local Lemma field_len : Z.to_nat (flen f) = length v.
Proof. by apply fill_zero_field. Qed.
Local Lemma field_bytes : bytes (fbytes f) /\ (length v <= length (fbytes f))%nat /\
  take (length v) (fbytes f) = v.
Proof.
  unfold f. rewrite (proj2 (fill_zero_field n v Hv Hn)). split_and!.
  - apply Forall_app. split; [done|apply bytes_zeros].
  - rewrite length_app. lia.
  - apply take_app_length.
Qed.

Lemma field_amount out : length out = MAX_AMOUNT_LEN ->
  exists out', format_qrl_amount (Some (fbytes f)) (Z.to_nat (flen f)) (Some out) MAX_AMOUNT_LEN
    = (true, out') /\ is_amount 18 (be_val v) (cstr out') /\ length out' = MAX_AMOUNT_LEN.
Proof.
  intros Ho. destruct field_bytes as (B & Hl & Ht). rewrite field_len.
  destruct (format_qrl_amount_spec (fbytes f) (length v) out B) as (o & E & A & Hl');
    [unfold MAX_INTEGER_BYTES; lia|done|lia|].
  rewrite Ho in E, Hl'. rewrite Ht in A. by exists o.
Qed.

Lemma wp_put_decimal p (Q : bool -> world -> Prop) w :
  wf_ui (ui w) -> (1 < text_size p)%nat ->
  256 ^ Z.of_nat n <= 10 ^ Z.of_nat (text_size p - 1) ->
  (forall u, rewritten p (is_decimal (be_val v)) (ui w) u ->
    Q true (World (G_context w) (N_storage w) u (log w))) ->
  wp (put_decimal f p) Q w.
Proof.
  intros Hu Hp Hroom HQ. pose proof (wf_texts _ Hu p) as Hlen. destruct field_bytes as (B & Hl & Ht). unfold put_decimal.
  do 2 wp1. rewrite field_len.
  destruct (uint8_array_to_decimal_spec (fbytes f) (length v) (texts (ui w) p) B)
    as (s & Hs & _ & E); [unfold MAX_INTEGER_BYTES; lia|done|lia|].
  rewrite Ht in Hs. rewrite Hlen in E. rewrite E.
  pose proof (be_val_bound v n Hb Hv) as Hval.
  assert (Hsl : (length s <= text_size p - 1)%nat) by (eapply decimal_length; [done|lia|lia]).
  rewrite (proj2 (Nat.ltb_ge _ _)) by lia. wp. apply HQ, set_text_rewritten; [done|..].
  - rewrite written_length; [done|]. rewrite length_app. cbn [length]. lia.
  - rewrite cstr_written; [done|]. apply digit_nonzero. by destruct Hs as (_ & ? & _).
Qed.
End field.

Lemma multiply_take a la b lb out olen :
  (la <= length a)%nat -> (lb <= length b)%nat ->
  multiply_uint8_arrays (Some a) la (Some b) lb (Some out) (Some olen) =
  multiply_uint8_arrays (Some (take la a)) la (Some (take lb b)) lb (Some out) (Some olen).
Proof.
  intros Ha Hb. unfold multiply_uint8_arrays.
  assert (E : mul_accumulate a la b lb (replicate MAX_INTEGER_BYTES 0) =
              mul_accumulate (take la a) la (take lb b) lb (replicate MAX_INTEGER_BYTES 0)).
  { assert (Hget : forall (l : list Z) (n i : nat), (i < n)%nat -> take n l !!! i = l !!! i).
    { intros l n i Hi. by rewrite !list_lookup_total_alt, lookup_take_lt. }
    unfold mul_accumulate. apply for_ext. intros i t Hi. unfold mul_row. apply for_ext.
    intros j u Hj. by rewrite !Hget by lia. }
  by rewrite E.
Qed.

(** The two calls that format the maximal fees. *)
Lemma fees_amount cap gas :
  (length cap <= 32)%nat -> bytes cap -> (length gas <= 8)%nat -> bytes gas ->
  let fc := fill (zero_field 32) cap in let fg := fill (zero_field 8) gas in
  exists p out, multiply_uint8_arrays (Some (fbytes fc)) (Z.to_nat (flen fc)) (Some (fbytes fg))
      (Z.to_nat (flen fg)) (Some (replicate MAX_INTEGER_BYTES 0)) (Some MAX_INTEGER_BYTES)
    = (true, fst p, Some (snd p)) /\
    format_qrl_amount (Some (fst p)) (snd p) (Some (replicate MAX_AMOUNT_LEN 0)) MAX_AMOUNT_LEN
    = (true, out) /\
    is_amount 18 (be_val cap * be_val gas) (cstr out) /\ length out = MAX_AMOUNT_LEN.
Proof.
  intros Hc Bc Hg Bg fc fg.
  destruct (field_bytes 32 cap) as (_ & Lc & Tc); [done|lia|done|].
  destruct (field_bytes 8 gas) as (_ & Lg & Tg); [done|lia|done|].
  unfold fc, fg. rewrite !field_len by (done || lia).
  rewrite multiply_take by done. rewrite Tc, Tg.
  destruct (multiply_spec cap gas (replicate MAX_INTEGER_BYTES 0) Bc Bg) as (p & Hp & Hl & E);
    [unfold MAX_INTEGER_BYTES; lia|].
  rewrite length_replicate in E. unfold MAX_INTEGER_BYTES in *.
  rewrite (proj2 (Nat.ltb_ge _ _)) in E by lia.
  destruct Hp as (_ & Bp & Vp & _). set (o := written p (replicate 40 0)) in *.
  assert (Ho : bytes o) by (apply Forall_app; split; [done|apply Forall_drop, bytes_zeros]).
  destruct (format_qrl_amount_spec o (length p) (replicate MAX_AMOUNT_LEN 0) Ho)
    as (out & F & A & Hout).
  { unfold MAX_INTEGER_BYTES. lia. }
  { unfold o. rewrite written_length, length_replicate by (rewrite length_replicate; lia). lia. }
  { by rewrite length_replicate. }
  rewrite length_replicate in F, Hout. exists (o, length p), out. cbn [fst snd].
  split; [done|]. split; [done|]. split; [|done].
  rewrite <- Vp. replace p with (take (length p) o) at 1; [done|]. apply take_app_length.
Qed.

Lemma wp_put_amount n amount p (Q : () -> world -> Prop) w :
  length amount = MAX_AMOUNT_LEN -> is_amount 18 n (cstr amount) ->
  text_size p = (MAX_AMOUNT_LEN + 5)%nat -> wf_ui (ui w) ->
  (forall u, rewritten p (qrl_text n) (ui w) u ->
    Q tt (World (G_context w) (N_storage w) u (log w))) ->
  wp (put_amount amount p) Q w.
Proof.
  intros Ha Hn Hp Hu HQ. unfold put_amount. wp. pose proof (wf_texts _ Hu p) as Hl. rewrite Hp in Hl |- *.
  destruct (snprintf_qrl_spec n amount (texts (ui w) p) Ha Hl Hn) as [L T].
  apply HQ, set_text_rewritten; [done|by rewrite Hp|done].
Qed.

Lemma wp_put_address a p (Q : bool -> world -> Prop) w :
  bytes a -> length a = ADDRESS_SIZE -> text_size p = 130%nat -> wf_ui (ui w) ->
  (forall u, rewritten p (eq (checksummed a)) (ui w) u ->
    Q true (World (G_context w) (N_storage w) u (log w))) ->
  wp (put_address a p) Q w.
Proof.
  intros Ha Hl Hp Hu HQ. unfold put_address.
  pose proof (format_checksummed_address_spec a (replicate (text_size p) 0) Ha Hl) as E.
  rewrite length_replicate in E. rewrite E by (rewrite Hp; unfold ADDRESS_SIZE; lia). wp.
  apply HQ, set_text_rewritten; [done| |by rewrite cstr_written by (by apply checksummed_nonzero)].
  rewrite written_length, length_replicate; [done|].
  rewrite length_app, length_replicate, checksummed_length, Hl, Hp. unfold ADDRESS_SIZE. cbn [length]. lia.
Qed.

(** The address line of the destination. *)
Lemma to_tx_of q : payload_sizes q -> bytes (to_ (tx_of q)) /\ length (to_ (tx_of q)) = ADDRESS_SIZE /\
  to_ (tx_of q) = to_bytes q.
Proof.
  intros [_ _ _ _ _ [Hl Hb] _].
  assert (E : to_ (tx_of q) = to_bytes q).
  { unfold tx_of, to_bytes; cbn [to_]. unfold memcpy.
    destruct Hl as [Hl| ->]; [|done]. rewrite take_ge by lia. rewrite drop_ge by (rewrite length_replicate; unfold ADDRESS_LENGTH; lia).
    rewrite app_nil_r. destruct (decide _) as [E|_]; [by rewrite E in Hl|done]. }
  rewrite E. unfold to_bytes. case_decide as Ed; [by split; [apply bytes_zeros|]|].
  split; [done|]. split; [|done]. unfold ADDRESS_SIZE. destruct Hl; [done|contradiction].
Qed.

Lemma lower_hex_text hash old : length hash = 32%nat -> bytes hash -> length old = 65%nat ->
  let s := bytes_to_lower_hex hash 32 old in length s = 65%nat /\ cstr s = hex_body hash.
Proof.
  intros Hl Hb Ho. unfold bytes_to_lower_hex.
  rewrite write_hex_spec by lia. rewrite take_ge by lia.
  pose proof (hex_body_length hash) as Hh. rewrite Hl in Hh.
  rewrite insert_written by lia. split.
  { rewrite written_length; [done|]. rewrite length_app. cbn [length]. lia. }
  apply cstr_written.
  eapply Forall_impl; [|by apply hex_text_range]. cbv beta. lia.
Qed.

(** ** The address of a path *)
Section display.
Context `{SDK_laws} (e : env).

(** [st'] is the storage after the key pair of [path] has been derived in [st]. *)
Definition derived (path : list Z) (st st' : nvm) : Prop :=
  let '(err, raw_seed) := os_derive_bip32 path in
  err = 0 /\ new_mldsa87_from_seed (fuel e) [] (Some (take 32 raw_seed)) st = Some (ERR_NONE, st').

Lemma copy_seed (raw_seed : list Z) : (32 <= length raw_seed)%nat ->
  for_ 0 32 (fun i seed => <[i := raw_seed !!! i]> seed) (replicate 32 0) = take 32 raw_seed.
Proof.
  intros Hl. rewrite for_write_table by (rewrite length_replicate; lia).
  pose proof (map_seq_slice raw_seed 0 32 Hl) as E. rewrite drop_0 in E. cbn [Nat.add] in E.
  rewrite E. unfold written. rewrite drop_ge; [apply app_nil_r|].
  rewrite length_replicate, length_take. lia.
Qed.

Lemma pk_address_ok p : bytes (pk_address p) /\ length (pk_address p) = ADDRESS_SIZE.
Proof.
  unfold pk_address, shake256_squeeze, squeeze.
  split; [apply squeeze_loop_bytes; unfold SHAKE256_RATE; lia|apply squeeze_loop_length].
Qed.

(** The world after a derivation: the key in the storage, a spinner on screen. *)
Definition spinner_world (st : nvm) (w : world) : world :=
  World (G_context w) (set_work st (N_storage w)) (set_screen (SpinnerScreen "Getting address") (ui w))
    (log w ++ [Screen (SpinnerScreen "Getting address")]).

Lemma wp_address path n addr (Q : Z * list Z -> world -> Prop) w :
  length addr = ADDRESS_SIZE -> bytes addr ->
  (forall st a, derived (take n path) (work (N_storage w)) st ->
    a = pk_address (pk st) -> bytes a -> length a = ADDRESS_SIZE ->
    Q (0, a) (spinner_world st w)) ->
  (forall err, fst (os_derive_bip32 (take n path)) = err -> err <> 0 -> Q (err, addr) w) ->
  (forall st, Q (CX_INTERNAL_ERROR, addr) (spinner_world st w)) ->
  wp (address_from_bip32_path e path n addr) Q w.
Proof.
  intros Hl Hb Hok Herr Hint. unfold address_from_bip32_path.
  pose proof (derive_seed (take n path)) as Hseed. unfold derived in Hok.
  destruct (os_derive_bip32 (take n path)) as [err raw_seed].
  destruct (Z.eqb_spec err 0) as [->|Hne]; cbn [negb]; [|wp; by apply Herr].
  destruct (Hseed eq_refl) as [Hlen _]. cbv zeta. rewrite copy_seed by lia.
  wp. apply wp_crypto. cbn [G_context N_storage ui log]. intros err st Hst.
  destruct (Z.eqb_spec err ERR_NONE) as [->|Hne]; cbn [negb]; [|wp; by apply Hint].
  wp. destruct (pk_address_ok (pk (work (set_work st (N_storage w))))) as [Ba La].
  assert (E : forall x, length x = ADDRESS_SIZE -> blit addr 0 x = x).
  { intros x Hx. unfold blit. cbn [take app]. rewrite drop_ge by lia. apply app_nil_r. }
  rewrite (E _ La). apply (Hok st); [by split|reflexivity|exact Ba|exact La].
Qed.

(** ** The review *)

Definition is_screen (ev : event) : Prop := match ev with Screen _ => True | Response _ _ => False end.

(** Nothing but the screen, the texts, the pairs and the address in the context
    has changed, and the working storage. *)
Record display_frame (w w' : world) : Prop := {
  df_ctx : exists a, G_context w' = set_address a (G_context w) /\ bytes a /\ length a = ADDRESS_SIZE;
  df_storage : exists st, N_storage w' = set_work st (N_storage w);
  df_ui : wf_ui (ui w');
  df_switches : switches (ui w') = switches (ui w) }.

(** The screen asks for consent to [q], from the address of the derived key. *)
Record consent (blind : bool) (q : payloads) (w w' : world) : Prop := {
  co_screen : screen (ui w') = TransactionReview blind;
  co_key : let G := G_context w in
    derived (take (Z.to_nat (bip32_path_len G)) (bip32_path G)) (work (N_storage w)) (work (N_storage w'));
  co_address : address (G_context w') = pk_address (pk (work (N_storage w')));
  co_shown : describes q (address (G_context w')) (m_hash (tx_info (G_context w)))
    (negb (display_nonce (N_storage w) =? 0)) (negb (display_tx_hash (N_storage w) =? 0))
    (shown (ui w'));
  co_log : exists evs, log w' = log w ++ evs /\ Forall is_screen evs }.

Definition display_failed (w w' : world) : Prop :=
  (screen (ui w') = (SpinnerScreen "Getting address") \/ screen (ui w') = screen (ui w)) /\
  exists evs, log w' = log w ++ evs ++ [Response [] SW_DISPLAY_ADDRESS_FAIL] /\ Forall is_screen evs.
End display.

(** ** The review *)
Section review.
Context `{SDK_laws} (e : env).

(** [u'] is [u] with the pair [x] at index [i]. *)
Record pair_added (i : nat) (x : string * text) (u u' : ui_t) : Prop := {
  pa_wf : wf_ui u';
  pa_pairs : take (i + 1) (pairs u') = take i (pairs u) ++ [x];
  pa_texts p : texts u' p = texts u p;
  pa_switches : switches u' = switches u;
  pa_screen : screen u' = screen u }.

Lemma wp_add_pair i label p (Q : nat -> world -> Prop) w :
  wf_ui (ui w) -> (i < 9)%nat ->
  (forall u, pair_added i (label, p) (ui w) u ->
    Q (i + 1)%nat (World (G_context w) (N_storage w) u (log w))) ->
  wp (add_pair i label p) Q w.
Proof.
  intros Hu Hi HQ. unfold add_pair. wp. apply HQ. split; try done; [by apply wf_set_pairs|].
  cbn [set_pairs pairs]. rewrite Nat.add_1_r, (take_S_r _ _ (label, p)).
  - by rewrite take_insert_ge by lia.
  - apply list_lookup_insert_eq. rewrite (wf_pairs _ Hu). lia.
Qed.

Lemma wp_zero_text p (Q : () -> world -> Prop) w :
  wf_ui (ui w) ->
  (forall u, rewritten p (fun _ => True) (ui w) u ->
    Q tt (World (G_context w) (N_storage w) u (log w))) ->
  wp (zero_text p) Q w.
Proof.
  intros Hu HQ. unfold zero_text. wp. apply HQ, set_text_rewritten; [done| |done].
  apply length_replicate.
Qed.

(** The texts on the first [n] pairs. *)
Definition prefix_shown (n : nat) (u : ui_t) : list (string * list Z) :=
  (fun '(label, p) => (label, cstr (texts u p))) <$> take n (pairs u).

Lemma prefix_add i label p u u' : pair_added i (label, p) u u' ->
  prefix_shown (i + 1) u' = prefix_shown i u ++ [(label, cstr (texts u p))].
Proof.
  intros [_ E T _ _]. unfold prefix_shown. rewrite E, fmap_app. cbn [fmap list_fmap]. rewrite T. f_equal.
  apply list_fmap_ext. intros _ [l q] _. by rewrite T.
Qed.

Lemma prefix_rewrite i p P u u' : rewritten p P u u' -> Forall (fun x => snd x <> p) (take i (pairs u)) ->
  prefix_shown i u' = prefix_shown i u.
Proof.
  intros [_ _ T E _ _] Hp. unfold prefix_shown. rewrite E. apply list_fmap_ext.
  intros k [l q] Hk. by rewrite T by exact (Forall_lookup_1 _ _ _ _ Hp Hk).
Qed.

Lemma snd_pairs i x u u' (p : text) : pair_added i x u u' -> snd x <> p ->
  Forall (fun x => snd x <> p) (take i (pairs u)) -> Forall (fun x => snd x <> p) (take (i + 1) (pairs u')).
Proof. intros [_ E _ _ _] Hx Hl. rewrite E. apply Forall_app. by split; [|constructor]. Qed.

Lemma wp_review_end blind i w :
  wf_ui (ui w) -> (i < 9)%nat -> length (m_hash (tx_info (G_context w))) = 32%nat ->
  bytes (m_hash (tx_info (G_context w))) ->
  Forall (fun x => snd x <> TxHash) (take i (pairs (ui w))) ->
  wp (review_end blind i) (fun r w' => r = 0 /\
    G_context w' = G_context w /\ N_storage w' = N_storage w /\ wf_ui (ui w') /\
    switches (ui w') = switches (ui w) /\ screen (ui w') = TransactionReview blind /\
    log w' = log w ++ [Screen (TransactionReview blind)] /\
    shown (ui w') = prefix_shown i (ui w) ++
      (if negb (display_tx_hash (N_storage w) =? 0)
       then [("Transaction hash"%string, hex_body (m_hash (tx_info (G_context w))))] else [])) w.
Proof.
  intros Hu Hi Lh Bh Hp. unfold review_end. wp. destruct (negb _).
  - wp. destruct (lower_hex_text _ (texts (ui w) TxHash) Lh Bh (wf_texts _ Hu TxHash)) as [Lx Cx].
    pose proof (set_text_rewritten TxHash _ (eq (hex_body (m_hash (tx_info (G_context w))))) _ Hu Lx
      (eq_sym Cx)) as Hr. revert Hr. generalize (set_text TxHash
      (bytes_to_lower_hex (m_hash (tx_info (G_context w))) 32 (texts (ui w) TxHash)) (ui w)).
    intros u1 Hr. apply wp_add_pair; [apply Hr|done|]. cbn [G_context N_storage ui log]. intros u2 Hu2. wp.
    split_and!; try done.
    + destruct (pa_wf _ _ _ _ Hu2). split; cbn; (done || lia).
    + cbn. by rewrite (pa_switches _ _ _ _ Hu2), (rw_switches _ _ _ _ Hr).
    + change (prefix_shown (i + 1) u2 = prefix_shown i (ui w) ++
        [("Transaction hash"%string, hex_body (m_hash (tx_info (G_context w))))]).
      rewrite (prefix_add _ _ _ _ _ Hu2), (prefix_rewrite _ _ _ _ _ Hr Hp).
      by rewrite <- (rw_text _ _ _ _ Hr).
  - wp. split_and!; try done.
    + destruct Hu. split; cbn; (done || lia).
    + change (prefix_shown i (ui w) = prefix_shown i (ui w) ++ []). by rewrite app_nil_r.
Qed.

Definition first_labels : list (string * text) :=
  [("From"%string, FromAddress); ("Amount"%string, Amount); ("To"%string, ToAddress);
   ("Chain ID"%string, ChainId); ("Gas limit"%string, GasLimit);
   ("Priority fee / gas"%string, GasTipCap); ("Max fees"%string, MaxFees)].
Definition first_pairs (u : ui_t) : list (string * list Z) :=
  (fun '(label, p) => (label, cstr (texts u p))) <$> first_labels.

Lemma seven_pairs u u1 u2 u3 u4 u5 u6 u7 :
  pair_added 0 ("From"%string, FromAddress) u u1 ->
  pair_added (0 + 1) ("Amount"%string, Amount) u1 u2 ->
  pair_added (0 + 1 + 1) ("To"%string, ToAddress) u2 u3 ->
  pair_added (0 + 1 + 1 + 1) ("Chain ID"%string, ChainId) u3 u4 ->
  pair_added (0 + 1 + 1 + 1 + 1) ("Gas limit"%string, GasLimit) u4 u5 ->
  pair_added (0 + 1 + 1 + 1 + 1 + 1) ("Priority fee / gas"%string, GasTipCap) u5 u6 ->
  pair_added (0 + 1 + 1 + 1 + 1 + 1 + 1) ("Max fees"%string, MaxFees) u6 u7 ->
  take 7 (pairs u7) = first_labels /\ prefix_shown 7 u7 = first_pairs u /\
  switches u7 = switches u.
Proof.
  intros A1 A2 A3 A4 A5 A6 A7.
  assert (E7 : take 7 (pairs u7) = first_labels).
  { etransitivity; [apply (pa_pairs _ _ _ _ A7)|].
    by rewrite (pa_pairs _ _ _ _ A6), (pa_pairs _ _ _ _ A5), (pa_pairs _ _ _ _ A4),
      (pa_pairs _ _ _ _ A3), (pa_pairs _ _ _ _ A2), (pa_pairs _ _ _ _ A1). }
  split; [done|]. split.
  - unfold prefix_shown, first_pairs. rewrite E7. apply list_fmap_ext. intros _ [l p] _.
    by rewrite (pa_texts _ _ _ _ A7), (pa_texts _ _ _ _ A6), (pa_texts _ _ _ _ A5),
      (pa_texts _ _ _ _ A4), (pa_texts _ _ _ _ A3), (pa_texts _ _ _ _ A2), (pa_texts _ _ _ _ A1).
  - by rewrite (pa_switches _ _ _ _ A7), (pa_switches _ _ _ _ A6), (pa_switches _ _ _ _ A5),
      (pa_switches _ _ _ _ A4), (pa_switches _ _ _ _ A3), (pa_switches _ _ _ _ A2),
      (pa_switches _ _ _ _ A1).
Qed.

Lemma wp_review_pairs blind q w :
  wf_ui (ui w) -> length (m_hash (tx_info (G_context w))) = 32%nat ->
  bytes (m_hash (tx_info (G_context w))) -> (length (pl_nonce q) <= 8)%nat -> bytes (pl_nonce q) ->
  wp (review_pairs e blind (tx_of q)) (fun r w' => r = 0 /\
    G_context w' = G_context w /\ N_storage w' = N_storage w /\ wf_ui (ui w') /\
    switches (ui w') = switches (ui w) /\ screen (ui w') = TransactionReview blind /\
    log w' = log w ++ [Screen (TransactionReview blind)] /\
    exists nonce, (negb (display_nonce (N_storage w) =? 0) = true ->
        is_decimal (be_val (pl_nonce q)) nonce) /\
    shown (ui w') = first_pairs (ui w) ++
      (if negb (display_nonce (N_storage w) =? 0) then [("Nonce"%string, nonce)] else []) ++
      (if negb (display_tx_hash (N_storage w) =? 0)
       then [("Transaction hash"%string, hex_body (m_hash (tx_info (G_context w))))] else [])) w.
Proof.
  intros Hu Lh Bh Ln Bn. unfold review_pairs.
  apply wp_bind, wp_add_pair; cbn [G_context N_storage ui log]; [done|lia|]. intros u1 A1.
  apply wp_bind, wp_add_pair; cbn [G_context N_storage ui log]; [apply A1|lia|]. intros u2 A2.
  apply wp_bind, wp_add_pair; cbn [G_context N_storage ui log]; [apply A2|lia|]. intros u3 A3.
  apply wp_bind, wp_add_pair; cbn [G_context N_storage ui log]; [apply A3|lia|]. intros u4 A4.
  apply wp_bind, wp_add_pair; cbn [G_context N_storage ui log]; [apply A4|lia|]. intros u5 A5.
  apply wp_bind, wp_add_pair; cbn [G_context N_storage ui log]; [apply A5|lia|]. intros u6 A6.
  apply wp_bind, wp_add_pair; cbn [G_context N_storage ui log]; [apply A6|lia|]. intros u7 A7.
  destruct (seven_pairs _ _ _ _ _ _ _ _ A1 A2 A3 A4 A5 A6 A7) as (E7 & T7 & S7).
  pose proof (pa_wf _ _ _ _ A7) as W7. clear A1 A2 A3 A4 A5 A6 A7 u1 u2 u3 u4 u5 u6.
  change (0 + 1 + 1 + 1 + 1 + 1 + 1 + 1)%nat with 7%nat.
  assert (N7 : forall p, p = TxHash \/ p = Nonce -> Forall (fun x => snd x <> p) (take 7 (pairs u7))).
  { intros p Hp. rewrite E7. repeat constructor; cbn; destruct Hp; congruence. }
  wp. destruct (negb (display_nonce (N_storage w) =? 0)).
  - apply wp_bind. unfold tx_of. cbn [nonce].
    apply wp_put_decimal; cbn [G_context N_storage ui log]; [done|lia|done|done|cbn; lia|by vm_compute|].
    intros u8 R8. cbn [negb].
    apply wp_bind, wp_add_pair; cbn [G_context N_storage ui log]; [apply R8|lia|]. intros u9 A9.
    assert (T9 : prefix_shown 8 u9 = first_pairs (ui w) ++ [("Nonce"%string, cstr (texts u8 Nonce))]).
    { rewrite <- T7, <- (prefix_rewrite 7 _ _ _ _ R8) by auto. apply (prefix_add 7 _ _ _ _ A9). }
    eapply wp_mono; [apply wp_review_end; cbn [G_context N_storage ui log]; [apply A9|lia|done|done|]|].
    { change (7 + 1)%nat with 8%nat. eapply (snd_pairs 7); [done|done|].
      rewrite (rw_pairs _ _ _ _ R8). auto. }
    cbn [G_context N_storage ui log]. intros r w' (Er & EG & EN & Wf & Sw & Sc & Lg & Sh). split_and!; try done.
    { by rewrite Sw, (pa_switches _ _ _ _ A9), (rw_switches _ _ _ _ R8). }
    exists (cstr (texts u8 Nonce)). split; [intros _; apply R8|].
    rewrite Sh. change (7 + 1)%nat with 8%nat. by rewrite T9, <- app_assoc.
  - eapply wp_mono; [apply wp_review_end; cbn [G_context N_storage ui log]; [done|lia|done|done|by auto]|].
    cbn [G_context N_storage ui log]. intros r w' (Er & EG & EN & Wf & Sw & Sc & Lg & Sh).
    split_and!; try done; [by rewrite Sw|]. exists []. split; [done|]. by rewrite Sh, T7.
Qed.

(** [shown u] is the review of [q] with [from] as the text of the first line. *)
Definition describes_from (q : payloads) (from hash : list Z) (dn dh : bool)
    (l : list (string * list Z)) : Prop :=
  forall a, from = checksummed a -> describes q a hash dn dh l.

(** The texts after the eight writes of [review_texts]. *)
Lemma eight_texts u u1 u2 u3 u4 u5 u6 u7 u8 PA PT PM PC PG PP :
  rewritten Amount (fun _ => True) u u1 -> rewritten Amount PA u1 u2 ->
  rewritten ToAddress PT u2 u3 -> rewritten MaxFees (fun _ => True) u3 u4 ->
  rewritten MaxFees PM u4 u5 -> rewritten ChainId PC u5 u6 -> rewritten GasLimit PG u6 u7 ->
  rewritten GasTipCap PP u7 u8 ->
  let T p := cstr (texts u8 p) in
  T FromAddress = cstr (texts u FromAddress) /\ PA (T Amount) /\ PT (T ToAddress) /\
  PM (T MaxFees) /\ PC (T ChainId) /\ PG (T GasLimit) /\ PP (T GasTipCap) /\
  switches u8 = switches u.
Proof.
  intros R1 R2 R3 R4 R5 R6 R7 R8 T. unfold T.
  repeat match goal with
    | R : rewritten ?p _ _ ?u |- context [texts ?u ?q] => rewrite (rw_other p _ _ _ R q) by done
    end.
  split_and!; [done|apply R2|apply R3|apply R5|apply R6|apply R7|apply R8|].
  repeat match goal with
    | R : rewritten _ _ _ ?u |- context [switches ?u] => rewrite (rw_switches _ _ _ _ R)
    end. done.
Qed.

Lemma wp_review_texts blind q w :
  payload_sizes q -> wf_ui (ui w) -> length (m_hash (tx_info (G_context w))) = 32%nat ->
  bytes (m_hash (tx_info (G_context w))) ->
  wp (review_texts e blind (tx_of q)) (fun r w' => r = 0 /\
    G_context w' = G_context w /\ N_storage w' = N_storage w /\ wf_ui (ui w') /\
    switches (ui w') = switches (ui w) /\ screen (ui w') = TransactionReview blind /\
    log w' = log w ++ [Screen (TransactionReview blind)] /\
    describes_from q (cstr (texts (ui w) FromAddress)) (m_hash (tx_info (G_context w)))
      (negb (display_nonce (N_storage w) =? 0)) (negb (display_tx_hash (N_storage w) =? 0))
      (shown (ui w'))) w.
Proof.
  intros Hq Hu Lh Bh. destruct (to_tx_of q Hq) as (Bt & Lt & Et).
  destruct Hq as [[Hc Bc] [Hn Bn] [Htip Btip] [Hcap Bcap] [Hgas Bgas] _ [Hval Bval]].
  unfold review_texts.
  change (value (tx_of q)) with (fill (zero_field 32) (pl_value q)).
  change (gas_fee_cap (tx_of q)) with (fill (zero_field 32) (pl_cap q)).
  change (gas (tx_of q)) with (fill (zero_field 8) (pl_gas q)).
  change (chain_id (tx_of q)) with (fill (zero_field 32) (pl_chain_id q)).
  change (gas_tip_cap (tx_of q)) with (fill (zero_field 32) (pl_tip q)).
  destruct (field_amount 32 (pl_value q) Hval ltac:(lia) Bval (replicate MAX_AMOUNT_LEN 0))
    as (av & Ev & Av & Lv); [apply length_replicate|].
  rewrite Ev. cbn [negb].
  apply wp_bind, wp_zero_text; [done|]. intros u1 R1.
  apply wp_bind. eapply wp_put_amount; cbn [G_context N_storage ui log];
    [done|exact Av|done|apply R1|]. intros u2 R2.
  apply wp_bind, wp_put_address; cbn [G_context N_storage ui log]; [done..|apply R2|].
  intros u3 R3. cbn [negb].
  destruct (fees_amount (pl_cap q) (pl_gas q) Hcap Bcap Hgas Bgas)
    as ([fp fl] & af & Em & Ef & Af & Lf).
  rewrite Em. cbn [fst snd] in Ef |- *.
  change (default 0%nat (Some fl)) with fl. cbn [negb]. rewrite Ef. cbn [negb].
  apply wp_bind, wp_zero_text; [apply R3|]. intros u4 R4.
  apply wp_bind. eapply wp_put_amount; cbn [G_context N_storage ui log];
    [done|exact Af|done|apply R4|]. intros u5 R5.
  apply wp_bind, wp_put_decimal; cbn [G_context N_storage ui log];
    [done|lia|done|apply R5|cbn; lia|by vm_compute|]. intros u6 R6. cbn [negb].
  apply wp_bind, wp_put_decimal; cbn [G_context N_storage ui log];
    [done|lia|done|apply R6|cbn; lia|by vm_compute|]. intros u7 R7. cbn [negb].
  destruct (field_amount 32 (pl_tip q) Htip ltac:(lia) Btip av Lv) as (at' & Ea & Aa & La).
  rewrite Ea. cbn [negb].
  apply wp_bind. eapply wp_put_amount; cbn [G_context N_storage ui log];
    [done|exact Aa|done|apply R7|]. intros u8 R8.
  eapply wp_mono; [apply wp_review_pairs|]; cbn [G_context N_storage ui log]; [apply R8|done..|].
  intros r w' (Er & EG & EN & Wf & Sw & Sc & Lg & nonce & Hnonce & Sh).
  destruct (eight_texts _ _ _ _ _ _ _ _ _ _ _ _ _ _ _ R1 R2 R3 R4 R5 R6 R7 R8)
    as (TF & TA & TT & TM & TC & TG & TP & TS).
  split_and!; try done; [by rewrite Sw|]. intros a Ha.
  do 6 eexists. rewrite Sh. unfold first_pairs, first_labels. cbn [fmap list_fmap].
  rewrite TF, Ha, <- TT, Et. split; [reflexivity|]. done.
Qed.

Lemma display_failure blind q w G' st u evs r a :
  G' = set_address a (G_context w) -> bytes a -> length a = ADDRESS_SIZE -> wf_ui u ->
  switches u = switches (ui w) -> (screen u = (SpinnerScreen "Getting address") \/ screen u = screen (ui w)) ->
  Forall is_screen evs ->
  let w' := World G' (set_work st (N_storage w)) u
    ((log w ++ evs) ++ [Response [] (u16 SW_DISPLAY_ADDRESS_FAIL)]) in
  display_frame w w' /\ (display_failed w w' \/ (r = 0 /\ consent e blind q w w')).
Proof.
  intros HG Ba La Wu Su Sc He w'. split; [|left].
  - split; cbn; [by exists a|by exists st|done|done].
  - split; [done|]. exists evs. split; [|done]. by rewrite app_assoc.
Qed.

Lemma wp_display blind q w n :
  wf_ctx n (G_context w) -> wf_ui (ui w) ->
  req_type (G_context w) = CONFIRM_TRANSACTION -> state (G_context w) = STATE_PARSED ->
  payload_sizes q ->
  wp (ui_display_transaction_bs_choice e blind (tx_of q))
    (fun r w' => display_frame w w' /\
      (display_failed w w' \/ (r = 0 /\ consent e blind q w w'))) w.
Proof.
  intros HG Hu Hreq Hst Hq. destruct (to_tx_of q Hq) as (Bt & Lt & Et).
  destruct (wf_address _ _ HG) as [Lad Bad]. destruct (wf_hash _ _ HG) as [Lh Bh].
  unfold ui_display_transaction_bs_choice. wp.
  rewrite bool_decide_eq_true_2 by done. cbn [negb]. wp.
  apply wp_address; cbn [G_context N_storage ui log]; [done|done|..].
  2:{ intros err _ Hne. wp. rewrite (proj2 (Z.eqb_neq _ _)) by done. cbn [negb]. wp.
      pose proof (display_failure blind q w _ (work (N_storage w)) (set_screen (SpinnerScreen "Getting address") (ui w))
        [Screen (SpinnerScreen "Getting address")] (io_ret e) _ eq_refl Bad Lad) as F.
      destruct (N_storage w). apply F; [by apply wf_set_screen|done|by left|by repeat constructor]. }
  2:{ intros st. unfold spinner_world. wp.
      rewrite (proj2 (Z.eqb_neq _ _)) by apply internal_error. cbn [negb]. wp.
      rewrite <- (app_assoc (log w)).
      apply (display_failure _ _ _ _ _ _ _ _ (address (G_context w))); try done;
        [by do 2 apply wf_set_screen|by left|by repeat constructor]. }
  intros st a Hd Ea Ba La. unfold spinner_world. wp. cbn [Z.eqb negb].
  assert (W0 : wf_ui (set_screen (SpinnerScreen "Getting address") (set_screen (SpinnerScreen "Getting address") (ui w))))
    by (by do 2 apply wf_set_screen).
  remember (set_screen (SpinnerScreen "Getting address") (set_screen (SpinnerScreen "Getting address") (ui w))) as u0 eqn:E0.
  assert (S0' : switches u0 = switches (ui w)) by (by rewrite E0). clear E0.
  apply wp_bind, wp_put_address; cbn [G_context N_storage ui log]; [done..|]. intros u1 R1. cbn [negb].
  eapply wp_mono; [apply (wp_review_texts blind q)|]; cbn [G_context N_storage ui log]; [done|apply R1|done|done|].
  intros r w' (Er & EG & EN & Wf & Sw & Sc & Lg & Sh). split.
  - split; [exists a; exact (conj EG (conj Ba La))|exists st; exact EN|exact Wf|].
    rewrite Sw, (rw_switches _ _ _ _ R1). exact S0'.
  - right. split; [exact Er|]. split; [exact Sc|rewrite EN; exact Hd|rewrite EG, EN; exact Ea| |].
    + rewrite EG. exact (Sh a (eq_sym (rw_text _ _ _ _ R1))).
    + eexists. rewrite Lg, <- !app_assoc. split; [reflexivity|by repeat constructor].
Qed.
End review.
