(* ===== verification/Machine.v ===== *)
(** * The application as a state machine

    The environment sends bytes, decides on a review, operates the settings,
    dismisses a status page, quits the application or resets the device; a step runs the handler to its
    end.  The transport waits for the reply to a command before the next one, so no
    command is received while a review is open.  The invariant of the reachable
    states says what every screen and every stored flag stand for. *)
From Stdlib Require Import String.
From S2P Require Import Prelude CInt Constants Rlp RlpSpec RlpBuffer TxFormat Keccak KeccakSpec Sponge Address Poly Sign KeyGen Sdk App Memory AppLogic Review.

#[local] Opaque pk_address derived KECCAK256 checksummed preimage describes.

Inductive action :=
  | Receive (received : option (list Z))
  | Choose (confirm : bool)
  | Control (token page : Z)
  | Dismiss
  | Quit
  | Restart.

Definition reviewing (s : screen_t) : bool :=
  match s with AddressReview | TransactionReview _ => true | _ => false end.

(** [alive] is false when [app_main] has returned. *)
Definition enabled (alive : bool) (w : world) (a : action) : bool :=
  match a with
  | Receive _ => alive && negb (reviewing (screen (ui w)))
  | Choose _ => alive && reviewing (screen (ui w))
  | Control _ _ => alive && match screen (ui w) with HomeScreen => true | _ => false end
  | Dismiss => alive && match screen (ui w) with StatusScreen _ => true | _ => false end
  | Quit => alive && match screen (ui w) with HomeScreen => true | _ => false end
  | Restart => true
  end.

Section machine.
Context `{SDK}.

Definition run (e : env) (a : action) : app bool :=
  match a with
  | Receive received => app_turn e received
  | Choose confirm => fun w =>
    (_ ← (match screen (ui w) with
          | TransactionReview _ => review_choice_transaction e confirm
          | _ => review_choice_address e confirm
          end); mret true) w
  | Control token page => _ ← controls_callback token page; mret true
  | Dismiss => _ ← ui_menu_main; mret true
  | Quit => app_quit
  | Restart => fun w =>
    (_ ← app_start; mret true) (World (zero_ctx MAX_BIP32_PATH) (N_storage w) zero_ui (log w))
  end.

(** The state after installation, before the first start. *)
Definition installed : world := World (zero_ctx MAX_BIP32_PATH) zero_storage zero_ui [].

(** The steps taken, each with the state it was taken in; then the state. *)
Inductive reachable : list (world * action) -> bool -> world -> Prop :=
| reach_start e b w : bytes (cx_rng e) -> run e Restart installed = Done b w -> reachable [] b w
| reach_step h b w a e b' w' :
    reachable h b w -> bytes (cx_rng e) -> enabled b w a = true -> run e a w = Done b' w' ->
    reachable (h ++ [(w, a)]) b' w'.

(** ** What a review stands for *)
Definition used_path (G : global_ctx_t) : list Z := take (Z.to_nat (bip32_path_len G)) (bip32_path G).
(** The bytes received for the transaction. *)
Definition received_tx (G : global_ctx_t) : list Z := take (raw_tx_len (tx_info G)) (raw_tx (tx_info G)).

(** The stored key is the FIPS 204 public key of the seed of the request's path, and
    the address is its own. *)
Definition own_address (w : world) : Prop :=
  (exists fuel, device_key fuel (used_path (G_context w)) (pk (work (N_storage w)))) /\
  address (G_context w) = pk_address (pk (work (N_storage w))).

(** The screen shows the transaction [q] that the bytes received encode, the hash
    to be signed is that of these bytes, and a transaction whose data are not
    shown is accepted only with blind signing enabled. *)
Record tx_consent (blind : bool) (q : payloads) (trailing : list Z) (w : world) : Prop := {
  tc_req : req_type (G_context w) = CONFIRM_TRANSACTION;
  tc_state : state (G_context w) = STATE_PARSED;
  tc_preimage : preimage 32 (received_tx (G_context w)) q trailing;
  tc_hash : m_hash (tx_info (G_context w)) = KECCAK256 (received_tx (G_context w));
  tc_shown : describes q (address (G_context w)) (m_hash (tx_info (G_context w)))
    (negb (display_nonce (N_storage w) =? 0)) (negb (display_tx_hash (N_storage w) =? 0))
    (shown (ui w));
  tc_address : own_address w;
  tc_blind : blind = negb (bool_decide (pl_data q = [] /\ pl_access q = []));
  tc_enabled : blind = true -> enable_blind_signing (N_storage w) <> 0 }.

Record address_consent (w : world) : Prop := {
  ac_req : req_type (G_context w) = CONFIRM_ADDRESS;
  ac_state : state (G_context w) = STATE_NONE;
  ac_path : is_valid_zond_bip32_path (bip32_path (G_context w))
    (Z.to_nat (bip32_path_len (G_context w))) = true;
  ac_shown : cstr (texts (ui w) ReviewedAddress) = checksummed (address (G_context w));
  ac_address : own_address w }.

(** The user accepted a transaction on the screen in one of the steps [h]. *)
Definition approved (h : list (world * action)) : Prop :=
  exists w blind q trailing, (w, Choose true) ∈ h /\
    screen (ui w) = TransactionReview blind /\ tx_consent blind q trailing w.

Definition is_bit (x : Z) : Prop := x = 0 \/ x = 1.

(** The settings page: each switch under its own name, with the value stored. *)
Definition settings_switches (N : internal_storage_t) : list nbgl_contentSwitch_t := [
  Switch (enable_blind_signing N) "Blind signing" "Enable transaction blind signing" FIRST_USER_TOKEN;
  Switch (display_nonce N) "Nonce" "Display nonce in transactions" (FIRST_USER_TOKEN + 1);
  Switch (display_tx_hash N) "Transaction hash" "Always display the transaction hash"
    (FIRST_USER_TOKEN + 2)].

Definition screen_ok (w : world) : Prop :=
  match screen (ui w) with
  | TransactionReview blind => exists q trailing, tx_consent blind q trailing w
  | AddressReview => address_consent w
  | HomeScreen => switches (ui w) = settings_switches (N_storage w)
  | _ => True
  end.

Record Inv (h : list (world * action)) (w : world) : Prop := {
  inv_ctx : wf_ctx MAX_BIP32_PATH (G_context w);
  inv_ui : wf_ui (ui w);
  inv_settings : is_bit (enable_blind_signing (N_storage w)) /\
    is_bit (display_nonce (N_storage w)) /\ is_bit (display_tx_hash (N_storage w));
  inv_screen : screen_ok w;
  inv_sending : is_bit (is_sending_signature (N_storage w)) /\
    (is_sending_signature (N_storage w) = 1 -> approved h);
  inv_memory : nvm_ok (work (N_storage w)) }.

(** ** What a command may do *)
Definition responses (evs : list event) : list (list Z * Z) :=
  omap (fun ev => match ev with Response d sw => Some (d, sw) | Screen _ => None end) evs.

(** Settings and switches are untouched; the flag of a transfer is kept or
    cleared; there is one reply and no review, or a review and no reply yet. *)
Record command_post (w w' : world) : Prop := {
  cp_ctx : wf_ctx MAX_BIP32_PATH (G_context w');
  cp_ui : wf_ui (ui w');
  cp_storage : exists st s, N_storage w' = set_is_sending_signature s (set_work st (N_storage w)) /\
    (s = is_sending_signature (N_storage w) \/ s = 0);
  cp_switches : switches (ui w') = switches (ui w);
  cp_reply : exists evs, log w' = log w ++ evs /\
    ((screen (ui w') = screen (ui w) \/ screen (ui w') = (SpinnerScreen "Getting address")) /\
       (exists r, responses evs = [r]) \/
     responses evs = [] /\ reviewing (screen (ui w')) = true /\ screen_ok w') }.

(** ** Replies *)
Lemma storage_same (N : internal_storage_t) :
  N = set_is_sending_signature (is_sending_signature N) (set_work (work N) N).
Proof. by destruct N. Qed.

(** The world after a command that only replies. *)
Lemma replied w G' N' evs r :
  wf_ctx MAX_BIP32_PATH G' -> wf_ui (ui w) ->
  (exists st s, N' = set_is_sending_signature s (set_work st (N_storage w)) /\
    (s = is_sending_signature (N_storage w) \/ s = 0)) ->
  responses evs = [r] -> command_post w (World G' N' (ui w) (log w ++ evs)).
Proof.
  intros HG Hu HN Hr. split; cbn; [done|done|done|done|]. exists evs. split; [done|]. left.
  split; [by left|]. by exists r.
Qed.

Lemma replied_ctx w G' r :
  wf_ctx MAX_BIP32_PATH G' -> wf_ui (ui w) ->
  command_post w (World G' (N_storage w) (ui w) (log w ++ [Response (fst r) (snd r)])).
Proof.
  intros HG Hu. apply (replied _ _ _ _ r); [done|done| |by destruct r].
  exists (work (N_storage w)), (is_sending_signature (N_storage w)).
  split; [apply storage_same|by left].
Qed.

Lemma keccak256_of m : bytes m ->
  fst (keccak256_squeeze (keccak256_finalize (keccak256_absorb keccak256_init m (length m))))
  = KECCAK256 m.
Proof.
  intros Hm. pose proof (keccak_sponge KECCAK256_RATE 0x01 [m] [32%nat]
    ltac:(unfold KECCAK256_RATE; lia) ltac:(lia)) as K.
  cbn [concat sum_list] in K. rewrite app_nil_r in K. specialize (K Hm).
  etransitivity; [|exact K]. cbn [squeezes].
  unfold keccak256_squeeze, keccak256_finalize, keccak256_absorb, keccak256_init, absorbs.
  cbn [fold_left]. destruct (squeeze _ _ _ _ 32) as [o c]. cbn [fst]. symmetry. apply app_nil_r.
Qed.
Lemma KECCAK256_ok m : bytes m -> bytes (KECCAK256 m) /\ length (KECCAK256 m) = 32%nat.
Proof.
  intros Hm. rewrite <- keccak256_of by done. unfold keccak256_squeeze, squeeze.
  split; [apply squeeze_loop_bytes; unfold KECCAK256_RATE; lia|apply squeeze_loop_length].
Qed.
End machine.

Section commands.
Context {device : SDK} {laws : SDK_laws device} (e : env).

(** ** Commands without a screen *)
Lemma wp_send_sw sw w : wf_ctx MAX_BIP32_PATH (G_context w) -> wf_ui (ui w) ->
  wp (io_send_sw e sw) (fun _ w' => command_post w w') w.
Proof. intros HG Hu. wp. destruct w. by apply (replied_ctx (World _ _ _ _) _ ([], u16 sw)). Qed.

Lemma wp_pk_chunk i w : wf_ctx MAX_BIP32_PATH (G_context w) -> wf_ui (ui w) ->
  wp (helper_send_response_pk_chunk e i) (fun _ w' => command_post w w') w.
Proof.
  intros HG Hu. unfold helper_send_response_pk_chunk. destruct (_ <=? _)%nat; [by apply wp_send_sw|].
  wp. cbv zeta. destruct w. by apply (replied_ctx (World _ _ _ _) _ (_, _)).
Qed.

Lemma wp_sig_chunk i w : (0 < i)%nat -> wf_ctx MAX_BIP32_PATH (G_context w) -> wf_ui (ui w) ->
  wp (helper_send_response_sig e i) (fun _ w' => command_post w w') w.
Proof.
  intros Hi HG Hu. unfold helper_send_response_sig. wp.
  assert (Hc : forall Q : Z -> world -> Prop, (forall d, Q (io_ret e) (World (G_context w) (N_storage w) (ui w) (log w ++ [Response d (u16 SW_OK)]))) ->
    wp (if (i <? 17)%nat then
         let resp := copy_chunk (sig (work (N_storage w))) i SIGNATURE_CHUNK_SIZE SIGNATURE_CHUNK_SIZE (replicate SIGNATURE_CHUNK_SIZE 0) in
         io_send_response_pointer e resp SW_OK
       else
         let resp := copy_chunk (sig (work (N_storage w))) i SIGNATURE_CHUNK_SIZE SIGNATURE_LAST_CHUNK_SIZE (replicate SIGNATURE_LAST_CHUNK_SIZE 0) in
         io_send_response_pointer e resp SW_OK) Q w).
  { intros Q HQ. destruct (_ <? _)%nat; wp; apply HQ. }
  apply Hc. intros d. wp. rewrite (proj2 (Nat.eqb_neq i 0)) by lia.
  destruct (i =? 17)%nat; wp.
  - apply (replied _ _ _ _ (d, u16 SW_OK)); [done|done| |done].
    exists (work (N_storage w)), 0. split; [by destruct (N_storage w)|by right].
  - by apply (replied_ctx w _ (d, u16 SW_OK)).
Qed.

Lemma wp_send_address w : wf_ctx MAX_BIP32_PATH (G_context w) -> wf_ui (ui w) ->
  wp (helper_send_response_address e) (fun _ w' => command_post w w') w.
Proof.
  intros HG Hu. unfold helper_send_response_address. wp. destruct w.
  by apply (replied_ctx (World _ _ _ _) _ (_, _)).
Qed.

(** ** Reading the path *)
Lemma wp_read_path cdata (Q : bool -> world -> Prop) w :
  (forall ok len path, length path = length (bip32_path (G_context w)) ->
    Q ok (World (set_bip32_path path (set_bip32_path_len len (G_context w))) (N_storage w) (ui w) (log w))) ->
  wp (read_path cdata) Q w.
Proof.
  intros HQ. unfold read_path. destruct (buffer_read_u8 cdata) as [[ok len] c]. wp.
  destruct ok; cbn [negb].
  - wp. pose proof (read_path_length c (bip32_path (set_bip32_path_len len (G_context w))) (Z.to_nat len)) as Hl.
    destruct (buffer_read_bip32_path _ _ _) as [[ok path] c']. wp. by apply HQ.
  - wp. pose proof (HQ false len (bip32_path (G_context w)) eq_refl) as F. by destruct (G_context w).
Qed.

Lemma wf_set_path n path len G : wf_ctx n G -> length path = n ->
  wf_ctx n (set_bip32_path path (set_bip32_path_len len G)).
Proof. intros [] Hl. by split. Qed.
Lemma wf_set_state n s G : wf_ctx n G -> wf_ctx n (set_state s G).
Proof. intros []. by split. Qed.
Lemma wf_set_req n s G : wf_ctx n G -> wf_ctx n (set_req_type s G).
Proof. intros []. by split. Qed.
Lemma wf_set_addr n a G : wf_ctx n G -> bytes a -> length a = ADDRESS_SIZE -> wf_ctx n (set_address a G).
Proof. intros [] Ba La. by split. Qed.

(** ** Public keys *)

Lemma derived_key path st st' :
  nvm_ok st -> derived e path st st' -> exists fuel, device_key fuel path (pk st').
Proof using laws.
  intros Hst Hd. Transparent derived. unfold derived in Hd. pose proof (derive_seed path) as Hs.
  destruct (os_derive_bip32 path) as [err raw] eqn:Eo. destruct Hd as [-> Hk]. destruct (Hs eq_refl) as [_ Hb].
  destruct (keypair_ok _ _ _ _ _ (Forall_take _ 32 raw Hb) Hst Hk) as (_ & s1 & s2 & T & HT & Ep).
  exists (fuel e), raw, s1, s2, T. split; [exact Eo|]. split; [exact HT|exact Ep].
Qed.
#[local] Opaque derived.

(** The world after a derivation for the path of the context. *)
Lemma derived_post w st a (G1 : global_ctx_t) :
  wf_ctx MAX_BIP32_PATH G1 -> wf_ui (ui w) -> bytes a -> length a = ADDRESS_SIZE ->
  forall r, command_post w (World (set_address a G1) (set_work st (N_storage w))
    (set_screen (SpinnerScreen "Getting address") (ui w)) ((log w ++ [Screen (SpinnerScreen "Getting address")]) ++ [Response (fst r) (snd r)])).
Proof.
  intros HG Hu Ba La r. split; cbn.
  - by apply wf_set_addr.
  - by apply wf_set_screen.
  - exists st, (is_sending_signature (N_storage w)). split; [by destruct (N_storage w)|by left].
  - done.
  - eexists. rewrite <- app_assoc. split; [done|]. left. split; [by right|]. exists r. by destruct r.
Qed.

Lemma wp_display_address w1 w G1 st a :
  G_context w1 = set_address a G1 -> N_storage w1 = set_work st (N_storage w) ->
  ui w1 = set_screen (SpinnerScreen "Getting address") (ui w) -> log w1 = log w ++ [Screen (SpinnerScreen "Getting address")] ->
  req_type G1 = CONFIRM_ADDRESS -> state G1 = STATE_NONE ->
  is_valid_zond_bip32_path (bip32_path G1) (Z.to_nat (bip32_path_len G1)) = true ->
  derived e (used_path G1) (work (N_storage w)) st -> a = pk_address (pk st) ->
  wf_ctx MAX_BIP32_PATH G1 -> wf_ui (ui w) -> nvm_ok (work (N_storage w)) -> bytes a -> length a = ADDRESS_SIZE ->
  wp (ui_display_address e) (fun _ w' => command_post w w') w1.
Proof.
  intros EG EN EU EL Hreq Hst Hpath Hd Ea HG Hu Hw Ba La. unfold ui_display_address. wp.
  rewrite EG. cbn [req_type state address set_address]. rewrite (bool_decide_eq_true_2 _ (conj Hreq Hst)).
  cbn [negb]. assert (Wu : wf_ui (ui w1)) by (rewrite EU; by apply wf_set_screen).
  apply wp_bind, wp_put_address; [done|done|done|done|]. intros u R. cbn [negb]. wp.
  rewrite EG, EN, EL. split; cbn.
  - by apply wf_set_addr.
  - apply wf_set_screen, R.
  - exists st, (is_sending_signature (N_storage w)). split; [by destruct (N_storage w)|by left].
  - rewrite (rw_switches _ _ _ _ R), EU. done.
  - eexists. rewrite <- app_assoc. split; [done|]. right. split; [done|]. split; [done|].
    split; cbn; [done|done|done|symmetry; apply R|].
    split; cbn; [|exact Ea]. exact (derived_key _ _ _ Hw Hd).
Qed.

Lemma wp_get_public_key cdata display w :
  wf_ui (ui w) -> nvm_ok (work (N_storage w)) ->
  wp (handler_get_public_key e cdata display) (fun _ w' => command_post w w') w.
Proof.
  intros Hu Hw. unfold handler_get_public_key. wp.
  apply wp_read_path. cbn [G_context N_storage ui log]. intros ok len path Hl.
  set (G1 := set_bip32_path _ _). assert (H1 : wf_ctx MAX_BIP32_PATH G1).
  { apply wf_set_path; [|rewrite Hl; apply length_replicate]. apply wf_set_state, wf_set_req, wf_zero_ctx. }
  assert (R1 : req_type G1 = CONFIRM_ADDRESS /\ state G1 = STATE_NONE) by done. clearbody G1.
  assert (Hs : forall sw, wp (io_send_sw e sw) (fun _ w' => command_post w w')
    (World G1 (N_storage w) (ui w) (log w))).
  { intros sw. wp. by apply (replied_ctx w _ ([], u16 sw)). }
  destruct ok; cbn [negb]; [|by apply Hs]. wp.
  destruct (is_valid_zond_bip32_path _ _) eqn:Hv; cbn [negb]; [|by apply Hs].
  apply wp_bind, wp_address; cbn [G_context N_storage ui log]; [apply H1|apply H1|..].
  - intros st a Hd Ea Ba La. unfold spinner_world. wp. cbn [Z.eqb negb]. destruct display.
    + apply (wp_display_address _ w G1 st a); first [assumption|reflexivity|apply R1].
    + unfold helper_send_response_address. wp. apply (derived_post w st a G1 H1 Hu Ba La (_, _)).
  - intros err _ Hne. wp. rewrite (proj2 (Z.eqb_neq _ _)) by done. cbn [negb]. wp.
    pose proof (wf_address _ _ H1) as [? ?]. apply (replied_ctx w _ ([], u16 err)); [|done].
    by apply wf_set_addr.
  - intros st. unfold spinner_world. wp. rewrite (proj2 (Z.eqb_neq _ _)) by apply internal_error.
    cbn [negb]. wp. pose proof (wf_address _ _ H1) as [La Ba].
    by apply (derived_post w st _ G1 H1 Hu Ba La ([], u16 CX_INTERNAL_ERROR)).
Qed.

(** ** Transaction bytes *)

(** The context after [d] has been appended to the bytes received. *)
Definition appended (d : list Z) (G : global_ctx_t) : global_ctx_t :=
  let t := tx_info G in
  set_tx_info (TxCtx (take (raw_tx_len t) (raw_tx t) ++ d ++
                      drop (raw_tx_len t + length d) (raw_tx t))
                (raw_tx_len t + length d) (m_hash t)) G.

Lemma append_chunk_run n d w :
  wf_ctx n (G_context w) ->
  let G := G_context w in let len := length (default [] d) in
  append_chunk (Buffer d len 0) w =
    if decide (req_type G <> CONFIRM_TRANSACTION) then Done (Some SW_BAD_STATE) w
    else if decide (MAX_TRANSACTION_LEN < raw_tx_len (tx_info G) + len)%nat
    then Done (Some SW_WRONG_TX_LENGTH) w
    else Done None (World (appended (default [] d) G) (N_storage w) (ui w) (log w)).
Proof.
  intros HG G len. unfold append_chunk, ctx, mbind, app_bind. cbn [buf_size]. fold G.
  destruct (decide (req_type G = CONFIRM_TRANSACTION)) as [Hreq|Hreq].
  2:{ rewrite bool_decide_eq_false_2 by done. cbn [negb]. by rewrite decide_True. }
  rewrite bool_decide_eq_true_2 by done. cbn [negb].
  rewrite (decide_False (P := req_type G <> CONFIRM_TRANSACTION)) by naive_solver.
  destruct (Nat.ltb_spec MAX_TRANSACTION_LEN (raw_tx_len (tx_info G) + len)) as [Hl|Hl].
  { by rewrite decide_True by done. }
  rewrite decide_False by lia. destruct (wf_raw _ _ HG) as [Lr _]. fold G in Lr.
  rewrite move_all; [|done|rewrite length_drop; lia]. cbn [negb buf_size].
  unfold upd_ctx. cbn [G_context N_storage ui log]. fold G. unfold appended. unfold blit at 1.
  cbn [take app Nat.add]. by rewrite drop_drop.
Qed.

Lemma wf_appended n d G :
  wf_ctx n G -> bytes d -> (raw_tx_len (tx_info G) + length d <= MAX_TRANSACTION_LEN)%nat ->
  wf_ctx n (appended d G) /\ received_tx (appended d G) = received_tx G ++ d.
Proof.
  intros [[Lr Br] Hlen Hh Hp Ha] Bd Hl. unfold appended, received_tx.
  assert (Lt : length (take (raw_tx_len (tx_info G)) (raw_tx (tx_info G))) = raw_tx_len (tx_info G))
    by (rewrite length_take; lia).
  split.
  - split; cbn; [|done|done|done|done]. split.
    + rewrite !length_app, Lt, length_drop. lia.
    + apply Forall_app. split; [by apply Forall_take|]. apply Forall_app. split; [done|by apply Forall_drop].
  - cbn. rewrite app_assoc. apply take_app_length'. rewrite length_app. lia.
Qed.

Definition chunk_bytes (d : option (list Z)) : Prop := bytes (default [] d).

Lemma wp_append d (Q : option Z -> world -> Prop) w :
  wf_ctx MAX_BIP32_PATH (G_context w) -> chunk_bytes d ->
  (forall sw, Q (Some sw) w) ->
  (forall G', req_type (G_context w) = CONFIRM_TRANSACTION -> wf_ctx MAX_BIP32_PATH G' ->
    G' = appended (default [] d) (G_context w) -> Q None (World G' (N_storage w) (ui w) (log w))) ->
  wp (append_chunk (Buffer d (length (default [] d)) 0)) Q w.
Proof.
  intros HG Hd Herr Hok. unfold wp. rewrite (append_chunk_run MAX_BIP32_PATH) by done.
  case_decide; [apply Herr|]. case_decide; [apply Herr|]. apply Hok.
  - destruct (req_type (G_context w)); [|done]. by exfalso.
  - apply wf_appended; [done|done|lia].
  - done.
Qed.

(** ** The last chunk: hash, decode, review *)
Definition parsed_ctx (G : global_ctx_t) : global_ctx_t :=
  set_tx_info (TxCtx (raw_tx (tx_info G)) (raw_tx_len (tx_info G)) (KECCAK256 (received_tx G)))
    (set_state STATE_PARSED G).

Lemma received_bytes n G : wf_ctx n G ->
  bytes (received_tx G) /\ length (received_tx G) = raw_tx_len (tx_info G).
Proof.
  intros [[Lr Br] Hlen _ _ _]. unfold received_tx. split; [by apply Forall_take|].
  rewrite length_take. lia.
Qed.

Lemma wf_parsed n G : wf_ctx n G -> wf_ctx n (parsed_ctx G).
Proof.
  intros HG. destruct (received_bytes n G HG) as [B _]. destruct (KECCAK256_ok _ B) as [Bk Lk].
  by destruct HG; split.
Qed.

Lemma hash_received n G : wf_ctx n G ->
  fst (keccak256_squeeze (keccak256_finalize
    (keccak256_absorb keccak256_init (raw_tx (tx_info G)) (raw_tx_len (tx_info G))))) =
  KECCAK256 (received_tx G).
Proof.
  intros HG. destruct (received_bytes n G HG) as [B L]. rewrite <- keccak256_of by done.
  rewrite L. unfold keccak256_absorb, absorb, received_tx. by rewrite take_take, Nat.min_id.
Qed.

(** The decoder's verdict on the bytes received. *)
Lemma decode_received n G : wf_ctx n G ->
  let r := decode_ledger_tx 32 (Some (raw_tx (tx_info G))) (Z.of_nat (raw_tx_len (tx_info G))) (Some zero_tx) in
  (exists q t, preimage 32 (received_tx G) q t /\ payload_sizes q /\ r = Decoded 0 (tx_of q)) \/
  (exists tx, r = Decoded (-1) tx).
Proof.
  intros HG. destruct (received_bytes n G HG) as [B L]. cbv zeta.
  destruct HG as [[Lr _] Hlen _ _ _].
  assert (Hok : input_ok (received_tx G)).
  { split; [done|]. rewrite L. unfold MAX_TRANSACTION_LEN in Hlen. lia. }
  assert (Hr : forall res, res <> DecodeOob ->
    decode_ledger_tx 32 (Some (received_tx G)) (Z.of_nat (length (received_tx G))) (Some zero_tx) = res ->
    decode_ledger_tx 32 (Some (raw_tx (tx_info G))) (Z.of_nat (raw_tx_len (tx_info G))) (Some zero_tx) = res).
  { intros res Hres E. rewrite <- (take_drop (raw_tx_len (tx_info G)) (raw_tx (tx_info G))) at 1.
    fold (received_tx G). rewrite L in E. by rewrite decode_prefix; rewrite E. }
  destruct (decode_cases 32 ltac:(lia) _ Hok) as [(q & t & Hp & E)|[_ [tx E]]].
  - left. exists q, t. split; [done|]. split; [by eapply preimage_sizes|]. by apply Hr.
  - right. exists tx. by apply Hr.
Qed.


Lemma screens_silent evs : Forall is_screen evs -> responses evs = [].
Proof. induction 1 as [|[d sw|s] evs Hs _ IH]; [done|done|exact IH]. Qed.
Lemma responses_app l k : responses (l ++ k) = responses l ++ responses k.
Proof. apply omap_app. Qed.

(** From the world [w1] in which the review is prepared to a command begun in [w]. *)
Lemma review_opened w G1 w' blind q t :
  let w1 := World G1 (N_storage w) (ui w) (log w) in
  nvm_ok (work (N_storage w)) -> wf_ctx MAX_BIP32_PATH G1 -> req_type G1 = CONFIRM_TRANSACTION -> state G1 = STATE_PARSED ->
  preimage 32 (received_tx G1) q t -> m_hash (tx_info G1) = KECCAK256 (received_tx G1) ->
  blind = negb (bool_decide (pl_data q = [] /\ pl_access q = [])) ->
  (blind = true -> enable_blind_signing (N_storage w) <> 0) ->
  display_frame w1 w' -> display_failed w1 w' \/ consent e blind q w1 w' -> command_post w w'.
Proof.
  intros w1 Hw HG Hreq Hst Hp Hh Hb Hen [(a & Fa & Ba & La) (st & Fs) Fu Fw] Hc.
  split.
  - rewrite Fa. by apply wf_set_addr.
  - exact Fu.
  - exists st, (is_sending_signature (N_storage w)). split; [|by left]. rewrite Fs. by destruct (N_storage w).
  - exact Fw.
  - destruct Hc as [[Hs (evs & El & Hev)]|[Hs Hk Ha Hd (evs & El & Hev)]].
    + exists (evs ++ [Response [] SW_DISPLAY_ADDRESS_FAIL]). split; [exact El|]. left.
      split; [destruct Hs; auto|]. eexists. by rewrite responses_app, (screens_silent _ Hev).
    + exists evs. split; [exact El|]. right. split; [by apply screens_silent|]. rewrite Hs. split; [done|].
      unfold screen_ok. rewrite Hs. exists q, t. rewrite Fa in Ha, Hd.
      split; rewrite ?Fa; [exact Hreq|exact Hst|exact Hp|exact Hh| | |exact Hb|rewrite Fs; exact Hen].
      * rewrite Fs. exact Hd.
      * split; rewrite Fa; [|exact Ha]. exact (derived_key _ _ _ Hw Hk).
Qed.

Lemma wp_last_chunk G1 w :
  wf_ctx MAX_BIP32_PATH G1 -> req_type G1 = CONFIRM_TRANSACTION -> wf_ui (ui w) -> nvm_ok (work (N_storage w)) ->
  wp (last_chunk e) (fun _ w' => command_post w w')
    (World G1 (N_storage w) (ui w) (log w)).
Proof.
  intros HG Hreq Hu Hw. unfold last_chunk. wp. cbv zeta.
  cbn [set_state tx_info]. rewrite (hash_received MAX_BIP32_PATH) by done.
  fold (parsed_ctx G1). pose proof (wf_parsed _ _ HG) as HP.
  assert (Hs : forall sw, wp (io_send_sw e sw) (fun _ w' => command_post w w')
    (World (parsed_ctx G1) (N_storage w) (ui w) (log w))).
  { intros sw. wp. by apply (replied_ctx w _ ([], u16 sw)). }
  destruct (decode_received _ G1 HG) as [(q & t & Hp & Hq & ->)|[tx ->]]; cbn [Z.eqb negb]; [|by apply Hs].
  wp. unfold tx_of at 1 2 3 4; cbn [has_data has_access_list]. fold (tx_of q).
  set (blind := bool_decide (pl_data q <> []) || _).
  assert (Hblind : blind = negb (bool_decide (pl_data q = [] /\ pl_access q = []))).
  { unfold blind. by destruct (pl_data q), (pl_access q). }
  destruct (blind && (enable_blind_signing (N_storage w) =? 0)) eqn:Hen; [by apply Hs|].
  eapply wp_mono; [by apply (wp_display _ blind q _ MAX_BIP32_PATH)|]. cbn beta.
  intros r w' [Hf Hc]. apply (review_opened w (parsed_ctx G1) w' blind q t); try done.
  - intros Hb E. rewrite Hb, E in Hen. done.
  - destruct Hc as [Hc|[_ Hc]]; [by left|by right].
Qed.

(** ** Every command *)
Lemma wp_sign_tx d p1 p2 w :
  wf_ctx MAX_BIP32_PATH (G_context w) -> wf_ui (ui w) -> nvm_ok (work (N_storage w)) -> chunk_bytes d ->
  wp (handler_sign_tx e (Buffer d (length (default [] d)) 0) p1 p2) (fun _ w' => command_post w w') w.
Proof.
  intros HG Hu Hw Hd. unfold handler_sign_tx. destruct (p1 =? 0).
  { wp. apply wp_read_path. cbn [G_context N_storage ui log]. intros ok len path Hl.
    set (G1 := set_bip32_path _ _). assert (H1 : wf_ctx MAX_BIP32_PATH G1).
    { apply wf_set_path; [|rewrite Hl; apply length_replicate]. apply wf_set_state, wf_set_req, wf_zero_ctx. }
    assert (Hs : forall sw, wp (io_send_sw e sw) (fun _ w' => command_post w w')
      (World G1 (N_storage w) (ui w) (log w))).
    { intros sw. wp. by apply (replied_ctx w _ ([], u16 sw)). }
    destruct ok; cbn [negb]; [|by apply Hs]. wp.
    destruct (is_valid_zond_bip32_path _ _); cbn [negb]; by apply Hs. }
  destruct (p1 =? 1).
  { apply wp_bind, wp_append; [done|done|intros sw; by apply wp_send_sw|].
    intros G' _ HG' _. wp. by apply (replied_ctx w _ ([], u16 SW_OK)). }
  destruct ((p1 =? 2) && (p2 =? 0)).
  { apply wp_bind, wp_append; [done|done|intros sw; by apply wp_send_sw|].
    intros G' Hreq HG' EG'. apply wp_last_chunk; [done| |done|done]. by rewrite EG'. }
  destruct ((p1 =? 2) && (0 <? p2) && (p2 <? 18)) eqn:Hp2; [|by apply wp_send_sw].
  wp. destruct (negb (bool_decide _)); [by apply wp_send_sw|]. wp.
  destruct (negb _); [|by apply wp_send_sw]. apply wp_sig_chunk; [|done|done]. lia.
Qed.

Lemma wp_dispatcher cmd w :
  command_ok cmd -> wf_ctx MAX_BIP32_PATH (G_context w) -> wf_ui (ui w) -> nvm_ok (work (N_storage w)) ->
  wp (apdu_dispatcher e cmd) (fun _ w' => command_post w w') w.
Proof.
  intros (_ & _ & _ & _ & Hd) HG Hu Hw. unfold apdu_dispatcher.
  assert (Hs : forall d sw, wp (io_send_response_pointer e d sw) (fun _ w' => command_post w w') w).
  { intros d sw. wp. destruct w. by apply (replied_ctx (World _ _ _ _) _ (d, u16 sw)). }
  assert (Hlc : lc cmd = length (default [] (data cmd)) /\ chunk_bytes (data cmd)).
  { unfold chunk_bytes. destruct (data cmd); cbn; [tauto|split; [done|constructor]]. }
  destruct Hlc as [-> Hb]. cbv zeta.
  repeat match goal with
    | |- wp (if ?c then _ else _) _ _ => destruct c
    end; try (by apply Hs).
  - by apply wp_pk_chunk.
  - destruct (data cmd); first [by apply wp_get_public_key|by apply Hs].
  - by apply wp_sign_tx.
Qed.

Lemma wp_turn received w :
  wf_ctx MAX_BIP32_PATH (G_context w) -> wf_ui (ui w) -> nvm_ok (work (N_storage w)) ->
  wp (app_turn e received) (fun _ w' => received <> None -> command_post w w') w /\
  (received = None -> app_turn e received w = Done false w).
Proof.
  intros HG Hu Hw. unfold app_turn. destruct received as [apdu|]; [|split; [by apply wp_ret|done]].
  split; [|done]. destruct (apdu_parser apdu) as [cmd|] eqn:E.
  - apply wp_bind. eapply wp_mono; [apply wp_dispatcher; [by eapply apdu_parser_ok|done|done|done]|].
    intros r w' Hc. by wp.
  - apply wp_bind. eapply wp_mono; [by apply wp_send_sw|]. intros r w' Hc. by wp.
Qed.
End commands.
