(* ===== verification/Invariant.v ===== *)
(** * The invariant of the reachable states

    Every step preserves [Inv]: what a screen stands for, the settings and their
    switches, and the approval behind an open transfer of a signature. *)
From Stdlib Require Import String.
From S2P Require Import Prelude CInt Constants Rlp RlpSpec RlpBuffer TxFormat Keccak KeccakSpec Sponge Address Poly Sign KeyGen Sdk App Memory AppLogic Review Machine.

#[local] Opaque pk_address derived KECCAK256 checksummed preimage describes.
#[local] Opaque crypto_sign_optimized crypto_verify_optimized wipe_nvm_secrets.

(** ** The decision on a transaction *)
Section choice.
Context `{SDK} (e : env).

(** What is signed: the hash in the context, with the key of its path. *)
Definition sign_call (G : global_ctx_t) (st : nvm) : option (Z * nvm) :=
  crypto_sign_optimized (fuel e) (cx_rng e) (used_path G) (Some (take 32 (m_hash (tx_info G)))) st.
Definition verify_call (G : global_ctx_t) (st : nvm) : option (Z * option bool * nvm) :=
  crypto_verify_optimized (fuel e) (used_path G) (Some (sig st)) (Some (take 32 (m_hash (tx_info G)))) st.

(** The storage when signing, or the verification after it, fails. *)
Definition sign_failed (G : global_ctx_t) (st0 st : nvm) : Prop :=
  (exists err, err <> 0 /\ sign_call G st0 = Some (err, st)) \/
  (exists st1 err v, sign_call G st0 = Some (0, st1) /\ verify_call G st1 = Some (err, v, st) /\
    ~ (err = 0 /\ v = Some true)).

Lemma wp_crypto_sign_message (Q : Z -> world -> Prop) w :
  (forall st1 st2, sign_call (G_context w) (work (N_storage w)) = Some (0, st1) ->
    verify_call (G_context w) st1 = Some (0, Some true, st2) ->
    Q 0 (World (G_context w) (set_work (wipe_nvm_secrets st2) (N_storage w)) (ui w) (log w))) ->
  (forall st, sign_failed (G_context w) (work (N_storage w)) st ->
    Q (-1) (World (G_context w) (set_work (wipe_nvm_secrets st) (N_storage w)) (ui w) (log w))) ->
  wp (crypto_sign_message e) Q w.
Proof.
  intros Hok Hko. unfold crypto_sign_message, wipe_secrets. wp. apply wp_crypto.
  intros error st1 Hs. destruct (Z.eqb_spec error 0) as [->|Hne]; cbn [negb].
  2:{ apply wp_bind, wp_crypto. intros [] st [= <-]. wp. apply Hko. left. by exists error. }
  wp. apply wp_crypto. cbn [N_storage]. intros [error verified] st2 Hv.
  apply wp_bind, wp_crypto. intros [] st [= <-]. cbn [G_context N_storage ui log].
  assert (Hf : ~ (error = 0 /\ verified = Some true) -> sign_failed (G_context w) (work (N_storage w)) st2)
    by (intros; right; by exists st1, error, verified).
  destruct (Z.eqb_spec error 0) as [->|Hne]; cbn [negb orb]; [|wp; apply Hko, Hf; tauto].
  destruct verified as [[|]|]; cbn [default negb]; wp; [|apply Hko, Hf; intros [_ [=]]..].
  by apply (Hok st1 st2).
Qed.

(** The world after the decision [confirm]: the reply, then the status page, which
    depends on the decision only. *)
Definition status_of (confirm : bool) : status_t :=
  if confirm then STATUS_TYPE_TRANSACTION_SIGNED else STATUS_TYPE_TRANSACTION_REJECTED.
Definition decided (confirm : bool) (s : state_e) (st : nvm) (sending : Z) (r : list Z * Z) (w : world) : world :=
  World (set_state s (G_context w)) (set_is_sending_signature sending (set_work st (N_storage w)))
    (set_screen (StatusScreen (status_of confirm)) (ui w))
    (log w ++ (if confirm then [Screen (SpinnerScreen "Signing")] else []) ++
     [Response (fst r) (snd r); Screen (StatusScreen (status_of confirm))]).

Lemma wp_review_choice (confirm : bool) (Q : () -> world -> Prop) w :
  (confirm = true -> forall st1 st2, sign_call (G_context w) (work (N_storage w)) = Some (0, st1) ->
    verify_call (G_context w) st1 = Some (0, Some true, st2) ->
    let st := wipe_nvm_secrets st2 in
    Q tt (decided true STATE_APPROVED st 1
      (copy_chunk (sig st) 0 SIGNATURE_CHUNK_SIZE SIGNATURE_CHUNK_SIZE (replicate SIGNATURE_CHUNK_SIZE 0), SW_OK) w)) ->
  (confirm = true -> forall st, sign_failed (G_context w) (work (N_storage w)) st -> Q tt (decided true STATE_NONE (wipe_nvm_secrets st)
    (is_sending_signature (N_storage w)) ([], SW_SIGNATURE_FAIL) w)) ->
  (confirm = false -> Q tt (decided false STATE_NONE (work (N_storage w))
    (is_sending_signature (N_storage w)) ([], SW_DENY) w)) ->
  wp (review_choice_transaction e confirm) Q w.
Proof.
  intros Hok Hko Hno. unfold review_choice_transaction, validate_transaction. destruct confirm.
  - wp. apply wp_crypto_sign_message; cbn [G_context N_storage ui log].
    + intros st1 st2 Hs Hv. cbn [Z.eqb negb]. unfold helper_send_response_sig. wp.
      cbn [Nat.ltb Nat.leb Nat.eqb]. wp. specialize (Hok eq_refl st1 st2 Hs Hv). unfold decided in Hok.
      cbn [fst snd app] in Hok. rewrite <- !app_assoc. cbn [app]. exact Hok.
    + intros st Hf. cbn [Z.eqb negb]. wp. specialize (Hko eq_refl st Hf). unfold decided in Hko.
      cbn [fst snd app] in Hko. rewrite <- !app_assoc. cbn [app].
      destruct (N_storage w). exact Hko.
  - wp. specialize (Hno eq_refl). unfold decided in Hno. cbn [fst snd app] in Hno.
    rewrite <- !app_assoc. cbn [app]. destruct (N_storage w). exact Hno.
Qed.
End choice.

(** ** Signing in a well-formed memory *)
Section signing.
Context {device : SDK} {laws : SDK_laws device} (e : env).
Context (n : nat) (G : global_ctx_t) (st : nvm).
Context (rng_bytes : bytes (cx_rng e)) (G_ok : wf_ctx n G) (st_ok : nvm_ok st).

(** The 32 bytes signed. *)
Definition signed_hash : list Z := take 32 (m_hash (tx_info G)).
Lemma signed_hash_ok : bytes signed_hash /\ signed_hash <> [].
Proof using G_ok.
  destruct (wf_hash _ _ G_ok) as [Hl Hb]. unfold signed_hash. rewrite take_ge by (rewrite Hl; lia).
  split; [exact Hb|]. intros E. by rewrite E in Hl.
Qed.

Lemma signing_succeeds st1 :
  sign_call e G st = Some (0, st1) ->
  device_signature (fuel e) (used_path G) signed_hash (sig st1) /\
  exists st2, verify_call e G st1 = Some (0, Some true, st2) /\ nvm_ok st2 /\ sig st2 = sig st1.
Proof using laws rng_bytes G_ok st_ok.
  intros E. destruct signed_hash_ok as [Hb Hne].
  destruct (sign_ok _ _ _ _ _ rng_bytes Hb Hne st_ok _ _ E) as [_ [[_ Hs]|[[H _]|[H _]]]]; [|discriminate H..].
  split; [exact Hs|]. exact (verify_signed _ _ _ _ _ rng_bytes Hb Hne st_ok _ E).
Qed.

(** Only the seed derivation or the bound on the attempts makes signing fail. *)
Lemma signing_fails st' :
  sign_failed e G st st' ->
  nvm_ok st' /\ (fst (os_derive_bip32 (used_path G)) <> 0 \/ sign_call e G st = Some (ERR_INVALID_SIGNATURE, st')).
Proof using laws rng_bytes G_ok st_ok.
  destruct signed_hash_ok as [Hb Hne]. intros [(err & Herr & E)|(st1 & err & v & E & Ev & Hn)].
  - destruct (sign_ok _ _ _ _ _ rng_bytes Hb Hne st_ok _ _ E) as [Ok [[H _]|[[-> _]|[_ H]]]]; [done| |].
    + split; [exact Ok|right; exact E].
    + split; [exact Ok|left; exact H].
  - destruct (signing_succeeds st1 E) as (_ & st2 & Ev' & _). rewrite Ev' in Ev. injection Ev as <- <- _.
    destruct Hn. done.
Qed.
End signing.

(** ** Preservation *)
Section preservation.
Context {device : SDK} {laws : SDK_laws device} (e : env) (rng_bytes : bytes (cx_rng e)).

Lemma approved_app h h' : approved h -> approved (h ++ h').
Proof.
  intros (w & b & q & t & Hin & ?). exists w, b, q, t. split; [|done]. apply elem_of_app. by left.
Qed.

Lemma inv_command h w w' a :
  Inv h w -> reviewing (screen (ui w)) = false -> command_post w w' -> nvm_ok (work (N_storage w')) ->
  Inv (h ++ [(w, a)]) w'.
Proof using.
  intros [HG Hu Hset Hscr [Hbit Hsend] _] Hrev [HG' Hu' (st & s & EN & Hs) Sw (evs & _ & Hreply)] Hm.
  split; [done|done|by rewrite EN| | |exact Hm].
  - destruct Hreply as [[[E|E] _]|(_ & _ & ?)]; [| |done]; unfold screen_ok in *; rewrite E; [|done].
    destruct (screen (ui w)); try done. rewrite Sw, EN. exact Hscr.
  - rewrite EN. cbn. destruct Hs as [->| ->]; [|by split; [left|]].
    split; [done|]. intros Hone. by apply approved_app, Hsend.
Qed.

Lemma inv_decided h w confirm s st sending r a :
  Inv h w -> nvm_ok st -> is_bit sending -> (sending = 1 -> approved (h ++ [(w, a)])) ->
  Inv (h ++ [(w, a)]) (decided confirm s st sending r w).
Proof using.
  intros [HG Hu Hset Hscr _ _] Hst Hb Ha.
  split; cbn; [by apply wf_set_state|by apply wf_set_screen|done|done|done|exact Hst].
Qed.

Lemma inv_choice h w confirm blind :
  Inv h w -> screen (ui w) = TransactionReview blind ->
  wp (review_choice_transaction e confirm) (fun _ w' => Inv (h ++ [(w, Choose confirm)]) w') w.
Proof.
  intros HI Hscr. destruct (inv_sending _ _ HI) as [Hbit Hsend].
  assert (Hold : is_sending_signature (N_storage w) = 1 -> approved (h ++ [(w, Choose confirm)]))
    by (intros; by apply approved_app, Hsend).
  apply wp_review_choice; intros Hc.
  - intros st1 st2 E1 E2.
    destruct (signing_succeeds e _ _ _ rng_bytes (inv_ctx _ _ HI) (inv_memory _ _ HI) st1 E1) as (_ & st2' & E & Ok & _).
    rewrite E in E2. injection E2 as <-.
    apply inv_decided; [done|by apply wipe_ok|by right|]. intros _. rewrite Hc.
    pose proof (inv_screen _ _ HI) as Hs. unfold screen_ok in Hs. rewrite Hscr in Hs.
    destruct Hs as (q & t & Hs). exists w, blind, q, t. split; [|done]. apply elem_of_app. right. by left.
  - intros st Hf. destruct (signing_fails e _ _ _ rng_bytes (inv_ctx _ _ HI) (inv_memory _ _ HI) st Hf) as [Ok _].
    apply inv_decided; [done|by apply wipe_ok|done|exact Hold].
  - apply inv_decided; [done|apply HI|done|exact Hold].
Qed.

Lemma inv_choice_address h w confirm :
  Inv h w -> wp (review_choice_address e confirm) (fun _ w' => Inv (h ++ [(w, Choose confirm)]) w') w.
Proof.
  intros [HG Hu Hset Hscr [Hbit Hsend] Hmem]. unfold review_choice_address, validate_pubkey.
  assert (Hold : is_sending_signature (N_storage w) = 1 -> approved (h ++ [(w, Choose confirm)]))
    by (intros; by apply approved_app, Hsend).
  destruct confirm; unfold helper_send_response_address; wp;
    (split; cbn; [done|by apply wf_set_screen|done|done|done|exact Hmem]).
Qed.

Lemma lnot_bit x : is_bit (lnot x).
Proof. unfold lnot, is_bit. destruct (x =? 0); auto. Qed.

(** The three switches as the settings page shows them. *)
Lemma switches_split u : wf_ui u -> exists a b c, switches u = [a; b; c].
Proof.
  intros [_ _ _ Hl]. destruct (switches u) as [|a [|b [|c [|]]]]; try done. by exists a, b, c.
Qed.

Lemma inv_control h w token page :
  Inv h w -> screen (ui w) = HomeScreen ->
  wp (controls_callback token page) (fun _ w' => Inv (h ++ [(w, Control token page)]) w') w.
Proof.
  intros [HG Hu Hset Hscr [Hbit Hsend] Hmem] Hhome. unfold screen_ok in Hscr. rewrite Hhome in Hscr.
  assert (Hold : is_sending_signature (N_storage w) = 1 -> approved (h ++ [(w, Control token page)]))
    by (intros; by apply approved_app, Hsend).
  assert (Hu' : wf_ui (set_initSettingPage (u8 page) (ui w))) by (destruct Hu; by split).
  destruct Hset as (He & Hn & Ht). unfold controls_callback, set_switch. wp.
  repeat match goal with |- wp (if ?c then _ else _) _ _ => destruct c end; wp;
    (split; cbn; [done|first [done|apply (wf_set_switch _ _ (set_initSettingPage (u8 page) (ui w))); done]|
      split_and!; first [done|apply lnot_bit]|unfold screen_ok; cbn; rewrite Hhome, Hscr; done|done|exact Hmem]).
Qed.

Lemma wp_menu_main w (Q : () -> world -> Prop) :
  wf_ui (ui w) ->
  (forall u, wf_ui u -> screen u = HomeScreen ->
     switches u = settings_switches (N_storage w) ->
     Q tt (World (G_context w) (N_storage w) u (log w ++ [Screen HomeScreen]))) ->
  wp ui_menu_main Q w.
Proof.
  intros Hu HQ. unfold ui_menu_main, put_switch. wp. apply HQ; [|done|].
  - apply wf_set_screen. repeat apply wf_put_switch. done.
  - destruct (switches_split _ Hu) as (a & b & c & E). cbn. by rewrite E.
Qed.

Lemma inv_dismiss h w :
  Inv h w -> wp ui_menu_main (fun _ w' => Inv (h ++ [(w, Dismiss)]) w') w.
Proof.
  intros [HG Hu Hset Hscr [Hbit Hsend] Hmem]. apply wp_menu_main; [done|]. intros u Wu Su Eu.
  split; cbn; [done|done|done|unfold screen_ok; cbn; by rewrite Su| |exact Hmem].
  split; [done|]. intros; by apply approved_app, Hsend.
Qed.

Lemma wp_app_start w (Q : () -> world -> Prop) :
  wf_ui (ui w) ->
  (forall u, wf_ui u -> screen u = HomeScreen ->
     switches u = settings_switches (N_storage w) ->
     Q tt (World (zero_ctx MAX_BIP32_PATH) (set_work (wipe_nvm_secrets (work (N_storage w))) (N_storage w)) u
       (log w ++ [Screen HomeScreen]))) ->
  wp app_start Q w.
Proof.
  intros Hu HQ. unfold app_start, wipe_secrets. apply wp_bind, wp_crypto. intros [] st [= <-].
  apply wp_bind, wp_menu_main; [done|]. cbn [G_context N_storage ui log]. intros u Wu Su Eu. wp. by apply HQ.
Qed.

Lemma inv_restart h w a :
  is_bit (enable_blind_signing (N_storage w)) /\ is_bit (display_nonce (N_storage w)) /\
    is_bit (display_tx_hash (N_storage w)) ->
  is_bit (is_sending_signature (N_storage w)) /\ (is_sending_signature (N_storage w) = 1 -> approved h) ->
  nvm_ok (work (N_storage w)) ->
  wp app_start (fun _ w' => Inv (h ++ a) w')
    (World (zero_ctx MAX_BIP32_PATH) (N_storage w) zero_ui (log w)).
Proof.
  intros Hset [Hbit Hsend] Hmem. apply wp_app_start; [apply wf_zero_ui|]. intros u Wu Su Eu.
  split; cbn; [apply wf_zero_ctx|done|done|unfold screen_ok; cbn; by rewrite Su| |by apply wipe_ok].
  split; [done|]. intros; by apply approved_app, Hsend.
Qed.

Lemma wp_keeps {A} (m : app A) (Q : A -> world -> Prop) w :
  keeps m -> nvm_ok (work (N_storage w)) -> wp m Q w ->
  wp m (fun a w' => Q a w' /\ nvm_ok (work (N_storage w'))) w.
Proof using.
  intros Hk Hw. unfold wp. destruct (m w) as [a w'| |] eqn:E; [|done..]. intros HQ. split; [exact HQ|]. by apply (Hk w a).
Qed.

(** One step. *)
Lemma inv_step h alive w a :
  Inv h w -> enabled alive w a = true ->
  wp (run e a) (fun _ w' => Inv (h ++ [(w, a)]) w') w.
Proof.
  intros HI Hen. destruct a as [received|confirm|token page| | |]; cbn [run enabled] in *.
  - apply andb_true_iff in Hen as [_ Hrev%negb_true_iff].
    destruct (wp_turn e received w (inv_ctx _ _ HI) (inv_ui _ _ HI) (inv_memory _ _ HI)) as [Hw Hnone].
    destruct received as [apdu|].
    + eapply wp_mono; [exact (wp_keeps _ _ _ (keeps_turn e _) (inv_memory _ _ HI) Hw)|].
      intros b w' [Hp Hm]. apply inv_command; [done|done|by apply Hp|exact Hm].
    + unfold wp. rewrite Hnone by done. destruct HI as [HG Hu Hset Hscr [Hbit Hsend] Hmem].
      split; [done|done|done|done| |exact Hmem]. split; [done|]. intros; by apply approved_app, Hsend.
  - change (wp (_ ← (match screen (ui w) with
      | TransactionReview _ => review_choice_transaction e confirm
      | _ => review_choice_address e confirm end); mret true)
      (fun _ w' => Inv (h ++ [(w, Choose confirm)]) w') w). apply wp_bind.
    eapply wp_mono; [|intros ? w' Hp; wp; exact Hp].
    destruct (screen (ui w)) eqn:E; try (by apply inv_choice_address). by eapply inv_choice.
  - destruct (screen (ui w)) eqn:E; try (by rewrite andb_false_r in Hen).
    apply wp_bind. eapply wp_mono; [by apply inv_control|]. intros [] w' Hp. by wp.
  - apply wp_bind. eapply wp_mono; [by apply inv_dismiss|]. intros [] w' Hp. by wp.
  - unfold app_quit. wp. destruct HI as [HG Hu Hset Hscr [Hbit Hsend] Hmem].
    split; [done|done|done|done| |exact Hmem]. split; [done|]. intros; by apply approved_app, Hsend.
  - change (wp (_ ← app_start; mret true) (fun _ w' => Inv (h ++ [(w, Restart)]) w')
      (World (zero_ctx MAX_BIP32_PATH) (N_storage w) zero_ui (log w))).
    apply wp_bind. eapply wp_mono; [apply (inv_restart h w); [apply HI|apply HI|apply HI]|]. intros [] w' Hp. by wp.
Qed.

End preservation.

Lemma inv_reachable `{SDK_laws} h alive w : reachable h alive w -> Inv h w.
Proof.
  induction 1 as [e b w _ Hr|h b w a e b' w' _ IH Hrng Hen Hr].
  - assert (Hi : wp (run e Restart) (fun _ w' => Inv [] w') installed).
    { change (wp (_ ← app_start; mret true) (fun _ w' => Inv ([] ++ []) w')
        (World (zero_ctx MAX_BIP32_PATH) (N_storage installed) zero_ui (log installed))).
      apply wp_bind. eapply wp_mono; [apply (inv_restart [] installed); cbn; [split_and!; by left| |exact zero_nvm_ok]|].
      { split; [by left|done]. }
      intros [] w' Hp. by wp. }
    by apply (wp_done _ _ _ _ _ Hi Hr).
  - by apply (wp_done _ _ _ _ _ (inv_step e Hrng h b w a IH Hen) Hr).
Qed.
