(* ===== verification/Trace.v ===== *)
(** * A run of the application

    Concrete steps on the instance of [Sdk], from the first start to an open
    review: the path of the first account, then a transaction of the unit tests in
    one command.  The last step derives the key of the path, so it evaluates the
    whole key generation.  The witnesses of the application's properties run on
    these states. *)
From S2P Require Import Prelude CInt Constants Vectors Sdk App Machine.

#[local] Existing Instance sample_sdk.

(** The fuel covers the key of the seed of the instance. *)
Definition sample_env : env := Env 8 (replicate 32 0) 0.

Definition world_of {A} (w : world) (o : outcome A) : world := match o with Done _ w => w | _ => w end.

(** A check of the outcome names the state it ends in. *)
Lemma run_result (P : world -> bool) (o : outcome bool) w :
  match o with Done true w' => P w' | _ => false end = true ->
  o = Done true (world_of w o) /\ P (world_of w o) = true.
Proof. by destruct o as [[|] w'| |]. Qed.

Lemma sample_rng_bytes : bytes (cx_rng sample_env).
Proof. by apply bytesb_bytes. Qed.

(** The state after the first start. *)
Definition started : world := world_of installed (run sample_env Restart installed).
Lemma started_run : run sample_env Restart installed = Done true started.
Proof. by vm_compute. Qed.
Lemma started_reachable : reachable [] true started.
Proof. exact (reach_start sample_env true started sample_rng_bytes started_run). Qed.

(** The bytes of a command. *)
Definition apdu (i a b : Z) (d : list Z) : list Z := [0xE0; i; a; b; Z.of_nat (length d)] ++ d.

(** The path m/44'/coin'/0'/0/0, and the first command of a transaction. *)
Definition path_bytes (coin : Z) : list Z :=
  [5; 0x80; 0; 0; 44; 0x80; 0; 0; coin; 0x80; 0; 0; 0; 0; 0; 0; 0; 0; 0; 0; 0].
Definition first_apdu : list Z := apdu 6 0 0 (path_bytes 238).
Definition path_received : world := world_of started (run sample_env (Receive (Some first_apdu)) started).
Lemma path_received_run : run sample_env (Receive (Some first_apdu)) started = Done true path_received.
Proof. by vm_compute. Qed.

Definition path_history : list (world * action) := [] ++ [(started, Receive (Some first_apdu))].
Lemma path_received_reachable : reachable path_history true path_received.
Proof.
  refine (reach_step _ _ _ _ _ _ _ started_reachable sample_rng_bytes _ path_received_run).
  by vm_compute.
Qed.

(** The transaction and its review. *)
Definition last_apdu : list Z := apdu 6 2 0 VALID_64B_TO.
Definition is_review (w : world) : bool :=
  match screen (ui w) with TransactionReview blind => negb blind | _ => false end.

Definition review_outcome : outcome bool :=
  run sample_env (Receive (Some last_apdu)) path_received.
(** Conversion unfolds this name before what it stands for. *)
#[local] Strategy expand [review_outcome].
Lemma review_outcome_run :
  run sample_env (Receive (Some last_apdu)) path_received = review_outcome.
Proof. reflexivity. Qed.

Lemma last_apdu_opens_review :
  match review_outcome with Done true w' => is_review w' | _ => false end = true.
Proof. vm_cast_no_check (eq_refl true). Qed.
#[global] Opaque review_outcome.

Definition review_world : world := world_of path_received review_outcome.
Definition review_history : list (world * action) :=
  path_history ++ [(path_received, Receive (Some last_apdu))].

Lemma review_run :
  review_outcome = Done true review_world /\ is_review review_world = true.
Proof. exact (run_result is_review review_outcome path_received last_apdu_opens_review). Qed.
#[global] Opaque review_world.

Lemma review_screen : screen (ui review_world) = TransactionReview false.
Proof.
  destruct review_run as [_ H]. unfold is_review in H.
  by destruct (screen (ui review_world)) as [| | | | |[|]].
Qed.

Lemma review_reachable : reachable review_history true review_world.
Proof.
  refine (reach_step _ _ _ _ _ _ _ path_received_reachable sample_rng_bytes _
    (eq_trans review_outcome_run (proj1 review_run))).
  by vm_compute.
Qed.
