(* ===== verification/AppThms.v ===== *)
(** * Properties of the application

    Consent: what a review shows, that a signature leaves the device only after an
    approval and only verified.  Protocol: one reply per command, refused commands,
    the transfer of transactions, signatures and keys in chunks.  Settings.  The
    last theorems state where the code departs from its documentation. *)
From Stdlib Require Import String.
From S2P Require Import Prelude CInt Constants Rlp RlpSpec RlpBuffer TxFormat Keccak KeccakSpec Sponge Address Poly Sign KeyGen Verify Sdk App Memory AppLogic Review Machine Invariant Trace.

#[local] Opaque pk_address derived KECCAK256 checksummed preimage describes.
#[local] Opaque crypto_sign_optimized crypto_verify_optimized wipe_nvm_secrets.

#[local] Existing Instance sample_sdk.



(** ** Signatures *)
Section replies.
Context `{SDK_laws} (e : env).

(** Every reply of a step satisfies [P]. *)
Definition replies (P : list Z * Z -> Prop) (w w' : world) : Prop :=
  exists evs, log w' = log w ++ evs /\ Forall P (responses evs).
Definition no_data (r : list Z * Z) : Prop := fst r = [].

Lemma reply_one P w G N' u r : P (fst r, snd r) ->
  replies P w (World G N' u (log w ++ [Response (fst r) (snd r)])).
Proof. intros HP. eexists. split; [reflexivity|]. by repeat constructor. Qed.

Lemma display_replies w w1 w' blind q :
  log w1 = log w -> display_failed w1 w' \/ consent e blind q w1 w' -> replies no_data w w'.
Proof.
  intros El [[_ (evs & E & Hev)]|[_ _ _ _ (evs & E & Hev)]]; rewrite El in E.
  - eexists. split; [exact E|]. rewrite responses_app, (screens_silent _ Hev). by repeat constructor.
  - exists evs. split; [exact E|]. by rewrite (screens_silent _ Hev).
Qed.

Lemma last_chunk_replies G1 w :
  wf_ctx MAX_BIP32_PATH G1 -> req_type G1 = CONFIRM_TRANSACTION -> wf_ui (ui w) ->
  wp (last_chunk e) (fun _ w' => replies no_data w w') (World G1 (N_storage w) (ui w) (log w)).
Proof.
  intros HG Hreq Hu. unfold last_chunk. wp. cbv zeta.
  cbn [set_state tx_info]. rewrite (hash_received MAX_BIP32_PATH) by done.
  fold (parsed_ctx G1). pose proof (wf_parsed _ _ HG) as HP.
  assert (Hs : forall sw, wp (io_send_sw e sw) (fun _ w' => replies no_data w w')
    (World (parsed_ctx G1) (N_storage w) (ui w) (log w))).
  { intros sw. wp. by apply (reply_one _ _ _ _ _ ([], u16 sw)). }
  destruct (decode_received _ G1 HG) as [(q & t & Hp & Hq & ->)|[tx ->]]; cbn [Z.eqb negb]; [|by apply Hs].
  wp. destruct (_ && _); [by apply Hs|].
  eapply wp_mono; [by apply (wp_display _ _ q _ MAX_BIP32_PATH)|]. cbn beta. intros r w' [_ Hc].
  eapply display_replies; [|destruct Hc as [Hc|[_ Hc]]; [by left|right; exact Hc]]. done.
Qed.

(** The data of a reply to a signing command are a chunk of the stored
    signature, sent while the transfer flag is set. *)
Lemma sign_tx_replies d p1 p2 w :
  wf_ctx MAX_BIP32_PATH (G_context w) -> wf_ui (ui w) -> chunk_bytes d ->
  wp (handler_sign_tx e (Buffer d (length (default [] d)) 0) p1 p2) (fun _ w' =>
    replies (fun r => no_data r \/ (p1 = 2 /\ 0 < p2 < 18 /\ is_sending_signature (N_storage w) <> 0)) w w') w.
Proof.
  intros HG Hu Hd. unfold handler_sign_tx.
  assert (Hw : forall m, wp m (fun _ w' => replies no_data w w') w ->
    wp m (fun _ : Z => replies (fun r => no_data r \/
      (p1 = 2 /\ 0 < p2 < 18 /\ is_sending_signature (N_storage w) <> 0)) w) w).
  { intros m Hm. eapply wp_mono; [exact Hm|]. intros _ w' (evs & E & Hf). exists evs. split; [done|].
    eapply Forall_impl; [|exact Hf]. auto. }
  assert (Hs : forall G sw, wp (io_send_sw e sw) (fun _ w' => replies no_data w w')
    (World G (N_storage w) (ui w) (log w))).
  { intros G sw. wp. by apply (reply_one _ _ _ _ _ ([], u16 sw)). }
  assert (Hs0 : forall sw, wp (io_send_sw e sw) (fun _ w' => replies no_data w w') w).
  { intros sw. destruct w. apply (Hs _ sw). }
  destruct (p1 =? 0); [apply Hw|destruct (p1 =? 1); [apply Hw|destruct ((p1 =? 2) && (p2 =? 0)); [apply Hw|]]].
  - wp. apply wp_read_path. cbn [G_context N_storage ui log]. intros ok len path Hl.
    destruct ok; cbn [negb]; [|by apply Hs]. wp. destruct (negb _); by apply Hs.
  - apply wp_bind, wp_append; [done|done|done|]. intros G' _ _ _. by apply Hs.
  - apply wp_bind, wp_append; [done|done|done|]. intros G' Hreq HG' EG'.
    apply last_chunk_replies; [done| |done]. by rewrite EG'.
  - destruct ((p1 =? 2) && (0 <? p2) && (p2 <? 18)) eqn:Hp; [|by apply Hw].
    wp. destruct (negb (bool_decide _)); [by apply Hw|]. wp.
    destruct (Z.eqb_spec (is_sending_signature (N_storage w)) 0) as [|Hsend]; cbn [negb]; [by apply Hw|].
    unfold helper_send_response_sig. wp. cbv zeta.
    destruct (_ <? 17)%nat; wp; destruct (_ =? 0)%nat; wp; try destruct (_ =? 17)%nat; wp;
      (eexists; split; [reflexivity|]; constructor; [right; lia|done]).
Qed.
End replies.

Section dispatch.
Context `{SDK_laws} (e : env).

Lemma command_chunk cmd : command_ok cmd ->
  lc cmd = length (default [] (data cmd)) /\ chunk_bytes (data cmd).
Proof.
  intros (_ & _ & _ & _ & Hd). unfold chunk_bytes.
  destruct (data cmd); cbn; [tauto|split; [done|constructor]].
Qed.

(** A step that receives a command runs the dispatcher. *)
Lemma run_command bs cmd w b w' :
  apdu_parser bs = Some cmd -> run e (Receive (Some bs)) w = Done b w' ->
  exists ret, apdu_dispatcher e cmd w = Done ret w' /\ b = negb (ret <? 0).
Proof.
  intros Hp Hrun. cbn [run] in Hrun. unfold app_turn in Hrun. rewrite Hp in Hrun.
  unfold mbind, app_bind in Hrun. destruct (apdu_dispatcher e cmd w) as [ret w1| |]; try done.
  injection Hrun as <- <-. by exists ret.
Qed.

Lemma dispatch_sign_tx cmd w :
  command_ok cmd -> ins cmd = SIGN_TX -> wf_ctx MAX_BIP32_PATH (G_context w) -> wf_ui (ui w) ->
  wp (apdu_dispatcher e cmd) (fun _ w' => replies (fun r => no_data r \/
    (p1 cmd = 2 /\ 0 < p2 cmd < 18 /\ is_sending_signature (N_storage w) <> 0)) w w') w.
Proof.
  intros Hok Hi HG Hu. destruct (command_chunk cmd Hok) as [Hlc Hb].
  assert (Hs : forall sw, wp (io_send_sw e sw) (fun _ w' => replies (fun r => no_data r \/
    (p1 cmd = 2 /\ 0 < p2 cmd < 18 /\ is_sending_signature (N_storage w) <> 0)) w w') w).
  { intros sw. wp. apply (reply_one _ _ _ _ _ ([], u16 sw)). by left. }
  unfold apdu_dispatcher. rewrite Hi. cbn [Z.eqb Pos.eqb SIGN_TX GET_VERSION GET_APP_NAME GET_PUBLIC_KEY].
  destruct (negb _); [apply Hs|]. destruct (_ || _); [apply Hs|]. destruct (_ && _); [apply Hs|].
  rewrite Hlc. by apply sign_tx_replies.
Qed.
End dispatch.

(** C6. A reply to a signing command carries data only for a chunk request of a
    transfer that an approval has opened: in one of the earlier steps the user
    accepted a transaction review, which showed the transaction it stood for. *)
Theorem signature_needs_approval `{SDK_laws} h alive w e bs cmd b w' evs :
  reachable h alive w -> enabled alive w (Receive (Some bs)) = true ->
  apdu_parser bs = Some cmd -> ins cmd = SIGN_TX -> run e (Receive (Some bs)) w = Done b w' ->
  log w' = log w ++ evs ->
  forall r, r ∈ responses evs ->
    fst r = [] \/ (p1 cmd = DATA_LAST /\ 1 <= p2 cmd <= 17 /\ approved h).
Proof.
  intros Hr Hen Hp Hi Hrun Elog r Hin. destruct (inv_reachable _ _ _ Hr) as [HG Hu _ _ [Hbit Hsend] _].
  destruct (run_command e bs cmd w b w' Hp Hrun) as (ret & E & _).
  destruct (wp_done _ _ _ _ _ (dispatch_sign_tx e cmd w (apdu_parser_ok _ _ Hp) Hi HG Hu) E)
    as (evs' & E' & Hf).
  rewrite Elog in E'. apply app_inv_head in E'. subst evs'. rewrite list.Forall_forall in Hf.
  destruct (Hf r Hin) as [Hn|(Hp1 & Hp2 & Hs)]; [by left|right].
  split; [done|]. split; [lia|]. apply Hsend. by destruct Hbit.
Qed.

Lemma signature_needs_approval_witness :
  let cmd := default (Command 0 0 0 0 0 None) (apdu_parser first_apdu) in
  fst ([] : list Z, SW_OK) = [] \/ (p1 cmd = DATA_LAST /\ 1 <= p2 cmd <= 17 /\ approved []).
Proof.
  intros cmd. apply (signature_needs_approval [] true started sample_env first_apdu cmd true path_received
    [Response [] SW_OK] started_reachable); try (by vm_compute).
  by left.
Defined.

(** C10. The decision on a transaction has one of three outcomes, each with one
    reply: refused, nothing is signed; accepted, and the first chunk of a
    signature is sent that verified for the hash in the context with the key of
    the request; accepted, and signing or verification failed.  In the last two
    the working secrets have been erased, and the status page is that of a signed
    transaction: it depends on the decision and not on its outcome. *)
Theorem decision_outcome `{SDK_laws} e confirm blind w b w' :
  screen (ui w) = TransactionReview blind -> run e (Choose confirm) w = Done b w' ->
  if confirm then
    (exists st1 st2, sign_call e (G_context w) (work (N_storage w)) = Some (0, st1) /\
       verify_call e (G_context w) st1 = Some (0, Some true, st2) /\
       let st := wipe_nvm_secrets st2 in
       w' = decided true STATE_APPROVED st 1
         (copy_chunk (sig st) 0 SIGNATURE_CHUNK_SIZE SIGNATURE_CHUNK_SIZE
            (replicate SIGNATURE_CHUNK_SIZE 0), SW_OK) w) \/
    (exists st, w' = decided true STATE_NONE (wipe_nvm_secrets st)
       (is_sending_signature (N_storage w)) ([], SW_SIGNATURE_FAIL) w)
  else w' = decided false STATE_NONE (work (N_storage w)) (is_sending_signature (N_storage w))
         ([], SW_DENY) w.
Proof.
  intros Hs Hrun. cbn [run] in Hrun. rewrite Hs in Hrun. unfold mbind, app_bind in Hrun.
  destruct (review_choice_transaction e confirm w) as [u w1| |] eqn:E; try done.
  injection Hrun as _ ->.
  eapply (wp_done _ (fun _ w' => if confirm then _ else _) w u w'); [|exact E].
  apply wp_review_choice; intros ->.
  - intros st1 st2 H1 H2. left. by exists st1, st2.
  - intros st _. right. by exists st.
  - done.
Qed.

(** A review by hand, and the user's refusal. *)
Definition reviewing_world : world :=
  World (set_state STATE_PARSED (set_req_type CONFIRM_TRANSACTION (zero_ctx 10))) zero_storage
    (set_screen (TransactionReview false) zero_ui) [].
Lemma decision_outcome_witness :
  world_of installed (run sample_env (Choose false) reviewing_world) =
  decided false STATE_NONE (work (N_storage reviewing_world)) 0 ([], SW_DENY) reviewing_world.
Proof.
  exact (decision_outcome sample_env false false reviewing_world true _ eq_refl eq_refl).
Defined.

(** ** Transfers in chunks *)
Section transfers.
Context `{SDK} (e : env).

(** The requests for the chunks [ids], one after the other. *)
Fixpoint request_all (send : nat -> app Z) (ids : list nat) : app () :=
  match ids with [] => mret tt | i :: ids => _ ← send i; request_all send ids end.

Definition slice (src : list Z) (size i : nat) : list Z := take size (drop (i * size) src).

Lemma slices_concat (src : list Z) size n : (0 < size)%nat ->
  concat (map (slice src size) (seq 0 n)) = take (n * size) src.
Proof.
  intros Hs. induction n as [|n IH]; [done|]. rewrite seq_S, map_app, concat_app, IH.
  cbn [map concat Nat.add]. rewrite app_nil_r. unfold slice.
  replace (Datatypes.S n * size)%nat with (n * size + size)%nat by lia. by rewrite take_take_drop.
Qed.

(** What the replies to the requests add to the log. *)
Definition sent (src : list Z) (size : nat) (ids : list nat) : list event :=
  map (fun i => Response (slice src size i) SW_OK) ids.
Lemma sent_data src size ids :
  concat (map fst (responses (sent src size ids))) = concat (map (slice src size) ids).
Proof. induction ids as [|i ids IH]; [done|]. cbn. by rewrite <- IH. Qed.
Lemma sent_ok src size ids : Forall (fun r => snd r = SW_OK) (responses (sent src size ids)).
Proof. induction ids as [|i ids IH]; [done|]. cbn. by constructor. Qed.

Lemma request_all_run (send : nat -> app Z) src size (P : internal_storage_t -> Prop) upd bound ids w :
  (forall i w, (i <= bound)%nat -> P (N_storage w) -> P (upd i (N_storage w)) /\
     send i w = Done 0 (World (G_context w) (upd i (N_storage w)) (ui w)
                  (log w ++ [Response (slice src size i) SW_OK]))) ->
  Forall (fun i => (i <= bound)%nat) ids -> P (N_storage w) ->
  request_all send ids w = Done tt (World (G_context w)
    (fold_left (fun N i => upd i N) ids (N_storage w)) (ui w) (log w ++ sent src size ids)).
Proof.
  intros Hsend. revert w. induction ids as [|i ids IH]; intros w Hb HP.
  - cbn. rewrite app_nil_r. by destruct w.
  - apply Forall_cons_1 in Hb as [Hi Hb]. destruct (Hsend i w Hi HP) as [HP' E].
    cbn [request_all]. unfold mbind, app_bind. rewrite E. rewrite IH by done.
    cbn [G_context N_storage ui log fold_left]. by rewrite <- app_assoc.
Qed.

(** The flag of a transfer: set by the first chunk, cleared by the last. *)
Definition transfer_flag (i : nat) (N : internal_storage_t) : internal_storage_t :=
  if (i =? 0)%nat then set_is_sending_signature 1 N
  else if (i =? 17)%nat then set_is_sending_signature 0 N else N.

Lemma send_sig_run sg i w :
  length sg = CRYPTO_BYTES -> (i <= 17)%nat -> sig (work (N_storage w)) = sg ->
  sig (work (transfer_flag i (N_storage w))) = sg /\
  helper_send_response_sig e i w =
    Done 0 (World (G_context w) (transfer_flag i (N_storage w)) (ui w)
      (log w ++ [Response (slice sg SIGNATURE_CHUNK_SIZE i) SW_OK])).
Proof.
  intros Hl Hi Hsg. unfold CRYPTO_BYTES, CTILDE_BYTES, L, POLY_Z_PACKED_BYTES, POLY_VEC_H_PACKED_BYTES, OMEGA, K in Hl.
  split; [by unfold transfer_flag; repeat destruct (_ =? _)%nat|].
  unfold helper_send_response_sig, storage, mbind, app_bind. rewrite Hsg. cbv zeta.
  destruct (Nat.ltb_spec i 17) as [Hlt|Hge].
  - rewrite copy_chunk_slice by (unfold SIGNATURE_CHUNK_SIZE; lia). fold (slice sg SIGNATURE_CHUNK_SIZE i).
    unfold transfer_flag. by destruct (i =? 0)%nat, (i =? 17)%nat.
  - assert (i = 17)%nat as -> by lia.
    rewrite copy_chunk_slice by (unfold SIGNATURE_CHUNK_SIZE, SIGNATURE_LAST_CHUNK_SIZE; lia).
    replace (take SIGNATURE_LAST_CHUNK_SIZE (drop (17 * SIGNATURE_CHUNK_SIZE) sg))
      with (slice sg SIGNATURE_CHUNK_SIZE 17); [done|]. unfold slice.
    rewrite !take_ge by (rewrite length_drop; unfold SIGNATURE_CHUNK_SIZE, SIGNATURE_LAST_CHUNK_SIZE; lia). done.
Qed.

Lemma send_pk_run p i w :
  length p = CRYPTO_PUBLIC_KEY_BYTES -> (i <= 10)%nat -> pk (work (N_storage w)) = p ->
  pk (work (N_storage w)) = p /\
  helper_send_response_pk_chunk e i w =
    Done 0 (World (G_context w) (N_storage w) (ui w) (log w ++ [Response (slice p PK_CHUNK_SIZE i) SW_OK])).
Proof.
  intros Hl Hi Hp. unfold CRYPTO_PUBLIC_KEY_BYTES, SEED_BYTES, K, POLY_T1_PACKED_BYTES in Hl.
  split; [done|]. unfold helper_send_response_pk_chunk.
  rewrite (proj2 (Nat.leb_gt _ _)) by (unfold PK_CHUNKS; lia).
  unfold storage, mbind, app_bind. rewrite Hp. cbv zeta.
  set (n := if (i <? PK_CHUNKS - 1)%nat then PK_CHUNK_SIZE else PK_LAST_CHUNK_SIZE).
  assert (Hn : (n <= PK_CHUNK_SIZE)%nat /\ (i * PK_CHUNK_SIZE + n <= length p)%nat /\
    (n = PK_CHUNK_SIZE \/ (i * PK_CHUNK_SIZE + n = length p)%nat)).
  { unfold n, PK_CHUNKS, PK_CHUNK_SIZE, PK_LAST_CHUNK_SIZE. destruct (Nat.ltb_spec i (11 - 1)); lia. }
  destruct Hn as (Hn & Hfit & Hend).
  assert (E : take n (copy_chunk p i PK_CHUNK_SIZE n (replicate PK_CHUNK_SIZE 0)) = slice p PK_CHUNK_SIZE i).
  { unfold copy_chunk. rewrite for_write_table by (by rewrite length_replicate). unfold written, slice.
    rewrite take_app_length' by (by rewrite length_map, length_seq).
    transitivity (take n (drop (i * PK_CHUNK_SIZE) p)).
    - rewrite <- map_seq_slice by done. apply map_ext. intros k. f_equal. lia.
    - destruct Hend as [->|Hend]; [done|]. by rewrite !take_ge by (rewrite length_drop; lia). }
  rewrite E. done.
Qed.
End transfers.



(** ** Transactions in chunks *)
Section chunks.
Context `{SDK_laws} (e : env).

(** One more chunk of a transaction. *)
Definition more (d : list Z) : app Z := handler_sign_tx e (Buffer (Some d) (length d) 0) 1 0.

Lemma more_run n d w : wf_ctx n (G_context w) ->
  more d w =
    let G := G_context w in
    if decide (req_type G <> CONFIRM_TRANSACTION) then
      Done (io_ret e) (World G (N_storage w) (ui w) (log w ++ [Response [] SW_BAD_STATE]))
    else if decide (MAX_TRANSACTION_LEN < raw_tx_len (tx_info G) + length d)%nat then
      Done (io_ret e) (World G (N_storage w) (ui w) (log w ++ [Response [] SW_WRONG_TX_LENGTH]))
    else Done (io_ret e) (World (appended d G) (N_storage w) (ui w) (log w ++ [Response [] SW_OK])).
Proof.
  intros HG. unfold more, handler_sign_tx. cbn [Z.eqb Pos.eqb]. unfold mbind, app_bind.
  pose proof (append_chunk_run n (Some d) w HG) as E. cbv zeta in E. cbv zeta.
  change (default [] (Some d)) with d in E. rewrite E. by repeat case_decide.
Qed.

Fixpoint send_chunks (ds : list (list Z)) : app () :=
  match ds with [] => mret tt | d :: ds => _ ← more d; send_chunks ds end.
End chunks.

(** C17. The chunks of a transaction are put together in order, each answered with
    success, as long as they fit the buffer of 510 bytes; the first chunk that does
    not fit is refused and leaves the bytes received as they were. *)
Theorem chunks_assemble `{SDK_laws} (e : env) n (ds : list (list Z)) (d : list Z) w :
  wf_ctx n (G_context w) -> req_type (G_context w) = CONFIRM_TRANSACTION ->
  Forall (fun d => bytes d) ds ->
  (raw_tx_len (tx_info (G_context w)) + length (concat ds) <= MAX_TRANSACTION_LEN)%nat ->
  exists G, send_chunks e ds w = Done tt (World G (N_storage w) (ui w)
      (log w ++ map (fun _ => Response [] SW_OK) ds)) /\
    received_tx G = received_tx (G_context w) ++ concat ds /\
    used_path G = used_path (G_context w) /\ wf_ctx n G /\
    ((MAX_TRANSACTION_LEN < raw_tx_len (tx_info G) + length d)%nat -> forall N u l,
      more e d (World G N u l) = Done (io_ret e) (World G N u (l ++ [Response [] SW_WRONG_TX_LENGTH]))).
Proof.
  revert w. induction ds as [|x ds IH]; intros w HG Hreq Hb Hlen.
  - exists (G_context w). cbn [send_chunks map concat]. rewrite !app_nil_r. split_and!; try done; [by destruct w|].
    intros Hd N u l. rewrite (more_run e n) by done. cbn [G_context N_storage ui log]. cbv zeta.
    rewrite decide_False by (by rewrite Hreq; intros []). by rewrite decide_True by done.
  - apply Forall_cons_1 in Hb as [Hx Hb]. cbn [concat] in Hlen. rewrite length_app in Hlen.
    destruct (wf_appended n x (G_context w) HG Hx ltac:(lia)) as [HG' Hrec].
    destruct (IH (World (appended x (G_context w)) (N_storage w) (ui w) (log w ++ [Response [] SW_OK])))
      as (G & E & Er & Ep & Hw & Hd); [done|done|done|cbn; lia|].
    cbn [G_context N_storage ui log] in *. exists G. split_and!; [|by rewrite Er, Hrec, <- app_assoc|done|done|done].
    cbn [send_chunks]. unfold mbind, app_bind. rewrite (more_run e n) by done. cbv zeta.
    rewrite decide_False by (by rewrite Hreq; intros []). rewrite decide_False by lia.
    rewrite E. cbn [G_context N_storage ui log map]. by rewrite <- app_assoc.
Qed.

Lemma chunks_assemble_witness :
  let w := path_received in
  exists G, send_chunks sample_env [[1; 2]; [3]] w = Done tt (World G (N_storage w) (ui w)
      (log w ++ map (fun _ => Response [] SW_OK) [[1; 2]; [3]])) /\
    received_tx G = received_tx (G_context w) ++ concat [[1; 2]; [3]] /\
    used_path G = used_path (G_context w) /\ wf_ctx 10 G /\
    ((MAX_TRANSACTION_LEN < raw_tx_len (tx_info G) + 255)%nat -> forall N u l,
      more sample_env (replicate 255 7) (World G N u l) =
      Done (io_ret sample_env) (World G N u (l ++ [Response [] SW_WRONG_TX_LENGTH]))).
Proof.
  intros w. apply (chunks_assemble sample_env 10 [[1; 2]; [3]] (replicate 255 7) w); unfold w.
  - split; [|apply Nat.leb_le; by vm_compute| |by vm_compute|];
      (split; [by vm_compute|apply bytesb_bytes; by vm_compute]).
  - by vm_compute.
  - repeat (constructor; try apply bytesb_bytes); by vm_compute.
  - apply Nat.leb_le. by vm_compute.
Defined.

(** ** Refused commands *)

(** The status word of a command that no handler takes. *)
Definition refusal (cmd : command_t) : option Z :=
  if negb (cla cmd =? 0xE0) then Some 0x6E00
  else if (ins cmd =? 3) || (ins cmd =? 4) then
    if (p1 cmd =? 0) && (p2 cmd =? 0) then None else Some 0x6A86
  else if ins cmd =? 5 then
    if (p1 cmd <=? 1) && (p2 cmd <=? 11) then
      if (p2 cmd =? 0) && bool_decide (data cmd = None) then Some 0x6A87 else None
    else Some 0x6A86
  else if ins cmd =? 6 then
    if (p1 cmd <=? 2) && (p2 cmd <=? 17) then
      if (p2 cmd =? 0) && bool_decide (data cmd = None) then Some 0x6A87 else None
    else Some 0x6A86
  else Some 0x6D00.

(** C22. A command of another class, an unknown instruction, parameters out of
    range or missing data are answered with their own status word and change
    nothing else. *)
Theorem refused_commands `{SDK} (e : env) cmd sw w (Hok : command_ok cmd) :
  refusal cmd = Some sw ->
  apdu_dispatcher e cmd w = Done (io_ret e)
    (World (G_context w) (N_storage w) (ui w) (log w ++ [Response [] sw])).
Proof.
  destruct Hok as (_ & _ & Hp1 & Hp2 & _). unfold is_u8 in *.
  unfold refusal, apdu_dispatcher, CLA, GET_VERSION, GET_APP_NAME, GET_PUBLIC_KEY, SIGN_TX,
    DATA_FIRST, DATA_MORE, DATA_LAST. cbv zeta.
  destruct (cla cmd =? 224); cbn [negb]; [|by intros [= <-]].
  destruct (Z.eqb_spec (ins cmd) 3) as [E3|H3]; cbn [orb].
  { destruct (p1 cmd =? 0), (p2 cmd =? 0); cbn [andb negb orb]; by intros [= <-]. }
  destruct (Z.eqb_spec (ins cmd) 4) as [E4|H4]; cbn [orb].
  { destruct (p1 cmd =? 0), (p2 cmd =? 0); cbn [andb negb orb]; by intros [= <-]. }
  destruct (Z.eqb_spec (ins cmd) 5) as [E5|H5].
  { rewrite (Z.ltb_antisym (p1 cmd) 1), (Z.ltb_antisym (p2 cmd) 11).
    destruct (p1 cmd <=? 1), (p2 cmd <=? 11); cbn [andb negb orb]; try (by intros [= <-]).
    destruct (Z.eqb_spec (p2 cmd) 0) as [->|]; cbn [andb Z.ltb Z.compare]; [|done].
    destruct (data cmd); [done|]. by intros [= <-]. }
  destruct (Z.eqb_spec (ins cmd) 6) as [E6|H6]; [|by intros [= <-]].
  replace (negb (p1 cmd =? 0) && negb (p1 cmd =? 1) && negb (p1 cmd =? 2)) with (negb (p1 cmd <=? 2)).
  2:{ destruct (Z.leb_spec (p1 cmd) 2), (Z.eqb_spec (p1 cmd) 0), (Z.eqb_spec (p1 cmd) 1),
        (Z.eqb_spec (p1 cmd) 2); cbn; (done || lia). }
  rewrite (Z.ltb_antisym (p2 cmd) 17).
  destruct (p1 cmd <=? 2), (p2 cmd <=? 17); cbn [andb negb orb]; try (by intros [= <-]).
  rewrite andb_comm. destruct (_ && _); [by intros [= <-]|done].
Qed.

Lemma refused_commands_witness :
  apdu_dispatcher sample_env (Command 0xE0 7 0 0 0 None) started = Done 0
    (World (G_context started) (N_storage started) (ui started) (log started ++ [Response [] 0x6D00])).
Proof.
  apply (refused_commands sample_env (Command 0xE0 7 0 0 0 None) 0x6D00 started); [|reflexivity].
  repeat split; by vm_compute.
Defined.

(** ** Settings *)
Section settings.
Context `{SDK}.

(** The stored settings after the switch [token] has been flipped. *)
Definition flipped (token : Z) (N : internal_storage_t) : internal_storage_t :=
  Storage (work N)
    (if token =? FIRST_USER_TOKEN then 1 - enable_blind_signing N else enable_blind_signing N)
    (if token =? FIRST_USER_TOKEN + 1 then 1 - display_nonce N else display_nonce N)
    (if token =? FIRST_USER_TOKEN + 2 then 1 - display_tx_hash N else display_tx_hash N)
    (initialized N) (is_sending_signature N).

Lemma flipped_twice token N : flipped token (flipped token N) = N.
Proof. destruct N. unfold flipped; cbn. repeat destruct (_ =? _); f_equal; lia. Qed.

Lemma lnot_minus x : is_bit x -> lnot x = 1 - x.
Proof. by intros [->| ->]. Qed.
End settings.

(** C23. On the home screen a control flips exactly its own setting, in the storage
    and on its switch, sends nothing and leaves everything else; flipped twice, a
    setting is what it was. *)
Theorem settings_flip `{SDK_laws} h w e token page :
  reachable h true w -> screen (ui w) = HomeScreen ->
  exists w', run e (Control token page) w = Done true w' /\
    G_context w' = G_context w /\ log w' = log w /\ screen (ui w') = HomeScreen /\
    N_storage w' = flipped token (N_storage w) /\
    switches (ui w') = settings_switches (N_storage w') /\
    flipped token (N_storage w') = N_storage w.
Proof.
  intros Hr Hs. pose proof (inv_reachable _ _ _ Hr) as HI.
  destruct (inv_settings _ _ HI) as (He & Hn & Ht).
  pose proof (inv_step (Env 0 [] 0) (Forall_nil_2 _) h true w (Control token page) HI) as Hstep. cbn [enabled] in Hstep. rewrite Hs in Hstep.
  specialize (Hstep eq_refl).
  assert (Hrun : exists w', run e (Control token page) w = Done true w' /\ G_context w' = G_context w /\
    log w' = log w /\ screen (ui w') = HomeScreen /\ N_storage w' = flipped token (N_storage w)).
  { cbn [run]. unfold controls_callback, mbind, app_bind, upd_ui, storage, set_switch, upd_storage, flipped,
      BLIND_SIGNING_SWITCH_TOKEN, NONCE_SWITCH_TOKEN, TX_HASH_SWITCH_TOKEN.
    cbn [G_context N_storage ui log]. rewrite <- !lnot_minus by done.
    destruct (Z.eqb_spec token FIRST_USER_TOKEN) as [->|H1].
    { rewrite !(proj2 (Z.eqb_neq FIRST_USER_TOKEN _)) by lia. eexists. by split. }
    destruct (Z.eqb_spec token (FIRST_USER_TOKEN + 1)) as [->|H2].
    { rewrite !(proj2 (Z.eqb_neq (FIRST_USER_TOKEN + 1) _)) by lia. eexists. by split. }
    destruct (Z.eqb_spec token (FIRST_USER_TOKEN + 2)) as [->|H3]; eexists; split; try done.
    by destruct w as [G [] u l]. }
  destruct Hrun as (w' & E & EG & EL & ES & EN). exists w'. split_and!; try done.
  - pose proof (inv_screen _ _ (wp_done _ _ _ _ _ Hstep E)) as Hw. unfold screen_ok in Hw. by rewrite ES in Hw.
  - rewrite EN. apply flipped_twice.
Qed.

Lemma settings_flip_witness :
  exists w', run sample_env (Control 20 0) started = Done true w' /\
    G_context w' = G_context started /\ log w' = log started /\ screen (ui w') = HomeScreen /\
    N_storage w' = flipped 20 (N_storage started) /\
    switches (ui w') = settings_switches (N_storage w') /\
    flipped 20 (N_storage w') = N_storage started.
Proof.
  apply (settings_flip [] started sample_env 20 0 started_reachable). by vm_compute.
Defined.

(** ** Protocol *)

(** C16. Every command gets exactly one reply: at once, and then no review is open,
    or by the decision on the review it opened, which closes it. *)
Theorem one_reply_per_command `{SDK_laws} h alive w e a b w' :
  reachable h alive w -> enabled alive w a = true -> run e a w = Done b w' ->
  match a with
  | Receive (Some _) => exists evs, log w' = log w ++ evs /\
      length (responses evs) = (if reviewing (screen (ui w')) then 0%nat else 1%nat)
  | Choose _ => exists evs, log w' = log w ++ evs /\ length (responses evs) = 1%nat /\
      reviewing (screen (ui w')) = false
  | _ => exists evs, log w' = log w ++ evs /\ responses evs = []
  end.
Proof.
  intros Hr Hen Hrun. pose proof (inv_reachable _ _ _ Hr) as HI.
  destruct a as [[bs|]|confirm|token page| | |]; cbn [enabled] in Hen.
  - apply andb_true_iff in Hen as [_ Hrev%negb_true_iff].
    destruct (wp_turn e (Some bs) w (inv_ctx _ _ HI) (inv_ui _ _ HI) (inv_memory _ _ HI)) as [Hw _].
    destruct (cp_reply _ _ (wp_done _ _ _ _ _ Hw Hrun ltac:(done))) as (evs & El & Hc).
    exists evs. split; [done|]. destruct Hc as [[[Es|Es] [r ->]]|(-> & -> & _)]; [| |done]; rewrite Es; [by rewrite Hrev|done].
  - exists []. injection Hrun as _ <-. by rewrite app_nil_r.
  - cbn [run] in Hrun. unfold mbind, app_bind in Hrun.
    assert (Hw : wp (match screen (ui w) with
        | TransactionReview _ => review_choice_transaction e confirm | _ => review_choice_address e confirm end)
      (fun _ w' => exists evs, log w' = log w ++ evs /\ length (responses evs) = 1%nat /\
        reviewing (screen (ui w')) = false) w).
    { destruct (screen (ui w)); try (unfold review_choice_address, validate_pubkey, helper_send_response_address;
        destruct confirm; wp; eexists; rewrite <- app_assoc; done).
      apply wp_review_choice; intros; eexists; done. }
    destruct (_ w) as [u w1| |] eqn:E in Hrun; try done. injection Hrun as _ <-. exact (wp_done _ _ _ _ _ Hw E).
  - cbn [run] in Hrun. unfold controls_callback, mbind, app_bind, upd_ui, storage, set_switch, upd_storage in Hrun.
    exists []. rewrite app_nil_r. split; [|done]. revert Hrun. repeat destruct (_ =? _); by intros [= _ <-].
  - injection Hrun as _ <-. by eexists.
  - injection Hrun as _ <-. exists []. by rewrite app_nil_r.
  - injection Hrun as _ <-. by eexists.
Qed.

Lemma one_reply_per_command_witness :
  exists evs, log path_received = log started ++ evs /\
    length (responses evs) = (if reviewing (screen (ui path_received)) then 0%nat else 1%nat).
Proof.
  exact (one_reply_per_command [] true started sample_env (Receive (Some first_apdu)) true path_received
    started_reachable ltac:(by vm_compute) ltac:(by vm_compute)).
Defined.



(** ** Addresses *)
Section address.
Context `{SDK_laws} (e : env).

Lemma get_public_key_replies cdata w :
  wf_ui (ui w) ->
  wp (handler_get_public_key e cdata true) (fun _ w' => replies no_data w w') w.
Proof.
  intros Hu. unfold handler_get_public_key. wp.
  apply wp_read_path. cbn [G_context N_storage ui log]. intros ok len path Hl.
  set (G1 := set_bip32_path _ _). assert (H1 : wf_ctx MAX_BIP32_PATH G1).
  { apply wf_set_path; [|rewrite Hl; apply length_replicate]. apply wf_set_state, wf_set_req, wf_zero_ctx. }
  assert (R1 : req_type G1 = CONFIRM_ADDRESS /\ state G1 = STATE_NONE) by done. clearbody G1.
  assert (Hs : forall G sw, wp (io_send_sw e sw) (fun _ w' => replies no_data w w')
    (World G (N_storage w) (ui w) (log w))).
  { intros G sw. wp. by apply (reply_one _ _ _ _ _ ([], u16 sw)). }
  destruct ok; cbn [negb]; [|by apply Hs]. wp. destruct (negb _); [by apply Hs|].
  apply wp_bind, wp_address; cbn [G_context N_storage ui log]; [apply H1|apply H1|..].
  - intros st a _ _ Ba La. unfold spinner_world. wp. cbn [Z.eqb negb]. unfold ui_display_address. wp.
    cbn [set_address req_type state address]. rewrite (bool_decide_eq_true_2 _ R1). cbn [negb].
    apply wp_bind, wp_put_address; [done|done|done|by apply wf_set_screen|]. intros u _. cbn [negb]. wp.
    eexists. rewrite <- app_assoc. split; [reflexivity|constructor].
  - intros err _ Hne. wp. rewrite (proj2 (Z.eqb_neq _ _)) by done. apply Hs.
  - intros st. unfold spinner_world. wp. rewrite (proj2 (Z.eqb_neq _ _)) by apply internal_error.
    cbn [negb]. wp. eexists. rewrite <- app_assoc. split; [reflexivity|by repeat constructor].
Qed.

Lemma address_reply (a : list Z) : length a = ADDRESS_SIZE ->
  take (0 + 1 + ADDRESS_SIZE)
    (blit (<[0%nat:=ZOND_ADDRESS_PREFIX]> (replicate (1 + ADDRESS_SIZE) 0)) (0 + 1) (take ADDRESS_SIZE a))
  = ZOND_ADDRESS_PREFIX :: a.
Proof.
  intros Hl. unfold ADDRESS_SIZE in *. rewrite (take_ge a) by lia. unfold blit.
  rewrite (drop_ge (<[_:=_]> _)) by (rewrite length_insert, length_replicate; lia). rewrite app_nil_r.
  change (take (0 + 1) (<[0%nat:=ZOND_ADDRESS_PREFIX]> (replicate (1 + 64) 0))) with [ZOND_ADDRESS_PREFIX].
  apply take_ge. cbn [app length]. lia.
Qed.
End address.

Definition address_status (confirm : bool) : status_t :=
  if confirm then STATUS_TYPE_ADDRESS_VERIFIED else STATUS_TYPE_ADDRESS_REJECTED.


Definition address_apdu : list Z := apdu 5 1 0 (path_bytes 60).
Definition address_refused : world := world_of started (run sample_env (Receive (Some address_apdu)) started).
Definition address_world : world :=
  World (zero_ctx 10) zero_storage (set_screen AddressReview zero_ui) [].

(** ** Departures *)


(** C38. A failed signing does not end an open transfer: the flag stays set, and
    the chunk requests that follow are answered from the signature buffer,
    whatever the failed attempt has left there. *)
Theorem failed_signing_keeps_transfer `{SDK} e w b w' i :
  is_sending_signature (N_storage w) = 1 -> req_type (G_context w) = CONFIRM_TRANSACTION ->
  run e (Choose true) w = Done b w' ->
  log w' = log w ++ [Screen (SpinnerScreen "Signing"); Response [] SW_SIGNATURE_FAIL;
    Screen (StatusScreen STATUS_TYPE_TRANSACTION_SIGNED)] ->
  screen (ui w) = TransactionReview false -> 0 < i < 17 ->
  exists w'', handler_sign_tx e (Buffer None 0 0) 2 i w' = Done 0 w'' /\
    log w'' = log w' ++ [Response (copy_chunk (sig (work (N_storage w'))) (Z.to_nat i)
      SIGNATURE_CHUNK_SIZE SIGNATURE_CHUNK_SIZE (replicate SIGNATURE_CHUNK_SIZE 0)) SW_OK].
Proof.
  intros Hsend Hreq Hrun Hlog Hs Hi.
  assert (Hw : wp (review_choice_transaction e true) (fun _ w' => req_type (G_context w') = CONFIRM_TRANSACTION /\
    is_sending_signature (N_storage w') = 1) w) by (apply wp_review_choice; intros; done).
  cbn [run] in Hrun. rewrite Hs in Hrun. unfold mbind, app_bind in Hrun.
  destruct (review_choice_transaction e true w) as [u w1| |] eqn:E; try done. injection Hrun as _ ->.
  destruct (wp_done _ _ _ _ _ Hw E) as [Hreq' Hsend'].
  unfold handler_sign_tx. rewrite !(proj2 (Z.eqb_neq i 0)), (proj2 (Z.ltb_lt 0 i)), (proj2 (Z.ltb_lt i 18)) by lia.
  cbn [Z.eqb Pos.eqb andb]. unfold ctx, storage, mbind, app_bind. rewrite Hreq'.
  rewrite bool_decide_eq_true_2 by done. cbn [negb]. rewrite Hsend'. cbn [negb Z.eqb Pos.eqb].
  unfold helper_send_response_sig, storage, mbind, app_bind.
  rewrite (proj2 (Nat.ltb_lt (Z.to_nat i) 17)) by lia.
  rewrite (proj2 (Nat.eqb_neq (Z.to_nat i) 0)), (proj2 (Nat.eqb_neq (Z.to_nat i) 17)) by lia.
  eexists. by split.
Qed.

(** A device that derives no key, with an open transfer. *)
Definition broken_sdk : SDK := {|
  sdk_os := {| os_derive_bip32 _ := (1, replicate 64 0) |};
  MAX_BIP32_PATH := 10; CX_INTERNAL_ERROR := 1; FIRST_USER_TOKEN := 20;
  apdu_parser := @apdu_parser sample_sdk; buffer_read_u8 := @buffer_read_u8 sample_sdk;
  buffer_read_bip32_path := @buffer_read_bip32_path sample_sdk; buffer_move := @buffer_move sample_sdk |}.
Definition open_transfer : world :=
  World (G_context reviewing_world) (set_is_sending_signature 1 zero_storage) (ui reviewing_world) [].
Lemma failed_signing_keeps_transfer_witness :
  let w' := world_of open_transfer (@run broken_sdk sample_env (Choose true) open_transfer) in
  exists w'', @handler_sign_tx broken_sdk sample_env (Buffer None 0 0) 2 3 w' = Done 0 w'' /\
    log w'' = log w' ++ [Response (copy_chunk (sig (work (N_storage w'))) (Z.to_nat 3)
      SIGNATURE_CHUNK_SIZE SIGNATURE_CHUNK_SIZE (replicate SIGNATURE_CHUNK_SIZE 0)) SW_OK].
Proof.
  intros w'. apply (@failed_signing_keeps_transfer broken_sdk sample_env open_transfer true w' 3);
    first [by vm_compute|lia].
Defined.
