(* ===== verification/EndToEnd.v ===== *)
(** * From the screen to the signature

    The application and the signature scheme together: the key whose address a
    review shows, the transaction it shows and the signature that an approval sends. *)
From S2P Require Import Prelude CInt Constants Rlp RlpSpec Keccak KeccakSpec Sponge Address Poly Sign VecOps KeyGen Verify Signing Sdk App Memory AppLogic Review Machine Invariant Trace.

#[local] Opaque pk_address derived KECCAK256 preimage describes.
#[local] Opaque crypto_sign_optimized crypto_verify_optimized wipe_nvm_secrets public_key high rho_of.

Section approval.
Context {device : SDK} {laws : SDK_laws device} (e : env).

(** Only the two calls into [sign.c] can use up the fuel of an approval. *)
Lemma approval_fuel w :
  review_choice_transaction e true w = OutOfFuel ->
  sign_call e (G_context w) (work (N_storage w)) = None \/
  exists st1, sign_call e (G_context w) (work (N_storage w)) = Some (0, st1) /\ verify_call e (G_context w) st1 = None.
Proof using.
  unfold review_choice_transaction, validate_transaction, crypto_sign_message, helper_send_response_sig, io_send_sw,
    io_send_response_pointer, show, wipe_secrets, crypto, ctx,
    storage, upd_ui, upd_ctx, emit, mbind, app_bind, mret, app_ret.
  cbn [G_context N_storage ui log state tx_info bip32_path bip32_path_len set_state].
  change (crypto_sign_optimized _ _ _ _ _) with (sign_call e (G_context w) (work (N_storage w))).
  destruct (sign_call e (G_context w) (work (N_storage w))) as [[err st1]|]; [|by left].
  destruct (Z.eqb_spec err 0) as [->|Hne]; cbn [negb]; [|by intros E].
  change (crypto_verify_optimized _ _ _ _ _) with (verify_call e (G_context w) st1).
  destruct (verify_call e (G_context w) st1) as [[[err v] st2]|] eqn:Ev; [|right; by exists st1].
  destruct (_ || _); by intros E.
Qed.

(** Signing answers unless the fuel is short of the key's or of a challenge's. *)
Lemma sign_fuel n G st fuel0 raw s1 s2 T :
  bytes (cx_rng e) -> wf_ctx n G -> nvm_ok st -> os_derive_bip32 (used_path G) = (0, raw) ->
  expanded_key fuel0 (take 32 raw) s1 s2 T -> sign_call e G st = None ->
  (fuel e < fuel0)%nat \/ exists ms mu, challenge_missing (fuel e) (rho_of (take 32 raw)) ms mu.
Proof using laws.
  intros Hr HG Hst Ho HT E. destruct (decide (fuel e < fuel0)%nat) as [|Hge]; [by left|]. right.
  destruct (signed_hash_ok n G HG) as [Hb Hne].
  pose proof (derive_seed (used_path G)) as Hd. rewrite Ho in Hd. destruct (Hd eq_refl) as [Hl Hraw].
  pose proof (Forall_take _ 32 raw Hraw) as Hs. unfold sign_call in E. fold (signed_hash G) in E.
  rewrite (sign_derived _ _ _ raw _ _ Ho Hl Hne) in E.
  pose proof (sign_seeded_spec (fuel e) (take 32 raw) (cx_rng e) (signed_hash G) st Hs Hr Hb Hst) as Ha.
  rewrite E in Ha. destruct Ha as [Hk|(s1' & s2' & T' & _ & Hc)]; [|eexists _, _; exact Hc].
  destruct Hk. exists s1, s2, T. pose proof (key_more _ (fuel e - fuel0) _ _ _ _ Hs HT) as H.
  by replace (fuel0 + (fuel e - fuel0))%nat with (fuel e) in H by lia.
Qed.

(** The signature of an approval, under the key of the review. *)
Lemma signature_of_key G sg fuel0 raw s1 s2 T :
  os_derive_bip32 (used_path G) = (0, raw) -> expanded_key fuel0 (take 32 raw) s1 s2 T ->
  device_signature (fuel e) (used_path G) (signed_hash G) sg ->
  valid_signature (fuel e) (rho_of (take 32 raw)) (high T) (message_hash (public_key (take 32 raw) T) (signed_hash G)) sg.
Proof using laws.
  intros Ho HT (raw' & s1' & s2' & T' & Ho' & HT' & Hv). rewrite Ho in Ho'. injection Ho' as <-.
  pose proof (derive_seed (used_path G)) as Hd. rewrite Ho in Hd. destruct (Hd eq_refl) as [_ Hraw].
  by rewrite (key_fuel _ _ _ _ _ _ _ _ _ (Forall_take _ 32 raw Hraw) HT HT').
Qed.

(** The two outcomes of an approval. *)
Lemma approval_outcome w :
  bytes (cx_rng e) -> wf_ctx MAX_BIP32_PATH (G_context w) -> nvm_ok (work (N_storage w)) ->
  wp (review_choice_transaction e true) (fun _ w' =>
    (exists st, w' = decided true STATE_APPROVED st 1 (take SIGNATURE_CHUNK_SIZE (sig st), SW_OK) w /\
      device_signature (fuel e) (used_path (G_context w)) (signed_hash (G_context w)) (sig st)) \/
    (exists st st', w' = decided true STATE_NONE st (is_sending_signature (N_storage w))
        ([], SW_SIGNATURE_FAIL) w /\
      (fst (os_derive_bip32 (used_path (G_context w))) <> 0 \/
       sign_call e (G_context w) (work (N_storage w)) = Some (ERR_INVALID_SIGNATURE, st')))) w.
Proof using laws.
  intros Hr HG Hm. apply wp_review_choice; intros Ht; [| |discriminate].
  - intros st1 st2 E1 E2. destruct (signing_succeeds e _ _ _ Hr HG Hm st1 E1) as (Hd & st2' & E & Ok & Es).
    rewrite E in E2. injection E2 as ->. left. exists (wipe_nvm_secrets st2).
    pose proof (sig_ok _ Ok) as Hl. rewrite wipe_sig, Es.
    rewrite copy_chunk_slice; [split; [by rewrite Nat.mul_0_l, drop_0|exact Hd]|].
    rewrite <- Es, Hl. apply Nat.leb_le. vm_compute. reflexivity.
  - intros st Hf. right. destruct (signing_fails e _ _ _ Hr HG Hm st Hf) as [_ H]. by exists (wipe_nvm_secrets st), st.
Qed.
End approval.

(** What an approval of the review open in [w] ends in, for the key of the seed
    [seed] that the fuel [fuel0] reaches: the first chunk of a valid signature, which
    is stored; a refusal after 814 rejected attempts; or a decision that the fuel
    does not cover. *)
Definition approval_end `{SDK} (e : env) (w : world) (seed : list Z) (fuel0 : nat) (T : list Poly)
    (o : outcome bool) : Prop :=
  let G := G_context w in
  match o with
  | Done _ w' =>
    (exists st, w' = decided true STATE_APPROVED st 1 (take SIGNATURE_CHUNK_SIZE (sig st), SW_OK) w /\
      valid_signature (fuel e) (rho_of seed) (high T)
        (message_hash (public_key seed T) (KECCAK256 (received_tx G))) (sig st)) \/
    (exists st st', w' = decided true STATE_NONE st (is_sending_signature (N_storage w))
        ([], SW_SIGNATURE_FAIL) w /\
      sign_call e G (work (N_storage w)) = Some (ERR_INVALID_SIGNATURE, st'))
  | OutOfFuel => (fuel e < fuel0)%nat \/ exists ms mu, challenge_missing (fuel e) (rho_of seed) ms mu
  | Undefined => False
  end.


#[local] Existing Instance sample_sdk.
